(* ===== verification/_CoqProject ===== *)
-Q . S2P
Prelude.v
JsString.v
JsText.v
JsNumber.v
NumberText.v
Rounding.v
Regex.v
JsValue.v
Json.v
JsMath.v
OrderedMap.v
JsObject.v
AuthStore.v
AuthSync.v
AuthSession.v
AuthSessionFacts.v
HttpClient.v
StatusCodeRules.v
RatioSync.v
FlowModel.v
FlowGraph.v
FlowFacts.v
FlowView.v
FlowDashboard.v
FlowSamples.v
Timeline.v
AdvancedCustom.v
AdvancedCustomFacts.v
AdvancedCustomText.v
BillingExpr.v
BillingExprFacts.v
TierExpr.v
TierExprFacts.v
Redirects.v
JsonEditor.v
PricingFormat.v
PricingEditor.v
PricingStore.v
PricingFacts.v
SystemConfig.v
Currency.v
Format.v
CurrencyFacts.v
PricingPage.v
PricingPageFacts.v
PricingDisplay.v
ChannelForm.v
ChannelSchema.v
ChannelFormFacts.v
ChannelReopen.v
ChannelRoundtrip.v
ParamOverrideTables.v
ParamOverride.v
ParamOverrideDialog.v
ParamOverrideFacts.v
ParamOverrideRoundtrip.v
ParamOverrideDialogFacts.v
ParamOverrideIds.v
ParamOverrideEditors.v
JsDate.v
AccountForms.v
AccountFacts.v
NavModules.v
NavFacts.v
ChannelUtils.v
ChannelUtilsFacts.v
