(* ===== verification/Prelude.v ===== *)
(** * FlowAPI web console: a verification library

    FlowAPI is an AI-API gateway: a Go backend and a TypeScript console under
    [src/web/src].  This library models core logic of the console and proves it
    correct.  Definitions are translated from the TypeScript function by
    function and keep its names; all of them compute.

    ** The parts and how they interact

    - Values.  [Prelude] (this file: automation, sums, loops as folds, the stable
      [Array.prototype.sort] and comparisons), [JsString] (strings as UTF-16 code
      units with the methods the code uses), [JsText] (case folding and
      collation), [JsNumber] (binary64 numbers),
      [NumberText] ([Number::toString] and its round trip), [Rounding] (the error
      of binary64 operations), [JsMath] (conversions to numbers, [Math], [toFixed]),
      [Regex] (a
      backtracking matcher for the regular expressions in use), [JsValue] (data
      of type [unknown]), [Json] ([JSON.parse], [JSON.stringify] and their round
      trip), [OrderedMap] (insertion-ordered [Map] and [Set], and the
      accumulate-by-key loop with its sum lemmas), [JsObject] (objects, and the
      JSON texts that hold one), [JsDate] (time values, and the exactness of
      integer products and quotients).
    - Session.  [AuthStore] (stores/auth-store.ts, lib/admin-permissions.ts,
      lib/roles.ts), [AuthSync] (lib/auth-session-sync.ts, the
      channel and the storage transport), [AuthSession]
      (lib/auth-session.ts and the listener of routes/__root.tsx),
      [AuthSessionFacts].  The store is a record, the module state of
      auth-session.ts is [World], and the asynchronous refresh is a coroutine
      whose awaits are the constructors of [RunState]; [sys_step] interleaves it
      with sign-in, sign-out, rotation and events of other tabs, and [reachable]
      is what any interleaving can produce.
    - HTTP.  [HttpClient] (lib/http-client.ts, lib/server-error-message.ts) sits
      on the session: the interceptors read the token, apply rotations, start a
      refresh on a 401 and clear the session when a retry is refused.  One
      request is the state machine [ReqState]; the table of GETs in flight is
      [GetState].
    - Settings.  [StatusCodeRules] (lib/http-status-code-rules.ts), [RatioSync]
      (features/system-settings/models/upstream-ratio-sync-helpers.ts),
      [AdvancedCustom], [AdvancedCustomFacts] and
      [AdvancedCustomText] (features/channels/lib/advanced-custom.ts), [Redirects]
      (channels/lib/model-redirect-rules.ts, model-mapping-validation.ts,
      status-code-risk-guard.ts), [JsonEditor]
      (components/json-code-editor-utils.ts).
    - Channels.  [ChannelForm] (features/channels/lib/channel-form.ts and what
      hooks/use-channel-mutate-form.ts sends): a channel as a form, the two
      settings texts written for it, and the payloads; [ChannelSchema] (the
      schema of the form, media-settings.ts).  [ChannelFormFacts] derives from
      the schema what the code relies on, [ChannelReopen] follows the settings
      from the form into the text and back, [ChannelRoundtrip] joins both texts
      and holds the theorems.  The editor of parameter overrides
      (channels/components/dialogs/param-override-editor-dialog.tsx) has its
      tables and templates in [ParamOverrideTables], its functions in
      [ParamOverride] and the component as a state machine in
      [ParamOverrideDialog]: the [useState] variables are the record [Dialog],
      every callback is a definition, [step] handles one event and the effect
      after it, [reachable] is what any sequence of events produces.
      [ParamOverrideFacts] (validation, dragging), [ParamOverrideRoundtrip] (rules
      written and read), [ParamOverrideDialogFacts] (saving and switching),
      [ParamOverrideIds] (the invariant) and [ParamOverrideEditors] (editors of
      structured values) hold the theorems.  [ChannelUtils], [ChannelUtilsFacts]
      (channels/lib/channel-utils.ts): keys, lists, attention and the table rows
      that aggregate the channels of a tag.
    - Accounts.  [AccountForms] (Modules [Keys], [Redemptions], [Users]:
      features/keys/lib/api-key-form.ts, redemption-codes/lib/redemption-form.ts,
      users/lib/user-form.ts and what their drawers send) and [AccountFacts].
      The forms convert quotas with [Format] and dates with [JsDate]; the user
      form normalises permissions with [AuthStore].
    - Navigation.  [NavModules] (lib/nav-modules.ts, hooks/use-sidebar-config.ts,
      hooks/use-top-nav-links.ts, system-settings/maintenance/config.ts and the
      guards of two routes) and [NavFacts]: four readers of the two texts the
      settings page writes.
    - Prices.  [BillingExpr], [BillingExprFacts], [TierExpr] and [TierExprFacts]
      (features/pricing/lib/billing-expr.ts, tier-expr.ts): billing expressions
      as text, as request rules and as tier tables.  [PricingFormat],
      [PricingEditor], [PricingStore] and [PricingFacts]
      (system-settings/models/pricing-format.ts, model-pricing-core.ts,
      model-pricing-snapshots.ts, the state handlers of model-pricing-sheet.tsx
      and model-ratio-visual-editor.tsx): the price editor and the ten JSON
      option texts it reads and writes.  [PricingPage], [PricingPageFacts]
      (features/pricing/lib/filters.ts, model-helpers.ts, price.ts,
      dynamic-price.ts, hooks/use-pricing-data.ts, use-filters.ts): the public
      price list.  It shares with the editor only the text of the expressions;
      [PricingDisplay] proves that the page shows what the editor wrote.
    - Display.  [SystemConfig] (stores/system-config-store.ts,
      hooks/use-system-config.ts), [Currency] (lib/currency.ts), [Format]
      (lib/format.ts) and [CurrencyFacts]: the store is loaded from the status
      answer, and every price and quota is formatted by the currency it holds.
    - Dashboards.  [FlowModel], [FlowGraph], [FlowFacts], [FlowView],
      [FlowDashboard], [FlowSamples] (features/dashboard/lib/flow.ts,
      flow-selection.ts, the colour helper of charts.ts), [Timeline]
      (features/group-monitoring/lib/timeline.ts).

    ** What the theorems show

    - Session: a refresh always settles and never undoes what the user did in the
      meantime; the store is coherent in every reachable state; the outcome of a
      refresh describes the state it leaves; rotations, bootstrap, headers and
      events of other tabs do what they promise.
    - HTTP: every request settles and is sent at most twice; a refused retry ends
      the session; concurrent equal GETs share a request and never cross
      sessions.
    - Status code rules: the parser accepts exactly the valid inputs, the ranges
      mean the tokens, the normal form is canonical and parses back.
    - Ratio synchronisation: no model has a fixed price next to token prices, last selection wins,
      removals are exact, the preview agrees with the application.
    - Billing expressions: rules survive being written to text and read back, with
      any value whose parentheses match, except that one comparison of a request
      parameter makes all of them unreadable; a tier table is read back as it was
      written, without the conditions of its last tier; a condition that was
      normalised is well formed.
    - Price editor: what is saved is what is read back, the text lanes stay in
      step, saving without an edit changes nothing, deletion is exact, and the
      edits the code loses are stated as such.
    - Pricing page: the models shown are those that match, in the chosen order;
      the tags offered are those in use; the ratio shown is the best one; the
      filter state refines plain assignment; tiers, conditions and prices are
      those of the editor.
    - Display: a quota that is shown and typed back is the same quota, whatever
      the exchange rate; no nonzero amount is shown as zero; counters print as
      integers; the status answer becomes the configuration.
    - Redirects: validation is exact, accepted rules form a function without
      duplicates, only new redirects are reported.
    - Channel forms: for every form the schema accepts, the saved channel shows
      the same settings again, saving it unchanged writes the same two texts,
      settings the form does not know survive, and without the permission no
      field the backend guards is sent but the cost ratio.
    - Parameter overrides: validation decides a specification per mode; what is
      saved is shown again and saved again unchanged, also through the text
      view, for values that survive being read again; ids stay distinct and the selection valid in every reachable state;
      dragging moves one rule; the editor of errors shows what was entered.  Two
      theorems state what the dialog loses: texts that read as JSON change type,
      and the rules of pruned objects cannot be edited.
    - Channel lists: a row of the table in tag mode shows what its channels have
      in common (with -1 standing for none yet) and add up to; duplicate keys are removed and no others.
    - Accounts: when a key that is opened and not edited can be saved, what is sent
      for it and when this is what was stored; a code or a user that is saved
      unedited is sent as it was stored; a batch of keys is created in order and stops at the
      first refusal; a new user needs a password of the right length.
    - Navigation: what the settings page saves is what the page, the site, the
      links and the route guards read; the sidebar shows exactly what the
      administrator has on and the user did not hide.
    - JSON editor: formatting keeps the document, Enter inserts what it should,
      the scroll layers stay aligned.
    - Advanced custom channels: the text form parses back; the validator decides a declarative
      specification of route tables ([table_ok]); normalisation is canonical;
      updates change what they name; all that the editor offers is valid.
    - Flow dashboard: every stage, and every node from its links, conserves the
      counters; shares, summary and facet numbers agree with the rows; the
      top-node limit keeps the heaviest nodes; highlighting shows the paths
      through a node; masking hides every label but those of models and of ids
      that stand for the rest; counters stay in the range of safe integers.
    - Timeline: merging buckets loses nothing and respects the width.

    ** Assumptions, bounds and fuel

    Code outside the repository is a parameter: the locale comparison, the number
    formatter and the colour schemes of the chart library ([FlowEnv], with
    [LocaleLaws] where an order matters, satisfied by [FlowSamples.sample_env]),
    [new URL] ([UrlEnv]), [Intl.NumberFormat] ([IntlEnv], [IntlLaws]), [dayjs]
    ([TimeEnv]), case folding and collation ([TextEnv], [TextLaws]), zod
    ([ZodEnv], [ZodLaws]) and the URLs of proxies ([ProxyEnv]), in the override
    editor the translations ([Translation]), [toUpperCase] ([UpperEnv]) and the
    time ([Clock]), each with an instance in the witnesses, the network and the scheduler (the [env], [net],
    [refresh] and script arguments, over which the theorems quantify).  Integer
    data of the backend (ids, counters, timestamps) are [Z];
    [FlowView.counters_in_range] gives the bound under which doubles agree.
    Everything that divides is in binary64.  [AuthSession.drive],
    [HttpClient.run_request] and [AccountForms.Keys.create_loop] take fuel; the settling theorems state how much is
    enough.  [Timeline.merge_loop] runs at most once per bucket.
    [Json.json_fuel], the fuel of the regular-expression matcher and the digit
    search of [NumberText] are computed from the length of the input, and the
    round trips show that they suffice.  User-written regular expressions
    ([compile_regex]), the translation function [t] and [localeCompare] are
    parameters.  Object reads
    of names inherited from [Object.prototype] are outside [JsValue].

    ** Not modelled

    The Go backend (another language, behind the HTTP interface; of it only the list
    of guarded channel fields, [ChannelForm.channelSensitiveFields]); React
    components, styles, translations, generated routes and API wrappers; the
    reading of chart events and the static chart styling of flow.ts; in the
    billing expressions [normalizeTierLabel], the list [COMMON_TIMEZONES] and the
    local evaluation of expressions; settings texts that are JSON but not
    objects (of models and of channels), and advanced custom texts whose fields have other types than the
    declared ones; the special patterns of [replaceAll] in replaceModelInPath
    (a dollar sign in a model name); of format.ts the three functions that are
    one call of [dayjs]; of the override editor the rendering and the class names
    of badges; of channel-utils.ts labels, icons and the formatting of figures; of
    the account drawers fetching, rendering, the order of the first effects and the
    expiry shortcuts; the form of
    model metadata, the wallet, lib/time.ts, the notification store and the URL
    state of tables, which are further parts of the console without a model
    here. *)

From stdpp Require Export base list list_numbers gmap option numbers sorting.
From Stdlib Require Export ZArith Lia String.
From stdpp Require Export strings.

#[global] Open Scope Z_scope.

(** ** Automation *)

Create HintDb flow.
Create Rewrite HintDb flow.

(** Split every boolean connective of the context into propositions. *)
Ltac bool_hyps :=
  repeat match goal with
  | H : _ && _ = true |- _ => apply andb_true_iff in H; destruct H
  | H : _ || _ = false |- _ => apply orb_false_iff in H; destruct H
  | H : negb _ = true |- _ => apply negb_true_iff in H
  | H : negb _ = false |- _ => apply negb_false_iff in H
  | H : (_ <=? _) = true |- _ => apply Z.leb_le in H
  | H : (_ <=? _) = false |- _ => apply Z.leb_gt in H
  | H : (_ <? _) = true |- _ => apply Z.ltb_lt in H
  | H : (_ <? _) = false |- _ => apply Z.ltb_ge in H
  | H : (_ =? _) = true |- _ => apply Z.eqb_eq in H
  | H : (_ =? _) = false |- _ => apply Z.eqb_neq in H
  | H : bool_decide _ = true |- _ => apply bool_decide_eq_true_1 in H
  | H : bool_decide _ = false |- _ => apply bool_decide_eq_false_1 in H
  end.

(** Case analysis on the first [match] or [if] of the goal. *)
Ltac break_match :=
  match goal with
  | |- context [match ?x with _ => _ end] => destruct x eqn:?
  end.

Ltac break_match_hyp :=
  match goal with
  | H : context [match ?x with _ => _ end] |- _ => destruct x eqn:?
  end.

(** The test [=== x] as a function. *)
Definition is_eq {A} `{EqDecision A} (x y : A) : bool := bool_decide (y = x).

(** ** Sums of integers over a list *)

Section zsum.
Context {A : Type}.
Implicit Types (f g : A → Z) (l : list A).

Fixpoint zsum f l : Z :=
  match l with
  | [] => 0
  | x :: l => f x + zsum f l
  end.

Lemma zsum_app f l1 l2 : zsum f (l1 ++ l2) = zsum f l1 + zsum f l2.
Proof. induction l1; simpl; lia. Qed.

#[global] Instance zsum_perm f : Proper ((≡ₚ) ==> (=)) (zsum f).
Proof. intros l1 l2. induction 1; simpl; lia. Qed.

Lemma zsum_ext f g l : (∀ x, x ∈ l → f x = g x) → zsum f l = zsum g l.
Proof.
  induction l as [|x l IH]; intros H; simpl; [done|].
  rewrite H by set_solver. rewrite IH by set_solver. done.
Qed.

Lemma zsum_plus f g l : zsum (λ x, f x + g x) l = zsum f l + zsum g l.
Proof. induction l; simpl; lia. Qed.

Lemma zsum_nonneg f l : (∀ x, x ∈ l → 0 ≤ f x) → 0 ≤ zsum f l.
Proof.
  induction l as [|x l IH]; intros H; simpl; [lia|].
  assert (0 ≤ f x) by (apply H; set_solver).
  assert (0 ≤ zsum f l) by (apply IH; set_solver). lia.
Qed.

Lemma zsum_le f g l : (∀ x, x ∈ l → f x ≤ g x) → zsum f l ≤ zsum g l.
Proof.
  induction l as [|x l IH]; intros H; simpl; [lia|].
  assert (f x ≤ g x) by (apply H; set_solver).
  assert (zsum f l ≤ zsum g l) by (apply IH; set_solver). lia.
Qed.

Lemma zsum_elem_le f l x :
  (∀ y, y ∈ l → 0 ≤ f y) → x ∈ l → f x ≤ zsum f l.
Proof.
  intros Hpos (l1 & l2 & ->)%list_elem_of_split.
  rewrite zsum_app. simpl.
  assert (0 ≤ zsum f l1) by (apply zsum_nonneg; set_solver).
  assert (0 ≤ zsum f l2) by (apply zsum_nonneg; set_solver). lia.
Qed.

End zsum.

Lemma zsum_map {A B} (g : A → B) (f : B → Z) l :
  zsum f (g <$> l) = zsum (λ x, f (g x)) l.
Proof. induction l; csimpl; lia. Qed.

Lemma zsum_fmap_perm {A B} (h : A → B) (g : B → Z) (l1 l2 : list A) :
  h <$> l1 ≡ₚ h <$> l2 → zsum (λ x, g (h x)) l1 = zsum (λ x, g (h x)) l2.
Proof. intros H. rewrite <- (zsum_map h g l1), <- (zsum_map h g l2). by rewrite H. Qed.

Lemma zsum_0 {A} (l : list A) : zsum (λ _, 0) l = 0.
Proof. induction l; simpl; lia. Qed.

Lemma zsum_flat_map {A B} (g : A → list B) (f : B → Z) l :
  zsum f (flat_map g l) = zsum (λ x, zsum f (g x)) l.
Proof. induction l; simpl; [done|]. rewrite zsum_app. lia. Qed.

Lemma zsum_filter {A} (P : A → Prop) `{∀ x, Decision (P x)} (g : A → Z) l :
  zsum g (filter P l) = zsum (λ x, if bool_decide (P x) then g x else 0) l.
Proof.
  induction l as [|x l IH]; [done|]. rewrite filter_cons. simpl.
  rewrite bool_decide_decide. case_decide; simpl; rewrite IH; lia.
Qed.

(** ** Loops as left folds *)

Lemma fold_left_fmap {A B C} (f : C → B → C) (g : A → B) l acc :
  fold_left f (g <$> l) acc = fold_left (λ c a, f c (g a)) l acc.
Proof. revert acc. induction l; intros acc; csimpl; auto. Qed.

Lemma fold_left_flat_map {A B C} (f : C → B → C) (g : A → list B) l acc :
  fold_left f (flat_map g l) acc = fold_left (λ c a, fold_left f (g a) c) l acc.
Proof. revert acc. induction l; intros acc; simpl; [done|]. rewrite fold_left_app. auto. Qed.

Lemma fold_left_pair {A B C} (f : A → C → A) (g : B → C → B) l a b :
  fold_left (λ ab c, (f ab.1 c, g ab.2 c)) l (a, b) = (fold_left f l a, fold_left g l b).
Proof. revert a b. induction l as [|x l IH]; intros a b; simpl; auto. Qed.

Lemma fold_left_ext {A B} (f g : A → B → A) l a :
  (∀ a x, x ∈ l → f a x = g a x) → fold_left f l a = fold_left g l a.
Proof.
  revert a. induction l as [|x l IH]; intros a H; simpl; [done|].
  rewrite H by set_solver. apply IH. set_solver.
Qed.

(** [Array.prototype.filter] *)
Section js_filter.
Context {A : Type} (P : A → bool).

Lemma elem_of_js_filter x (l : list A) : x ∈ List.filter P l ↔ x ∈ l ∧ P x = true.
Proof. by rewrite list_elem_of_In, filter_In, <- list_elem_of_In. Qed.

Lemma filter_all (l : list A) : Forall (λ x, P x = true) l → List.filter P l = l.
Proof. induction 1 as [|x l Hx _ IH]; [done|]. simpl. by rewrite Hx, IH. Qed.

Lemma NoDup_js_filter (l : list A) : NoDup l → NoDup (List.filter P l).
Proof.
  induction 1 as [|x l Hx Hl IH]; simpl; [constructor|]. destruct (P x); [|done].
  constructor; [|done]. by intros [? _]%elem_of_js_filter.
Qed.

Lemma sorted_js_filter (R : A → A → Prop) (l : list A) :
  StronglySorted R l → StronglySorted R (List.filter P l).
Proof.
  induction 1 as [|x l Hl IH Hx]; simpl; [constructor|]. destruct (P x); [|done].
  constructor; [done|]. rewrite Forall_forall in *. intros y [? _]%elem_of_js_filter. auto.
Qed.
End js_filter.

(** ** [Array.prototype.sort]: a stable sort by a comparator

    The language requires a stable sort; for a comparator that is a total
    preorder the result is therefore determined, and stable insertion computes
    it. *)

Section js_sort.
Context {A : Type} (cmp : A → A → Z).

Fixpoint sort_insert (x : A) (l : list A) : list A :=
  match l with
  | [] => [x]
  | y :: l' => if cmp x y <=? 0 then x :: l else y :: sort_insert x l'
  end.

Definition js_sort (l : list A) : list A := foldr sort_insert [] l.

(** What a comparator handed to [sort] has to satisfy. *)
Class Comparator : Prop := {
  cmp_total : ∀ x y, cmp x y ≤ 0 ∨ cmp y x ≤ 0;
  cmp_trans : ∀ x y z, cmp x y ≤ 0 → cmp y z ≤ 0 → cmp x z ≤ 0;
}.

Lemma sort_insert_perm x l : sort_insert x l ≡ₚ x :: l.
Proof.
  induction l as [|y l IH]; simpl; [done|].
  destruct (cmp x y <=? 0); [done|]. rewrite IH. apply Permutation_swap.
Qed.

Lemma js_sort_perm l : js_sort l ≡ₚ l.
Proof.
  induction l as [|x l IH]; simpl; [done|]. by rewrite sort_insert_perm, IH.
Qed.

Lemma elem_of_js_sort x l : x ∈ js_sort l ↔ x ∈ l.
Proof. by rewrite js_sort_perm. Qed.

Lemma js_sort_sorted l :
  Comparator → StronglySorted (λ x y, cmp x y ≤ 0) (js_sort l).
Proof.
  intros HC. induction l as [|x l IH]; simpl; [constructor|].
  induction IH as [|y l' Hs IH Hy]; simpl; [repeat constructor|].
  destruct (cmp x y <=? 0) eqn:E; bool_hyps.
  - constructor; [by constructor|]. constructor; [done|].
    eapply Forall_impl; [exact Hy|]. intros z Hz. by eapply cmp_trans.
  - constructor; [done|]. rewrite sort_insert_perm. constructor; [|done].
    destruct (cmp_total x y); [lia|done].
Qed.

(** Stability: elements the comparator identifies keep their order. *)
Lemma js_sort_stable (P : A → bool) l :
  (∀ x y, P x = true → P y = true → cmp x y ≤ 0) →
  List.filter P (js_sort l) = List.filter P l.
Proof.
  intros HP. induction l as [|x l IH]; simpl; [done|]. rewrite <- IH. clear IH.
  generalize (js_sort l). intros s.
  induction s as [|y s IHs]; simpl; [done|].
  destruct (cmp x y <=? 0) eqn:E; simpl; [done|].
  destruct (P y) eqn:Py; rewrite IHs; destruct (P x) eqn:Px; simpl;
    rewrite ?Py; try done.
  specialize (HP x y Px Py). bool_hyps. lia.
Qed.

End js_sort.

(** Only the answers on the elements matter. *)
Lemma js_sort_agree {A} (c1 c2 : A → A → Z) l :
  (∀ x y, x ∈ l → y ∈ l → c1 x y ≤ 0 ↔ c2 x y ≤ 0) → js_sort c1 l = js_sort c2 l.
Proof.
  induction l as [|x l IH]; intros H; [done|]. simpl.
  rewrite IH by (intros; apply H; set_solver).
  assert (∀ y, y ∈ js_sort c2 l → c1 x y ≤ 0 ↔ c2 x y ≤ 0) as Hx.
  { intros y Hy%elem_of_js_sort. apply H; set_solver. }
  revert Hx. generalize (js_sort c2 l) as s. induction s as [|y s IHs]; intros Hx; [done|]. simpl.
  rewrite IHs by set_solver. pose proof (Hx y (list_elem_of_here _ _)).
  destruct (Z.leb_spec (c1 x y) 0), (Z.leb_spec (c2 x y) 0); try done; lia.
Qed.

(** A comparison that swaps sign with its arguments.  Such comparisons are
    closed under projections and under [||], the lexicographic order. *)
Class Comparison {A} (cmp : A → A → Z) : Prop := {
  comparison_sign : ∀ x y, cmp x y < 0 ↔ 0 < cmp y x;
  comparison_trans : ∀ x y z, cmp x y ≤ 0 → cmp y z ≤ 0 → cmp x z ≤ 0;
}.

(** [x || y] between the results of comparisons *)
Definition cmp_or (x y : Z) : Z := if x =? 0 then y else x.

#[global] Instance comparison_comparator {A} (cmp : A → A → Z) :
  Comparison cmp → Comparator cmp.
Proof.
  intros [Hs Ht]. split; [|done]. intros x y.
  destruct (Z.le_gt_cases (cmp x y) 0); [by left|right]. specialize (Hs y x). lia.
Qed.

Lemma comparison_proj {A B} (f : A → B) (cmp : B → B → Z) :
  Comparison cmp → Comparison (λ x y, cmp (f x) (f y)).
Proof. intros [Hs Ht]. split; eauto. Qed.

Lemma comparison_desc {A} (f : A → Z) : Comparison (λ x y, f y - f x).
Proof. split; intros; lia. Qed.

Lemma comparison_or {A} (c1 c2 : A → A → Z) :
  Comparison c1 → Comparison c2 → Comparison (λ x y, cmp_or (c1 x y) (c2 x y)).
Proof.
  intros [S1 T1] [S2 T2]. unfold cmp_or. split.
  - intros x y. pose proof (S1 x y). pose proof (S1 y x). pose proof (S2 x y).
    destruct (Z.eqb_spec (c1 x y) 0), (Z.eqb_spec (c1 y x) 0); lia.
  - intros x y z. pose proof (T1 x y z). pose proof (T1 z x y). pose proof (T1 y z x).
    pose proof (T2 x y z). pose proof (S1 x y). pose proof (S1 y x). pose proof (S1 y z).
    pose proof (S1 z y). pose proof (S1 x z). pose proof (S1 z x).
    destruct (Z.eqb_spec (c1 x y) 0), (Z.eqb_spec (c1 y z) 0), (Z.eqb_spec (c1 x z) 0); lia.
Qed.

#[export] Hint Resolve comparison_proj comparison_desc comparison_or : flow.
#[export] Hint Rewrite @zsum_app @zsum_map @zsum_flat_map : flow.
