(* ===== verification/JsString.v ===== *)
(** * JavaScript strings

    A JavaScript string is the sequence of its UTF-16 code units, here a
    [list Z] of values below 65536.  [lit] turns a Rocq string literal (UTF-8
    source text) into that sequence, so that the literals of the source can be
    written as they are.  The file holds the operations of
    [String.prototype], [Number.parseInt] and the number-to-string conversion
    the modelled code uses, with their lemmas. *)

From Stdlib Require Import Ascii DecimalZ DecimalN DecimalPos DecimalFacts.
From S2P Require Import Prelude.

Abbreviation jsstr := (list Z).

(** ** Literals *)

(** Decoding of UTF-8 bytes into UTF-16 code units (a code point above the
    basic plane becomes a surrogate pair). *)
Fixpoint utf16_of_utf8 (bytes : list Z) : jsstr :=
  match bytes with
  | [] => []
  | b :: r0 =>
    if b <? 128 then b :: utf16_of_utf8 r0
    else match r0 with
    | [] => []
    | b1 :: r1 =>
      if b <? 224 then ((b - 192) * 64 + (b1 - 128)) :: utf16_of_utf8 r1
      else match r1 with
      | [] => []
      | b2 :: r2 =>
        if b <? 240
        then ((b - 224) * 4096 + (b1 - 128) * 64 + (b2 - 128)) :: utf16_of_utf8 r2
        else match r2 with
        | [] => []
        | b3 :: r3 =>
          let cp := (b - 240) * 262144 + (b1 - 128) * 4096
                    + (b2 - 128) * 64 + (b3 - 128) in
          (55296 + (cp - 65536) / 1024) :: (56320 + (cp - 65536) mod 1024)
            :: utf16_of_utf8 r3
        end
      end
    end
  end.

Definition bytes_of_string (s : string) : list Z :=
  (λ a, Z.of_nat (nat_of_ascii a)) <$> list_ascii_of_string s.

Definition lit (s : string) : jsstr := utf16_of_utf8 (bytes_of_string s).

Declare Scope js_scope.
Delimit Scope js_scope with js.
Notation "$ s" := (lit s%string) (at level 1, s at level 0, format "$ s") : js_scope.
#[global] Open Scope js_scope.

(** A literal whose double quotes are written as single ones. *)
Definition dq (s : string) : jsstr := (λ c, if c =? 39 then 34 else c) <$> lit s.

(** ** White space: [WhiteSpace] and [LineTerminator] of the language, the set
    behind [trim] and the regular-expression class [\s]. *)
Definition is_space (c : Z) : bool :=
  ((9 <=? c) && (c <=? 13)) || (c =? 32) || (c =? 160) || (c =? 5760)
  || ((8192 <=? c) && (c <=? 8202)) || (c =? 8232) || (c =? 8233)
  || (c =? 8239) || (c =? 8287) || (c =? 12288) || (c =? 65279).

Fixpoint trim_start (s : jsstr) : jsstr :=
  match s with
  | c :: s' => if is_space c then trim_start s' else s
  | [] => []
  end.

Definition trim_end (s : jsstr) : jsstr := reverse (trim_start (reverse s)).

Definition trim (s : jsstr) : jsstr := trim_end (trim_start s).

(** [s.replace(/\s/g, '')] *)
Definition remove_spaces (s : jsstr) : jsstr := List.filter (λ c, negb (is_space c)) s.

(** Truthiness of a string: the empty string is the only falsy one. *)
Definition truthy (s : jsstr) : bool :=
  match s with [] => false | _ => true end.

(** [a || b] on strings *)
Definition str_or (a b : jsstr) : jsstr := if truthy a then a else b.

(** ** Splitting and joining *)

(** [s.split(c)] for a one-unit separator: never the empty array. *)
Fixpoint split (c : Z) (s : jsstr) : list jsstr :=
  match s with
  | [] => [[]]
  | d :: s' =>
    if d =? c then [] :: split c s'
    else match split c s' with
         | [] => [[d]]
         | w :: ws => (d :: w) :: ws
         end
  end.

(** [l.join(sep)] *)
Fixpoint join (sep : jsstr) (l : list jsstr) : jsstr :=
  match l with
  | [] => []
  | [w] => w
  | w :: l' => w ++ sep ++ join sep l'
  end.

(** [s.replace(/[c]/g, d)] *)
Definition replace_char (c d : Z) (s : jsstr) : jsstr :=
  (λ x, if x =? c then d else x) <$> s.

(** ** Searching *)

Fixpoint starts_with (p s : jsstr) : bool :=
  match p, s with
  | [], _ => true
  | a :: p', b :: s' => (a =? b) && starts_with p' s'
  | _, [] => false
  end.

Definition ends_with (p s : jsstr) : bool := starts_with (reverse p) (reverse s).

Fixpoint includes (p s : jsstr) : bool :=
  starts_with p s || match s with [] => false | _ :: s' => includes p s' end.

(** Code-unit order, the [<] of strings. *)
Fixpoint str_compare (a b : jsstr) : comparison :=
  match a, b with
  | [], [] => Eq
  | [], _ => Lt
  | _, [] => Gt
  | x :: a', y :: b' =>
    match x ?= y with Eq => str_compare a' b' | c => c end
  end.

(** ** Decimal numerals *)

Definition is_digit (c : Z) : bool := (48 <=? c) && (c <=? 57).

(** [/^\d+$/.test(s)] *)
Definition all_digits (s : jsstr) : bool := truthy s && forallb is_digit s.

Fixpoint jsstr_of_uint (d : Decimal.uint) : jsstr :=
  match d with
  | Decimal.Nil => []
  | Decimal.D0 d => 48 :: jsstr_of_uint d
  | Decimal.D1 d => 49 :: jsstr_of_uint d
  | Decimal.D2 d => 50 :: jsstr_of_uint d
  | Decimal.D3 d => 51 :: jsstr_of_uint d
  | Decimal.D4 d => 52 :: jsstr_of_uint d
  | Decimal.D5 d => 53 :: jsstr_of_uint d
  | Decimal.D6 d => 54 :: jsstr_of_uint d
  | Decimal.D7 d => 55 :: jsstr_of_uint d
  | Decimal.D8 d => 56 :: jsstr_of_uint d
  | Decimal.D9 d => 57 :: jsstr_of_uint d
  end.

(** The value of a run of digits, read from the left. *)
Fixpoint digits_value (acc : Z) (s : jsstr) : Z :=
  match s with
  | [] => acc
  | c :: s' => digits_value (10 * acc + (c - 48)) s'
  end.

(** [Number.parseInt(s, 10)] on a string of digits.  The exact integer is
    returned; the language rounds it to a binary64, which is the identity up
    to 2^53. *)
Definition parse_digits (s : jsstr) : Z := digits_value 0 s.

(** The numeral of an integer of absolute value below 10^21, as [String(n)]
    and template literals print it. *)
Definition string_of_Z (n : Z) : jsstr :=
  match n with
  | Z0 => [48]
  | Zpos p => jsstr_of_uint (Pos.to_uint p)
  | Zneg p => 45 :: jsstr_of_uint (Pos.to_uint p)
  end.

(** ** Lemmas: white space *)

(** A string without white space at either end. *)
Definition no_spaces (s : jsstr) : bool := forallb (λ c, negb (is_space c)) s.

Lemma trim_start_no_space s :
  no_spaces s = true → trim_start s = s.
Proof.
  destruct s as [|c s]; simpl; [done|]. intros ?; bool_hyps.
  by destruct (is_space c).
Qed.

Lemma no_spaces_reverse s : no_spaces (reverse s) = no_spaces s.
Proof.
  unfold no_spaces. apply Bool.eq_iff_eq_true. rewrite !forallb_forall.
  by setoid_rewrite <- list_elem_of_In; setoid_rewrite elem_of_reverse.
Qed.

Lemma trim_no_spaces s : no_spaces s = true → trim s = s.
Proof.
  intros H. unfold trim, trim_end. rewrite (trim_start_no_space s) by done.
  rewrite trim_start_no_space by (by rewrite no_spaces_reverse).
  apply reverse_involutive.
Qed.

Lemma trim_start_idem s : trim_start (trim_start s) = trim_start s.
Proof.
  induction s as [|c s IH]; simpl; [done|].
  destruct (is_space c) eqn:E; [done|]. simpl. by rewrite E.
Qed.

Lemma trim_start_nil_or s :
  trim_start s = [] ∨ ∃ c s', trim_start s = c :: s' ∧ is_space c = false.
Proof.
  induction s as [|c s IH]; simpl; [by left|].
  destruct (is_space c) eqn:E; [done|]. right. by exists c, s.
Qed.

Lemma trim_end_cons c s : is_space c = false → ∃ s', trim_end (c :: s) = c :: s'.
Proof.
  intros Hc. unfold trim_end. rewrite reverse_cons.
  induction (reverse s) as [|d r IH]; simpl.
  - rewrite Hc. by exists [].
  - destruct (is_space d); [done|]. rewrite reverse_cons, reverse_app. simpl.
    eexists. done.
Qed.

Lemma trim_idem s : trim (trim s) = trim s.
Proof.
  unfold trim. destruct (trim_start_nil_or s) as [->|(c & s' & -> & Hc)]; [done|].
  destruct (trim_end_cons c s' Hc) as [t Ht].
  assert (trim_start (trim_end (c :: s')) = trim_end (c :: s')) as ->.
  { rewrite Ht. simpl. by rewrite Hc. }
  unfold trim_end. by rewrite reverse_involutive, trim_start_idem.
Qed.

Lemma remove_spaces_no_spaces s : no_spaces s = true → remove_spaces s = s.
Proof.
  induction s as [|c s IH]; simpl; [done|]. intros ?; bool_hyps.
  replace (is_space c) with false by done. simpl. by rewrite IH.
Qed.

Lemma no_spaces_remove_spaces s : no_spaces (remove_spaces s) = true.
Proof.
  unfold no_spaces, remove_spaces. apply forallb_forall.
  intros c [_ H]%filter_In. done.
Qed.

(** ** Lemmas: splitting and joining *)

Lemma split_ne c s : split c s ≠ [].
Proof.
  destruct s as [|d s]; simpl; [done|].
  destruct (d =? c); [done|]. by destruct (split c s).
Qed.

Lemma split_word_app c w s :
  c ∉ w → split c (w ++ c :: s) = w :: split c s.
Proof.
  induction w as [|d w IH]; simpl; intros Hc.
  - by rewrite Z.eqb_refl.
  - destruct (Z.eqb_spec d c); [set_solver|].
    rewrite IH by set_solver. done.
Qed.

Lemma split_word c w : c ∉ w → split c w = [w].
Proof.
  induction w as [|d w IH]; simpl; intros Hc; [done|].
  destruct (Z.eqb_spec d c); [set_solver|]. by rewrite IH by set_solver.
Qed.

Lemma split_join c ws :
  ws ≠ [] → (∀ w, w ∈ ws → c ∉ w) → split c (join [c] ws) = ws.
Proof.
  induction ws as [|w ws IH]; intros Hne Hc; [done|].
  destruct ws as [|w' ws].
  - simpl. apply split_word. apply Hc. set_solver.
  - simpl join. simpl app. rewrite split_word_app by (apply Hc; set_solver).
    f_equal. apply IH; [done|]. set_solver.
Qed.

Lemma join_split c s : join [c] (split c s) = s.
Proof.
  induction s as [|d s IH]; [done|]. simpl.
  pose proof (split_ne c s) as Hne.
  destruct (Z.eqb_spec d c) as [->|].
  - destruct (split c s) eqn:E; [done|]. simpl in *. by rewrite IH.
  - destruct (split c s) as [|w ws] eqn:E; [done|].
    destruct ws; simpl in *; by rewrite <- IH.
Qed.

Lemma join_nonempty sep ws w : w ∈ ws → w ≠ [] → join sep ws ≠ [].
Proof.
  induction ws as [|v ws IH]; [set_solver|].
  intros Hin Hw. destruct ws as [|v' ws].
  - simpl. set_solver.
  - simpl join. destruct v as [|? ?]; [|done]. simpl.
    destruct sep; [|done]. simpl. apply IH; [|done].
    apply elem_of_cons in Hin as [->|]; [done|done].
Qed.

Lemma elem_of_join x sep ws :
  x ∈ join sep ws → x ∈ sep ∨ ∃ w, w ∈ ws ∧ x ∈ w.
Proof.
  induction ws as [|w ws IH]; [set_solver|]. destruct ws as [|w' ws].
  - simpl. intros. right. exists w. set_solver.
  - simpl join. rewrite !elem_of_app. intros [|[|H]].
    + right. exists w. set_solver.
    + by left.
    + destruct (IH H) as [|(v & ? & ?)]; [by left|]. right. exists v. set_solver.
Qed.

(** The text before the first separator is determined. *)
Lemma sep_inj c (s1 s2 t1 t2 : jsstr) :
  c ∉ s1 → c ∉ s2 → s1 ++ c :: t1 = s2 ++ c :: t2 → s1 = s2 ∧ t1 = t2.
Proof.
  revert s2. induction s1 as [|d s1 IH]; intros [|e s2]; simpl; intros H1 H2 H.
  - split; congruence.
  - injection H as -> _. set_solver.
  - injection H as -> _. set_solver.
  - injection H as -> H. destruct (IH s2) as [-> ->]; set_solver.
Qed.

(** ** Lemmas: decimal numerals *)

Lemma jsstr_of_uint_digits d : forallb is_digit (jsstr_of_uint d) = true.
Proof. induction d; simpl; done. Qed.

Lemma digits_value_pos d acc :
  digits_value (Zpos acc) (jsstr_of_uint d) = Zpos (Pos.of_uint_acc d acc).
Proof.
  revert acc. induction d; intros acc; simpl jsstr_of_uint; [done|..];
    cbn [digits_value Pos.of_uint_acc]; rewrite <- IHd; f_equal; lia.
Qed.

Lemma parse_digits_uint d :
  parse_digits (jsstr_of_uint d) = Z.of_N (Pos.of_uint d).
Proof.
  unfold parse_digits. induction d; [done|done|..];
    cbn [jsstr_of_uint digits_value Pos.of_uint];
    match goal with |- digits_value ?v _ = _ => let w := eval compute in v in change v with w end;
    apply digits_value_pos.
Qed.

Lemma parse_string_of_Z n : 0 ≤ n → parse_digits (string_of_Z n) = n.
Proof.
  destruct n as [|p|p]; intros H; [done| |lia]. simpl.
  by rewrite parse_digits_uint, DecimalPos.Unsigned.of_to.
Qed.

Lemma all_digits_string_of_Z n : 0 ≤ n → all_digits (string_of_Z n) = true.
Proof.
  destruct n as [|p|p]; intros H; [done| |lia].
  unfold all_digits. simpl. rewrite jsstr_of_uint_digits.
  assert (jsstr_of_uint (Pos.to_uint p) ≠ []) as Hne.
  { intros E. pose proof (parse_string_of_Z (Zpos p) H) as Hp.
    simpl in Hp. rewrite E in Hp. done. }
  by destruct (jsstr_of_uint (Pos.to_uint p)).
Qed.

Lemma string_of_Z_inj m n :
  0 ≤ m → 0 ≤ n → string_of_Z m = string_of_Z n → m = n.
Proof.
  intros Hm Hn E. rewrite <- (parse_string_of_Z m), <- (parse_string_of_Z n) by done.
  by rewrite E.
Qed.

Lemma is_digit_range c : is_digit c = true → 48 ≤ c ≤ 57.
Proof. unfold is_digit. intros; bool_hyps. lia. Qed.

Lemma digit_not_space c : is_digit c = true → is_space c = false.
Proof.
  intros H%is_digit_range. unfold is_space.
  repeat (apply orb_false_iff; split);
    first [apply Z.eqb_neq; lia | apply andb_false_iff];
    rewrite ?Z.leb_gt; lia.
Qed.

Lemma all_digits_elem s c : all_digits s = true → c ∈ s → 48 ≤ c ≤ 57.
Proof.
  unfold all_digits. intros [_ H]%andb_true_iff Hc.
  rewrite forallb_forall in H. apply is_digit_range, H. by apply list_elem_of_In.
Qed.

Lemma all_digits_no_spaces s : all_digits s = true → no_spaces s = true.
Proof.
  unfold all_digits, no_spaces. intros [_ H]%andb_true_iff.
  apply forallb_forall. intros c Hc. rewrite forallb_forall in H.
  by rewrite digit_not_space by auto.
Qed.

Lemma no_spaces_app s t : no_spaces (s ++ t) = no_spaces s && no_spaces t.
Proof. apply forallb_app. Qed.

Lemma truthy_ne s : truthy s = true ↔ s ≠ [].
Proof. by destruct s. Qed.

(** ** Lemmas: the order of code units *)

Lemma str_compare_antisym a b : str_compare b a = CompOpp (str_compare a b).
Proof.
  revert b. induction a as [|x a IH]; intros [|y b]; simpl; try done.
  rewrite (Z.compare_antisym x y). by destruct (x ?= y); simpl.
Qed.

Lemma str_compare_trans a b c :
  str_compare a b ≠ Gt → str_compare b c ≠ Gt → str_compare a c ≠ Gt.
Proof.
  revert b c. induction a as [|x a IH]; intros [|y b] [|z c]; simpl; try done.
  destruct (Z.compare_spec x y), (Z.compare_spec y z), (Z.compare_spec x z); subst;
    try done; try lia; eauto.
Qed.

Lemma str_compare_eq a b : str_compare a b = Eq → a = b.
Proof.
  revert b. induction a as [|x a IH]; intros [|y b]; simpl; try done.
  destruct (Z.compare_spec x y); try done. intros H'. subst. f_equal. by apply IH.
Qed.

(** The comparator behind [sort()] without an argument. *)
Definition code_unit_compare (a b : jsstr) : Z :=
  match str_compare a b with Lt => -1 | Eq => 0 | Gt => 1 end.

#[global] Instance code_unit_comparison : Comparison code_unit_compare.
Proof.
  split; unfold code_unit_compare.
  - intros x y. rewrite (str_compare_antisym x y). destruct (str_compare x y); simpl; lia.
  - intros x y z. pose proof (str_compare_trans x y z).
    destruct (str_compare x y), (str_compare y z), (str_compare x z); simpl in *; try lia;
      exfalso; apply H; done.
Qed.

(** ** Text without white space at its ends *)

Definition head_solid (s : jsstr) : Prop := match s with c :: _ => is_space c = false | [] => False end.
Definition last_solid (s : jsstr) : Prop := head_solid (reverse s).

Lemma trim_solid s : head_solid s → last_solid s → trim s = s.
Proof.
  intros Hh Hl. unfold trim, trim_end.
  assert (∀ t, head_solid t → trim_start t = t) as H
    by (intros [|c t] Ht; [done|]; cbn [trim_start]; by rewrite Ht).
  by rewrite (H s), (H (reverse s)), reverse_involutive.
Qed.

Lemma head_solid_app a b : head_solid a → head_solid (a ++ b).
Proof. by destruct a. Qed.

Lemma last_solid_app a b : last_solid b → last_solid (a ++ b).
Proof. unfold last_solid. rewrite reverse_app. apply head_solid_app. Qed.

Lemma no_spaces_solid s : s ≠ [] → no_spaces s = true → head_solid s ∧ last_solid s.
Proof.
  assert (∀ t, t ≠ [] → no_spaces t = true → head_solid t) as Hh.
  { intros [|c t] Hne Ht; [done|]. unfold no_spaces in Ht. cbn [forallb] in Ht.
    apply andb_true_iff in Ht as [Hc _]. by apply negb_true_iff. }
  intros Hne Hs. split; [by apply Hh|]. apply Hh.
  - intros E. apply Hne. rewrite <- (reverse_involutive s). by rewrite E.
  - unfold no_spaces in *. rewrite forallb_forall in *. intros c Hc. apply Hs.
    by rewrite <- list_elem_of_In, elem_of_reverse, list_elem_of_In in Hc.
Qed.

Lemma forallb_trim (P : Z → bool) s : forallb P s = true → forallb P (trim s) = true.
Proof.
  assert (∀ t, forallb P t = true → forallb P (trim_start t) = true) as Hs.
  { induction t as [|c t IH]; [done|]. cbn [forallb trim_start]. intros [Hc Ht]%andb_true_iff.
    destruct (is_space c); [auto|]. cbn [forallb]. by rewrite Hc, Ht. }
  assert (∀ t, forallb P t = true → forallb P (reverse t) = true) as Hr.
  { intros t. rewrite !forallb_forall. intros H c Hc. apply H.
    by rewrite <- list_elem_of_In, elem_of_reverse, list_elem_of_In in Hc. }
  intros H. unfold trim, trim_end. auto.
Qed.

#[export] Hint Resolve all_digits_string_of_Z all_digits_no_spaces : flow.
#[export] Hint Rewrite no_spaces_app @reverse_involutive : flow.
