(* ===== verification/JsText.v ===== *)
(** * Case folding and collation

    [toLowerCase] and [localeCompare] depend on the Unicode tables and the locale
    of the platform; they are parameters, with the laws the code relies on.
    [ascii_text] is an instance that knows the ASCII letters only. *)

From S2P Require Import Prelude JsString.

Local Open Scope Z_scope.

Class TextEnv := {
  toLowerCase : jsstr → jsstr;
  localeCompare : jsstr → jsstr → Z }.

Definition ascii_lower (c : Z) : Z := if (65 <=? c) && (c <=? 90) then c + 32 else c.

Definition is_ascii (c : Z) : bool := (0 <=? c) && (c <? 128).

Class TextLaws (E : TextEnv) : Prop := {
  lower_idem s : toLowerCase (toLowerCase s) = toLowerCase s;
  lower_ascii s : forallb is_ascii s = true → toLowerCase s = map ascii_lower s;
  text_comparison :: Comparison localeCompare }.

Definition ascii_text : TextEnv :=
  {| toLowerCase := map ascii_lower; localeCompare := code_unit_compare |}.

Lemma ascii_text_laws : TextLaws ascii_text.
Proof.
  constructor; [|done|apply code_unit_comparison]. intros s. cbn. rewrite map_map. apply map_ext. intros c.
  unfold ascii_lower. destruct ((65 <=? c) && (c <=? 90)) eqn:E; [|by rewrite E].
  rewrite andb_true_iff in E. destruct ((65 <=? c + 32) && (c + 32 <=? 90)) eqn:E2; [|done].
  rewrite andb_true_iff in E2. lia.
Qed.
