(* ===== verification/JsNumber.v ===== *)
(** * JavaScript numbers

    The [number] type of the language is IEEE-754 binary64.  The Standard
    Library's [SpecFloat] gives its operations as computable functions on
    [spec_float] (precision 53, exponent bound 1024), so every arithmetic
    operation below is the one the language performs, rounding included. *)

From Stdlib Require Export SpecFloat.
From S2P Require Import Prelude JsString.

Abbreviation number := spec_float.

#[global] Instance number_eq_dec : EqDecision number.
Proof. solve_decision. Defined.

(** ** Constructors, arithmetic and comparison *)

Definition nan : number := S754_nan.
Definition infinity (neg : bool) : number := S754_infinity neg.

(** The binary64 nearest to an integer; exact up to 2^53. *)
Definition num_of_Z (z : Z) : number := binary_normalize 53 1024 z 0 false.

Definition num_add : number → number → number := SFadd 53 1024.
Definition num_sub : number → number → number := SFsub 53 1024.
Definition num_mul : number → number → number := SFmul 53 1024.
Definition num_div : number → number → number := SFdiv 53 1024.

(** [===], [<] and [<=]: false as soon as one side is NaN; +0 equals -0. *)
Definition num_eqb : number → number → bool := SFeqb.
Definition num_ltb : number → number → bool := SFltb.
Definition num_leb : number → number → bool := SFleb.

(** [Number.isFinite] *)
Definition is_finite (x : number) : bool :=
  match x with S754_zero _ | S754_finite _ _ _ => true | _ => false end.

(** [Number.isInteger] *)
Definition is_integer (x : number) : bool :=
  match x with
  | S754_zero _ => true
  | S754_finite _ m e => (0 <=? e) || (Zpos m mod 2 ^ (- e) =? 0)
  | _ => false
  end.

(** Truthiness: zeroes and NaN are falsy. *)
Definition num_truthy (x : number) : bool :=
  match x with S754_zero _ | S754_nan => false | _ => true end.

(** [Math.sign], and how [sort] reads the number a comparison function returns. *)
Definition num_sgn (x : number) : Z :=
  match x with
  | S754_zero _ | S754_nan => 0
  | S754_infinity s | S754_finite s _ _ => if s then -1 else 1
  end.

(** [Math.floor] *)
Definition num_floor (x : number) : number :=
  match x with
  | S754_finite s m e =>
    if 0 <=? e then x
    else
      let q := (if s then Zneg m else Zpos m) / 2 ^ (- e) in
      if q =? 0 then S754_zero s else num_of_Z q
  | _ => x
  end.

(** [Math.round]: the nearest integer, ties towards plus infinity *)
Definition num_round (x : number) : number :=
  match x with
  | S754_finite s m e =>
    if 0 <=? e then x
    else
      let d := 2 ^ (- e) in
      let q := (2 * (if s then Zneg m else Zpos m) + d) / (2 * d) in
      if q =? 0 then S754_zero s else num_of_Z q
  | _ => x
  end.

(** The integer a number denotes, when it denotes one. *)
Definition Z_of_num (x : number) : option Z :=
  match x with
  | S754_zero _ => Some 0
  | S754_finite s m e =>
    let signed := if s then Zneg m else Zpos m in
    if 0 <=? e then Some (signed * 2 ^ e)
    else if Zpos m mod 2 ^ (- e) =? 0 then Some (signed / 2 ^ (- e)) else None
  | _ => None
  end.

(** ** Decimal conversions *)

(** The binary64 nearest to [m * 10^k]: the correctly rounded quotient (or
    product) of two exact integers, as the language requires of numerals. *)
Definition num_of_decimal (neg : bool) (m : N) (k : Z) : number :=
  match m with
  | N0 => S754_zero neg
  | Npos p =>
    if 0 <=? k then
      match Zpos p * 10 ^ k with
      | Zpos q => binary_round 53 1024 neg q 0
      | _ => S754_zero neg
      end
    else
      match 10 ^ (- k) with
      | Zpos q => num_div (S754_finite neg p 0) (S754_finite false q 0)
      | _ => S754_zero neg
      end
  end.

(** The longest prefix of digits, and what follows it. *)
Fixpoint span_digits (s : jsstr) : jsstr * jsstr :=
  match s with
  | c :: s' =>
    if is_digit c then let '(d, r) := span_digits s' in (c :: d, r) else ([], s)
  | [] => ([], [])
  end.

(** An optional sign: is it a minus, and the rest. *)
Definition take_sign (s : jsstr) : bool * jsstr :=
  match s with
  | 45 :: s' => (true, s')
  | 43 :: s' => (false, s')
  | _ => (false, s)
  end.

(** [ExponentPart]: [e] or [E], an optional sign and at least one digit.
    [None] when the rest of the numeral is neither empty nor an exponent. *)
Definition parse_exponent (s : jsstr) : option Z :=
  match s with
  | [] => Some 0
  | c :: s' =>
    if (c =? 101) || (c =? 69) then
      let '(neg, s'') := take_sign s' in
      if all_digits s'' then
        let v := parse_digits s'' in Some (if neg then - v else v)
      else None
    else None
  end.

(** [StrUnsignedDecimalLiteral] *)
Definition parse_unsigned_decimal (neg : bool) (s : jsstr) : number :=
  if bool_decide (s = $"Infinity") then infinity neg
  else
    let '(ip, r) := span_digits s in
    let '(fp, r') :=
      match r with
      | 46 :: r1 => span_digits r1
      | _ => ([], r)
      end in
    if negb (truthy ip) && negb (truthy fp) then nan
    else match parse_exponent r' with
    | Some ex =>
      num_of_decimal neg (Z.to_N (parse_digits (ip ++ fp))) (ex - Z.of_nat (length fp))
    | None => nan
    end.

(** Value of a digit in a radix up to 16. *)
Definition radix_digit (c : Z) : option Z :=
  if is_digit c then Some (c - 48)
  else if (97 <=? c) && (c <=? 102) then Some (c - 87)
  else if (65 <=? c) && (c <=? 70) then Some (c - 55)
  else None.

Fixpoint parse_radix (radix acc : Z) (s : jsstr) : option Z :=
  match s with
  | [] => Some acc
  | c :: s' =>
    match radix_digit c with
    | Some d => if d <? radix then parse_radix radix (radix * acc + d) s' else None
    | None => None
    end
  end.

Definition parse_radix_literal (radix : Z) (s : jsstr) : number :=
  if truthy s then
    match parse_radix radix 0 s with Some v => num_of_Z v | None => nan end
  else nan.

(** [Number(s)] on a string: [StringToNumber]. *)
Definition number_of_string (s : jsstr) : number :=
  match trim s with
  | [] => S754_zero false
  | 48 :: c :: r =>
    if (c =? 120) || (c =? 88) then parse_radix_literal 16 r
    else if (c =? 111) || (c =? 79) then parse_radix_literal 8 r
    else if (c =? 98) || (c =? 66) then parse_radix_literal 2 r
    else parse_unsigned_decimal false (48 :: c :: r)
  | t => let '(neg, r) := take_sign t in parse_unsigned_decimal neg r
  end.

(** [n.toFixed(d)] for a finite number below 10^21: the integer nearest to
    [n * 10^d], the larger one on a tie, printed with [d] decimals. *)
Definition scaled_round (m : positive) (e d : Z) : Z :=
  if 0 <=? e then Zpos m * 2 ^ e * 10 ^ d
  else (2 * (Zpos m * 10 ^ d) + 2 ^ (- e)) / (2 * 2 ^ (- e)).

Definition pad_left (n : nat) (s : jsstr) : jsstr :=
  replicate (n - length s) 48 ++ s.

Definition fixed_digits (n : Z) (d : nat) : jsstr :=
  let s := pad_left (S d) (string_of_Z n) in
  match d with
  | O => s
  | _ => take (length s - d) s ++ [46] ++ drop (length s - d) s
  end.

Definition to_fixed (d : nat) (x : number) : jsstr :=
  match x with
  | S754_nan => $"NaN"
  | S754_infinity s => if s then $"-Infinity" else $"Infinity"
  | S754_zero _ => fixed_digits 0 d
  | S754_finite s m e =>
    (if s then [45] else []) ++ fixed_digits (scaled_round m e (Z.of_nat d)) d
  end.

(** A decimal literal [i.ddd] of the source, given as digits over a power of
    ten. *)
Definition num_lit (m : N) (decimals : Z) : number := num_of_decimal false m (- decimals).

(** ** Lemmas *)

Lemma num_eqb_refl x : x ≠ S754_nan → num_eqb x x = true.
Proof.
  unfold num_eqb, SFeqb. destruct x as [|s| |s m e]; simpl; try done.
  - by destruct s.
  - intros _. rewrite Z.compare_refl.
    change (Pos.compare_cont Eq m m) with (Pos.compare m m).
    rewrite Pos.compare_refl. by destruct s.
Qed.

Lemma num_eqb_sym x y : num_eqb x y = num_eqb y x.
Proof.
  unfold num_eqb, SFeqb. destruct x as [|s| |s m e], y as [|s'| |s' m' e'];
    simpl; try (by destruct s); try (by destruct s'); try done;
    try (by destruct s, s').
  rewrite (Z.compare_antisym e' e).
  change (Pos.compare_cont Eq m m') with (Pos.compare m m').
  change (Pos.compare_cont Eq m' m) with (Pos.compare m' m).
  rewrite (Pos.compare_antisym m' m).
  destruct s, s', (e' ?= e), (m' ?= m)%positive; done.
Qed.

Lemma is_integer_finite x : is_integer x = true → is_finite x = true.
Proof. by destruct x. Qed.

Example toFixed_example : to_fixed 2 (num_add (num_lit 24 2) (num_mul (num_lit 5 1) (num_lit 2 1))) = $"0.34".
Proof. vm_compute. reflexivity. Qed.
