(* ===== verification/NumberText.v ===== *)
(** * Numbers as text

    [String(x)] and the template insertion [`${x}`] of a number: the language's
    [Number::toString], which prints the shortest decimal that reads back as
    the number.  The search below is the definition of the language
    specification: the smallest [k] such that some [k]-digit decimal denotes
    [x], and of those the one nearest to [x].  The exact decimal expansion of
    [x] bounds the search, so it always succeeds, and the text reads back as
    [x] ([number_text_roundtrip]). *)

From S2P Require Import Prelude JsString JsNumber.

(** ** The conversion *)

(** [m * 2^e] as an exact decimal [d * 10^t]. *)
Definition exact_decimal (m : positive) (e : Z) : Z * Z :=
  if 0 <=? e then (Zpos m * 2 ^ e, 0) else (Zpos m * 5 ^ (- e), e).

Definition decimal_length (d : Z) : Z := Z.of_nat (length (string_of_Z d)).

(** A candidate [s * 10^t]; ten to the [k] is the same decimal as one digit
    fewer and one power more. *)
Definition settle_candidate (k s t : Z) : Z * Z :=
  if s =? 10 ^ k then (10 ^ (k - 1), t + 1) else (s, t).

(** The two [k]-digit decimals around [d * 10^t], the nearer one first, the
    even one on a tie. *)
Definition candidates (d t k : Z) : list (Z * Z) :=
  let j := decimal_length d - k in
  let q := d / 10 ^ j in
  let r := d mod 10 ^ j in
  if r =? 0 then [(q, t + j)]
  else
    let lo := (q, t + j) in
    let hi := settle_candidate k (q + 1) (t + j) in
    match 2 * r ?= 10 ^ j with
    | Lt => [lo; hi]
    | Gt => [hi; lo]
    | Eq => if Z.even q then [lo; hi] else [hi; lo]
    end.

(** Does the decimal read back as [x]? *)
Definition denotes (neg : bool) (x : number) (c : Z * Z) : bool :=
  (0 <? c.1) && bool_decide (num_of_decimal neg (Z.to_N c.1) c.2 = x).

Fixpoint shortest_from (neg : bool) (x : number) (d t k : Z) (fuel : nat) : Z * Z :=
  match fuel with
  | O => (d, t)
  | S fuel' =>
    match List.find (denotes neg x) (candidates d t k) with
    | Some c => c
    | None => shortest_from neg x d t (k + 1) fuel'
    end
  end.

(** The digits [s] and the power [t] of the decimal to print. *)
Definition shortest_decimal (neg : bool) (m : positive) (e : Z) : Z * Z :=
  let '(d, t) := exact_decimal m e in
  shortest_from neg (S754_finite neg m e) d t 1 (Z.to_nat (decimal_length d - 1)).

(** The layout of [Number::toString]: [digits], whose value is scaled by ten to
    the [n - length digits]. *)
Definition exponent_text (n : Z) : jsstr :=
  [101] ++ (if 0 <=? n then [43] else [45]) ++ string_of_Z (Z.abs n).

Definition layout_decimal (digits : jsstr) (n : Z) : jsstr :=
  let k := Z.of_nat (length digits) in
  if (k <=? n) && (n <=? 21) then digits ++ replicate (Z.to_nat (n - k)) 48
  else if (0 <? n) && (n <=? 21) then
    take (Z.to_nat n) digits ++ [46] ++ drop (Z.to_nat n) digits
  else if (-6 <? n) && (n <=? 0) then
    [48; 46] ++ replicate (Z.to_nat (- n)) 48 ++ digits
  else
    match digits with
    | d :: ds => [d] ++ (if truthy ds then [46] ++ ds else []) ++ exponent_text (n - 1)
    | [] => []
    end.

(** [String(x)] *)
Definition number_text (x : number) : jsstr :=
  match x with
  | S754_nan => $"NaN"
  | S754_zero _ => $"0"
  | S754_infinity s => (if s then [45] else []) ++ $"Infinity"
  | S754_finite neg m e =>
    let '(s, t) := shortest_decimal neg m e in
    let digits := string_of_Z s in
    (if neg then [45] else []) ++ layout_decimal digits (Z.of_nat (length digits) + t)
  end.

Example number_text_1 : number_text (num_lit 1 1) = $"0.1". Proof. vm_compute. reflexivity. Qed.
Example number_text_2 : number_text (num_of_Z 1234567) = $"1234567". Proof. vm_compute. reflexivity. Qed.
Example number_text_3 : number_text (num_of_decimal true 15 (-8)) = $"-1.5e-7". Proof. vm_compute. reflexivity. Qed.
Example number_text_4 : number_text (num_of_decimal false 1 23) = $"1e+23". Proof. vm_compute. reflexivity. Qed.
Example number_text_5 : number_text (num_add (num_lit 1 1) (num_lit 2 1)) = $"0.30000000000000004". Proof. vm_compute. reflexivity. Qed.
Example number_text_6 : number_text (num_of_decimal false 5 (-324)) = $"5e-324". Proof. vm_compute. reflexivity. Qed.
Example number_text_7 : number_text (num_of_decimal false 17976931348623157 292) = $"1.7976931348623157e+308". Proof. vm_compute. reflexivity. Qed.
Example number_text_8 : number_text (num_of_decimal false 1 (-6)) = $"0.000001". Proof. vm_compute. reflexivity. Qed.

(** ** Rounding is exact on representable values *)

Lemma digits2_log2 (p : positive) : Zpos (digits2_pos p) = Z.log2 (Zpos p) + 1.
Proof.
  induction p as [p IH|p IH|]; [..|done]; cbn [digits2_pos]; rewrite Pos2Z.inj_succ, IH.
  - rewrite (Pos2Z.inj_xI p), Z.log2_succ_double by lia. lia.
  - rewrite (Pos2Z.inj_xO p), Z.log2_double by lia. lia.
Qed.

Lemma Zdigits2_log2 (z : Z) : 0 < z → Zdigits2 z = Z.log2 z + 1.
Proof. destruct z; try lia. intros _. apply digits2_log2. Qed.

Lemma iter_pos_iter {A : Type} (f : A → A) p x : iter_pos f p x = Nat.iter (Pos.to_nat p) f x.
Proof.
  revert x. induction p as [p IH|p IH|]; intros x; cbn [iter_pos]; [..|done].
  - rewrite !IH, <- Nat.iter_succ_r. rewrite <- Nat.iter_add. f_equal. lia.
  - rewrite !IH, <- Nat.iter_add. f_equal. lia.
Qed.

Lemma shr_1_exact m : 0 < m → shr_1 (Build_shr_record (2 * m) false false) = Build_shr_record m false false.
Proof. by destruct m. Qed.

Lemma shr_iter_exact (n : nat) m :
  0 < m → Nat.iter n shr_1 (Build_shr_record (m * 2 ^ Z.of_nat n) false false) = Build_shr_record m false false.
Proof.
  intros Hm. induction n as [|n IH]; [by rewrite Z.mul_1_r|].
  rewrite Nat.iter_succ_r.
  replace (m * 2 ^ Z.of_nat (S n)) with (2 * (m * 2 ^ Z.of_nat n))
    by (rewrite Nat2Z.inj_succ, Z.pow_succ_r by lia; ring).
  rewrite shr_1_exact; [done|]. assert (0 < 2 ^ Z.of_nat n) by (apply Z.pow_pos_nonneg; lia). nia.
Qed.

Definition canonical (m : positive) (e : Z) : Prop := bounded 53 1024 m e = true.

Lemma canonical_fexp m e : canonical m e → fexp 53 1024 (Z.log2 (Zpos m) + 1 + e) = e ∧ e ≤ 971.
Proof.
  unfold canonical, bounded, canonical_mantissa. rewrite digits2_log2. intros H. bool_hyps. lia.
Qed.

Lemma log2_scaled m j : 0 < m → 0 ≤ j → Z.log2 (m * 2 ^ j) = Z.log2 m + j.
Proof. intros. rewrite Z.log2_mul_pow2; lia. Qed.

Lemma shr_fexp_exact m e j :
  canonical m e → 0 ≤ j →
  shr_fexp 53 1024 (Zpos m * 2 ^ j) (e - j) loc_Exact = (Build_shr_record (Zpos m) false false, e).
Proof.
  intros [Hf _]%canonical_fexp Hj. unfold shr_fexp.
  assert (0 < Zpos m * 2 ^ j) by (apply Z.mul_pos_pos; [|apply Z.pow_pos_nonneg]; lia).
  rewrite Zdigits2_log2, log2_scaled by lia.
  replace (Z.log2 (Zpos m) + j + 1 + (e - j)) with (Z.log2 (Zpos m) + 1 + e) by lia.
  rewrite Hf. replace (e - (e - j)) with j by lia. cbn [shr_record_of_loc]. unfold shr.
  destruct j as [|j|j]; [|..|lia].
  - rewrite Z.mul_1_r. f_equal. lia.
  - rewrite iter_pos_iter, <- (positive_nat_Z j), shr_iter_exact by lia. f_equal. lia.
Qed.

Lemma round_aux_exact s m e j :
  canonical m e → 0 ≤ j →
  binary_round_aux 53 1024 s (Zpos m * 2 ^ j) (e - j) loc_Exact = S754_finite s m e.
Proof.
  intros Hc Hj. unfold binary_round_aux. rewrite shr_fexp_exact by done.
  cbn [shr_m loc_of_shr_record round_nearest_even].
  pose proof (shr_fexp_exact m e 0 Hc ltac:(lia)) as H0.
  rewrite Z.mul_1_r, Z.sub_0_r in H0. rewrite H0. cbn [shr_m].
  apply canonical_fexp in Hc as [_ He].
  destruct (Z.leb_spec e (1024 - 53)); [done|lia].
Qed.

(** A number is the value of its own exact decimal. *)
Lemma exact_integer s m e :
  canonical m e → 0 ≤ e → num_of_decimal s (Z.to_N (Zpos m * 2 ^ e)) 0 = S754_finite s m e.
Proof.
  intros Hc He. unfold num_of_decimal.
  assert (0 < Zpos m * 2 ^ e) by (apply Z.mul_pos_pos; [|apply Z.pow_pos_nonneg]; lia).
  destruct (Z.to_N (Zpos m * 2 ^ e)) as [|q] eqn:Hq; [lia|].
  assert (Zpos q = Zpos m * 2 ^ e) as Hqz by lia.
  cbn [Z.leb Z.compare]. change (0 <=? 0) with true. cbn [andb].
  rewrite Z.pow_0_r, Z.mul_1_r. unfold binary_round.
  rewrite digits2_log2, Hqz, log2_scaled by lia.
  pose proof (canonical_fexp _ _ Hc) as [Hf _].
  replace (Z.log2 (Zpos m) + e + 1 + 0) with (Z.log2 (Zpos m) + 1 + e) by lia.
  rewrite Hf. unfold shl_align. replace (e - 0) with e by lia.
  replace (match e with Z.neg d => (Pos.iter xO q d, e) | _ => (q, 0) end) with (q, 0)
    by (destruct e; [done..|lia]).
  rewrite Hqz. pose proof (round_aux_exact s m e e Hc He) as Hr.
  by rewrite Z.sub_diag in Hr.
Qed.

Lemma exact_fraction s m e :
  canonical m e → e < 0 → num_of_decimal s (Z.to_N (Zpos m * 5 ^ (- e))) e = S754_finite s m e.
Proof.
  intros Hc He. unfold num_of_decimal.
  assert (0 < Zpos m * 5 ^ (- e)) by (apply Z.mul_pos_pos; [|apply Z.pow_pos_nonneg]; lia).
  destruct (Z.to_N (Zpos m * 5 ^ (- e))) as [|p] eqn:Hp; [lia|].
  assert (Zpos p = Zpos m * 5 ^ (- e)) as Hpz by lia.
  destruct (Z.leb_spec 0 e); [lia|].
  assert (0 < 10 ^ (- e)) as H10 by (apply Z.pow_pos_nonneg; lia).
  destruct (10 ^ (- e)) as [|q|q] eqn:Hq; [lia| |lia].
  unfold num_div, SFdiv, SFdiv_core_binary. cbn [Zdigits2].
  assert (Zpos p * 2 ^ (- e) = Zpos m * Zpos q) as Hpq.
  { rewrite Hpz, <- Hq. change 10 with (5 * 2). rewrite Z.pow_mul_l. ring. }
  assert (Z.log2 (Zpos p) - e ≤ Z.log2 (Zpos m) + Z.log2 (Zpos q) + 1) as Hlog.
  { transitivity (Z.log2 (Zpos m * Zpos q)); [|apply Z.log2_mul_above; lia].
    rewrite <- Hpq, log2_scaled by lia. lia. }
  set (e' := Z.min _ _).
  assert (e' ≤ e) as Hle.
  { pose proof (canonical_fexp _ _ Hc) as [Hf _]. subst e'. rewrite !digits2_log2.
    unfold fexp in *. lia. }
  replace (0 - 0 - e') with (- e') by lia.
  destruct (- e') as [|d|d] eqn:Hd; [lia| |lia].
  rewrite Z.shiftl_mul_pow2 by lia.
  replace (Zpos p * 2 ^ Zpos d) with (Zpos m * 2 ^ (e - e') * Zpos q).
  2:{ transitivity (Zpos m * Zpos q * 2 ^ (e - e')); [ring|]. rewrite <- Hpq, <- Z.mul_assoc, <- Z.pow_add_r by lia. f_equal. f_equal. lia. }
  rewrite (surjective_pairing (Z.div_eucl _ _)).
  change (Z.div_eucl (Zpos m * 2 ^ (e - e') * Zpos q) (Zpos q)).1 with ((Zpos m * 2 ^ (e - e') * Zpos q) / Zpos q).
  change (Z.div_eucl (Zpos m * 2 ^ (e - e') * Zpos q) (Zpos q)).2 with ((Zpos m * 2 ^ (e - e') * Zpos q) mod Zpos q).
  rewrite Z.div_mul, Z.mod_mul by lia.
  replace (new_location (Zpos q) 0) with loc_Exact by (unfold new_location, new_location_even, new_location_odd; by destruct (Z.even _)).
  replace (xorb s false) with s by (by destruct s).
  replace e' with (e - (e - e')) at 2 by lia. apply round_aux_exact; [done|lia].
Qed.

(** ** The search returns a decimal of the number *)

Lemma shortest_from_denotes neg x d t k fuel :
  denotes neg x (d, t) = true → denotes neg x (shortest_from neg x d t k fuel) = true.
Proof.
  intros H. revert k. induction fuel as [|fuel IH]; intros k; cbn [shortest_from]; [done|].
  destruct (List.find _ _) eqn:E; [by apply List.find_some in E as [_ ?]|apply IH].
Qed.

Lemma exact_decimal_denotes neg m e :
  canonical m e → denotes neg (S754_finite neg m e) (exact_decimal m e) = true.
Proof.
  intros Hc. unfold exact_decimal, denotes. destruct (Z.leb_spec 0 e); cbn [fst snd];
    apply andb_true_iff; split.
  - apply Z.ltb_lt, Z.mul_pos_pos; [|apply Z.pow_pos_nonneg]; lia.
  - by apply bool_decide_eq_true, exact_integer.
  - apply Z.ltb_lt, Z.mul_pos_pos; [|apply Z.pow_pos_nonneg]; lia.
  - by apply bool_decide_eq_true, exact_fraction.
Qed.

Lemma shortest_decimal_denotes neg m e s t :
  canonical m e → shortest_decimal neg m e = (s, t) →
  0 < s ∧ num_of_decimal neg (Z.to_N s) t = S754_finite neg m e.
Proof.
  intros Hc. unfold shortest_decimal. pose proof (exact_decimal_denotes neg m e Hc) as Hd.
  destruct (exact_decimal m e) as [d u]. intros Hs.
  apply (shortest_from_denotes _ _ _ _ 1 (Z.to_nat (decimal_length d - 1))) in Hd.
  rewrite Hs in Hd. unfold denotes in Hd. cbn [fst snd] in Hd.
  apply andb_true_iff in Hd as [?%Z.ltb_lt ?%bool_decide_eq_true]. done.
Qed.

(** ** Reading a numeral *)

Lemma digits_value_app acc a b :
  digits_value acc (a ++ b) = digits_value (digits_value acc a) b.
Proof. revert acc. induction a as [|c a IH]; intros acc; simpl; [done|apply IH]. Qed.

Lemma digits_value_zeros acc n : digits_value acc (replicate n 48) = acc * 10 ^ Z.of_nat n.
Proof.
  revert acc. induction n as [|n IH]; intros acc; cbn [replicate digits_value].
  - by rewrite Z.mul_1_r.
  - rewrite IH, Nat2Z.inj_succ, Z.pow_succ_r by lia. ring.
Qed.

Lemma span_digits_app a b :
  forallb is_digit a = true → match b with c :: _ => is_digit c = false | [] => True end →
  span_digits (a ++ b) = (a, b).
Proof.
  intros Ha Hb. induction a as [|c a IH]; cbn [app span_digits].
  - destruct b as [|c b]; [done|]. cbn [span_digits]. by rewrite Hb.
  - cbn [forallb] in Ha. apply andb_true_iff in Ha as [Hc Ha]. by rewrite Hc, IH.
Qed.

Lemma num_of_decimal_scale neg s t :
  0 < s → 0 ≤ t → num_of_decimal neg (Z.to_N (s * 10 ^ t)) 0 = num_of_decimal neg (Z.to_N s) t.
Proof.
  intros Hs Ht. assert (0 < 10 ^ t) by (apply Z.pow_pos_nonneg; lia).
  assert (0 < s * 10 ^ t) by nia. unfold num_of_decimal.
  destruct (Z.to_N (s * 10 ^ t)) as [|p] eqn:Hp; [lia|].
  destruct (Z.to_N s) as [|q] eqn:Hq; [lia|].
  change (0 <=? 0) with true. cbn [andb]. rewrite (proj2 (Z.leb_le 0 t) Ht).
  replace (Zpos q * 10 ^ t) with (Zpos p) by (rewrite <- (Z2N.id s), Hq in Hp by lia; lia).
  by rewrite Z.mul_1_r.
Qed.

Lemma exponent_text_parse n : parse_exponent (exponent_text n) = Some n.
Proof.
  unfold exponent_text, parse_exponent. cbn [app].
  change ((101 =? 101) || (101 =? 69)) with true. cbn iota.
  destruct (Z.leb_spec 0 n); cbn [take_sign app];
    rewrite all_digits_string_of_Z, parse_string_of_Z by lia; f_equal; lia.
Qed.

(** What a numeral consists of after its sign: the characters of the class
    [[\d.eE+-]]. *)
Definition numeral_char (c : Z) : bool :=
  is_digit c || (c =? 46) || (c =? 101) || (c =? 69) || (c =? 43) || (c =? 45).

Lemma digit_numeral c : is_digit c = true → numeral_char c = true.
Proof. unfold numeral_char. by intros ->. Qed.

Lemma digits_numeral s : forallb is_digit s = true → forallb numeral_char s = true.
Proof. rewrite !forallb_forall. eauto using digit_numeral. Qed.

Lemma numeral_no_spaces s : forallb numeral_char s = true → no_spaces s = true.
Proof.
  unfold no_spaces. rewrite !forallb_forall. intros H c Hc. specialize (H c Hc).
  unfold numeral_char in H. rewrite !orb_true_iff, !Z.eqb_eq in H.
  destruct H as [[[[[Hd| ->]| ->]| ->]| ->]| ->]; [|done..]. by rewrite digit_not_space.
Qed.

Lemma string_of_Z_digits n : 0 ≤ n → forallb is_digit (string_of_Z n) = true.
Proof. intros H%all_digits_string_of_Z. unfold all_digits in H. by apply andb_true_iff in H as [_ ?]. Qed.

Lemma string_of_Z_ne n : string_of_Z n ≠ [].
Proof.
  destruct n as [|p|p]; try done. intros E.
  pose proof (all_digits_string_of_Z (Zpos p) ltac:(lia)) as H. by rewrite E in H.
Qed.

Lemma exponent_text_numeral n : forallb numeral_char (exponent_text n) = true.
Proof.
  unfold exponent_text. rewrite !forallb_app, (digits_numeral (string_of_Z _)) by (apply string_of_Z_digits; lia).
  by destruct (0 <=? n).
Qed.

(** ** The layout reads back as the digits and the power it was made from *)

Section Layout.
Context (s : Z) (Hs : 0 < s).
Notation ds := (string_of_Z s).

Lemma ds_digits : forallb is_digit ds = true.
Proof using Hs. apply string_of_Z_digits. lia. Qed.

Lemma ds_value : digits_value 0 ds = s.
Proof using Hs. apply (parse_string_of_Z s). lia. Qed.

Lemma layout_numeral n : forallb numeral_char (layout_decimal ds n) = true.
Proof using Hs.
  pose proof (digits_numeral _ ds_digits) as Hd. unfold layout_decimal.
  assert (∀ k, forallb numeral_char (replicate k 48) = true) as Hz
    by (intros k; induction k; done).
  case_match; [by rewrite forallb_app, Hz, Hd|]. case_match; [|case_match].
  - assert (forallb numeral_char (take (Z.to_nat n) ds ++ drop (Z.to_nat n) ds) = true) as H'
      by by rewrite take_drop.
    rewrite forallb_app in H'. apply andb_true_iff in H' as [Ha Hb].
    by rewrite !forallb_app, Ha, Hb.
  - by rewrite !forallb_app, Hz, Hd.
  - destruct ds as [|d r]; [done|]. cbn [forallb] in Hd. apply andb_true_iff in Hd as [Hd Hr].
    rewrite !forallb_app, exponent_text_numeral. cbn [forallb]. rewrite Hd.
    destruct (truthy r); [|done]. by rewrite forallb_app, Hr.
Qed.

Lemma layout_head n : ∃ c r, layout_decimal ds n = c :: r ∧ is_digit c = true.
Proof using Hs.
  pose proof ds_digits as Hd. pose proof (string_of_Z_ne s) as Hne. unfold layout_decimal.
  destruct ds as [|d r] eqn:E; [done|]. cbn [forallb] in Hd. apply andb_true_iff in Hd as [Hd _].
  case_match; [eauto|]. case_match; [|case_match; eauto].
  replace (Z.to_nat n) with (S (Z.to_nat n - 1)) by (bool_hyps; lia). cbn [take app]. eauto.
Qed.

(** The decimals of the numeral, when it has a point. *)
Lemma parse_point neg ip fp tail ex :
  forallb is_digit ip = true → forallb is_digit fp = true → ip ≠ [] →
  parse_exponent tail = Some ex → match tail with c :: _ => c = 101 | [] => True end →
  parse_unsigned_decimal neg (ip ++ [46] ++ fp ++ tail) =
    num_of_decimal neg (Z.to_N (parse_digits (ip ++ fp))) (ex - Z.of_nat (length fp)).
Proof using.
  intros Hi Hf Hne Hex Ht. unfold parse_unsigned_decimal.
  rewrite bool_decide_eq_false_2.
  2:{ destruct ip as [|c ip]; [done|]. cbn [app forallb] in *. apply andb_true_iff in Hi as [Hc _].
      intros [= -> _]. done. }
  rewrite (span_digits_app ip) by done. cbn [app].
  rewrite (span_digits_app fp) by (try done; destruct tail; by subst).
  destruct ip; [done|]. cbn [truthy negb andb]. by rewrite Hex.
Qed.

Lemma parse_plain neg ip tail ex :
  forallb is_digit ip = true → ip ≠ [] → parse_exponent tail = Some ex →
  match tail with c :: _ => c = 101 | [] => True end →
  parse_unsigned_decimal neg (ip ++ tail) =
    num_of_decimal neg (Z.to_N (parse_digits ip)) ex.
Proof using.
  intros Hi Hne Hex Ht. unfold parse_unsigned_decimal.
  rewrite bool_decide_eq_false_2.
  2:{ destruct ip as [|c ip]; [done|]. cbn [app forallb] in *. apply andb_true_iff in Hi as [Hc _].
      intros [= -> _]. done. }
  rewrite (span_digits_app ip) by (try done; destruct tail; by subst).
  destruct tail as [|c tail]; [|subst c].
  - cbn [truthy negb andb]. destruct ip; [done|]. cbn [truthy negb andb]. rewrite Hex, app_nil_r.
    f_equal. cbn [length]. lia.
  - destruct ip; [done|]. cbn [truthy negb andb]. rewrite Hex, app_nil_r.
    f_equal. cbn [length]. lia.
Qed.

Lemma layout_parse neg n :
  parse_unsigned_decimal neg (layout_decimal ds n) =
    num_of_decimal neg (Z.to_N s) (n - Z.of_nat (length ds)).
Proof using Hs.
  pose proof ds_digits as Hd. pose proof ds_value as Hv. pose proof (string_of_Z_ne s) as Hne.
  assert (forallb is_digit (replicate (Z.to_nat (- n)) 48) = true) as Hz1
    by (induction (Z.to_nat (- n)); done).
  assert (forallb is_digit (replicate (Z.to_nat (n - Z.of_nat (length ds))) 48) = true) as Hz2
    by (induction (Z.to_nat (n - Z.of_nat (length ds))); done).
  unfold layout_decimal. case_match eqn:C1; [|case_match eqn:C2; [|case_match eqn:C3]].
  - bool_hyps. rewrite <- (app_nil_r (_ ++ _)).
    rewrite (parse_plain neg _ [] 0); try done;
      [|by rewrite forallb_app, Hd|by destruct ds].
    unfold parse_digits. rewrite digits_value_app, Hv, digits_value_zeros, Z2Nat.id by lia.
    apply num_of_decimal_scale; lia.
  - bool_hyps. rewrite <- (app_nil_r (drop _ _)).
    assert (forallb is_digit (take (Z.to_nat n) ds ++ drop (Z.to_nat n) ds) = true) as H'
      by by rewrite take_drop.
    rewrite forallb_app in H'. apply andb_true_iff in H' as [Ht Hdr].
    rewrite (parse_point neg _ _ [] 0); try done.
    2:{ replace (Z.to_nat n) with (S (Z.to_nat n - 1)) by lia. by destruct ds. }
    rewrite take_drop. unfold parse_digits. rewrite Hv. f_equal. rewrite length_drop.
    apply andb_false_iff in C1. rewrite !Z.leb_gt in C1. lia.
  - bool_hyps. rewrite <- (app_nil_r (replicate _ _ ++ _)).
    change ([48; 46] ++ ?x) with ([48] ++ [46] ++ x).
    rewrite (parse_point neg [48] _ [] 0) by (try done; by rewrite forallb_app, Hz1, Hd).
    unfold parse_digits. rewrite !digits_value_app, digits_value_zeros.
    change (digits_value 0 [48]) with 0. rewrite Z.mul_0_l, Hv. f_equal.
    rewrite length_app, length_replicate. lia.
  - destruct ds as [|d r] eqn:E; [done|]. cbn [forallb] in Hd. apply andb_true_iff in Hd as [Hdd Hr].
    destruct r as [|d' r]; cbn [truthy].
    + rewrite app_nil_l. rewrite (parse_plain neg [d] _ (n - 1)); try done.
      * unfold parse_digits. rewrite Hv. f_equal.
      * simpl. by rewrite Hdd.
      * apply exponent_text_parse.
    + rewrite <- app_assoc. rewrite (parse_point neg [d] _ _ (n - 1)); try done.
      * unfold parse_digits. change ([d] ++ d' :: r) with (d :: d' :: r). rewrite Hv. f_equal. cbn [length]. lia.
      * simpl. by rewrite Hdd.
      * apply exponent_text_parse.
Qed.
End Layout.

Lemma number_of_numeral (neg : bool) (t : jsstr) (c : Z) (r : jsstr) :
  t = c :: r → is_digit c = true → forallb numeral_char t = true →
  number_of_string ((if neg then [45] else []) ++ t) = parse_unsigned_decimal neg t.
Proof.
  intros -> Hc Ht. unfold number_of_string.
  rewrite trim_no_spaces.
  2:{ rewrite no_spaces_app, (numeral_no_spaces (c :: r)) by done. by destruct neg. }
  destruct neg; cbn [app take_sign]; [done|].
  pose proof (is_digit_range c Hc) as Hr.
  cbn [forallb] in Ht. apply andb_true_iff in Ht as [_ Ht].
  assert (c = 48 ∨ c = 49 ∨ c = 50 ∨ c = 51 ∨ c = 52 ∨ c = 53 ∨ c = 54 ∨ c = 55 ∨ c = 56 ∨ c = 57) as Hcs by lia.
  destruct Hcs as [->|[->|[->|[->|[->|[->|[->|[->|[->| ->]]]]]]]]]; try done.
  destruct r as [|d r]; [done|]. cbn [forallb] in Ht. apply andb_true_iff in Ht as [Hd _].
  unfold numeral_char, is_digit in Hd. rewrite !orb_true_iff, andb_true_iff, !Z.eqb_eq, !Z.leb_le in Hd.
  repeat (match goal with |- context [?a =? ?b] => destruct (Z.eqb_spec a b); [lia|] end; cbn [orb]).
  done.
Qed.

(** The value of [Number(String(x))]: every number comes back, negative zero as
    zero. *)
Definition unsigned_zero (x : number) : number :=
  match x with S754_zero _ => S754_zero false | _ => x end.

Theorem number_text_roundtrip (x : number) :
  valid_binary 53 1024 x = true → number_of_string (number_text x) = unsigned_zero x.
Proof.
  destruct x as [z|neg| |neg m e]; intros Hv; [by destruct z|by destruct neg|done|].
  unfold number_text. destruct (shortest_decimal neg m e) as [s t] eqn:E.
  apply shortest_decimal_denotes in E as [Hs Hx]; [|done].
  destruct (layout_head s Hs (Z.of_nat (length (string_of_Z s)) + t)) as (c & r & Hl & Hc).
  rewrite (number_of_numeral neg _ c r Hl Hc) by by apply layout_numeral.
  rewrite layout_parse by done. replace (Z.of_nat (length (string_of_Z s)) + t - Z.of_nat (length (string_of_Z s))) with t by lia. done.
Qed.
