(* ===== verification/Rounding.v ===== *)
(** * Rounding errors

    The product and the quotient of two normal binary64 numbers differ from the
    exact ones by at most one part in 2^53, as long as the result is in the
    normal range.  The proof follows the computation of [SpecFloat]: the exact
    value stays between the bounds a shifted mantissa and its two sticky bits
    describe, and the final step rounds it to the nearest. *)

From Stdlib Require Import Reals Lra.
From S2P Require Import Prelude JsString JsNumber NumberText.

Local Open Scope Z_scope.

(** ** Powers of two and the value of a number *)

Definition pow2 (e : Z) : R := powerRZ 2 e.

Lemma pow2_pos e : (0 < pow2 e)%R.
Proof. apply powerRZ_lt. lra. Qed.

Lemma pow2_add a b : pow2 (a + b) = (pow2 a * pow2 b)%R.
Proof. apply powerRZ_add. lra. Qed.

Lemma pow2_IZR n : 0 ≤ n → pow2 n = IZR (2 ^ n).
Proof.
  intros Hn. unfold pow2. rewrite <- (Z2Nat.id n) by done. rewrite <- pow_powerRZ.
  generalize (Z.to_nat n) as k. induction k as [|k IH]; [done|].
  rewrite Nat2Z.inj_succ, Z.pow_succ_r by lia. rewrite mult_IZR, <- IH. done.
Qed.

Lemma pow2_le a b : a ≤ b → (pow2 a <= pow2 b)%R.
Proof.
  intros H. replace b with (a + (b - a)) by lia. rewrite pow2_add, (pow2_IZR (b - a)) by lia.
  assert (1 <= IZR (2 ^ (b - a)))%R by (apply (IZR_le 1); pose proof (Z.pow_pos_nonneg 2 (b - a)); lia).
  pose proof (pow2_pos a). nra.
Qed.

Lemma pow2_lt_inv a b : (pow2 a < pow2 b)%R → a < b.
Proof. intros H. destruct (Z.lt_ge_cases a b) as [|Hab]; [done|]. apply pow2_le in Hab. lra. Qed.

Definition real (x : number) : R :=
  match x with
  | S754_finite s m e => ((if s then - IZR (Zpos m) else IZR (Zpos m)) * pow2 e)%R
  | _ => 0%R
  end.

(** Normal, positive numbers: a mantissa of 53 bits. *)
Definition normal (x : number) : Prop :=
  match x with
  | S754_finite false m e => 2 ^ 52 ≤ Zpos m < 2 ^ 53 ∧ -1074 ≤ e ≤ 971
  | _ => False
  end.

(** ** What a shift record says about the value *)

Definition bracket (mrs : shr_record) (a : R) : Prop :=
  let m := IZR (shr_m mrs) in
  match shr_r mrs, shr_s mrs with
  | false, false => a = m
  | false, true => (m < a < m + /2)%R
  | true, false => a = (m + /2)%R
  | true, true => (m + /2 < a < m + 1)%R
  end.

Lemma bracket_bounds mrs a : bracket mrs a → (IZR (shr_m mrs) <= a < IZR (shr_m mrs) + 1)%R.
Proof. unfold bracket. destruct (shr_r mrs), (shr_s mrs); lra. Qed.

Lemma IZR_xO p : IZR (Zpos (xO p)) = (2 * IZR (Zpos p))%R.
Proof. by rewrite Pos2Z.inj_xO, mult_IZR. Qed.
Lemma IZR_xI p : IZR (Zpos (xI p)) = (2 * IZR (Zpos p) + 1)%R.
Proof. by rewrite Pos2Z.inj_xI, plus_IZR, mult_IZR. Qed.

Lemma shr_1_half mrs : 0 ≤ shr_m mrs → shr_m (shr_1 mrs) = shr_m mrs / 2.
Proof.
  destruct mrs as [[|[p|p|]|p] r s]; cbn [shr_m shr_1]; intros Hm; try lia; [done|..|done].
  - rewrite (Pos2Z.inj_xI p). apply Z.div_unique with 1; lia.
  - rewrite (Pos2Z.inj_xO p). apply Z.div_unique with 0; lia.
Qed.

Lemma bracket_shr_1 mrs a : 0 ≤ shr_m mrs → bracket mrs a → bracket (shr_1 mrs) (a / 2).
Proof.
  destruct mrs as [[|[p|p|]|p] r s]; cbn [shr_m]; intros Hm H; [..|lia]; clear Hm;
    [|pose proof (IZR_xI p)|pose proof (IZR_xO p)|];
    destruct r, s; unfold bracket in *; cbn [shr_1 shr_m shr_r shr_s orb] in *; lra.
Qed.

Lemma bracket_shr n mrs a :
  0 ≤ shr_m mrs → bracket mrs a →
  bracket (Nat.iter n shr_1 mrs) (a / IZR (2 ^ Z.of_nat n)) ∧
  shr_m (Nat.iter n shr_1 mrs) = shr_m mrs / 2 ^ Z.of_nat n.
Proof.
  intros Hm H. induction n as [|n [IH1 IH2]].
  - cbn [Nat.iter]. rewrite Z.pow_0_r, Z.div_1_r. split; [|done]. by replace (a / 1)%R with a by field.
  - cbn [Nat.iter]. assert (0 < 2 ^ Z.of_nat n) by (apply Z.pow_pos_nonneg; lia).
    assert (0 ≤ shr_m (Nat.iter n shr_1 mrs)) as Hk by (rewrite IH2; by apply Z.div_pos).
    pose proof (bracket_shr_1 _ _ Hk IH1) as H1. pose proof (shr_1_half _ Hk) as H2.
    rewrite Nat2Z.inj_succ, Z.pow_succ_r by lia. split.
    + rewrite mult_IZR. replace (a / (2 * IZR (2 ^ Z.of_nat n)))%R with (a / IZR (2 ^ Z.of_nat n) / 2)%R; [done|].
      field. apply not_0_IZR. lia.
    + etransitivity; [exact H2|]. rewrite IH2, Z.div_div by lia. f_equal. lia.
Qed.

Lemma nearest_even_error mrs a :
  bracket mrs a →
  let m := round_nearest_even (shr_m mrs) (loc_of_shr_record mrs) in
  (Rabs (IZR m - a) <= /2)%R ∧ (m = shr_m mrs ∨ m = shr_m mrs + 1).
Proof.
  destruct mrs as [m r s]. unfold bracket. cbn [shr_m shr_r shr_s]. intros H.
  destruct r, s; cbn [loc_of_shr_record round_nearest_even] in *; try destruct (Z.even m);
    rewrite ?plus_IZR; (split; [apply Rabs_le; lra|auto]).
Qed.

(** ** Rounding a bracketed value *)

(** The relative error of one operation. *)
Definition unit_roundoff : R := pow2 (-53).

(** [approx r v]: the rounded [r] is within one unit roundoff of [v]. *)
Definition approx (r v : R) : Prop := ∃ d : R, (Rabs d <= unit_roundoff)%R ∧ r = (v * (1 + d))%R.

Lemma log2_bounds m : 0 < m → 2 ^ Z.log2 m ≤ m < 2 ^ (Z.log2 m + 1).
Proof. intros H. pose proof (Z.log2_spec m H). by replace (Z.log2 m + 1) with (Z.succ (Z.log2 m)) by lia. Qed.

Lemma shr_fexp_shift m e l n :
  2 ^ 52 ≤ m → n = Z.log2 m - 52 → -1074 ≤ n + e →
  shr_fexp 53 1024 m e l = (Nat.iter (Z.to_nat n) shr_1 (shr_record_of_loc m l), n + e).
Proof.
  intros Hm Hn He. pose proof (Z.log2_le_mono (2 ^ 52) m Hm) as Hl.
  rewrite Z.log2_pow2 in Hl by lia. unfold shr_fexp. rewrite Zdigits2_log2 by lia.
  unfold fexp, emin. replace (Z.max _ _ - e) with n by lia.
  destruct n as [|p|p]; [|..|lia]; cbn [shr].
  - f_equal.
  - rewrite iter_pos_iter. f_equal. lia.
Qed.

Lemma shr_record_of_loc_m m l : shr_m (shr_record_of_loc m l) = m.
Proof. by destruct l as [|[]]. Qed.

Lemma exact_bracket m : bracket (shr_record_of_loc m loc_Exact) (IZR m).
Proof. reflexivity. Qed.

(** The second normalisation, after rounding up to a power of two. *)
Lemma renormalize m e :
  2 ^ 52 ≤ m ≤ 2 ^ 53 → -1074 ≤ e →
  ∃ m' e', shr_fexp 53 1024 m e loc_Exact = (shr_record_of_loc m' loc_Exact, e') ∧
    2 ^ 52 ≤ m' < 2 ^ 53 ∧ e ≤ e' ≤ e + 1 ∧ (IZR m * pow2 e = IZR m' * pow2 e')%R.
Proof.
  intros Hm He. destruct (Z.eq_dec m (2 ^ 53)) as [->|Hne].
  - exists (2 ^ 52), (e + 1). rewrite (shr_fexp_shift _ _ _ 1) by (done || lia).
    split; [f_equal; lia|]. split; [lia|]. split; [lia|].
    rewrite pow2_add. change (pow2 1) with (2 * 1)%R.
    replace (2 ^ 53) with (2 * 2 ^ 52) by done. rewrite mult_IZR. lra.
  - exists m, e. assert (Z.log2 m = 52) as Hlog by (apply Z.log2_unique; lia).
    rewrite (shr_fexp_shift _ _ _ 0) by lia. split; [f_equal|]. split; [lia|]. split; [lia|done].
Qed.

Lemma round_aux_approx m e l a :
  2 ^ 52 ≤ m → bracket (shr_record_of_loc m l) a →
  -1074 ≤ Z.log2 m - 52 + e → (a * pow2 e < pow2 1023)%R →
  let x := binary_round_aux 53 1024 false m e l in normal x ∧ approx (real x) (a * pow2 e).
Proof.
  intros Hm Hb He Hv. cbv zeta. remember (Z.log2 m - 52) as n eqn:Hn.
  pose proof (Z.log2_le_mono (2 ^ 52) m Hm) as Hl. rewrite Z.log2_pow2 in Hl by lia.
  pose proof (bracket_shr (Z.to_nat n) (shr_record_of_loc m l) a ltac:(rewrite shr_record_of_loc_m; lia) Hb) as [Hb' Hm'].
  rewrite shr_record_of_loc_m, Z2Nat.id in * by lia.
  unfold binary_round_aux. rewrite (shr_fexp_shift m e l n) by (done || lia).
  set (mrs := Nat.iter _ _ _) in *. set (a' := (a / IZR (2 ^ n))%R) in *.
  assert (2 ^ 52 ≤ shr_m mrs < 2 ^ 53) as Hrange.
  { rewrite Hm'. pose proof (log2_bounds m ltac:(lia)) as Hmb.
    replace (Z.log2 m) with (n + 52) in Hmb by lia. replace (n + 52 + 1) with (n + 53) in Hmb by lia.
    rewrite !Z.pow_add_r in Hmb by lia. assert (0 < 2 ^ n) by (apply Z.pow_pos_nonneg; lia).
    split; [apply Z.div_le_lower_bound; lia|apply Z.div_lt_upper_bound; lia]. }
  destruct (nearest_even_error _ _ Hb') as [Herr Hmr]. set (mr := round_nearest_even _ _) in *.
  destruct (renormalize mr (n + e)) as (m2 & e2 & -> & Hm2 & He2 & Hval); [lia..|].
  rewrite shr_record_of_loc_m. destruct m2 as [|p|p]; [lia|..|lia].
  assert (IZR (2 ^ n) * pow2 e = pow2 (n + e))%R as Hscale by by rewrite pow2_add, (pow2_IZR n) by lia.
  assert (0 < IZR (2 ^ n))%R as Hpos by (apply (IZR_lt 0), Z.pow_pos_nonneg; lia).
  assert (a * pow2 e = a' * pow2 (n + e))%R as Hav by (rewrite <- Hscale; unfold a'; field; lra).
  apply bracket_bounds in Hb'. assert (IZR (2 ^ 52) <= a')%R as Ha'.
  { eapply Rle_trans; [apply IZR_le, Hrange|]. lra. }
  pose proof (pow2_pos (n + e)) as Hpe.
  assert (n + e < 971) as Htop.
  { enough (52 + (n + e) < 1023) by lia. apply pow2_lt_inv.
    rewrite pow2_add, (pow2_IZR 52) by lia. rewrite Hav in Hv. nra. }
  rewrite (proj2 (Z.leb_le e2 (1024 - 53))) by lia. split; [cbn [normal]; lia|].
  exists ((IZR mr - a') / a')%R. cbn [real]. rewrite <- Hval, Hav.
  assert (0 < a')%R by (pose proof (IZR_lt 0 (2 ^ 52) ltac:(lia)); lra).
  split; [|field; lra]. unfold Rdiv. rewrite Rabs_mult, (Rabs_right (/ a')) by (left; by apply Rinv_0_lt_compat).
  apply Rle_trans with (/2 * / IZR (2 ^ 52))%R.
  - apply Rmult_le_compat; [apply Rabs_pos|left; by apply Rinv_0_lt_compat|done|].
    apply Rinv_le_contravar; [|done]. apply (IZR_lt 0). lia.
  - right. unfold unit_roundoff, pow2. cbn [powerRZ]. rewrite <- Rinv_mult. f_equal.
    rewrite <- (mult_IZR 2). change (2 * 2 ^ 52) with (2 ^ 53). rewrite <- (pow2_IZR 53) by lia. done.
Qed.

(** ** Multiplication and division *)

Lemma normal_real x : normal x → (0 < real x)%R.
Proof.
  destruct x as [| | |[] m e]; try done. intros _. cbn [real].
  apply Rmult_lt_0_compat; [by apply (IZR_lt 0)|apply pow2_pos].
Qed.

(** A value above 2^-1000 is far from the subnormal numbers. *)
Lemma above_subnormal m e a :
  0 < m → (a < IZR m + 1)%R → (pow2 (-1000) <= a * pow2 e)%R → -1074 ≤ Z.log2 m - 52 + e.
Proof.
  intros Hm Ha Hv. enough (-1000 < Z.log2 m + 1 + e) by lia. apply pow2_lt_inv.
  rewrite pow2_add, (pow2_IZR (Z.log2 m + 1)) by (pose proof (Z.log2_nonneg m); lia).
  pose proof (log2_bounds m Hm) as [_ Hb]. pose proof (pow2_pos e).
  assert (IZR m + 1 <= IZR (2 ^ (Z.log2 m + 1)))%R by (rewrite <- plus_IZR; apply IZR_le; lia).
  nra.
Qed.

Lemma mul_approx x y :
  normal x → normal y → (pow2 (-1000) <= real x * real y < pow2 1023)%R →
  normal (num_mul x y) ∧ approx (real (num_mul x y)) (real x * real y).
Proof.
  destruct x as [| | |[] mx ex], y as [| | |[] my ey]; try done. cbn [normal real].
  intros [Hx _] [Hy _]. change (num_mul _ _) with (binary_round_aux 53 1024 false (Zpos (mx * my)) (ex + ey) loc_Exact).
  replace (IZR (Zpos mx) * pow2 ex * (IZR (Zpos my) * pow2 ey))%R
    with (IZR (Zpos (mx * my)) * pow2 (ex + ey))%R
    by (rewrite Pos2Z.inj_mul, mult_IZR, pow2_add; ring).
  intros [Hlo Hhi]. apply round_aux_approx; [nia|apply exact_bracket| |done].
  apply above_subnormal with (IZR (Zpos (mx * my))); [done|lra|done].
Qed.

Lemma new_location_spec d r :
  0 ≤ r → new_location d r = if r =? 0 then loc_Exact else loc_Inexact (2 * r ?= d).
Proof.
  intros Hr. unfold new_location, new_location_even, new_location_odd.
  destruct (Z.even d) eqn:E; [done|]. destruct (r =? 0); [done|]. f_equal.
  assert (2 * r ≠ d) by (intros <-; by rewrite Z.even_mul in E).
  destruct (Z.compare_spec (2 * r + 1) d), (Z.compare_spec (2 * r) d); try done; lia.
Qed.

Lemma division_bracket m d :
  0 < d → bracket (shr_record_of_loc (m / d) (new_location d (m mod d))) (IZR m / IZR d).
Proof.
  intros Hd. pose proof (Z.div_mod m d ltac:(lia)) as Hm. pose proof (Z.mod_pos_bound m d Hd) as Hr.
  remember (m / d) as q eqn:Eq. remember (m mod d) as r eqn:Er. clear Eq Er. subst m.
  assert (0 < IZR d)%R as Hd' by (by apply (IZR_lt 0)).
  replace (IZR (d * q + r) / IZR d)%R with (IZR q + IZR r / IZR d)%R
    by (rewrite plus_IZR, mult_IZR; field; lra).
  assert (∀ c, IZR r / IZR d < c ↔ IZR r < c * IZR d)%R as Hlt.
  { intros c. split; intros H; [replace (IZR r) with (IZR r / IZR d * IZR d)%R by (field; lra); nra|].
    apply Rmult_lt_reg_r with (IZR d); [done|]. replace (IZR r / IZR d * IZR d)%R with (IZR r) by (field; lra). done. }
  assert (IZR r < IZR d)%R as Hr1 by (apply IZR_lt; lia).
  rewrite new_location_spec by lia. destruct (Z.eqb_spec r 0) as [->|Hne].
  { unfold bracket. cbn. field. lra. }
  assert (0 < IZR r)%R as Hr0 by (apply (IZR_lt 0); lia).
  assert (0 < IZR r / IZR d)%R as Hq0 by (by apply Rdiv_lt_0_compat).
  assert (IZR r / IZR d < 1)%R as Hq1 by (apply Hlt; lra).
  destruct (Z.compare_spec (2 * r) d) as [H2|H2|H2]; unfold bracket; cbn [shr_record_of_loc shr_m shr_r shr_s].
  - f_equal. rewrite <- H2, mult_IZR in *. field. lra.
  - apply IZR_lt in H2. rewrite mult_IZR in H2. assert (IZR r / IZR d < /2)%R by (apply Hlt; lra). lra.
  - apply IZR_lt in H2. rewrite mult_IZR in H2. destruct (Rlt_le_dec (/2) (IZR r / IZR d)) as [|H3]; [lra|].
    exfalso. assert (IZR r <= /2 * IZR d)%R; [|lra].
    replace (IZR r) with (IZR r / IZR d * IZR d)%R by (field; lra). nra.
Qed.

Lemma mantissa_digits m : 2 ^ 52 ≤ Zpos m < 2 ^ 53 → Zdigits2 (Zpos m) = 53.
Proof. intros H. rewrite Zdigits2_log2 by lia. rewrite (Z.log2_unique _ 52) by lia. done. Qed.

Lemma div_approx x y :
  normal x → normal y → (pow2 (-1000) <= real x / real y < pow2 1023)%R →
  normal (num_div x y) ∧ approx (real (num_div x y)) (real x / real y).
Proof.
  destruct x as [| | |[] mx ex], y as [| | |[] my ey]; try done. cbn [normal real].
  intros [Hx _] [Hy _] Hv.
  assert (0 < IZR (Zpos my))%R as Hmy by (by apply (IZR_lt 0)).
  pose proof (pow2_pos ey) as Hpey. pose proof (pow2_pos (ex - ey)) as Hp.
  replace (IZR (Zpos mx) * pow2 ex / (IZR (Zpos my) * pow2 ey))%R
    with (IZR (Zpos mx) / IZR (Zpos my) * pow2 (ex - ey))%R in *
    by (replace ex with (ex - ey + ey) at 2 by lia; rewrite pow2_add; field; lra).
  assert (-1000 < ex - ey + 1) as He.
  { apply pow2_lt_inv. rewrite pow2_add. change (pow2 1) with (2 * 1)%R.
    assert (IZR (Zpos mx) / IZR (Zpos my) < 2)%R; [|nra]. apply Rmult_lt_reg_r with (IZR (Zpos my)); [done|].
    replace (IZR (Zpos mx) / IZR (Zpos my) * IZR (Zpos my))%R with (IZR (Zpos mx)) by (field; lra).
    rewrite <- mult_IZR. apply IZR_lt. lia. }
  unfold num_div, SFdiv, SFdiv_core_binary. cbn [xorb].
  rewrite !mantissa_digits by done. unfold fexp, emin.
  replace (Z.min _ _) with (ex - ey - 53) by lia. replace (ex - ey - (ex - ey - 53)) with 53 by lia.
  rewrite Z.shiftl_mul_pow2 by lia.
  pose proof (division_bracket (Zpos mx * 2 ^ 53) (Zpos my) ltac:(lia)) as Hb.
  unfold Z.div, Z.modulo in Hb. destruct (Z.div_eucl (Zpos mx * 2 ^ 53) (Zpos my)) as [q r] eqn:E.
  assert (IZR (Zpos mx) / IZR (Zpos my) * pow2 (ex - ey) =
          IZR (Zpos mx * 2 ^ 53) / IZR (Zpos my) * pow2 (ex - ey - 53))%R as Heq.
  { replace (ex - ey) with (ex - ey - 53 + 53) at 1 by lia.
    rewrite pow2_add, mult_IZR, (pow2_IZR 53) by lia. field. lra. }
  rewrite Heq in *. assert (2 ^ 52 ≤ q) as Hq.
  { replace q with (Zpos mx * 2 ^ 53 / Zpos my) by (unfold Z.div; by rewrite E).
    apply Z.div_le_lower_bound; lia. }
  apply round_aux_approx; [done|done| |lra].
  apply above_subnormal with (IZR (Zpos mx * 2 ^ 53) / IZR (Zpos my))%R; [lia| |lra].
  apply bracket_bounds in Hb. rewrite shr_record_of_loc_m in Hb. lra.
Qed.

(** ** Integers *)

Lemma iter_xO p d : Zpos (Pos.iter xO p d) = Zpos p * 2 ^ Zpos d.
Proof.
  induction d as [|d IH] using Pos.peano_ind; [cbn [Pos.iter]; lia|].
  rewrite Pos.iter_succ, Pos2Z.inj_xO, IH, Pos2Z.inj_succ, Z.pow_succ_r by lia. lia.
Qed.

Lemma normal_canonical m e : 2 ^ 52 ≤ Zpos m < 2 ^ 53 → -1074 ≤ e ≤ 971 → canonical m e.
Proof.
  intros Hm He. unfold canonical, bounded, canonical_mantissa. rewrite digits2_log2.
  rewrite (Z.log2_unique _ 52) by lia. unfold fexp, emin. apply andb_true_iff. split; [apply Z.eqb_eq|apply Z.leb_le]; lia.
Qed.

(** Integers below 2^53 are exact. *)
Lemma integer_exact n : 0 < n < 2 ^ 53 → normal (num_of_Z n) ∧ real (num_of_Z n) = IZR n.
Proof.
  intros Hn. destruct n as [|p|p]; [lia|..|lia].
  pose proof (log2_bounds (Zpos p) ltac:(lia)) as Hb. set (k := Z.log2 (Zpos p)) in *.
  pose proof (Z.log2_nonneg (Zpos p)) as Hk0. fold k in Hk0.
  assert (k < 53) as Hk by (apply (Z.pow_lt_mono_r_iff 2); lia).
  assert (∃ m, Zpos m = Zpos p * 2 ^ (52 - k) ∧ num_of_Z (Zpos p) = S754_finite false m (k - 52)) as (m & Hm & ->).
  { unfold num_of_Z, binary_normalize, binary_round. rewrite digits2_log2. fold k. unfold fexp, emin.
    replace (Z.max _ _) with (k - 52) by lia. unfold shl_align.
    assert (∀ m, Zpos m = Zpos p * 2 ^ (52 - k) → canonical m (k - 52)) as Hc.
    { intros m Hm. apply normal_canonical; [|lia]. rewrite Hm.
      replace (2 ^ 52) with (2 ^ k * 2 ^ (52 - k)) by (rewrite <- Z.pow_add_r by lia; f_equal; lia).
      replace (2 ^ 53) with (2 ^ (k + 1) * 2 ^ (52 - k)) by (rewrite <- Z.pow_add_r by lia; f_equal; lia).
      pose proof (Z.pow_pos_nonneg 2 (52 - k)). nia. }
    destruct (k - 52 - 0) as [|d|d] eqn:Ed; [|lia|].
    - exists p. replace (52 - k) with 0 in * by lia. split; [lia|].
      pose proof (round_aux_exact false p (k - 52) 0 (Hc p ltac:(lia)) ltac:(lia)) as Hr.
      rewrite Z.mul_1_r in Hr. by replace (k - 52 - 0) with 0 in Hr by lia.
    - exists (Pos.iter xO p d). replace (52 - k) with (Zpos d) in * by lia.
      split; [apply iter_xO|]. pose proof (round_aux_exact false _ (k - 52) 0 (Hc _ (iter_xO p d)) ltac:(lia)) as Hr.
      rewrite Z.mul_1_r in Hr. by replace (k - 52 - 0) with (k - 52) in Hr by lia. }
  assert (2 ^ 52 = 2 ^ k * 2 ^ (52 - k)) as E52 by (rewrite <- Z.pow_add_r by lia; f_equal; lia).
  assert (2 ^ 53 = 2 ^ (k + 1) * 2 ^ (52 - k)) as E53 by (rewrite <- Z.pow_add_r by lia; f_equal; lia).
  pose proof (Z.pow_pos_nonneg 2 (52 - k)). split; [cbn [normal]; nia|].
  cbn [real]. rewrite Hm, mult_IZR, <- (pow2_IZR (52 - k)) by lia.
  rewrite Rmult_assoc, <- pow2_add. replace (52 - k + (k - 52)) with 0 by lia. cbn. lra.
Qed.

(** [Math.round] of a number close to an integer *)
Lemma round_near x n :
  normal x → 0 < n < 2 ^ 51 → (Rabs (real x - IZR n) < /2)%R → num_round x = num_of_Z n.
Proof.
  destruct x as [| | |[] m e]; try done. cbn [normal real]. intros [Hm He] Hn [Hlo Hhi]%Rabs_def2.
  pose proof (pow2_pos e) as Hp. assert (IZR (2 ^ 52) <= IZR (Zpos m))%R as Hm' by (apply IZR_le; lia).
  assert (e < 0) as Hneg.
  { enough (52 + e < 52) by lia. apply pow2_lt_inv. rewrite pow2_add, (pow2_IZR 52) by lia.
    assert (IZR n + /2 < IZR (2 ^ 52))%R.
    { assert (IZR n + 1 <= IZR (2 ^ 52))%R; [|lra]. rewrite <- plus_IZR. apply IZR_le. lia. }
    nra. }
  assert (0 < 2 ^ (- e)) as Hd by (apply Z.pow_pos_nonneg; lia).
  assert (IZR (Zpos m) = IZR (Zpos m) * pow2 e * IZR (2 ^ (- e)))%R as Hmd.
  { rewrite <- (pow2_IZR (- e)) by lia. rewrite Rmult_assoc, <- pow2_add.
    replace (e + - e) with 0 by lia. cbn. lra. }
  apply (IZR_lt 0) in Hd as Hd'.
  unfold num_round. rewrite (proj2 (Z.leb_gt 0 e)) by lia.
  replace ((2 * Zpos m + 2 ^ (- e)) / (2 * 2 ^ (- e))) with n.
  { by rewrite (proj2 (Z.eqb_neq n 0)) by lia. }
  apply Z.div_unique with (2 * Zpos m + 2 ^ (- e) - 2 * 2 ^ (- e) * n); [left|lia].
  split.
  - enough (2 * 2 ^ (- e) * n ≤ 2 * Zpos m + 2 ^ (- e)) by lia. apply le_IZR.
    rewrite plus_IZR, !mult_IZR. nra.
  - enough (2 * Zpos m + 2 ^ (- e) < 2 * 2 ^ (- e) * n + 2 * 2 ^ (- e)) by lia. apply lt_IZR.
    rewrite !plus_IZR, !mult_IZR. nra.
Qed.

(** ** Chains of operations *)

Lemma roundoff_small : (0 < unit_roundoff < / 1000)%R.
Proof.
  split; [apply pow2_pos|]. unfold unit_roundoff, pow2. cbn [powerRZ].
  apply Rinv_lt_contravar; [|]; change (Pos.to_nat 53) with 53%nat; cbn [pow]; lra.
Qed.

(** Orders of magnitude: [v] is between 2^-k and 2^k. *)
Definition order (k : Z) (v : R) : Prop := (pow2 (- k) <= v <= pow2 k)%R.

Lemma order_pos k v : order k v → (0 < v)%R.
Proof. intros [H _]. pose proof (pow2_pos (- k)). lra. Qed.

Lemma order_mul j k v w : order j v → order k w → order (j + k) (v * w).
Proof.
  intros [H1 H2] [H3 H4]. pose proof (pow2_pos (- j)). pose proof (pow2_pos (- k)).
  split; [replace (- (j + k)) with (- j + - k) by lia|]; rewrite pow2_add; apply Rmult_le_compat; lra.
Qed.

Lemma order_inv k v : order k v → order k (/ v).
Proof.
  intros [H1 H2]. assert (∀ e, pow2 (- e) = / pow2 e)%R as Hinv.
  { intros e. apply Rmult_eq_reg_r with (pow2 e); [|pose proof (pow2_pos e); lra].
    rewrite <- pow2_add. replace (- e + e) with 0 by lia. cbn. field. pose proof (pow2_pos e). lra. }
  pose proof (pow2_pos (- k)). split.
  - rewrite Hinv. apply Rinv_le_contravar; lra.
  - replace k with (- - k) by lia. rewrite Hinv. apply Rinv_le_contravar; lra.
Qed.

Lemma order_div j k v w : order j v → order k w → order (j + k) (v / w).
Proof. intros Hv Hw. apply order_mul; [done|by apply order_inv]. Qed.

Lemma order_approx k r v : approx r v → order k v → order (k + 1) r.
Proof.
  intros (d & Hd & ->) Hv. apply order_mul; [done|]. pose proof roundoff_small.
  assert (Rabs d < / 500)%R as [? ?]%Rabs_def2 by lra.
  unfold order. change (pow2 1) with (2 * 1)%R. change (pow2 (- (1))) with (/ (2 * 1))%R. lra.
Qed.

Lemma order_range k v : k ≤ 1000 → order k v → (pow2 (-1000) <= v < pow2 1023)%R.
Proof.
  intros Hk [H1 H2]. pose proof (pow2_le (-1000) (- k) ltac:(lia)). split; [lra|].
  apply Rle_lt_trans with (pow2 k); [done|].
  apply Rle_lt_trans with (pow2 1000); [by apply pow2_le|].
  replace 1023 with (23 + 1000) by lia. rewrite pow2_add. pose proof (pow2_pos 1000).
  rewrite (pow2_IZR 23) by lia. change (2 ^ 23) with 8388608. nra.
Qed.

(** [tracks k x v d]: [x] is a normal number of order [k] and equals [v] up to the
    relative error [d]. *)
Definition tracks (k : Z) (x : number) (v : R) (d : R) : Prop :=
  normal x ∧ order k (real x) ∧ ∃ c, (Rabs (c - 1) <= d)%R ∧ real x = (v * c)%R.

Lemma error_step c d d' :
  (Rabs (c - 1) <= d)%R → (Rabs d' <= unit_roundoff)%R → (d <= / 100)%R →
  (Rabs (c * (1 + d') - 1) <= d + 2 * unit_roundoff)%R.
Proof.
  intros Hc Hd' Hd. pose proof roundoff_small as Hu.
  replace (c * (1 + d') - 1)%R with ((c - 1) + c * d')%R by ring.
  eapply Rle_trans; [apply Rabs_triang|]. rewrite Rabs_mult.
  assert (Rabs c <= 2)%R.
  { replace c with ((c - 1) + 1)%R by ring. eapply Rle_trans; [apply Rabs_triang|]. rewrite (Rabs_right 1); lra. }
  pose proof (Rabs_pos c). pose proof (Rabs_pos d'). nra.
Qed.

Lemma tracks_mul j k x v d y :
  tracks j x v d → normal y → order k (real y) → (d <= / 100)%R → j + k ≤ 999 →
  tracks (j + k + 1) (num_mul x y) (v * real y) (d + 2 * unit_roundoff).
Proof.
  intros (Hx & Hox & c & Hc & Ev) Hy Hoy Hd Hjk. pose proof (order_mul _ _ _ _ Hox Hoy) as Hxy.
  destruct (mul_approx x y) as [Hn Ha]; [done..|apply (order_range (j + k)); [lia|done]|].
  split; [done|]. split; [by apply order_approx with (real x * real y)%R|].
  destruct Ha as (d' & Hd' & ->). exists (c * (1 + d'))%R. split; [by apply error_step|].
  rewrite Ev. ring.
Qed.

Lemma tracks_div j k x v d y :
  tracks j x v d → normal y → order k (real y) → (d <= / 100)%R → j + k ≤ 999 →
  tracks (j + k + 1) (num_div x y) (v / real y) (d + 2 * unit_roundoff).
Proof.
  intros (Hx & Hox & c & Hc & Ev) Hy Hoy Hd Hjk. pose proof (order_div _ _ _ _ Hox Hoy) as Hxy.
  destruct (div_approx x y) as [Hn Ha]; [done..|apply (order_range (j + k)); [lia|done]|].
  split; [done|]. split; [by apply order_approx with (real x / real y)%R|].
  destruct Ha as (d' & Hd' & ->). exists (c * (1 + d'))%R. split; [by apply error_step|].
  rewrite Ev. pose proof (order_pos _ _ Hoy). field. lra.
Qed.

Lemma tracks_integer n : 0 < n < 2 ^ 53 → tracks 53 (num_of_Z n) (IZR n) 0.
Proof.
  intros Hn. destruct (integer_exact n Hn) as [Hnorm Hr]. split; [done|]. split.
  - rewrite Hr. split.
    + apply Rle_trans with (pow2 0); [apply pow2_le; lia|]. apply (IZR_le 1). lia.
    + rewrite pow2_IZR by lia. apply IZR_le. lia.
  - exists 1%R. rewrite Hr. split; [|ring]. replace (1 - 1)%R with 0%R by ring. rewrite Rabs_R0. lra.
Qed.

(** A computation that tracks an integer closely enough rounds to it. *)
Lemma tracks_round k x n d :
  tracks k x (IZR n) d → 0 < n < 2 ^ 51 → (IZR n * d < / 2)%R → num_round x = num_of_Z n.
Proof.
  intros (Hx & _ & c & Hc & Ev) Hn Hd. apply round_near; [done..|]. rewrite Ev.
  replace (IZR n * c - IZR n)%R with (IZR n * (c - 1))%R by ring. rewrite Rabs_mult.
  assert (0 < IZR n)%R by (apply (IZR_lt 0); lia). rewrite (Rabs_right (IZR n)) by lra. nra.
Qed.

(** ** The sign of a difference *)

(** A finite number in units of the smallest positive one. *)
Definition in_units (x : number) : Z :=
  match x with
  | S754_finite s m e => (if s then Zneg m else Zpos m) * 2 ^ (e + 1074)
  | _ => 0
  end.

Lemma shr_fexp_pos m e :
  0 < m → -1074 ≤ e →
  ∃ mrs e', shr_fexp 53 1024 m e loc_Exact = (mrs, e') ∧ 0 < shr_m mrs ∧ -1074 ≤ e'.
Proof.
  intros Hm He. destruct (Z.lt_ge_cases m (2 ^ 52)) as [Hlt|Hge].
  - exists (shr_record_of_loc m loc_Exact), e. unfold shr_fexp. rewrite Zdigits2_log2 by done.
    assert (Z.log2 m < 52) by (by apply Z.log2_lt_pow2). unfold fexp, emin, shr.
    destruct (Z.max _ _ - e) eqn:E; [done|lia|done].
  - pose proof (Z.log2_le_mono _ _ Hge) as Hl. rewrite Z.log2_pow2 in Hl by lia.
    rewrite (shr_fexp_shift m e loc_Exact (Z.log2 m - 52)) by lia. eexists _, _. split; [done|]. split; [|lia].
    destruct (bracket_shr (Z.to_nat (Z.log2 m - 52)) (shr_record_of_loc m loc_Exact) (IZR m)) as [_ ->];
      [rewrite shr_record_of_loc_m; lia|apply exact_bracket|].
    rewrite shr_record_of_loc_m, Z2Nat.id by lia. apply Z.div_str_pos.
    pose proof (log2_bounds m Hm) as [Hb _]. pose proof (Z.pow_le_mono_r 2 (Z.log2 m - 52) (Z.log2 m)).
    pose proof (Z.pow_pos_nonneg 2 (Z.log2 m - 52)). lia.
Qed.

Lemma round_nearest_even_ge m l : m ≤ round_nearest_even m l.
Proof. destruct l as [|[]]; cbn; try destruct (Z.even m); lia. Qed.

Lemma binary_round_sgn s p e : -1074 ≤ e → num_sgn (binary_round 53 1024 s p e) = if s then -1 else 1.
Proof.
  intros He. unfold binary_round.
  assert (∃ mz ez, shl_align p e (fexp 53 1024 (Zpos (digits2_pos p) + e)) = (mz, ez) ∧ -1074 ≤ ez) as (mz & ez & -> & Hez).
  { unfold shl_align. destruct (_ - e); eexists _, _; (split; [done|]); [done..|unfold fexp, emin; lia]. }
  unfold binary_round_aux. destruct (shr_fexp_pos (Zpos mz) ez) as (mrs & e1 & -> & Hm1 & He1); [lia..|].
  pose proof (round_nearest_even_ge (shr_m mrs) (loc_of_shr_record mrs)).
  destruct (shr_fexp_pos (round_nearest_even (shr_m mrs) (loc_of_shr_record mrs)) e1) as (mrs2 & e2 & -> & Hm2 & He2); [lia..|].
  destruct (shr_m mrs2); [lia| |lia]. by destruct (_ <=? _).
Qed.

Definition ordinary (x : number) : Prop :=
  match x with S754_zero _ => True | S754_finite _ _ e => -1074 ≤ e | _ => False end.

Lemma shl_align_units m e ez :
  ez ≤ e → Zpos (fst (shl_align m e ez)) = Zpos m * 2 ^ (e - ez).
Proof.
  intros H. unfold shl_align. destruct (ez - e) as [|d|d] eqn:E; cbn [fst].
  - replace (e - ez) with 0 by lia. lia.
  - lia.
  - replace (e - ez) with (Zpos d) by lia. apply iter_xO.
Qed.

(** The difference of two finite numbers has the sign of the exact one. *)
Lemma sub_sgn x y :
  ordinary x → ordinary y → num_sgn (num_sub x y) = Z.sgn (in_units x - in_units y).
Proof.
  assert (∀ e, -1074 ≤ e → 0 < 2 ^ (e + 1074)) as Hp by (intros; apply Z.pow_pos_nonneg; lia).
  destruct x as [sx| | |sx mx ex], y as [sy| | |sy my ey]; try done; cbn [ordinary in_units]; intros Hx Hy.
  - by destruct sx, sy.
  - pose proof (Hp ey Hy). destruct sy; cbn [num_sub SFsub negb num_sgn]; nia.
  - pose proof (Hp ex Hx). destruct sx; cbn [num_sub SFsub num_sgn]; nia.
  - unfold num_sub, SFsub. set (ez := Z.min ex ey).
    rewrite !shl_align_units by lia. set (d := _ - _).
    assert ((if sx then Zneg mx else Zpos mx) * 2 ^ (ex + 1074) - (if sy then Zneg my else Zpos my) * 2 ^ (ey + 1074)
      = d * 2 ^ (ez + 1074)) as ->.
    { unfold d. replace (ex + 1074) with (ex - ez + (ez + 1074)) by lia.
      replace (ey + 1074) with (ey - ez + (ez + 1074)) by lia.
      rewrite (Z.pow_add_r 2 (ex - ez)), (Z.pow_add_r 2 (ey - ez)) by lia.
      destruct sx, sy; cbn [cond_Zopp]; rewrite <- ?Pos2Z.opp_pos; ring. }
    rewrite Z.sgn_mul, (Z.sgn_pos (2 ^ (ez + 1074))), Z.mul_1_r by (apply Hp; lia).
    destruct d; cbn [binary_normalize num_sgn Z.sgn]; [done|by apply binary_round_sgn; lia..].
Qed.

(** ** Whole numbers *)

Lemma integer_canonical m e :
  canonical m e → e < 0 → Zpos m mod 2 ^ (- e) = 0 → num_of_Z (Zpos m / 2 ^ (- e)) = S754_finite false m e.
Proof.
  intros Hc He Hm. assert (0 < 2 ^ (- e)) as Hp by (apply Z.pow_pos_nonneg; lia).
  pose proof (Z.div_mod (Zpos m) (2 ^ (- e)) ltac:(lia)) as Hd. rewrite Hm, Z.add_0_r in Hd.
  destruct (Zpos m / 2 ^ (- e)) as [|q|q] eqn:Eq; [lia| |lia].
  unfold num_of_Z, binary_normalize, binary_round. rewrite digits2_log2.
  assert (Z.log2 (Zpos m) = Z.log2 (Zpos q) - e) as Hl.
  { rewrite Hd, Z.mul_comm, log2_scaled by lia. lia. }
  pose proof (canonical_fexp _ _ Hc) as [Hf _].
  replace (Z.log2 (Zpos q) + 1 + 0) with (Z.log2 (Zpos m) + 1 + e) by lia. rewrite Hf.
  unfold shl_align. replace (e - 0) with e by lia. destruct e as [|d|d]; [lia|lia|].
  assert (Pos.iter xO q d = m) as -> by (apply (inj Zpos); rewrite iter_xO, Hd; change (- Z.neg d) with (Zpos d); ring).
  pose proof (round_aux_exact false m (Z.neg d) 0 Hc ltac:(lia)) as Hr.
  by rewrite Z.mul_1_r, Z.sub_0_r in Hr.
Qed.

(** A whole number that is at most the [max] below is the binary64 of an integer. *)
Lemma whole_small x :
  valid_binary 53 1024 x = true → is_integer x = true →
  num_leb (num_of_Z 1) x = true → num_leb x (num_of_Z 2047) = true → ∃ n, 0 < n < 2048 ∧ x = num_of_Z n.
Proof.
  intros Hv Hi H1 H2. destruct x as [| | |s m e]; try (by destruct s); try done.
  destruct s; [done|]. assert (e ≤ -42) as He.
  { revert H2. unfold num_leb, SFleb, SFcompare. change (num_of_Z 2047) with (S754_finite false 9002801208229888 (-42)).
    cbn iota. destruct (Z.compare_spec e (-42)); [lia|lia|done]. }
  unfold is_integer in Hi. apply orb_true_iff in Hi as [Hi|Hi]; [lia|]. apply Z.eqb_eq in Hi.
  pose proof (integer_canonical m e Hv ltac:(lia) Hi) as E. eexists. split; [|by rewrite E].
  pose proof (canonical_fexp m e Hv) as [Hf _].
  assert (0 < 2 ^ (- e)) as Hp by (apply Z.pow_pos_nonneg; lia). split.
  - apply Z.div_str_pos. split; [done|]. destruct (Z.le_gt_cases (2 ^ (- e)) (Zpos m)) as [|Hlt]; [done|].
    rewrite Z.mod_small in Hi by lia. lia.
  - apply Z.div_lt_upper_bound; [done|].
    assert (Z.log2 (Zpos m) ≤ 52) as Hl by (unfold fexp, emin in Hf; lia).
    pose proof (Z.log2_spec (Zpos m) ltac:(lia)) as [_ Hu].
    assert (2 ^ Z.succ (Z.log2 (Zpos m)) ≤ 2 ^ 53) by (apply Z.pow_le_mono_r; lia).
    change 2048 with (2 ^ 11). rewrite <- Z.pow_add_r by lia.
    assert (2 ^ 53 ≤ 2 ^ (- e + 11)) by (apply Z.pow_le_mono_r; lia). lia.
Qed.
