(* ===== verification/Regex.v ===== *)
(** * Regular expressions

    The console recognises its billing expressions with regular expressions.
    This file gives the part of the language's pattern semantics they use: a
    pattern is matched against the code units at the current position with a
    continuation for the rest of the pattern, alternatives from left to right,
    greedy quantifiers from the longest to the shortest, lazy ones from the
    shortest to the longest, an iteration that
    consumes nothing rejected, captures and back references.  The matcher is
    structural in the pattern; a quantifier iterates at most once per remaining
    code unit, which is all an iteration that must consume can do. *)

From S2P Require Import Prelude JsString.

Inductive regex :=
| RSet (p : Z → bool)
| RSeq (a b : regex)
| RAlt (a b : regex)
| RStar (a : regex)
| RLazy (a : regex)
| ROpt (a : regex)
| RGroup (i : nat) (a : regex)
| RBack (i : nat)
| REps
| REnd
| RWordB.

(** Where the matcher stands: the code units before (the last one first), those
    after, and the captures, the latest first. *)
Record mstate := MState { before : jsstr; rest : jsstr; caps : list (nat * jsstr) }.

Definition cap_lookup (l : list (nat * jsstr)) (i : nat) : option jsstr :=
  snd <$> List.find (λ c, (c.1 =? i)%nat) l.

Definition capture (st : mstate) (i : nat) : option jsstr := cap_lookup (caps st) i.

Definition advance (w : jsstr) (st : mstate) : mstate :=
  MState (reverse w ++ before st) (drop (length w) (rest st)) (caps st).

Definition set_capture (i : nat) (w : jsstr) (st : mstate) : mstate :=
  MState (before st) (rest st) ((i, w) :: caps st).

(** [\w] and the two sides of [\b] *)
Definition is_word (c : Z) : bool :=
  is_digit c || ((65 <=? c) && (c <=? 90)) || ((97 <=? c) && (c <=? 122)) || (c =? 95).

Definition head_is_word (s : jsstr) : bool :=
  match s with c :: _ => is_word c | [] => false end.

Fixpoint rmatch {A : Type} (r : regex) (st : mstate) (k : mstate → option A) : option A :=
  match r with
  | RSet p =>
    match rest st with
    | c :: s => if p c then k (MState (c :: before st) s (caps st)) else None
    | [] => None
    end
  | RSeq a b => rmatch a st (λ st', rmatch b st' k)
  | RAlt a b => match rmatch a st k with Some x => Some x | None => rmatch b st k end
  | ROpt a => match rmatch a st k with Some x => Some x | None => k st end
  | RStar a =>
    (fix loop (n : nat) (st : mstate) : option A :=
       match n with
       | O => k st
       | S n' =>
         match rmatch a st (λ st',
                 if (length (rest st') <? length (rest st))%nat then loop n' st' else None)
         with
         | Some x => Some x
         | None => k st
         end
       end) (length (rest st)) st
  | RLazy a =>
    (fix loop (n : nat) (st : mstate) : option A :=
       match k st with
       | Some x => Some x
       | None =>
         match n with
         | O => None
         | S n' =>
           rmatch a st (λ st',
             if (length (rest st') <? length (rest st))%nat then loop n' st' else None)
         end
       end) (length (rest st)) st
  | RGroup i a =>
    rmatch a st (λ st',
      k (set_capture i (take (length (rest st) - length (rest st')) (rest st)) st'))
  | RBack i =>
    let w := default [] (capture st i) in
    if starts_with w (rest st) then k (advance w st) else None
  | REps => k st
  | REnd => match rest st with [] => k st | _ => None end
  | RWordB =>
    if xorb (head_is_word (before st)) (head_is_word (rest st)) then k st else None
  end.

(** ** Building patterns *)

Fixpoint rlit (s : jsstr) : regex :=
  match s with
  | [] => REps
  | c :: s' => RSeq (RSet (Z.eqb c)) (rlit s')
  end.

Definition rseq (l : list regex) : regex := fold_right RSeq REps l.
Definition RPlus (a : regex) : regex := RSeq a (RStar a).

(** [a|b|c] *)
Fixpoint ralt (l : list regex) : regex :=
  match l with
  | [] => RSet (λ _, false)
  | [a] => a
  | a :: l' => RAlt a (ralt l')
  end.

Definition rspaces : regex := RStar (RSet is_space).
Definition not_quote (c : Z) : bool := negb (c =? 34).

(** [.] without the [s] flag *)
Definition is_line_terminator (c : Z) : bool :=
  (c =? 10) || (c =? 13) || (c =? 8232) || (c =? 8233).
Definition rdot : regex := RSet (λ c, negb (is_line_terminator c)).

(** ** Running a pattern *)

Definition start_state (s : jsstr) : mstate := MState [] s [].

(** [s.match(/^...$/)]: the final state, whose captures are the groups. *)
Definition match_whole (r : regex) (s : jsstr) : option mstate :=
  rmatch (RSeq r REnd) (start_state s) Some.

(** [re.exec(s)] from a position: the first position at which the pattern
    matches, tried from left to right. *)
Fixpoint search (r : regex) (bef s : jsstr) : option mstate :=
  match rmatch r (MState bef s []) Some with
  | Some st => Some st
  | None => match s with [] => None | c :: s' => search r (c :: bef) s' end
  end.

(** [re.test(s)] *)
Definition test (r : regex) (s : jsstr) : bool :=
  match search r [] s with Some _ => true | None => false end.

(** [while ((m = re.exec(s)) !== null)] with the [g] flag: the successive
    matches.  Every pattern run this way consumes, so the remaining length
    bounds the number of matches. *)
Fixpoint exec_all_from (r : regex) (bef s : jsstr) (fuel : nat) : list mstate :=
  match fuel with
  | O => []
  | S fuel' =>
    match search r bef s with
    | Some st => st :: exec_all_from r (before st) (rest st) fuel'
    | None => []
    end
  end.

Definition exec_all (r : regex) (s : jsstr) : list mstate :=
  exec_all_from r [] s (S (length s)).

(** ** Lemmas *)

Section Steps.
Context {A : Type} (k : mstate → option A).

Lemma rmatch_seq a b st : rmatch (RSeq a b) st k = rmatch a st (λ st', rmatch b st' k).
Proof using. reflexivity. Qed.

Lemma rmatch_eps st : rmatch REps st k = k st.
Proof using. reflexivity. Qed.

Lemma rmatch_group i a st :
  rmatch (RGroup i a) st k =
    rmatch a st (λ st',
      k (set_capture i (take (length (rest st) - length (rest st')) (rest st)) st')).
Proof using. reflexivity. Qed.

Lemma rmatch_set p b c s cs :
  rmatch (RSet p) (MState b (c :: s) cs) k =
    if p c then k (MState (c :: b) s cs) else None.
Proof using. reflexivity. Qed.

Lemma rmatch_opt a st :
  rmatch (ROpt a) st k = match rmatch a st k with Some x => Some x | None => k st end.
Proof using. reflexivity. Qed.

Lemma rmatch_alt a b st :
  rmatch (RAlt a b) st k =
    match rmatch a st k with Some x => Some x | None => rmatch b st k end.
Proof using. reflexivity. Qed.

Lemma rmatch_end b s cs :
  rmatch REnd (MState b s cs) k = match s with [] => k (MState b [] cs) | _ => None end.
Proof using. by destruct s. Qed.
End Steps.

Lemma rmatch_lit {A} (w : jsstr) (b s : jsstr) c (k : mstate → option A) :
  rmatch (rlit w) (MState b (w ++ s) c) k = k (MState (reverse w ++ b) s c).
Proof.
  revert b. induction w as [|x w IH]; intros b; [done|].
  cbn [rlit rmatch app rest before caps]. rewrite Z.eqb_refl, IH. by rewrite reverse_cons, <- app_assoc.
Qed.

Lemma rmatch_lit_fail {A} (w : jsstr) st (k : mstate → option A) :
  starts_with w (rest st) = false → rmatch (rlit w) st k = None.
Proof.
  revert st. induction w as [|x w IH]; intros st; [done|].
  cbn [rlit rmatch]. destruct (rest st) as [|c s] eqn:E; [done|]. cbn [starts_with].
  destruct (Z.eqb_spec x c); cbn [andb]; [|done]. intros H. by apply IH.
Qed.

(** The iterations of [RStar (RSet p)] on a run of [p] characters. *)
Section StarSet.
Context {A : Type} (p : Z → bool) (k : mstate → option A).

Fixpoint star_loop (n : nat) (st : mstate) : option A :=
  match n with
  | O => k st
  | S n' =>
    match rmatch (RSet p) st (λ st',
            if (length (rest st') <? length (rest st))%nat then star_loop n' st' else None)
    with
    | Some x => Some x
    | None => k st
    end
  end.

Lemma star_set_loop st : rmatch (RStar (RSet p)) st k = star_loop (length (rest st)) st.
Proof using. reflexivity. Qed.

Lemma star_loop_step n b c s cs :
  star_loop (S n) (MState b (c :: s) cs) =
    (if p c then
       match star_loop n (MState (c :: b) s cs) with
       | Some x => Some x
       | None => k (MState b (c :: s) cs)
       end
     else k (MState b (c :: s) cs)).
Proof using.
  cbn [star_loop rmatch rest before caps length]. destruct (p c); [|done].
  by rewrite (proj2 (Nat.ltb_lt (length s) (S (length s))) ltac:(lia)).
Qed.

(** A character outside the class stops the loop. *)
Lemma star_set_stop b s cs :
  match s with c :: _ => p c = false | [] => True end →
  rmatch (RStar (RSet p)) (MState b s cs) k = k (MState b s cs).
Proof using.
  rewrite star_set_loop. destruct s as [|c s]; [done|]. intros H. cbn [rest length].
  by rewrite star_loop_step, H.
Qed.

(** The longest match is taken when the rest of the pattern accepts it. *)
Lemma star_set_longest w b s cs x :
  forallb p w = true → match s with c :: _ => p c = false | [] => True end →
  k (MState (reverse w ++ b) s cs) = Some x →
  rmatch (RStar (RSet p)) (MState b (w ++ s) cs) k = Some x.
Proof using.
  revert b. induction w as [|c w IH]; intros b Hw Hs Hk.
  - cbn [app]. rewrite star_set_stop; [|done]. by rewrite reverse_nil in Hk.
  - cbn [forallb] in Hw. apply andb_true_iff in Hw as [Hc Hw].
    rewrite star_set_loop. cbn [rest app length]. rewrite star_loop_step, Hc.
    rewrite reverse_cons, <- app_assoc in Hk. specialize (IH (c :: b) Hw Hs Hk).
    rewrite star_set_loop in IH. cbn [rest] in IH. by rewrite IH.
Qed.

(** When the rest of the pattern cannot begin with a character of the class,
    only the longest match counts. *)
Lemma star_set_exact w b s cs :
  forallb p w = true → match s with c :: _ => p c = false | [] => True end →
  (∀ b' c s', p c = true → k (MState b' (c :: s') cs) = None) →
  rmatch (RStar (RSet p)) (MState b (w ++ s) cs) k = k (MState (reverse w ++ b) s cs).
Proof using.
  intros Hw Hs Hk. revert b Hw. induction w as [|c w IH]; intros b Hw.
  - cbn [app]. by rewrite star_set_stop, reverse_nil.
  - cbn [forallb] in Hw. apply andb_true_iff in Hw as [Hc Hw].
    rewrite star_set_loop. cbn [rest app length]. rewrite star_loop_step, Hc.
    specialize (IH (c :: b) Hw). rewrite star_set_loop in IH. cbn [rest] in IH.
    rewrite IH, reverse_cons, <- app_assoc. cbn [app].
    destruct (k _) eqn:E; [done|]. by apply Hk.
Qed.

(** The rest of the pattern fails after every longer match. *)
Lemma star_set_backtrack w u b s cs x :
  forallb p (w ++ u) = true → match s with c :: _ => p c = false | [] => True end →
  (∀ u1 u2 b', u = u1 ++ u2 → u1 ≠ [] → k (MState b' (u2 ++ s) cs) = None) →
  k (MState (reverse w ++ b) (u ++ s) cs) = Some x →
  rmatch (RStar (RSet p)) (MState b (w ++ u ++ s) cs) k = Some x.
Proof using.
  intros Hwu Hs Hfail. revert b Hwu. induction w as [|c w IH]; intros b Hwu Hk.
  - rewrite reverse_nil in Hk. cbn [app] in *.
    assert (∀ u0 b0, (∃ u1, u = u1 ++ u0 ∧ u1 ≠ []) → forallb p u0 = true →
      star_loop (length (u0 ++ s)) (MState b0 (u0 ++ s) cs) = None) as Hnone.
    { induction u0 as [|c u0 IHu]; intros b0 (u1 & Eu & Hne) Hp; cbn [app length].
      - destruct s as [|c s]; cbn [length].
        + apply (Hfail u1 []); [done|done].
        + rewrite star_loop_step, Hs. by apply (Hfail u1 [] b0).
      - cbn [forallb] in Hp. apply andb_true_iff in Hp as [Hc Hp].
        rewrite star_loop_step, Hc, IHu; [by apply (Hfail u1 (c :: u0) b0)| |done].
        exists (u1 ++ [c]). rewrite <- app_assoc. split; [done|]. by destruct u1. }
    rewrite star_set_loop. cbn [rest]. destruct u as [|c u]; cbn [app length].
    + destruct s as [|c s]; [done|]. cbn [length]. by rewrite star_loop_step, Hs.
    + cbn [forallb app] in Hwu. apply andb_true_iff in Hwu as [Hc Hu].
      rewrite star_loop_step, Hc, Hnone; [done|by exists [c]|done].
  - cbn [forallb app] in Hwu. apply andb_true_iff in Hwu as [Hc Hw].
    rewrite star_set_loop. cbn [rest app length]. rewrite star_loop_step, Hc.
    rewrite reverse_cons, <- app_assoc in Hk. specialize (IH (c :: b) Hw Hk).
    rewrite star_set_loop in IH. cbn [rest] in IH. by rewrite IH.
Qed.
End StarSet.

(** A lazy quantifier takes the shortest match the rest of the pattern accepts. *)
Section LazySet.
Context {A : Type} (p : Z → bool) (k : mstate → option A).

Fixpoint lazy_loop (n : nat) (st : mstate) : option A :=
  match k st with
  | Some x => Some x
  | None =>
    match n with
    | O => None
    | S n' =>
      rmatch (RSet p) st (λ st',
        if (length (rest st') <? length (rest st))%nat then lazy_loop n' st' else None)
    end
  end.

Lemma lazy_set_loop st : rmatch (RLazy (RSet p)) st k = lazy_loop (length (rest st)) st.
Proof using. unfold lazy_loop. cbn [rmatch]. by destruct (length (rest st)). Qed.

Lemma lazy_loop_step n b c s cs :
  k (MState b (c :: s) cs) = None → p c = true →
  lazy_loop (S n) (MState b (c :: s) cs) = lazy_loop n (MState (c :: b) s cs).
Proof using.
  intros Hk Hp. cbn [lazy_loop rmatch rest before caps length]. rewrite Hk, Hp.
  by rewrite (proj2 (Nat.ltb_lt (length s) (S (length s))) ltac:(lia)).
Qed.

Lemma lazy_set_first u b s cs :
  forallb p u = true →
  (∀ u1 u2, u = u1 ++ u2 → u2 ≠ [] → k (MState (reverse u1 ++ b) (u2 ++ s) cs) = None) →
  is_Some (k (MState (reverse u ++ b) s cs)) →
  rmatch (RLazy (RSet p)) (MState b (u ++ s) cs) k = k (MState (reverse u ++ b) s cs).
Proof using.
  rewrite lazy_set_loop. cbn [rest]. revert b. induction u as [|c u IH]; intros b Hu Hf Hk.
  - cbn [app]. rewrite reverse_nil in *. cbn [app] in *. destruct Hk as [x Hk].
    destruct (length s); cbn [lazy_loop]; by rewrite Hk.
  - cbn [forallb] in Hu. apply andb_true_iff in Hu as [Hc Hu]. cbn [app length].
    rewrite lazy_loop_step; [|by apply (Hf [] (c :: u))|done].
    rewrite reverse_cons, <- app_assoc in *. apply IH; [done| |done].
    intros u1 u2 -> Hne. specialize (Hf (c :: u1) u2 eq_refl Hne).
    by rewrite reverse_cons, <- app_assoc in Hf.
Qed.

Lemma lazy_set_none u b cs :
  (∀ u1 u2, u = u1 ++ u2 → k (MState (reverse u1 ++ b) u2 cs) = None) →
  rmatch (RLazy (RSet p)) (MState b u cs) k = None.
Proof using.
  rewrite lazy_set_loop. cbn [rest]. revert b. induction u as [|c u IH]; intros b Hf.
  - cbn [length lazy_loop]. pose proof (Hf [] [] eq_refl) as H0. change (reverse [] ++ b) with b in H0. by rewrite H0.
  - destruct (p c) eqn:Hc.
    + cbn [length]. rewrite lazy_loop_step; [|by apply (Hf [] (c :: u))|done]. apply IH.
      intros u1 u2 ->. specialize (Hf (c :: u1) u2 eq_refl). by rewrite reverse_cons, <- app_assoc in Hf.
    + pose proof (Hf [] (c :: u) eq_refl) as H0. change (reverse [] ++ b) with b in H0.
      cbn [length lazy_loop rmatch rest]. by rewrite H0, Hc.
Qed.
End LazySet.

(** Captured runs of a class. *)
Section Captured.
Context {A : Type} (p : Z → bool) (i : nat) (k : mstate → option A).

Lemma group_text (w s : jsstr) : take (length (w ++ s) - length s) (w ++ s) = w.
Proof using. rewrite length_app, Nat.add_sub. apply take_app_length. Qed.

Definition stops_at (s : jsstr) : Prop := match s with c :: _ => p c = false | [] => True end.

Lemma group_star_longest w b s cs x :
  forallb p w = true → stops_at s → k (MState (reverse w ++ b) s ((i, w) :: cs)) = Some x →
  rmatch (RGroup i (RStar (RSet p))) (MState b (w ++ s) cs) k = Some x.
Proof using.
  intros Hw Hs Hk. cbn [rmatch]. apply (star_set_longest p); [done..|].
  unfold set_capture. cbn [before rest caps]. by rewrite group_text.
Qed.

Lemma plus_state (c : Z) (w b : jsstr) : reverse w ++ c :: b = reverse (c :: w) ++ b.
Proof using. by rewrite reverse_cons, <- app_assoc. Qed.

Lemma group_plus_longest w b s cs x :
  w ≠ [] → forallb p w = true → stops_at s →
  k (MState (reverse w ++ b) s ((i, w) :: cs)) = Some x →
  rmatch (RGroup i (RPlus (RSet p))) (MState b (w ++ s) cs) k = Some x.
Proof using.
  intros Hne Hw Hs Hk. destruct w as [|c w]; [done|].
  cbn [forallb] in Hw. apply andb_true_iff in Hw as [Hc Hw]. unfold RPlus.
  cbn [rmatch rest app before caps]. rewrite Hc. apply (star_set_longest p); [done..|].
  unfold set_capture. cbn [before rest caps]. change (c :: w ++ s) with ((c :: w) ++ s).
  by rewrite group_text, plus_state.
Qed.

Lemma group_plus_exact w b s cs :
  w ≠ [] → forallb p w = true → stops_at s →
  (∀ b' c s' cs', p c = true → k (MState b' (c :: s') cs') = None) →
  rmatch (RGroup i (RPlus (RSet p))) (MState b (w ++ s) cs) k =
    k (MState (reverse w ++ b) s ((i, w) :: cs)).
Proof using.
  intros Hne Hw Hs Hk. destruct w as [|c w]; [done|].
  cbn [forallb] in Hw. apply andb_true_iff in Hw as [Hc Hw]. unfold RPlus.
  rewrite rmatch_group, rmatch_seq. cbn [app rest].
  rewrite rmatch_set, Hc, (star_set_exact p); [|done..|].
  - unfold set_capture. cbn [before rest caps]. change (c :: w ++ s) with ((c :: w) ++ s).
    by rewrite group_text, plus_state.
  - intros b' c' s' Hc'. unfold set_capture. cbn [before rest caps]. by apply Hk.
Qed.

Lemma group_plus_backtrack w u b s cs x :
  w ≠ [] → forallb p (w ++ u) = true → stops_at s →
  (∀ u1 u2 b' cs', u = u1 ++ u2 → u1 ≠ [] → k (MState b' (u2 ++ s) cs') = None) →
  k (MState (reverse w ++ b) (u ++ s) ((i, w) :: cs)) = Some x →
  rmatch (RGroup i (RPlus (RSet p))) (MState b (w ++ u ++ s) cs) k = Some x.
Proof using.
  intros Hne Hw Hs Hfail Hk. destruct w as [|c w]; [done|].
  cbn [forallb app] in Hw. apply andb_true_iff in Hw as [Hc Hw]. unfold RPlus.
  cbn [rmatch rest app before caps]. rewrite Hc. apply (star_set_backtrack p); [done..| |].
  - intros u1 u2 b' Eu Hu. unfold set_capture. cbn [before rest caps]. by apply (Hfail u1).
  - unfold set_capture. cbn [before rest caps].
    change (c :: w ++ u ++ s) with ((c :: w) ++ (u ++ s)).
    by rewrite group_text, plus_state.
Qed.
End Captured.

(** ** Splitting and replacing *)

(** The text of the whole match, as group 0. *)
Definition whole (r : regex) : regex := RGroup 0 r.

(** [s.split(re)] for a pattern that does not match the empty string. *)
Fixpoint split_re_from (r : regex) (s : jsstr) (fuel : nat) : list jsstr :=
  match fuel with
  | O => [s]
  | S fuel' =>
    match search (whole r) [] s with
    | Some st =>
      let matched := length (default [] (capture st 0)) in
      take (length s - length (rest st) - matched) s :: split_re_from r (rest st) fuel'
    | None => [s]
    end
  end.

Definition split_re (r : regex) (s : jsstr) : list jsstr := split_re_from r s (length s).

(** [s.replaceAll(re, w)] with the [g] flag, for a pattern that does not match
    the empty string. *)
Fixpoint replace_re_from (r : regex) (w : jsstr) (bef s : jsstr) (fuel : nat) : jsstr :=
  match fuel with
  | O => s
  | S fuel' =>
    match s with
    | [] => []
    | c :: s' =>
      match rmatch r (MState bef s []) Some with
      | Some st => w ++ replace_re_from r w (before st) (rest st) fuel'
      | None => c :: replace_re_from r w (c :: bef) s' fuel'
      end
    end
  end.

Definition replace_re (r : regex) (w s : jsstr) : jsstr := replace_re_from r w [] s (S (length s)).

(** ** What a match consumes *)

(** [s.replace(re, f)] for a pattern without the global flag: the first match is
    replaced by what [f] makes of its captures. *)
Definition replace_first (r : regex) (f : mstate → jsstr) (s : jsstr) : jsstr :=
  match search (whole r) [] s with
  | None => s
  | Some m =>
    take (length s - length (rest m) - length (default [] (capture m 0))) s ++ f m ++ rest m
  end.

(** Every class of the pattern is within [p]; back references are not covered. *)
Fixpoint within (p : Z → bool) (r : regex) : Prop :=
  match r with
  | RSet q => ∀ c, q c = true → p c = true
  | RSeq a b | RAlt a b => within p a ∧ within p b
  | RStar a | RLazy a | ROpt a | RGroup _ a => within p a
  | RBack _ => False
  | REps | REnd | RWordB => True
  end.

(** A successful match reached its continuation after consuming characters of
    the pattern's classes. *)
Lemma rmatch_within {A} (p : Z → bool) (r : regex) :
  within p r → ∀ st (k : mstate → option A) x, rmatch r st k = Some x →
  ∃ st' w, k st' = Some x ∧ rest st = w ++ rest st' ∧ forallb p w = true.
Proof.
  assert (∀ (st : mstate) (k : mstate → option A) x, k st = Some x →
    ∃ st' w, k st' = Some x ∧ rest st = w ++ rest st' ∧ forallb p w = true) as Hnil
    by (intros st k x H; by exists st, []).
  induction r as [q|a IHa b IHb|a IHa b IHb|a IHa|a IHa|a IHa|i a IHa|i| | |]; intros Hw st k x H;
    cbn [within] in Hw.
  - cbn [rmatch] in H. destruct (rest st) as [|c s] eqn:E; [done|].
    destruct (q c) eqn:Eq; [|done]. eexists _, [c]. cbn [rest forallb app].
    split; [done|]. by rewrite (Hw c Eq).
  - destruct Hw as [Ha Hb]. rewrite rmatch_seq in H.
    apply (IHa Ha) in H as (st1 & w1 & H & E1 & F1).
    apply (IHb Hb) in H as (st2 & w2 & H & E2 & F2).
    exists st2, (w1 ++ w2). rewrite forallb_app, F1, F2, <- app_assoc, <- E2. done.
  - destruct Hw as [Ha Hb]. rewrite rmatch_alt in H.
    destruct (rmatch a st k) eqn:Ea; [injection H as ->; by apply IHa|by apply IHb].
  - cbn [rmatch] in H. revert H. generalize (length (rest st)) as n. intros n. revert st.
    induction n as [|n IHn]; intros st H; [by apply Hnil|].
    destruct (rmatch a st _) eqn:Ea; [|by apply Hnil]. injection H as ->.
    apply (IHa Hw) in Ea as (st1 & w1 & Ea & E1 & F1).
    destruct (_ <? _)%nat; [|done]. apply IHn in Ea as (st2 & w2 & Ha & E2 & F2).
    exists st2, (w1 ++ w2). rewrite forallb_app, F1, F2, <- app_assoc, <- E2. done.
  - cbn [rmatch] in H. revert H. generalize (length (rest st)) as n. intros n. revert st.
    induction n as [|n IHn]; intros st H; (destruct (k st) as [y|] eqn:Ek; [injection H as ->; by apply Hnil|]); [done|].
    apply (IHa Hw) in H as (st1 & w1 & Ea & E1 & F1).
    destruct (_ <? _)%nat; [|done]. apply IHn in Ea as (st2 & w2 & Ha & E2 & F2).
    exists st2, (w1 ++ w2). rewrite forallb_app, F1, F2, <- app_assoc, <- E2. done.
  - rewrite rmatch_opt in H. destruct (rmatch a st k) eqn:Ea; [injection H as ->; by apply IHa|by apply Hnil].
  - rewrite rmatch_group in H. apply (IHa Hw) in H as (st1 & w1 & H & E1 & F1).
    by eexists _, w1.
  - done.
  - by apply Hnil.
  - cbn [rmatch] in H. destruct (rest st) eqn:E; [|done]. exists st, []. by rewrite E.
  - cbn [rmatch] in H. case_match; [by apply Hnil|done].
Qed.

Lemma match_whole_within p r s m :
  within p r → match_whole r s = Some m → forallb p s = true.
Proof.
  intros Hw H. unfold match_whole in H. rewrite rmatch_seq in H.
  apply (rmatch_within p r Hw) in H as (st & w & H & E & F).
  destruct st as [b [|c t] cs]; [|done]. cbn [rest start_state] in E. by rewrite E, app_nil_r.
Qed.

Lemma starts_with_app (w s : jsstr) : starts_with w (w ++ s) = true.
Proof. induction w as [|c w IH]; [done|]. cbn [app starts_with]. by rewrite Z.eqb_refl. Qed.

Lemma rmatch_back {A} (k : mstate → option A) i w b s cs :
  cap_lookup cs i = Some w →
  rmatch (RBack i) (MState b (w ++ s) cs) k = k (MState (reverse w ++ b) s cs).
Proof.
  intros H. cbn [rmatch]. unfold capture. cbn [caps rest]. rewrite H. cbn [default].
  rewrite starts_with_app. unfold advance. cbn [before rest caps]. by rewrite drop_app_length.
Qed.

(** ** Patterns that read a text in their first attempt

    [runs r s cs s' cs']: on [s] with the captures [cs], the matcher's first way
    through [r] that the continuation accepts leaves [s'] and [cs'].  What was
    read before is left open, so patterns with a word boundary are out. *)
Definition runs (r : regex) (s : jsstr) (cs : list (nat * jsstr)) (s' : jsstr) (cs' : list (nat * jsstr)) : Prop :=
  ∀ A b, ∃ b', ∀ k : mstate → option A,
    is_Some (k (MState b' s' cs')) → rmatch r (MState b s cs) k = k (MState b' s' cs').

(** [fails r s cs]: no way through [r], whatever follows. *)
Definition fails (r : regex) (s : jsstr) (cs : list (nat * jsstr)) : Prop :=
  ∀ A b (k : mstate → option A), rmatch r (MState b s cs) k = None.

Lemma runs_seq r1 r2 s cs s1 cs1 s2 cs2 :
  runs r1 s cs s1 cs1 → runs r2 s1 cs1 s2 cs2 → runs (RSeq r1 r2) s cs s2 cs2.
Proof.
  intros H1 H2 A b. destruct (H1 A b) as [b1 E1]. destruct (H2 A b1) as [b2 E2].
  exists b2. intros k Hk. rewrite rmatch_seq, E1; [by apply E2|]. by rewrite E2.
Qed.

Lemma runs_eps s cs : runs REps s cs s cs.
Proof. intros A b. by exists b. Qed.

Lemma runs_lit w s cs : runs (rlit w) (w ++ s) cs s cs.
Proof. intros A b. eexists. intros k _. apply rmatch_lit. Qed.

Lemma runs_star p w s cs :
  forallb p w = true → stops_at p s → runs (RStar (RSet p)) (w ++ s) cs s cs.
Proof.
  intros Hw Hs A b. exists (reverse w ++ b). intros k [x Hk]. rewrite Hk.
  by apply star_set_longest.
Qed.

Lemma runs_spaces_none s cs : stops_at is_space s → runs rspaces s cs s cs.
Proof. intros H. by apply (runs_star is_space [] s). Qed.

Lemma runs_space s cs : stops_at is_space s → runs rspaces (32 :: s) cs s cs.
Proof. intros H. by apply (runs_star is_space [32] s). Qed.

Lemma runs_group_star i p w s cs :
  forallb p w = true → stops_at p s → runs (RGroup i (RStar (RSet p))) (w ++ s) cs s ((i, w) :: cs).
Proof.
  intros Hw Hs A b. exists (reverse w ++ b). intros k [x Hk]. rewrite Hk.
  by apply group_star_longest.
Qed.

Lemma runs_plus p w s cs :
  w ≠ [] → forallb p w = true → stops_at p s → runs (RPlus (RSet p)) (w ++ s) cs s cs.
Proof.
  intros Hne Hw Hs A b. destruct w as [|c w]; [done|]. cbn [forallb] in Hw. apply andb_true_iff in Hw as [Hc Hw].
  exists (reverse w ++ c :: b). intros k [x Hk]. rewrite Hk. unfold RPlus. rewrite rmatch_seq. cbn [app].
  rewrite rmatch_set, Hc. by apply star_set_longest.
Qed.

Lemma runs_group_plus i p w s cs :
  w ≠ [] → forallb p w = true → stops_at p s →
  runs (RGroup i (RPlus (RSet p))) (w ++ s) cs s ((i, w) :: cs).
Proof.
  intros Hne Hw Hs A b. exists (reverse w ++ b). intros k [x Hk]. rewrite Hk.
  by apply group_plus_longest.
Qed.

Lemma runs_group i r w s cs :
  runs r (w ++ s) cs s cs → runs (RGroup i r) (w ++ s) cs s ((i, w) :: cs).
Proof.
  intros H A b. destruct (H A b) as [b' E]. exists b'. intros k Hk.
  rewrite rmatch_group, E; unfold set_capture; cbn [before rest caps]; by rewrite group_text.
Qed.

Lemma runs_opt_some r s cs s' cs' : runs r s cs s' cs' → runs (ROpt r) s cs s' cs'.
Proof.
  intros H A b. destruct (H A b) as [b' E]. exists b'. intros k Hk.
  rewrite rmatch_opt, E by done. by destruct (k _).
Qed.

Lemma runs_opt_none r s cs : fails r s cs → runs (ROpt r) s cs s cs.
Proof. intros H A b. exists b. intros k _. by rewrite rmatch_opt, H. Qed.

Lemma fails_seq r1 r2 s cs : fails r1 s cs → fails (RSeq r1 r2) s cs.
Proof. intros H A b k. by rewrite rmatch_seq. Qed.

Lemma fails_lit w s cs : starts_with w s = false → fails (rlit w) s cs.
Proof. intros H A b k. by apply rmatch_lit_fail. Qed.

(** White space and then something that fails both after it and on it. *)
Lemma fails_spaces w r s cs :
  forallb is_space w = true → stops_at is_space s → fails r s cs →
  (∀ c s', is_space c = true → fails r (c :: s') cs) → fails (RSeq rspaces r) (w ++ s) cs.
Proof.
  intros Hw Hs Hr Hc A b k. rewrite rmatch_seq. unfold rspaces. rewrite star_set_exact; [apply Hr|done..|].
  intros b' c s' Hsp. by apply Hc.
Qed.

Lemma fails_lit_space d w r c s cs :
  is_space d = false → is_space c = true → fails (RSeq (rlit (d :: w)) r) (c :: s) cs.
Proof.
  intros Hd Hc. apply fails_seq, fails_lit. cbn [starts_with].
  destruct (Z.eqb_spec d c) as [-> |]; [congruence|done].
Qed.

(** A run to the end is a whole match. *)
Lemma runs_match_whole r s cs :
  runs r s [] [] cs → ∃ b, match_whole r s = Some (MState b [] cs).
Proof.
  intros H. destruct (H mstate []) as [b E]. exists b. unfold match_whole, start_state.
  rewrite rmatch_seq, E; [done|]. cbn. eauto.
Qed.

(** ** Repetition of a pattern that reads a text *)

(** The matcher only looks at the values of its continuation. *)
Lemma rmatch_ext {A} (r : regex) : ∀ st (k1 k2 : mstate → option A),
  (∀ st', k1 st' = k2 st') → rmatch r st k1 = rmatch r st k2.
Proof.
  induction r as [q|a IHa b IHb|a IHa b IHb|a IHa|a IHa|a IHa|i a IHa|i| | |]; intros st k1 k2 H.
  - cbn [rmatch]. destruct (rest st) as [|c s]; [done|]. by destruct (q c).
  - rewrite !rmatch_seq. apply IHa. intros st'. by apply IHb.
  - rewrite !rmatch_alt. by rewrite (IHa st k1 k2), (IHb st k1 k2).
  - cbn [rmatch]. generalize (length (rest st)) as n. intros n. revert st.
    induction n as [|n IHn]; intros st; [apply H|].
    erewrite IHa; [by rewrite H|]. intros st'. cbn beta. destruct (_ <? _)%nat; [apply IHn|done].
  - cbn [rmatch]. generalize (length (rest st)) as n. intros n. revert st.
    induction n as [|n IHn]; intros st; rewrite H; [done|].
    destruct (k2 st); [done|]. apply IHa. intros st'. destruct (_ <? _)%nat; [apply IHn|done].
  - rewrite !rmatch_opt. by rewrite (IHa st k1 k2), H.
  - rewrite !rmatch_group. apply IHa. intros st'. apply H.
  - cbn [rmatch]. destruct (starts_with _ _); [apply H|done].
  - apply H.
  - cbn [rmatch]. destruct (rest st); [apply H|done].
  - cbn [rmatch]. destruct (xorb _ _); [apply H|done].
Qed.

Lemma rmatch_none {A} (r : regex) : ∀ st, rmatch r st (λ _, @None A) = None.
Proof.
  induction r as [q|a IHa b IHb|a IHa b IHb|a IHa|a IHa|a IHa|i a IHa|i| | |]; intros st.
  - cbn [rmatch]. destruct (rest st) as [|c s]; [done|]. by destruct (q c).
  - rewrite rmatch_seq. erewrite rmatch_ext; [apply IHa|]. intros st'. apply IHb.
  - rewrite rmatch_alt. by rewrite IHa, IHb.
  - cbn [rmatch]. generalize (length (rest st)) as n. intros n. revert st.
    induction n as [|n IHn]; intros st; [done|].
    erewrite rmatch_ext; [by rewrite IHa|]. intros st'. cbn beta. destruct (_ <? _)%nat; [apply IHn|done].
  - cbn [rmatch]. generalize (length (rest st)) as n. intros n. revert st.
    induction n as [|n IHn]; intros st; [done|].
    erewrite rmatch_ext; [by rewrite IHa|]. intros st'. cbn beta. destruct (_ <? _)%nat; [apply IHn|done].
  - rewrite rmatch_opt. by rewrite IHa.
  - rewrite rmatch_group. apply IHa.
  - cbn [rmatch]. by destruct (starts_with _ _).
  - done.
  - cbn [rmatch]. by destruct (rest st).
  - cbn [rmatch]. by destruct (xorb _ _).
Qed.

Section StarRuns.
Context {A : Type} (a : regex) (k : mstate → option A).

Fixpoint star_gen (n : nat) (st : mstate) : option A :=
  match n with
  | O => k st
  | S n' =>
    match rmatch a st (λ st',
            if (length (rest st') <? length (rest st))%nat then star_gen n' st' else None)
    with
    | Some x => Some x
    | None => k st
    end
  end.

Lemma star_unfold st : rmatch (RStar a) st k = star_gen (length (rest st)) st.
Proof using. reflexivity. Qed.

Lemma star_gen_enough n m st :
  (length (rest st) ≤ n)%nat → (length (rest st) ≤ m)%nat → star_gen n st = star_gen m st.
Proof using.
  assert (∀ j st, length (rest st) = O → star_gen j st = k st) as Hempty.
  { intros [|j] st' Hs; [done|]. cbn [star_gen]. erewrite rmatch_ext; [by rewrite rmatch_none|].
    intros st''. cbn beta. by rewrite Hs. }
  revert m st. induction n as [|n IH]; intros m st Hn Hm; [by rewrite (Hempty m) by lia|].
  destruct m as [|m]; [by rewrite (Hempty (S n)) by lia|]. cbn [star_gen].
  erewrite rmatch_ext; [done|]. intros st'. cbn beta.
  destruct (Nat.ltb_spec (length (rest st')) (length (rest st))); [|done]. apply IH; lia.
Qed.
End StarRuns.

Lemma runs_star_step a s cs s1 cs1 s2 cs2 :
  runs a s cs s1 cs1 → (length s1 < length s)%nat → runs (RStar a) s1 cs1 s2 cs2 →
  runs (RStar a) s cs s2 cs2.
Proof.
  intros H1 Hlt H2 A b. destruct (H1 A b) as [b1 E1]. destruct (H2 A b1) as [b2 E2].
  exists b2. intros k Hk. specialize (E2 k Hk). rewrite star_unfold in E2 |- *. cbn [rest] in *.
  destruct (length s) as [|n] eqn:En; [lia|]. cbn [star_gen]. rewrite E1.
  - cbn [rest]. rewrite En, (proj2 (Nat.ltb_lt _ _)) by lia.
    rewrite (star_gen_enough _ _ n (length s1)) by (cbn [rest]; lia). rewrite E2. by destruct (k _).
  - cbn [rest]. rewrite En, (proj2 (Nat.ltb_lt _ _)) by lia.
    rewrite (star_gen_enough _ _ n (length s1)) by (cbn [rest]; lia). by rewrite E2.
Qed.

Lemma runs_star_stop a s cs : fails a s cs → runs (RStar a) s cs s cs.
Proof.
  intros H A b. exists b. intros k _. rewrite star_unfold. cbn [rest].
  destruct (length s); [done|]. cbn [star_gen]. by rewrite H.
Qed.

(** ** Searching *)

Lemma search_here r bef s cs s' :
  runs r s [] s' cs → ∃ b, search r bef s = Some (MState b s' cs).
Proof.
  intros H. destruct (H mstate bef) as [b E]. exists b. destruct s; cbn [search]; rewrite E; eauto.
Qed.

Lemma search_skip r bef c s : fails r (c :: s) [] → search r bef (c :: s) = search r (c :: bef) s.
Proof. intros H. cbn [search]. by rewrite H. Qed.
