(* ===== verification/JsValue.v ===== *)
(** * Values of type [unknown]

    Data that enters the program from outside (server responses, messages of
    other tabs, parsed JSON) has type [unknown] and is inspected with [typeof]
    and property reads.  [value] is that data: the JSON shapes and [undefined].
    An object is the list of its own properties in order; reads of names that
    live on [Object.prototype] are outside the model. *)

From S2P Require Import Prelude JsString JsNumber.

Inductive value :=
| VUndefined
| VNull
| VBool (b : bool)
| VNum (n : number)
| VStr (s : jsstr)
| VArr (l : list value)
| VObj (fields : list (jsstr * value)).

(** ** Conversions and tests *)

(** [Boolean(v)] *)
Definition to_boolean (v : value) : bool :=
  match v with
  | VUndefined | VNull => false
  | VBool b => b
  | VNum n => num_truthy n
  | VStr s => truthy s
  | VArr _ | VObj _ => true
  end.

(** [typeof v] for the tests the code makes *)
Definition is_string (v : value) : bool := match v with VStr _ => true | _ => false end.
Definition is_number (v : value) : bool := match v with VNum _ => true | _ => false end.
Definition is_boolean (v : value) : bool := match v with VBool _ => true | _ => false end.
Definition is_object (v : value) : bool :=
  match v with VNull | VArr _ | VObj _ => true | _ => false end.
Definition is_array (v : value) : bool := match v with VArr _ => true | _ => false end.

Fixpoint assoc (k : jsstr) (l : list (jsstr * value)) : option value :=
  match l with
  | [] => None
  | (k', v) :: l' => if bool_decide (k = k') then Some v else assoc k l'
  end.

(** [v[k]] on an object or an array; [undefined] for a missing property. *)
Definition get (v : value) (k : jsstr) : value :=
  match v with
  | VObj fields => default VUndefined (assoc k fields)
  | VArr l =>
    if bool_decide (k = $"length") then VNum (num_of_Z (Z.of_nat (length l)))
    else if all_digits k && bool_decide (string_of_Z (parse_digits k) = k)
    then default VUndefined (l !! Z.to_nat (parse_digits k))
    else VUndefined
  | _ => VUndefined
  end.

(** [v === 's'], [v === true] *)
Definition eq_str (v : value) (s : jsstr) : bool :=
  match v with VStr t => bool_decide (t = s) | _ => false end.
Definition is_true (v : value) : bool := match v with VBool true => true | _ => false end.

(** [Number.isInteger(v)], [Number.isFinite(v)]: false on anything that is not
    a number. *)
Definition value_is_integer (v : value) : bool :=
  match v with VNum n => is_integer n | _ => false end.
Definition value_is_finite (v : value) : bool :=
  match v with VNum n => is_finite n | _ => false end.

(** The payload of a value whose type was tested. *)
Definition str_of (v : value) : jsstr := match v with VStr s => s | _ => [] end.
Definition num_of (v : value) : number := match v with VNum n => n | _ => nan end.
Definition bool_of (v : value) : bool := match v with VBool b => b | _ => false end.

Lemma is_string_inv v : is_string v = true → v = VStr (str_of v).
Proof. by destruct v. Qed.

Lemma is_number_inv v : is_number v = true → v = VNum (num_of v).
Proof. by destruct v. Qed.

Lemma is_boolean_inv v : is_boolean v = true → v = VBool (bool_of v).
Proof. by destruct v. Qed.

Lemma eq_str_inv v s : eq_str v s = true → v = VStr s.
Proof. destruct v; simpl; intros H; bool_hyps; by subst. Qed.

#[export] Hint Resolve is_string_inv is_number_inv is_boolean_inv : flow.
