(* ===== verification/Json.v ===== *)
(** * JSON

    [JSON.parse] and [JSON.stringify] of the language on the values of
    [JsValue].  Parsing is recursive descent over the code units; every nested
    call is made on a shorter input, so the fuel [json_fuel] given to it is
    never exhausted.  A property that is repeated keeps its last value, and
    properties named by an array index come first, in ascending order, as
    [Object.keys] lists them.  [parse_stringify] is the round trip. *)

From S2P Require Import Prelude JsString JsNumber NumberText JsValue.

(** ** Objects built property by property *)

(** The canonical numeral of an array index (below 2^32 - 1). *)
Definition array_index (k : jsstr) : option Z :=
  if all_digits k && bool_decide (string_of_Z (parse_digits k) = k)
     && (parse_digits k <? 4294967295)
  then Some (parse_digits k) else None.

(** Is [k] listed before [k']: indices ascending, before the other names. *)
Definition key_before (k k' : jsstr) : bool :=
  match array_index k, array_index k' with
  | Some i, Some j => i <? j
  | Some _, None => true
  | None, _ => false
  end.

(** A property that is not there yet takes its place in the order. *)
Fixpoint obj_insert (k : jsstr) (v : value) (o : list (jsstr * value)) : list (jsstr * value) :=
  match o with
  | [] => [(k, v)]
  | (k', v') :: o' =>
    if key_before k k' then (k, v) :: o else (k', v') :: obj_insert k v o'
  end.

(** [o[k] = v] *)
Definition obj_assign (o : list (jsstr * value)) (kv : jsstr * value) : list (jsstr * value) :=
  if bool_decide (kv.1 ∈ o.*1)
  then (λ f, if bool_decide (kv.1 = f.1) then (f.1, kv.2) else f) <$> o
  else obj_insert kv.1 kv.2 o.

Definition obj_of_list (l : list (jsstr * value)) : list (jsstr * value) :=
  fold_left obj_assign l [].

(** ** Parsing *)

Definition is_json_space (c : Z) : bool := (c =? 9) || (c =? 10) || (c =? 13) || (c =? 32).

Fixpoint skip_ws (s : jsstr) : jsstr :=
  match s with
  | c :: s' => if is_json_space c then skip_ws s' else s
  | [] => []
  end.

Definition hex4 (a b c d : Z) : option Z :=
  a ← radix_digit a; b ← radix_digit b; c ← radix_digit c; d ← radix_digit d;
  Some (4096 * a + 256 * b + 16 * c + d).

Definition escaped_char (e : Z) : option Z :=
  if e =? 34 then Some 34 else if e =? 92 then Some 92 else if e =? 47 then Some 47
  else if e =? 98 then Some 8 else if e =? 102 then Some 12 else if e =? 110 then Some 10
  else if e =? 114 then Some 13 else if e =? 116 then Some 9 else None.

(** The characters of a string literal up to its closing quote. *)
Fixpoint parse_string (s : jsstr) : option (jsstr * jsstr) :=
  match s with
  | [] => None
  | c :: r =>
    if c =? 34 then Some ([], r)
    else if c <? 32 then None
    else if c =? 92 then
      match r with
      | [] => None
      | e :: r1 =>
        if e =? 117 then
          match r1 with
          | x1 :: x2 :: x3 :: x4 :: r2 =>
            match hex4 x1 x2 x3 x4, parse_string r2 with
            | Some u, Some (w, r3) => Some (u :: w, r3)
            | _, _ => None
            end
          | _ => None
          end
        else match escaped_char e, parse_string r1 with
        | Some u, Some (w, r2) => Some (u :: w, r2)
        | _, _ => None
        end
      end
    else match parse_string r with
    | Some (w, r') => Some (c :: w, r')
    | None => None
    end
  end.

Fixpoint span_numeral (s : jsstr) : jsstr * jsstr :=
  match s with
  | c :: s' => if numeral_char c then let '(w, r) := span_numeral s' in (c :: w, r) else ([], s)
  | [] => ([], [])
  end.

(** The number grammar of JSON: an integer part without leading zeros, decimals
    after a point, an exponent. *)
Definition strip_minus (w : jsstr) : jsstr := match w with 45 :: r => r | _ => w end.

Definition integer_part_ok (ip : jsstr) : bool :=
  match ip with [] => false | 48 :: _ :: _ => false | _ => true end.

Definition json_numeral (w : jsstr) : bool :=
  let '(ip, r) := span_digits (strip_minus w) in
  integer_part_ok ip
  && match r with
     | 46 :: r1 =>
       let '(fp, r2) := span_digits r1 in
       truthy fp && match parse_exponent r2 with Some _ => true | None => false end
     | _ => match parse_exponent r with Some _ => true | None => false end
     end.

Definition parse_number (s : jsstr) : option (value * jsstr) :=
  let '(w, r) := span_numeral s in
  if json_numeral w then Some (VNum (number_of_string w), r) else None.

Definition drop_literal (w : jsstr) (v : value) (s : jsstr) : option (value * jsstr) :=
  if starts_with w s then Some (v, drop (length w) s) else None.

Fixpoint parse_value (n : nat) (s : jsstr) : option (value * jsstr) :=
  match n with
  | O => None
  | S n' =>
    match skip_ws s with
    | [] => None
    | c :: r =>
      if c =? 34 then '(w, r') ← parse_string r; Some (VStr w, r')
      else if c =? 91 then
        match skip_ws r with
        | 93 :: r' => Some (VArr [], r')
        | _ => '(l, r') ← parse_elements n' r; Some (VArr l, r')
        end
      else if c =? 123 then
        match skip_ws r with
        | 125 :: r' => Some (VObj [], r')
        | _ => '(l, r') ← parse_members n' r; Some (VObj (obj_of_list l), r')
        end
      else if c =? 110 then drop_literal $"null" VNull (c :: r)
      else if c =? 116 then drop_literal $"true" (VBool true) (c :: r)
      else if c =? 102 then drop_literal $"false" (VBool false) (c :: r)
      else parse_number (c :: r)
    end
  end
with parse_elements (n : nat) (s : jsstr) : option (list value * jsstr) :=
  match n with
  | O => None
  | S n' =>
    '(v, r) ← parse_value n' s;
    match skip_ws r with
    | 44 :: r' => '(l, r'') ← parse_elements n' r'; Some (v :: l, r'')
    | 93 :: r' => Some ([v], r')
    | _ => None
    end
  end
with parse_members (n : nat) (s : jsstr) : option (list (jsstr * value) * jsstr) :=
  match n with
  | O => None
  | S n' =>
    match skip_ws s with
    | 34 :: r =>
      '(k, r1) ← parse_string r;
      match skip_ws r1 with
      | 58 :: r2 =>
        '(v, r3) ← parse_value n' r2;
        match skip_ws r3 with
        | 44 :: r4 => '(l, r5) ← parse_members n' r4; Some ((k, v) :: l, r5)
        | 125 :: r4 => Some ([(k, v)], r4)
        | _ => None
        end
      | _ => None
      end
    | _ => None
    end
  end.

Definition json_fuel (s : jsstr) : nat := 2 * length s + 2.

(** [JSON.parse(s)]; [None] is the SyntaxError. *)
Definition json_parse (s : jsstr) : option value :=
  '(v, r) ← parse_value (json_fuel s) s;
  match skip_ws r with [] => Some v | _ => None end.

(** ** Printing *)

Definition hex_digit (d : Z) : Z := if d <? 10 then 48 + d else 87 + d.

Definition unicode_escape (c : Z) : jsstr :=
  [92; 117; hex_digit (c / 4096); hex_digit (c / 256 mod 16);
   hex_digit (c / 16 mod 16); hex_digit (c mod 16)].

Definition is_lead (c : Z) : bool := (55296 <=? c) && (c <=? 56319).
Definition is_trail (c : Z) : bool := (56320 <=? c) && (c <=? 57343).

Definition escape_char (c : Z) : jsstr :=
  if c =? 8 then [92; 98] else if c =? 9 then [92; 116] else if c =? 10 then [92; 110]
  else if c =? 12 then [92; 102] else if c =? 13 then [92; 114]
  else if c =? 34 then [92; 34] else if c =? 92 then [92; 92]
  else if c <? 32 then unicode_escape c else [c].

(** [QuoteJSONString]: a surrogate that is not part of a pair is escaped. *)
Fixpoint escape_string (s : jsstr) : jsstr :=
  match s with
  | [] => []
  | c :: s' =>
    if is_lead c then
      match s' with
      | d :: s'' =>
        if is_trail d then c :: d :: escape_string s'' else unicode_escape c ++ escape_string s'
      | [] => unicode_escape c
      end
    else if is_trail c then unicode_escape c ++ escape_string s'
    else escape_char c ++ escape_string s'
  end.

Definition quote (s : jsstr) : jsstr := [34] ++ escape_string s ++ [34].

(** A list of items between brackets: on one line without a gap, one per line
    with one. *)
Definition bracket (opening closing : Z) (gap indent : jsstr) (items : list jsstr) : jsstr :=
  match items with
  | [] => [opening; closing]
  | _ =>
    if truthy gap then
      [opening; 10] ++ indent ++ gap ++ join ([44; 10] ++ indent ++ gap) items
        ++ [10] ++ indent ++ [closing]
    else [opening] ++ join [44] items ++ [closing]
  end.

Definition member_text (gap k v : jsstr) : jsstr :=
  quote k ++ [58] ++ (if truthy gap then [32] else []) ++ v.

(** [JSON.stringify(v, null, gap)]; [None] is [undefined], which an array prints
    as null and an object leaves out. *)
Fixpoint stringify_at (gap indent : jsstr) (v : value) : option jsstr :=
  match v with
  | VUndefined => None
  | VNull => Some $"null"
  | VBool b => Some (if b then $"true" else $"false")
  | VNum x => Some (if is_finite x then number_text x else $"null")
  | VStr s => Some (quote s)
  | VArr l =>
    Some (bracket 91 93 gap indent
      ((λ v', default $"null" (stringify_at gap (indent ++ gap) v')) <$> l))
  | VObj o =>
    Some (bracket 123 125 gap indent
      (omap (λ kv, member_text gap kv.1 <$> stringify_at gap (indent ++ gap) kv.2) o))
  end.

Definition json_stringify (gap : jsstr) (v : value) : option jsstr := stringify_at gap [] v.

Example json_1 : json_parse (dq "{'b': [1, 2.50, -0.1e1], '2': null, '1': 'x\u0041\n'}") =
  Some (VObj [($"1", VStr ($"xA" ++ [10])); ($"2", VNull);
    ($"b", VArr [VNum (num_of_Z 1); VNum (num_lit 25 1); VNum (num_of_Z (-1))])]).
Proof. vm_compute. reflexivity. Qed.

Example json_2 : json_stringify $"  " (VObj [($"a", VArr [VNull; VBool true]); ($"b", VObj [])]) =
  Some (dq "{" ++ [10] ++ dq "  'a': [" ++ [10] ++ $"    null," ++ [10] ++ $"    true" ++ [10]
    ++ $"  ]," ++ [10] ++ dq "  'b': {}" ++ [10] ++ $"}").
Proof. vm_compute. reflexivity. Qed.

(** ** Induction on values *)

Section ValueInd.
Context (P : value → Prop).
Context (Hatom : ∀ v, (match v with VArr _ | VObj _ => False | _ => True end) → P v).
Context (Harr : ∀ l, Forall P l → P (VArr l)).
Context (Hobj : ∀ o, Forall (λ kv, P kv.2) o → P (VObj o)).

Fixpoint value_strong_ind (v : value) : P v :=
  match v with
  | VArr l =>
    Harr l ((fix go (l : list value) : Forall P l :=
      match l with
      | [] => Forall_nil_2 _
      | v :: l' => Forall_cons_2 _ _ _ (value_strong_ind v) (go l')
      end) l)
  | VObj o =>
    Hobj o ((fix go (o : list (jsstr * value)) : Forall (λ kv, P kv.2) o :=
      match o with
      | [] => Forall_nil_2 _
      | kv :: o' => Forall_cons_2 _ _ _ (value_strong_ind kv.2) (go o')
      end) o)
  | v => Hatom v I
  end.
End ValueInd.

(** ** Strings read back *)

Lemma radix_hex_digit d : 0 ≤ d < 16 → radix_digit (hex_digit d) = Some d.
Proof.
  intros H. unfold hex_digit, radix_digit, is_digit. destruct (Z.ltb_spec d 10);
    repeat (match goal with |- context [?a <=? ?b] => destruct (Z.leb_spec a b); try lia end);
    cbn [andb]; f_equal; lia.
Qed.

Lemma hex4_escape c :
  0 ≤ c < 65536 →
  hex4 (hex_digit (c / 4096)) (hex_digit (c / 256 mod 16)) (hex_digit (c / 16 mod 16))
    (hex_digit (c mod 16)) = Some c.
Proof.
  intros H. unfold hex4. rewrite !radix_hex_digit by (Z.to_euclidean_division_equations; lia).
  cbn. f_equal. Z.to_euclidean_division_equations; lia.
Qed.

Definition code_unit (c : Z) : bool := (0 <=? c) && (c <? 65536).

Lemma parse_unicode_escape c s w r :
  code_unit c = true → parse_string s = Some (w, r) →
  parse_string (unicode_escape c ++ s) = Some (c :: w, r).
Proof.
  intros Hc Hs. unfold code_unit in Hc. bool_hyps. unfold unicode_escape.
  cbn [app parse_string]. rewrite hex4_escape by lia. by rewrite Hs.
Qed.

Lemma parse_plain_char c s w r :
  32 ≤ c → c ≠ 34 → c ≠ 92 → parse_string s = Some (w, r) →
  parse_string (c :: s) = Some (c :: w, r).
Proof.
  intros H1 H2 H3 Hs. cbn [parse_string].
  rewrite (proj2 (Z.eqb_neq c 34)), (proj2 (Z.ltb_ge c 32)), (proj2 (Z.eqb_neq c 92)) by lia.
  by rewrite Hs.
Qed.

Lemma parse_escape_char c s w r :
  code_unit c = true → parse_string s = Some (w, r) →
  parse_string (escape_char c ++ s) = Some (c :: w, r).
Proof.
  intros Hc Hs. unfold escape_char.
  repeat (match goal with |- context [c =? ?b] =>
    destruct (Z.eqb_spec c b) as [->|]; [cbn [app parse_string]; by rewrite Hs|] end).
  destruct (Z.ltb_spec c 32); [by apply parse_unicode_escape|].
  by apply parse_plain_char.
Qed.

Lemma parse_escape_string s r :
  forallb code_unit s = true → parse_string (escape_string s ++ 34 :: r) = Some (s, r).
Proof.
  remember (length s) as n eqn:Hn. assert (length s ≤ n)%nat as Hle by lia. clear Hn.
  revert s Hle. induction n as [|n IH]; intros s Hle Hs.
  { by destruct s; [|simpl in Hle; lia]. }
  destruct s as [|c s]; [done|]. cbn [length forallb] in *. apply andb_true_iff in Hs as [Hc Hs].
  assert (parse_string (escape_string s ++ 34 :: r) = Some (s, r)) as Hrest by (apply IH; [lia|done]).
  cbn [escape_string]. destruct (is_lead c) eqn:El.
  - destruct s as [|d s]; [by apply (parse_unicode_escape c (34 :: r)); [|apply Hrest]|].
    destruct (is_trail d) eqn:Et; [|rewrite <- app_assoc; by apply parse_unicode_escape].
    cbn [forallb length] in *. apply andb_true_iff in Hs as [Hd Hs].
    unfold is_lead, is_trail in *. bool_hyps. cbn [app].
    apply parse_plain_char; [lia..|]. apply parse_plain_char; [lia..|]. apply IH; [lia|done].
  - destruct (is_trail c); rewrite <- app_assoc; [by apply parse_unicode_escape|by apply parse_escape_char].
Qed.

(** A string without characters to escape is printed as it is. *)
Definition plain_char (c : Z) : bool :=
  (32 <=? c) && (c <? 55296) && negb (c =? 34) && negb (c =? 92).

Lemma escape_plain s : forallb plain_char s = true → escape_string s = s.
Proof.
  induction s as [|c s IH]; [done|]. cbn [forallb]. intros [Hc Hs]%andb_true_iff.
  unfold plain_char in Hc. rewrite !andb_true_iff, !negb_true_iff, !Z.eqb_neq, Z.leb_le, Z.ltb_lt in Hc.
  cbn [escape_string]. unfold is_lead, is_trail.
  rewrite (proj2 (Z.leb_gt 55296 c)), (proj2 (Z.leb_gt 56320 c)) by lia. cbn [andb].
  rewrite IH by done. unfold escape_char.
  repeat (match goal with |- context [c =? ?b] => destruct (Z.eqb_spec c b); [lia|] end).
  by rewrite (proj2 (Z.ltb_ge c 32)) by lia.
Qed.

(** ** Values read back *)

(** What JSON can carry unchanged: no [undefined], finite numbers and no
    negative zero, and objects in the order the language keeps them. *)
Fixpoint json_ok (v : value) : bool :=
  match v with
  | VUndefined => false
  | VNull | VBool _ => true
  | VNum x =>
    is_finite x && valid_binary 53 1024 x && bool_decide (x ≠ S754_zero true)
  | VStr s => forallb code_unit s
  | VArr l => forallb json_ok l
  | VObj o =>
    forallb (λ kv, forallb code_unit kv.1) o && bool_decide (NoDup o.*1)
    && forallb (λ kv, json_ok kv.2) o
    && bool_decide (StronglySorted (λ k k', key_before k' k = false) o.*1)
  end.

Lemma skip_ws_app ws s : forallb is_json_space ws = true → skip_ws (ws ++ s) = skip_ws s.
Proof.
  induction ws as [|c ws IH]; [done|]. cbn [forallb app skip_ws].
  intros [Hc Hw]%andb_true_iff. by rewrite Hc, IH.
Qed.

Lemma parse_value_ws n ws s :
  forallb is_json_space ws = true → parse_value n (ws ++ s) = parse_value n s.
Proof. intros H. destruct n; [done|]. cbn [parse_value]. by rewrite skip_ws_app. Qed.

Lemma parse_members_ws n ws s :
  forallb is_json_space ws = true → parse_members n (ws ++ s) = parse_members n s.
Proof. intros H. destruct n; [done|]. cbn [parse_members]. by rewrite skip_ws_app. Qed.

(** *** Numbers *)

Lemma string_of_Z_head s c r : 0 < s → string_of_Z s = c :: r → c ≠ 48.
Proof.
  intros Hs E ->. destruct s as [|p|p]; try lia. cbn [string_of_Z] in E.
  pose proof (DecimalPos.Unsigned.of_to p) as Hof.
  pose proof (DecimalPos.Unsigned.to_of (Pos.to_uint p)) as Hto.
  rewrite Hof in Hto. cbn [N.to_uint] in Hto.
  destruct (Pos.to_uint p) as [|d|d|d|d|d|d|d|d|d|d] eqn:Hu; try (simpl in E; congruence).
  unfold Decimal.unorm in Hto. destruct (Decimal.nzhead (Decimal.D0 d)) eqn:Hz; try discriminate.
  - injection Hto as ->. done.
  - by apply DecimalFacts.nzhead_nonzero in Hz.
Qed.

Lemma span_numeral_app w r :
  forallb numeral_char w = true → match r with c :: _ => numeral_char c = false | [] => True end →
  span_numeral (w ++ r) = (w, r).
Proof.
  intros Hw Hr. induction w as [|c w IH]; cbn [app span_numeral].
  - destruct r as [|c r]; [done|]. cbn [span_numeral]. by rewrite Hr.
  - cbn [forallb] in Hw. apply andb_true_iff in Hw as [Hc Hw]. by rewrite Hc, IH.
Qed.

Lemma integer_part_head c r : c ≠ 48 → integer_part_ok (c :: r) = true.
Proof. intros H. destruct c as [|p|p]; try done. repeat (destruct p as [p|p|]; try done). Qed.

Lemma strip_minus_digit c r : is_digit c = true → strip_minus (c :: r) = c :: r.
Proof.
  intros Hc%is_digit_range. destruct c as [|p|p]; try done.
  repeat (destruct p as [p|p|]; try done; try lia).
Qed.

Lemma strip_minus_app ip r : forallb is_digit ip = true → ip ≠ [] → strip_minus (ip ++ r) = ip ++ r.
Proof.
  destruct ip as [|c ip]; [done|]. cbn [forallb app]. intros [Hc _]%andb_true_iff _.
  by apply strip_minus_digit.
Qed.

Lemma json_numeral_point ip fp tail ex :
  forallb is_digit ip = true → integer_part_ok ip = true → forallb is_digit fp = true → fp ≠ [] →
  parse_exponent tail = Some ex → match tail with c :: _ => c = 101 | [] => True end →
  json_numeral (ip ++ [46] ++ fp ++ tail) = true.
Proof.
  intros Hi Ho Hf Hne Hex Ht. unfold json_numeral.
  rewrite strip_minus_app by (try done; by destruct ip).
  rewrite (span_digits_app ip), Ho by done. cbn [app].
  rewrite (span_digits_app fp) by (try done; destruct tail; by subst).
  rewrite Hex. by destruct fp.
Qed.

Lemma json_numeral_plain ip tail ex :
  forallb is_digit ip = true → integer_part_ok ip = true →
  parse_exponent tail = Some ex → match tail with c :: _ => c = 101 | [] => True end →
  json_numeral (ip ++ tail) = true.
Proof.
  intros Hi Ho Hex Ht. unfold json_numeral.
  rewrite strip_minus_app by (try done; by destruct ip).
  rewrite (span_digits_app ip), Ho by (try done; destruct tail; by subst).
  destruct tail as [|c tail]; [done|]. subst c. by rewrite Hex.
Qed.

Lemma layout_json s n : 0 < s → json_numeral (layout_decimal (string_of_Z s) n) = true.
Proof.
  intros Hs. pose proof (ds_digits s Hs) as Hd. pose proof (string_of_Z_ne s) as Hne.
  assert (∀ k, forallb is_digit (replicate k 48) = true) as Hz by (intros k; induction k; done).
  assert (∀ r, integer_part_ok (string_of_Z s ++ r) = true) as Hip.
  { intros r. destruct (string_of_Z s) as [|c w] eqn:E; [done|].
    apply integer_part_head. exact (string_of_Z_head s _ _ Hs E). }
  unfold layout_decimal. case_match eqn:C1; [|case_match eqn:C2; [|case_match eqn:C3]].
  - rewrite <- (app_nil_r (_ ++ _)). eapply json_numeral_plain; try done. by rewrite forallb_app, Hd, Hz.
  - rewrite <- (app_nil_r (drop _ _)).
    assert (forallb is_digit (take (Z.to_nat n) (string_of_Z s) ++ drop (Z.to_nat n) (string_of_Z s)) = true) as H'
      by by rewrite take_drop.
    rewrite forallb_app in H'. apply andb_true_iff in H' as [Ht Hdr]. bool_hyps.
    eapply json_numeral_point; try done.
    + specialize (Hip []). rewrite app_nil_r in Hip.
      destruct (string_of_Z s) as [|c w] eqn:E; [done|].
      replace (Z.to_nat n) with (S (Z.to_nat n - 1)) by lia. cbn [take].
      apply integer_part_head. exact (string_of_Z_head s _ _ Hs E).
    + intros E%(f_equal length). rewrite length_drop in E. cbn [length] in E.
      apply andb_false_iff in C1. rewrite !Z.leb_gt in C1. lia.
  - rewrite <- (app_nil_r (replicate _ _ ++ _)). change ([48; 46] ++ ?x) with ([48] ++ [46] ++ x).
    eapply json_numeral_point; try done; [by rewrite forallb_app, Hz, Hd|].
    intros E%app_eq_nil. by destruct E.
  - destruct (string_of_Z s) as [|d r] eqn:E; [done|]. cbn [forallb] in Hd.
    apply andb_true_iff in Hd as [Hdd Hr].
    assert (integer_part_ok [d] = true) as Hio by (apply integer_part_head; exact (string_of_Z_head s _ _ Hs E)).
    assert (forallb is_digit [d] = true) as Hd1 by (simpl; by rewrite Hdd).
    destruct r as [|d' r]; cbn [truthy].
    + rewrite app_nil_l. eapply json_numeral_plain; try done. apply exponent_text_parse.
    + rewrite <- app_assoc. eapply json_numeral_point; try done. apply exponent_text_parse.
Qed.

Lemma number_text_json x : is_finite x = true → valid_binary 53 1024 x = true →
  json_numeral (number_text x) = true ∧ forallb numeral_char (number_text x) = true.
Proof.
  destruct x as [z|neg| |neg m e]; intros Hf Hv; try done.
  unfold number_text. destruct (shortest_decimal neg m e) as [s t] eqn:E.
  apply shortest_decimal_denotes in E as [Hs _]; [|done].
  pose proof (layout_json s (Z.of_nat (length (string_of_Z s)) + t) Hs) as Hl.
  pose proof (layout_numeral s Hs (Z.of_nat (length (string_of_Z s)) + t)) as Hn.
  destruct neg; cbn [app]; [|done]. split; [|by cbn [forallb]; rewrite Hn].
  unfold json_numeral. cbn [strip_minus].
  destruct (layout_head s Hs (Z.of_nat (length (string_of_Z s)) + t)) as (c & r & Hcr & Hc).
  unfold json_numeral in Hl. rewrite Hcr in *. by rewrite strip_minus_digit in Hl.
Qed.

Lemma parse_number_text x r :
  is_finite x = true → valid_binary 53 1024 x = true → x ≠ S754_zero true →
  match r with c :: _ => numeral_char c = false | [] => True end →
  parse_number (number_text x ++ r) = Some (VNum x, r).
Proof.
  intros Hf Hv Hz Hr. destruct (number_text_json x Hf Hv) as [Hj Hn].
  unfold parse_number. rewrite span_numeral_app, Hj, number_text_roundtrip by done.
  destruct x as [[]| | |]; done.
Qed.

(** *** Objects *)

Lemma obj_insert_last k v o :
  (∀ k', k' ∈ o.*1 → key_before k k' = false) → obj_insert k v o = o ++ [(k, v)].
Proof.
  induction o as [|[k' v'] o IH]; [done|]. intros H. cbn [obj_insert app].
  rewrite H by (left). rewrite IH; [done|]. intros k'' Hk. apply H. by right.
Qed.

Lemma obj_fold_sorted l acc :
  NoDup (acc ++ l).*1 → StronglySorted (λ k k', key_before k' k = false) (acc ++ l).*1 →
  fold_left obj_assign l acc = acc ++ l.
Proof.
  revert acc. induction l as [|[k v] l IH]; intros acc Hn Hs; cbn [fold_left]; [by rewrite app_nil_r|].
  replace (acc ++ (k, v) :: l) with ((acc ++ [(k, v)]) ++ l) in * by by rewrite <- app_assoc.
  rewrite <- IH by done. f_equal. unfold obj_assign. cbn [fst snd].
  rewrite <- app_assoc, fmap_app in Hn, Hs. cbn [fmap list_fmap app fst] in Hn, Hs.
  rewrite bool_decide_eq_false_2.
  - apply obj_insert_last. intros k' Hk'.
    exact (StronglySorted_app_1_elem_of (λ k k', key_before k' k = false) _ _ k' k Hs Hk' ltac:(by left)).
  - apply NoDup_app in Hn as (_ & Hn & _). intros Hk. by apply (Hn k Hk); left.
Qed.

Lemma obj_of_list_sorted o :
  NoDup o.*1 → StronglySorted (λ k k', key_before k' k = false) o.*1 → obj_of_list o = o.
Proof. intros. by apply (obj_fold_sorted o []). Qed.

(** *** The texts of values *)

(** What a value's text starts with. *)
Definition opens_value (c : Z) : bool :=
  negb (is_json_space c) && negb (c =? 93) && negb (c =? 125).

Lemma stringify_head gap indent v t :
  json_ok v = true → stringify_at gap indent v = Some t → ∃ c t', t = c :: t' ∧ opens_value c = true.
Proof.
  destruct v as [| |b|x|s|l|o]; cbn [stringify_at json_ok]; intros Hok [= <-]; try done.
  - by eexists _, _.
  - destruct b; by eexists _, _.
  - bool_hyps. destruct (is_finite x) eqn:Hf; [|done].
    destruct (number_text_json x Hf ltac:(done)) as [Hj Hn].
    destruct (number_text x) as [|c w]; [done|]. eexists _, _. split; [done|].
    cbn [forallb] in Hn. apply andb_true_iff in Hn as [Hc _]. unfold numeral_char in Hc.
    rewrite !orb_true_iff, !Z.eqb_eq in Hc.
    destruct Hc as [[[[[Hc%is_digit_range| ->]| ->]| ->]| ->]| ->]; [|done..].
    unfold opens_value, is_json_space. rewrite !andb_true_iff, !negb_true_iff, !orb_false_iff, !Z.eqb_neq. lia.
  - by eexists _, _.
  - unfold bracket. destruct (_ <$> l); [by eexists _, _|]. case_match; by eexists _, _.
  - unfold bracket. destruct (omap _ o); [by eexists _, _|]. case_match; by eexists _, _.
Qed.

Lemma skip_ws_opens c s : opens_value c = true → skip_ws (c :: s) = c :: s.
Proof.
  unfold opens_value. rewrite !andb_true_iff, !negb_true_iff. intros [[Hc _] _].
  cbn [skip_ws]. by rewrite Hc.
Qed.

(** *** The round trip *)

Definition ends_number (r : jsstr) : Prop :=
  match r with c :: _ => numeral_char c = false | [] => True end.

Definition comma (sep : jsstr) : jsstr := 44 :: sep.

Lemma space_not_numeral c : is_json_space c = true → numeral_char c = false.
Proof.
  unfold is_json_space. rewrite !orb_true_iff, !Z.eqb_eq.
  by intros [[[->| ->]| ->]| ->].
Qed.

Lemma spaces_end_number (ws : jsstr) (c : Z) (r : jsstr) :
  forallb is_json_space ws = true → numeral_char c = false → ends_number (ws ++ c :: r).
Proof.
  destruct ws as [|d ws]; [done|]. cbn [forallb app ends_number]. intros [Hd _]%andb_true_iff _.
  by apply space_not_numeral.
Qed.

Section RoundTrip.
Context (gap : jsstr) (Hgap : forallb is_json_space gap = true).

(** The text [t] reads back as [v] whatever follows. *)
Definition reads (v : value) (t : jsstr) : Prop :=
  (∃ c t', t = c :: t' ∧ opens_value c = true) ∧
  ∀ r n, ends_number r → (2 * length t ≤ n)%nat → parse_value n (t ++ r) = Some (v, r).

Lemma reads_ne v t : reads v t → (1 ≤ length t)%nat.
Proof using. intros [(c & t' & -> & _) _]. cbn [length]. lia. Qed.

Lemma read_elements (sep closing : jsstr) (l : list value) (ts : list jsstr) (n : nat) (r : jsstr) :
  forallb is_json_space sep = true → forallb is_json_space closing = true →
  Forall2 reads l ts → l ≠ [] → (2 * length (join (comma sep) ts) + 1 ≤ n)%nat →
  parse_elements n (join (comma sep) ts ++ closing ++ 93 :: r) = Some (l, r).
Proof using.
  intros Hsep Hcl Hl Hne. revert n. induction Hl as [|v t l ts Hv Hl IH]; intros n Hn; [done|].
  pose proof (reads_ne v t Hv) as Ht. destruct Hv as [_ Hv].
  destruct n as [|n]; [lia|]. cbn [parse_elements].
  destruct Hl as [|v' t' l ts Hv' Hl].
  - cbn [join] in *. rewrite Hv by (try lia; by apply spaces_end_number).
    cbn [mbind option_bind]. by rewrite skip_ws_app.
  - change (join (comma sep) (t :: t' :: ts)) with (t ++ comma sep ++ join (comma sep) (t' :: ts)) in *.
    unfold comma at 1 in Hn. rewrite <- !app_assoc, !length_app in *. cbn [length] in Hn.
    rewrite Hv; [|done|lia]. unfold comma at 1. cbn [mbind option_bind app skip_ws].
    change (is_json_space 44) with false. cbn iota.
    destruct n as [|n]; [lia|].
    specialize (IH ltac:(done) (S n) ltac:(lia)). cbn [parse_elements] in IH |- *.
    by rewrite parse_value_ws, IH.
Qed.

Lemma read_members (sep closing : jsstr) (o : list (jsstr * value)) (ts : list jsstr) (n : nat) (r : jsstr) :
  forallb is_json_space sep = true → forallb is_json_space closing = true →
  Forall2 (λ kv t, forallb code_unit kv.1 = true ∧ ∃ u, t = member_text gap kv.1 u ∧ reads kv.2 u) o ts →
  o ≠ [] → (2 * length (join (comma sep) ts) + 1 ≤ n)%nat →
  parse_members n (join (comma sep) ts ++ closing ++ 125 :: r) = Some (o, r).
Proof using.
  intros Hsep Hcl Ho Hne. revert n. induction Ho as [|[k v] t o ts Hkv Ho IH]; intros n Hn; [done|].
  cbn [fst snd] in Hkv. destruct Hkv as (Hk & u & -> & Hv).
  pose proof (reads_ne v u Hv) as Hu. destruct Hv as [_ Hv].
  assert (forallb is_json_space (if truthy gap then [32] else []) = true) as Hsp
    by by destruct (truthy gap).
  destruct n as [|n]; [lia|]. cbn [parse_members].
  assert (∀ s, skip_ws (member_text gap k u ++ s) = 34 :: escape_string k ++ 34 :: 58 ::
    (if truthy gap then [32] else []) ++ u ++ s) as Hm.
  { intros s. unfold member_text, quote. rewrite <- !app_assoc. done. }
  destruct Ho as [|kv' t' o ts Hkv' Ho].
  - cbn [join] in *. rewrite Hm, parse_escape_string by done.
    cbn [mbind option_bind skip_ws]. change (is_json_space 58) with false. cbn iota.
    unfold member_text in Hn. rewrite !length_app in Hn.
    rewrite parse_value_ws, Hv by (try done; try lia; by apply spaces_end_number).
    cbn [mbind option_bind]. by rewrite skip_ws_app.
  - change (join (comma sep) (?x :: t' :: ts)) with (x ++ comma sep ++ join (comma sep) (t' :: ts)) in *.
    unfold comma at 1 in Hn. rewrite <- !app_assoc, !length_app in *. cbn [length] in Hn.
    rewrite Hm, parse_escape_string by done.
    cbn [mbind option_bind skip_ws]. change (is_json_space 58) with false. cbn iota.
    unfold member_text in Hn. rewrite !length_app in Hn.
    rewrite parse_value_ws, Hv; [|done|lia|done].
    unfold comma at 1. cbn [mbind option_bind app skip_ws].
    change (is_json_space 44) with false. cbn iota.
    by rewrite parse_members_ws, IH by (try done; lia).
Qed.

(** The items of a bracket: what stands between them and after them is white
    space. *)
Lemma bracket_layout opening closing indent items :
  forallb is_json_space indent = true → items ≠ [] →
  ∃ lead sep trail,
    forallb is_json_space lead = true ∧ forallb is_json_space sep = true ∧
    forallb is_json_space trail = true ∧
    bracket opening closing gap indent items =
      opening :: lead ++ join (comma sep) items ++ trail ++ [closing].
Proof using Hgap.
  intros Hi Hne. unfold bracket. destruct items as [|i items]; [done|]. destruct (truthy gap).
  - exists (10 :: indent ++ gap), (10 :: indent ++ gap), (10 :: indent).
    cbn [forallb]. rewrite forallb_app, Hi, Hgap. repeat split.
    cbn [app]. by rewrite <- !app_assoc.
  - by exists [], [], [].
Qed.

Lemma stringify_array_reads indent l ts :
  forallb is_json_space indent = true → Forall2 reads l ts →
  reads (VArr l) (bracket 91 93 gap indent ts).
Proof using Hgap.
  intros Hi Hl. split.
  { unfold bracket. destruct ts; [by eexists _, _|]. case_match; by eexists _, _. }
  intros r n Hr Hn. destruct n as [|n]; [unfold bracket in Hn; destruct ts; [simpl in Hn; lia|];
    case_match; simpl in Hn; lia|].
  destruct (decide (ts = [])) as [->|Hne]; [by apply Forall2_nil_inv_r in Hl as ->|].
  destruct (bracket_layout 91 93 indent ts Hi Hne) as (lead & sep & trail & H1 & H2 & H3 & E).
  rewrite E in Hn |- *. cbn [app length] in Hn |- *. rewrite !length_app in Hn. cbn [length] in Hn.
  rewrite <- !app_assoc. cbn [parse_value skip_ws app]. change (is_json_space 91) with false. cbn iota.
  change (91 =? 34) with false. change (91 =? 91) with true. cbn iota.
  assert (l ≠ []) as Hl0 by (intros ->; by apply Forall2_nil_inv_l in Hl).
  assert (∃ c s, join (comma sep) ts ++ trail ++ [93] ++ r = c :: s ∧ opens_value c = true) as (c & s & Ej & Hc).
  { destruct Hl as [|v t l ts Hv Hl]; [done|]. destruct Hv as [(c & t' & -> & Hc) _].
    destruct ts; cbn [join app]; eauto. }
  destruct n as [|n]; [lia|].
  assert (parse_elements (S n) (lead ++ join (comma sep) ts ++ trail ++ [93] ++ r) = Some (l, r)) as Hel.
  { pose proof (read_elements sep trail l ts (S n) r H2 H3 Hl Hl0 ltac:(lia)) as He.
    cbn [parse_elements] in He |- *. by rewrite parse_value_ws. }
  cbn [app] in Hel, Ej. rewrite Hel. cbn [mbind option_bind].
  rewrite skip_ws_app, Ej, skip_ws_opens by done.
  unfold opens_value in Hc. rewrite !andb_true_iff, !negb_true_iff, !Z.eqb_neq in Hc.
  destruct c as [|p|p]; try done. repeat (destruct p as [p|p|]; try done; try lia).
Qed.

Lemma stringify_object_reads indent o ts :
  forallb is_json_space indent = true → obj_of_list o = o →
  Forall2 (λ kv t, forallb code_unit kv.1 = true ∧ ∃ u, t = member_text gap kv.1 u ∧ reads kv.2 u) o ts →
  reads (VObj o) (bracket 123 125 gap indent ts).
Proof using Hgap.
  intros Hi Hord Ho. split.
  { unfold bracket. destruct ts; [by eexists _, _|]. case_match; by eexists _, _. }
  intros r n Hr Hn. destruct n as [|n]; [unfold bracket in Hn; destruct ts; [simpl in Hn; lia|];
    case_match; simpl in Hn; lia|].
  destruct (decide (ts = [])) as [->|Hne]; [by apply Forall2_nil_inv_r in Ho as ->|].
  destruct (bracket_layout 123 125 indent ts Hi Hne) as (lead & sep & trail & H1 & H2 & H3 & E).
  rewrite E in Hn |- *. cbn [app length] in Hn |- *. rewrite !length_app in Hn. cbn [length] in Hn.
  rewrite <- !app_assoc. cbn [parse_value skip_ws app]. change (is_json_space 123) with false. cbn iota.
  change (123 =? 34) with false. change (123 =? 91) with false. change (123 =? 123) with true. cbn iota.
  assert (o ≠ []) as Ho0 by (intros ->; by apply Forall2_nil_inv_l in Ho).
  assert (∃ s, join (comma sep) ts ++ trail ++ [125] ++ r = 34 :: s) as (s & Ej).
  { destruct Ho as [|kv t o ts Hkv Ho]; [done|]. destruct Hkv as (_ & u & -> & _).
    destruct ts; cbn [join]; unfold member_text, quote; cbn [app]; eauto. }
  pose proof (read_members sep trail o ts n r H2 H3 Ho Ho0 ltac:(lia)) as Hm.
  rewrite parse_members_ws by done. cbn [app] in Hm, Ej. rewrite Hm. cbn [mbind option_bind].
  rewrite skip_ws_app, Ej by done. cbn [skip_ws]. change (is_json_space 34) with false. cbn iota.
  by rewrite Hord.
Qed.

Lemma stringify_reads v :
  ∀ indent, forallb is_json_space indent = true → json_ok v = true →
  ∃ t, stringify_at gap indent v = Some t ∧ reads v t.
Proof using Hgap.
  induction v as [v Hatom|l IH|o IH] using value_strong_ind; intros indent Hi Hok.
  - destruct (stringify_at gap indent v) as [t|] eqn:Et; [|by destruct v]. exists t. split; [done|].
    split; [by eapply stringify_head|]. intros r n Hr Hn. destruct n as [|n].
    { destruct (stringify_head _ _ _ _ Hok Et) as (c & t' & -> & _). simpl in Hn. lia. }
    destruct v as [| |b|x|s| |]; try done; cbn [stringify_at json_ok] in *; injection Et as <-.
    + done.
    + by destruct b.
    + bool_hyps. destruct (is_finite x) eqn:Hf; [|done].
      pose proof (parse_number_text x r Hf ltac:(done) ltac:(done) Hr) as Hp.
      pose proof (number_text_json x Hf ltac:(done)) as [Hj Hn'].
      destruct (number_text x) as [|c w]; [done|]. cbn [app] in *.
      cbn [forallb] in Hn'. apply andb_true_iff in Hn' as [Hc _].
      assert (opens_value c = true ∧ c ≠ 34 ∧ c ≠ 91 ∧ c ≠ 123 ∧ c ≠ 110 ∧ c ≠ 116 ∧ c ≠ 102)
        as (Ho & N1 & N2 & N3 & N4 & N5 & N6).
      { unfold numeral_char in Hc. rewrite !orb_true_iff, !Z.eqb_eq in Hc.
        destruct Hc as [[[[[Hc%is_digit_range| ->]| ->]| ->]| ->]| ->]; [|done..].
        unfold opens_value, is_json_space.
        rewrite !andb_true_iff, !negb_true_iff, !orb_false_iff, !Z.eqb_neq. lia. }
      cbn [parse_value]. rewrite skip_ws_opens by done.
      rewrite !(proj2 (Z.eqb_neq c _)) by done. done.
    + unfold quote. rewrite <- !app_assoc. cbn [app parse_value skip_ws].
      change (is_json_space 34) with false. cbn iota. change (34 =? 34) with true. cbn iota.
      by rewrite parse_escape_string.
  - cbn [json_ok stringify_at] in *. eexists. split; [done|].
    apply stringify_array_reads; [done|]. rewrite forallb_forall in Hok.
    apply Forall2_fmap_r, Forall_Forall2_diag. apply Forall_forall. intros v Hv.
    rewrite Forall_forall in IH.
    destruct (IH v Hv (indent ++ gap)) as (t & Et & Ht); [by rewrite forallb_app, Hi, Hgap| |].
    + apply Hok. by apply list_elem_of_In.
    + unfold compose. by rewrite Et.
  - cbn [json_ok stringify_at] in *. rewrite !andb_true_iff, !bool_decide_eq_true, !forallb_forall in Hok.
    destruct Hok as [[[Hk Hn] Hv] Hs]. eexists. split; [done|].
    apply stringify_object_reads; [done|by apply obj_of_list_sorted|].
    clear Hn Hs. induction IH as [|[k v] o IHv IHo IH]; [constructor|]. cbn [omap list_omap fst snd].
    destruct (IHv (indent ++ gap)) as (t & Et & Ht); cbn [snd] in *.
    { by rewrite forallb_app, Hi, Hgap. }
    { apply (Hv (k, v)). by left. }
    rewrite Et. cbn [fmap option_fmap option_map]. constructor.
    + split; [apply (Hk (k, v)); by left|eauto].
    + apply IH; intros kv Hkv; [apply Hk|apply Hv]; by right.
Qed.

(** [JSON.parse(JSON.stringify(v, null, gap))] *)
Theorem parse_stringify v :
  json_ok v = true → ∃ t, json_stringify gap v = Some t ∧ json_parse t = Some v.
Proof using Hgap.
  intros Hok. destruct (stringify_reads v [] ltac:(done) Hok) as (t & Et & _ & Ht).
  exists t. split; [done|]. unfold json_parse, json_fuel.
  specialize (Ht [] (2 * length t + 2)%nat I ltac:(lia)). rewrite app_nil_r in Ht. by rewrite Ht.
Qed.
End RoundTrip.

(** ** [String(v)] *)

Fixpoint value_text (v : value) : jsstr :=
  match v with
  | VUndefined => $"undefined"
  | VNull => $"null"
  | VBool b => if b then $"true" else $"false"
  | VNum x => number_text x
  | VStr s => s
  | VArr l =>
    join [44] ((λ v', match v' with VUndefined | VNull => [] | _ => value_text v' end) <$> l)
  | VObj _ => $"[object Object]"
  end.

(** ** Code that may throw *)

(** The completion of a computation that calls [JSON.parse] outside a [try]. *)
Inductive completion (A : Type) := Normal (a : A) | Throws.
Arguments Normal {A} a.
Arguments Throws {A}.

Definition bind_completion {A B : Type} (m : completion A) (f : A → completion B) : completion B :=
  match m with Normal a => f a | Throws => Throws end.

Notation "'let?' x := m 'in' k" := (bind_completion m (λ x, k))
  (at level 200, x name, m at level 100, k at level 200, right associativity) : js_scope.
