(* ===== verification/JsMath.v ===== *)
(** * Number functions of the language

    [Number(v)] on any value, [parseFloat], [Math.abs], [Math.max] and
    [toFixed], with the facts that tie them to the text of a number. *)

From S2P Require Import Prelude JsString JsNumber NumberText JsValue Json.

(** ** The language: [Number(v)], [parseFloat], [Math.abs], [Math.max] *)

Definition to_number (v : value) : number :=
  match v with
  | VUndefined => nan
  | VNull => S754_zero false
  | VBool b => if b then num_of_Z 1 else S754_zero false
  | VNum x => x
  | VStr s => number_of_string s
  | VArr _ | VObj _ => number_of_string (value_text v)
  end.

(** The exponent at the start of a text, 0 when there is none. *)
Definition exponent_prefix (s : jsstr) : Z :=
  match s with
  | c :: s' =>
    if (c =? 101) || (c =? 69) then
      let '(neg, s'') := take_sign s' in
      let '(d, _) := span_digits s'' in
      if truthy d then (if neg then - parse_digits d else parse_digits d) else 0
    else 0
  | [] => 0
  end.

(** The longest prefix that is a decimal literal. *)
Definition float_prefix (neg : bool) (t : jsstr) : number :=
  if starts_with $"Infinity" t then infinity neg
  else
    let '(ip, r) := span_digits t in
    let '(fp, r') := match r with 46 :: r1 => span_digits r1 | _ => ([], r) end in
    if negb (truthy ip) && negb (truthy fp) then nan
    else num_of_decimal neg (Z.to_N (parse_digits (ip ++ fp)))
           (exponent_prefix r' - Z.of_nat (length fp)).

Definition parse_float (s : jsstr) : number :=
  let '(neg, t) := take_sign (trim_start s) in float_prefix neg t.

Definition num_abs (x : number) : number := SFabs x.

Definition num_max (x y : number) : number :=
  match x, y with
  | S754_nan, _ | _, S754_nan => nan
  | _, _ => if num_ltb x y then y else x
  end.

(** [x.toFixed(d)], large numbers included *)
Definition toFixed (d : nat) (x : number) : jsstr :=
  if num_leb (num_of_Z (10 ^ 21)) (num_abs x) then number_text x else to_fixed d x.

(** ** [parseFloat] on the text of a number *)

Lemma starts_with_infinity s : forallb numeral_char s = true → starts_with $"Infinity" s = false.
Proof.
  destruct s as [|c s]; [done|]. cbn [forallb]. intros [Hc _]%andb_true_iff.
  change ($"Infinity") with (73 :: $"nfinity"). cbn [starts_with].
  destruct (Z.eqb_spec 73 c); [|done]. by subst.
Qed.

Lemma all_digits_span s : all_digits s = true → span_digits s = (s, []) ∧ truthy s = true.
Proof.
  unfold all_digits. rewrite andb_true_iff. intros [Ht Hd]. split; [|done]. clear Ht.
  induction s as [|c s IH]; [done|]. cbn [forallb span_digits] in *.
  apply andb_true_iff in Hd as [-> Hd]. by rewrite IH.
Qed.

Lemma exponent_prefix_parse s e : parse_exponent s = Some e → exponent_prefix s = e.
Proof.
  unfold parse_exponent, exponent_prefix. destruct s as [|c s]; [by intros [=]|].
  destruct (_ || _); [|done]. destruct (take_sign s) as [neg s'].
  destruct (all_digits s') eqn:E; [|done]. apply all_digits_span in E as [-> ->]. by intros [= <-].
Qed.

Lemma float_prefix_numeral neg t :
  forallb numeral_char t = true → parse_unsigned_decimal neg t ≠ nan →
  float_prefix neg t = parse_unsigned_decimal neg t.
Proof.
  intros Ht Hn. unfold float_prefix. rewrite starts_with_infinity by done. unfold parse_unsigned_decimal in *.
  destruct (bool_decide (t = $"Infinity")) eqn:E; bool_hyps; [by rewrite E in Ht|].
  destruct (span_digits t) as [ip r]. destruct (match r with 46 :: r1 => span_digits r1 | _ => ([], r) end) as [fp r'].
  destruct (_ && _); [done|]. destruct (parse_exponent r') as [ex|] eqn:Ex; [|done].
  by rewrite (exponent_prefix_parse _ _ Ex).
Qed.

Lemma numeral_signed s :
  forallb numeral_char s = true → s ≠ [] →
  number_of_string s = let '(neg, t) := take_sign s in parse_unsigned_decimal neg t.
Proof.
  intros Hs Hne. unfold number_of_string. rewrite trim_no_spaces by by apply numeral_no_spaces.
  destruct s as [|c r]; [done|]. cbn [forallb] in Hs. apply andb_true_iff in Hs as [Hc Hr].
  destruct (Z.eqb_spec c 48) as [->|Hc'].
  - destruct r as [|d r]; [done|]. cbn [forallb] in Hr. apply andb_true_iff in Hr as [Hd _].
    unfold numeral_char, is_digit in Hd. rewrite !orb_true_iff, andb_true_iff, !Z.eqb_eq, !Z.leb_le in Hd.
    repeat (match goal with |- context [?a =? ?b] => destruct (Z.eqb_spec a b); [lia|] end; cbn [orb]).
    done.
  - repeat case_match; try done; congruence.
Qed.

Lemma take_sign_numeral s neg t :
  take_sign s = (neg, t) → forallb numeral_char s = true → forallb numeral_char t = true.
Proof.
  unfold take_sign. intros H Hs. repeat case_match; simplify_eq; try done;
    cbn [forallb] in Hs; by apply andb_true_iff in Hs as [_ ?].
Qed.

Lemma parse_float_numeral s :
  forallb numeral_char s = true → s ≠ [] → number_of_string s ≠ nan →
  parse_float s = number_of_string s.
Proof.
  intros Hs Hne. rewrite (numeral_signed s Hs Hne). unfold parse_float.
  assert (trim_start s = s) as ->.
  { destruct s as [|c s]; [done|]. pose proof (numeral_no_spaces _ Hs) as H.
    cbn [no_spaces forallb] in H. cbn [trim_start]. unfold no_spaces in H. cbn [forallb] in H.
    apply andb_true_iff in H as [H _]. apply negb_true_iff in H. by rewrite H. }
  destruct (take_sign s) as [neg t] eqn:E. intros Hn.
  apply float_prefix_numeral; [by eapply take_sign_numeral|done].
Qed.

(** [parseFloat(String(x))] *)
Lemma parse_float_text x :
  is_finite x = true → valid_binary 53 1024 x = true → parse_float (number_text x) = unsigned_zero x.
Proof.
  intros Hf Hv. destruct (number_text_json x Hf Hv) as [Hj Hn]. rewrite <- (number_text_roundtrip x Hv).
  apply parse_float_numeral; [done|by intros E; rewrite E in Hj|].
  rewrite number_text_roundtrip by done. by destruct x.
Qed.

(** ** The order of numbers *)

Lemma SFcompare_flip x y : SFcompare y x = CompOpp <$> SFcompare x y.
Proof.
  destruct x as [[]|[]| |[] mx ex], y as [[]|[]| |[] my ey]; try done; cbn [SFcompare fmap option_fmap option_map];
    change (Pos.compare_cont Eq my mx) with (my ?= mx)%positive;
    change (Pos.compare_cont Eq mx my) with (mx ?= my)%positive;
    rewrite (Z.compare_antisym ex ey), (Pos.compare_antisym mx my);
    destruct (ex ?= ey); cbn [CompOpp]; try done; by destruct (mx ?= my)%positive.
Qed.

Lemma num_ltb_leb x y : x ≠ nan → y ≠ nan → num_ltb x y = negb (num_leb y x).
Proof.
  intros Hx Hy. unfold num_ltb, num_leb, SFltb, SFleb. rewrite (SFcompare_flip x y).
  assert (SFcompare x y ≠ None) as Hn by (destruct x as [[]|[]| |[]], y as [[]|[]| |[]]; done).
  destruct (SFcompare x y) as [[]|]; done.
Qed.

Lemma num_leb_refl x : x ≠ nan → num_leb x x = true.
Proof.
  destruct x as [[]|[]| |[] m e]; try done; intros _; unfold num_leb, SFleb; cbn [SFcompare];
    rewrite Z.compare_refl; change (Pos.compare_cont Eq m m) with (m ?= m)%positive; by rewrite Pos.compare_refl.
Qed.

Lemma finite_leb s1 s2 m1 m2 e1 e2 :
  num_leb (S754_finite s1 m1 e1) (S754_finite s2 m2 e2) = true ↔
  match s1, s2 with
  | true, false => True
  | false, true => False
  | false, false => e1 < e2 ∨ (e1 = e2 ∧ (m1 ≤ m2)%positive)
  | true, true => e2 < e1 ∨ (e1 = e2 ∧ (m2 ≤ m1)%positive)
  end.
Proof.
  unfold num_leb, SFleb. cbn [SFcompare]. destruct s1, s2; try done;
    change (Pos.compare_cont Eq m1 m2) with (m1 ?= m2)%positive;
    destruct (Z.compare_spec e1 e2), (Pos.compare_spec m1 m2); cbn [CompOpp]; split; try done; lia.
Qed.

Lemma num_leb_trans x y z : num_leb x y = true → num_leb y z = true → num_leb x z = true.
Proof.
  destruct x as [sx|sx| |sx mx ex], y as [sy|sy| |sy my ey], z as [sz|sz| |sz mz ez]; try done;
    rewrite ?finite_leb; destruct sx; try destruct sy; try destruct sz; try done; lia.
Qed.

Lemma num_ltb_weak x y : num_ltb x y = true → num_leb x y = true.
Proof. unfold num_ltb, num_leb, SFltb, SFleb. by destruct (SFcompare x y) as [[]|]. Qed.
