(* ===== verification/OrderedMap.v ===== *)
(** * [Map] and [Set]: insertion-ordered collections

    A JavaScript [Map] iterates in insertion order and an update keeps the
    position of its key; a [Set] keeps the first occurrence of each element.
    Both are lists here; [om_wf] is the invariant that keys are distinct. *)

From S2P Require Import Prelude.

Section ordered_map.
Context {K V : Type} `{EqDecision K}.
Implicit Types (m : list (K * V)) (k : K) (v : V).

Fixpoint om_get k m : option V :=
  match m with
  | [] => None
  | (k', v) :: m' => if decide (k = k') then Some v else om_get k m'
  end.

Fixpoint om_set k v m : list (K * V) :=
  match m with
  | [] => [(k, v)]
  | (k', v') :: m' => if decide (k = k') then (k', v) :: m' else (k', v') :: om_set k v m'
  end.

Definition om_delete k m : list (K * V) := filter (λ kv, kv.1 ≠ k) m.

Definition om_keys m : list K := m.*1.
Definition om_values m : list V := m.*2.

Definition om_wf m : Prop := NoDup (om_keys m).

Lemma om_get_set_eq k v m : om_get k (om_set k v m) = Some v.
Proof.
  induction m as [|[k' v'] m IH]; simpl; [by rewrite decide_True|].
  destruct (decide (k = k')); simpl; [by rewrite decide_True|by rewrite decide_False].
Qed.

Lemma om_get_set_ne k k' v m : k ≠ k' → om_get k (om_set k' v m) = om_get k m.
Proof.
  intros Hne. induction m as [|[k2 v2] m IH]; simpl; [by rewrite decide_False|].
  destruct (decide (k' = k2)) as [->|]; simpl; [by rewrite !decide_False|].
  by rewrite IH.
Qed.

Lemma om_get_elem k v m : om_get k m = Some v → (k, v) ∈ m.
Proof.
  induction m as [|[k' v'] m IH]; simpl; [done|].
  destruct (decide (k = k')) as [->|]; [intros [= ->]; left|]. intros H%IH. by right.
Qed.

Lemma elem_om_get k v m : om_wf m → (k, v) ∈ m → om_get k m = Some v.
Proof.
  unfold om_wf, om_keys. induction m as [|[k' v'] m IH]; simpl; [set_solver|].
  intros [Hk Hnd]%NoDup_cons [[= <- <-]|Hin]%elem_of_cons; [by rewrite decide_True|].
  rewrite decide_False; [by apply IH|]. intros ->. apply Hk.
  apply list_elem_of_fmap. by exists (k', v).
Qed.

Lemma om_get_None k m : om_get k m = None ↔ k ∉ om_keys m.
Proof.
  unfold om_keys. induction m as [|[k' v'] m IH]; simpl; [set_solver|].
  destruct (decide (k = k')) as [->|]; set_solver.
Qed.

Lemma om_keys_set k v m :
  om_keys (om_set k v m) = if decide (k ∈ om_keys m) then om_keys m else om_keys m ++ [k].
Proof.
  unfold om_keys. induction m as [|[k' v'] m IH]; cbn [om_set].
  - case_decide; [set_solver|done].
  - destruct (decide (k = k')) as [->|]; csimpl.
    + rewrite decide_True by set_solver. done.
    + rewrite IH. repeat case_decide; set_solver.
Qed.

Lemma om_set_wf k v m : om_wf m → om_wf (om_set k v m).
Proof.
  unfold om_wf. intros H. rewrite om_keys_set. case_decide; [done|].
  apply NoDup_app. split; [done|]. split; [set_solver|]. apply NoDup_singleton.
Qed.

Lemma om_get_delete k k' m :
  om_wf m → om_get k (om_delete k' m) = if decide (k = k') then None else om_get k m.
Proof.
  intros _. induction m as [|[k2 v2] m IH]; simpl; [by case_decide|].
  unfold om_delete in *. rewrite filter_cons. simpl.
  destruct (decide (k2 ≠ k')) as [Hne|Heq]; simpl.
  - rewrite IH. destruct (decide (k = k2)) as [->|]; [|done]. by rewrite decide_False.
  - apply dec_stable in Heq as ->. rewrite IH. by destruct (decide (k = k')).
Qed.

Lemma om_filter_wf (P : K * V → Prop) `{∀ kv, Decision (P kv)} m : om_wf m → om_wf (filter P m).
Proof.
  unfold om_wf, om_keys. induction m as [|kv m IH]; simpl; [done|].
  intros [Hk Hnd]%NoDup_cons. rewrite filter_cons. case_decide; [|auto]. csimpl.
  constructor; [|auto]. intros (kv' & Hkv & Hin)%list_elem_of_fmap.
  apply Hk, list_elem_of_fmap. exists kv'. split; [done|].
  by apply list_elem_of_filter in Hin as [_ ?].
Qed.

Lemma om_get_filter (P : K * V → Prop) `{∀ kv, Decision (P kv)} k m :
  om_wf m →
  om_get k (filter P m) =
  match om_get k m with Some v => if decide (P (k, v)) then Some v else None | None => None end.
Proof.
  intros Hwf. destruct (om_get k m) as [v|] eqn:E.
  - pose proof (om_get_elem _ _ _ E) as Hin. case_decide.
    + apply elem_om_get; [by apply om_filter_wf|]. by apply list_elem_of_filter.
    + apply om_get_None. intros ([k' v'] & Hk & Hin')%list_elem_of_fmap. simpl in Hk. subst k'.
      apply list_elem_of_filter in Hin' as [HP Hin'].
      apply elem_om_get in Hin'; [|done]. congruence.
  - apply om_get_None. apply om_get_None in E. intros (kv & -> & Hin)%list_elem_of_fmap.
    apply list_elem_of_filter in Hin as [_ Hin]. apply E. by apply list_elem_of_fmap_2.
Qed.

End ordered_map.

(** Copying a [Map] entry by entry through [f]. *)
Lemma om_get_fold_map {K V W} `{EqDecision K} (f : V → W) (m : list (K * V))
    (acc : list (K * W)) k :
  om_wf m →
  om_get k (fold_left (λ a '(k, v), om_set k (f v) a) m acc) =
  match om_get k m with Some v => Some (f v) | None => om_get k acc end.
Proof.
  revert acc. induction m as [|[k' v'] m IH]; intros acc Hwf; simpl; [done|].
  apply NoDup_cons in Hwf as [Hk' Hwf]. rewrite IH by done.
  destruct (decide (k = k')) as [->|Hne].
  - apply om_get_None in Hk'. simpl in Hk'. rewrite Hk'. apply om_get_set_eq.
  - by rewrite om_get_set_ne.
Qed.

(** ** [Set] *)

Section ordered_set.
Context {A : Type} `{EqDecision A}.
Implicit Types (l : list A) (x : A).

Definition os_add l x : list A := if decide (x ∈ l) then l else l ++ [x].

(** [[...new Set(l)]] *)
Definition os_of_list l : list A := fold_left os_add l [].

Lemma elem_of_os_add x y l : y ∈ os_add l x ↔ y ∈ l ∨ y = x.
Proof. unfold os_add. case_decide; set_solver. Qed.

Lemma os_add_NoDup l x : NoDup l → NoDup (os_add l x).
Proof.
  intros H. unfold os_add. case_decide; [done|]. apply NoDup_app.
  split; [done|]. split; [set_solver|apply NoDup_singleton].
Qed.

Lemma os_fold_spec l acc :
  NoDup acc →
  NoDup (fold_left os_add l acc) ∧ ∀ y, y ∈ fold_left os_add l acc ↔ y ∈ acc ∨ y ∈ l.
Proof.
  revert acc. induction l as [|x l IH]; intros acc Hnd; simpl; [set_solver|].
  destruct (IH (os_add acc x)) as [Hn He]; [by apply os_add_NoDup|].
  split; [done|]. intros y. rewrite He, elem_of_os_add. set_solver.
Qed.

Lemma os_of_list_NoDup l : NoDup (os_of_list l).
Proof. apply os_fold_spec, NoDup_nil_2. Qed.

Lemma elem_of_os_of_list y l : y ∈ os_of_list l ↔ y ∈ l.
Proof. unfold os_of_list. rewrite (proj2 (os_fold_spec l [] NoDup_nil_2)). set_solver. Qed.

Lemma os_add_cons_fold l acc :
  NoDup (acc ++ l) → fold_left os_add l acc = acc ++ l.
Proof.
  revert acc. induction l as [|x l IH]; intros acc Hnd; simpl; [by rewrite app_nil_r|].
  assert (os_add acc x = acc ++ [x]) as ->.
  { unfold os_add. rewrite decide_False; [done|].
    apply NoDup_app in Hnd as (_ & H & _). intros Hx. apply (H x Hx). left. }
  rewrite IH; [by rewrite <- app_assoc|]. by rewrite <- app_assoc.
Qed.

Lemma os_of_list_id l : NoDup l → os_of_list l = l.
Proof. intros H. apply (os_add_cons_fold l []). done. Qed.

End ordered_set.

(** ** Accumulating events in a [Map]

    The recurring loop [const v = map.get(k) ?? init; update v; map.set(k, v)]:
    an event [e] is filed under [key e].  A field that every update leaves
    alone comes from the first event of its key; a counter that every update
    increases by [weight e] ends as the sum over the events of its key. *)

Section group.
Context {Ev K V : Type} `{EqDecision K}.
Context (key : Ev → K) (init : Ev → V) (upd : V → Ev → V).
Implicit Types (m : list (K * V)) (es : list Ev).

Definition om_upsert m (e : Ev) : list (K * V) :=
  om_set (key e) (upd (default (init e) (om_get (key e) m)) e) m.

Definition om_group es : list (K * V) := fold_left om_upsert es [].

Lemma om_group_snoc es e : om_group (es ++ [e]) = om_upsert (om_group es) e.
Proof. unfold om_group. by rewrite fold_left_app. Qed.

Lemma om_group_wf es : om_wf (om_group es).
Proof.
  induction es as [|e es IH] using rev_ind; [apply NoDup_nil_2|].
  rewrite om_group_snoc. by apply om_set_wf.
Qed.

Lemma om_group_keys es k : k ∈ om_keys (om_group es) ↔ ∃ e, e ∈ es ∧ key e = k.
Proof.
  induction es as [|e es IH] using rev_ind.
  - split; [intros []%elem_of_nil|intros (e & []%elem_of_nil & _)].
  - rewrite om_group_snoc. unfold om_upsert. rewrite om_keys_set.
    case_decide as Hk.
    + rewrite IH. split; [set_solver|]. intros (e' & He' & <-).
      apply elem_of_app in He' as [?|Hx%list_elem_of_singleton]; [eauto|]. subst e'. by apply IH.
    + rewrite elem_of_app, IH, list_elem_of_singleton. set_solver.
Qed.

(** A field no update changes has the value of some event of the key. *)
Lemma om_group_static {B} (h : V → B) es k v :
  (∀ v e, h (upd v e) = h v) → om_get k (om_group es) = Some v →
  ∃ e, e ∈ es ∧ key e = k ∧ h v = h (init e).
Proof.
  intros Hh. revert v. induction es as [|e es IH] using rev_ind; intros v; [done|].
  rewrite om_group_snoc. unfold om_upsert.
  destruct (decide (k = key e)) as [->|Hne].
  - rewrite om_get_set_eq. intros [= <-]. rewrite Hh.
    destruct (om_get (key e) (om_group es)) as [v|]; simpl.
    + destruct (IH v) as (e' & ? & ? & ?); [done|]. exists e'. set_solver.
    + exists e. set_solver.
  - rewrite om_get_set_ne by done. intros (e' & ? & ? & ?)%IH. exists e'. set_solver.
Qed.

Section counter.
Context (count : V → Z) (weight : Ev → Z).
Hypothesis count_init : ∀ e, count (init e) = 0.
Hypothesis count_upd : ∀ v e, count (upd v e) = count v + weight e.

Lemma om_group_count es k :
  default 0 (count <$> om_get k (om_group es))
  = zsum (λ e, if decide (key e = k) then weight e else 0) es.
Proof.
  induction es as [|e es IH] using rev_ind; [done|].
  rewrite om_group_snoc, zsum_app, <- IH. simpl. unfold om_upsert.
  destruct (decide (key e = k)) as [<-|Hne].
  - rewrite om_get_set_eq. simpl. rewrite count_upd.
    destruct (om_get (key e) (om_group es)); simpl; rewrite ?count_init; lia.
  - rewrite om_get_set_ne by done. lia.
Qed.

(** The counters of the entries whose unchanging field [h] satisfies [P] add up
    to the events that have such a field, when the events of a key agree on
    it. *)
Lemma om_group_total {B} (h : V → B) (P : B → bool) es :
  (∀ v e, h (upd v e) = h v) →
  (∀ e1 e2, e1 ∈ es → e2 ∈ es → key e1 = key e2 → h (init e1) = h (init e2)) →
  zsum (λ v, if P (h v) then count v else 0) (om_values (om_group es))
  = zsum (λ e, if P (h (init e)) then weight e else 0) es.
Proof.
  intros Hh. induction es as [|e es IH] using rev_ind; intros Hagree; [done|].
  rewrite om_group_snoc, zsum_app, <- IH by set_solver. simpl. unfold om_upsert.
  assert (∀ v, om_get (key e) (om_group es) = Some v → h v = h (init e)) as Hv.
  { intros v (e' & ? & ? & ->)%(om_group_static h); [|done]. apply Hagree; set_solver. }
  revert Hv. generalize (om_group es). intros m. clear IH Hagree.
  induction m as [|[k v] m IHm]; simpl; intros Hv.
  - rewrite Hh, count_upd, count_init. case_match; lia.
  - destruct (decide (key e = k)) as [<-|Hne]; simpl.
    + rewrite Hh, count_upd, (Hv v) by done. case_match; lia.
    + unfold om_values in IHm |- *. rewrite IHm by done. lia.
Qed.

End counter.
End group.

#[export] Hint Resolve om_set_wf os_of_list_NoDup om_group_wf : flow.
