(* ===== verification/JsObject.v ===== *)
(** * Objects as ordered property lists

    Reading, assigning and deleting properties of a JavaScript object, in the
    order the language lists them, and the invariant [obj_ok] under which an
    object survives [JSON.stringify] and [JSON.parse]. *)

From S2P Require Import Prelude JsString JsNumber NumberText JsValue Json OrderedMap.

Abbreviation object := (list (jsstr * value)).

(** [delete o[k]] *)
Definition obj_delete (name : jsstr) (o : object) : object := om_delete name o.

(** [k in o] *)
Definition obj_has (k : jsstr) (o : object) : bool := bool_decide (k ∈ o.*1).

(** [o[k]] *)
Definition fld (o : object) (k : jsstr) : value := default VUndefined (assoc k o).

(** Comparisons of property names that are literals. *)
Ltac key_tests :=
  repeat match goal with
  | |- context [bool_decide (?a = ?b)] =>
    let r := eval vm_compute in (bool_decide (a = b)) in
    match r with true => idtac | false => idtac end;
    let E := fresh "E" in
    assert (bool_decide (a = b) = r) as E by (vm_compute; reflexivity); rewrite !E; clear E; cbn iota
  end.

(** ** Lookups *)

Lemma assoc_delete k n o : assoc k (obj_delete n o) = if bool_decide (k = n) then None else assoc k o.
Proof.
  unfold obj_delete, om_delete. induction o as [|[k' v] o IH]; [by case_bool_decide|].
  rewrite filter_cons. destruct (decide ((k', v).1 ≠ n)) as [Hk|Hk]; cbn [assoc]; rewrite IH;
    repeat case_bool_decide; cbn [fst] in Hk; try done; [congruence|exfalso; apply Hk; congruence].
Qed.

Lemma delete_keys k n (o : object) : k ∈ (obj_delete n o).*1 → k ∈ o.*1 ∧ k ≠ n.
Proof.
  intros ([k' v] & -> & [Hk Hin]%list_elem_of_filter)%list_elem_of_fmap.
  split; [|done]. apply list_elem_of_fmap. by exists (k', v).
Qed.

Lemma obj_insert_perm k v o : obj_insert k v o ≡ₚ (k, v) :: o.
Proof.
  induction o as [|[k' v'] o IH]; simpl; [done|]. destruct (key_before k k'); [done|].
  rewrite IH. apply Permutation_swap.
Qed.

Lemma assoc_insert k n v o :
  n ∉ o.*1 → assoc k (obj_insert n v o) = if bool_decide (k = n) then Some v else assoc k o.
Proof.
  induction o as [|[k' v'] o IH]; cbn [obj_insert assoc]; intros Hn; [done|].
  cbn [fmap list_fmap fst] in Hn. apply not_elem_of_cons in Hn as [Hne Hn].
  destruct (key_before n k'); cbn [assoc]; [done|]. rewrite IH by done.
  repeat case_bool_decide; congruence.
Qed.

Lemma assoc_assign_delete k n v o :
  assoc k (obj_assign (obj_delete n o) (n, v)) = if bool_decide (k = n) then Some v else assoc k o.
Proof.
  assert (n ∉ (obj_delete n o).*1) as Hn by (intros [_ ?]%delete_keys; done).
  unfold obj_assign. cbn [fst snd]. rewrite bool_decide_eq_false_2, assoc_insert, assoc_delete by done.
  by case_bool_decide.
Qed.

(** *** The objects JSON keeps *)

Definition obj_ok (o : object) : Prop := json_ok (VObj o) = true.

Abbreviation in_order := (StronglySorted (λ k k', key_before k' k = false)).

Lemma obj_ok_spec o :
  obj_ok o ↔ Forall (λ kv, forallb code_unit kv.1 = true ∧ json_ok kv.2 = true) o ∧
             NoDup o.*1 ∧ in_order o.*1.
Proof.
  unfold obj_ok. cbn [json_ok]. rewrite !andb_true_iff, !bool_decide_eq_true, !forallb_forall, Forall_forall.
  setoid_rewrite list_elem_of_In. naive_solver.
Qed.

Lemma sublist_Forall {A} (P : A → Prop) (l k : list A) : l `sublist_of` k → Forall P k → Forall P l.
Proof. rewrite !Forall_forall. intros Hs Hk x Hx. eapply Hk, elem_of_sublist; done. Qed.

Lemma sorted_sublist {A} (R : A → A → Prop) (l k : list A) :
  l `sublist_of` k → StronglySorted R k → StronglySorted R l.
Proof.
  induction 1 as [|x l k Hs IH|x l k Hs IH]; [done|..]; inversion_clear 1; [|auto].
  constructor; [auto|]. by eapply sublist_Forall.
Qed.

Lemma obj_delete_ok n o : obj_ok o → obj_ok (obj_delete n o).
Proof.
  rewrite !obj_ok_spec. intros (Hv & Hn & Hs).
  assert (obj_delete n o `sublist_of` o) as Hsub by apply sublist_filter.
  assert ((obj_delete n o).*1 `sublist_of` o.*1) as Hk by by apply fmap_sublist.
  split_and!; [by eapply sublist_Forall|by eapply sublist_NoDup|by eapply sorted_sublist].
Qed.

Lemma key_before_trans n k x : key_before n k = true → key_before x k = false → key_before x n = false.
Proof. unfold key_before. destruct (array_index n), (array_index k), (array_index x); try done; lia. Qed.

Lemma obj_insert_sorted n v o : in_order o.*1 → in_order (obj_insert n v o).*1.
Proof.
  induction o as [|[k v'] o IH]; cbn [obj_insert]; [intros _; repeat constructor|].
  cbn [fmap list_fmap fst]. inversion_clear 1 as [|? ? Hs Hf]. destruct (key_before n k) eqn:E; cbn [fmap list_fmap fst].
  - constructor; [by constructor|]. constructor.
    + unfold key_before in *. destruct (array_index n), (array_index k); try done; lia.
    + eapply Forall_impl; [exact Hf|]. intros x Hx. by eapply key_before_trans.
  - constructor; [by apply IH|]. change (list_fmap _ _ fst (obj_insert n v o)) with (obj_insert n v o).*1.
    rewrite obj_insert_perm. cbn [fmap list_fmap fst]. by constructor.
Qed.

Lemma obj_assign_ok n v o :
  obj_ok o → forallb code_unit n = true → json_ok v = true → obj_ok (obj_assign (obj_delete n o) (n, v)).
Proof.
  intros Ho%(obj_delete_ok n) Hn Hv.
  assert (n ∉ (obj_delete n o).*1) as Hk by (intros [_ ?]%delete_keys; done).
  unfold obj_assign. cbn [fst snd]. rewrite bool_decide_eq_false_2 by done.
  revert Ho Hk. generalize (obj_delete n o). intros o'. rewrite !obj_ok_spec. intros (H1 & H2 & H3) Hk.
  split_and!; [..|by apply obj_insert_sorted]; rewrite obj_insert_perm; [by constructor|].
  cbn [fmap list_fmap fst]. by constructor.
Qed.

Lemma assoc_None k (o : object) : assoc k o = None ↔ k ∉ o.*1.
Proof.
  induction o as [|[k' v] o IH]; cbn [assoc fmap list_fmap fst]; [set_solver|].
  rewrite not_elem_of_cons, <- IH. case_bool_decide; naive_solver.
Qed.

Lemma assoc_assign k n v (o : object) : assoc k (obj_assign o (n, v)) = if bool_decide (k = n) then Some v else assoc k o.
Proof.
  unfold obj_assign. cbn [fst snd]. destruct (bool_decide (n ∈ o.*1)) eqn:E;
    [apply bool_decide_eq_true in E|apply bool_decide_eq_false in E; by apply assoc_insert].
  induction o as [|[k' v'] o IH]; [by apply elem_of_nil in E|]. cbn [fmap list_fmap fst assoc].
  destruct (decide (n = k')) as [->|Hne].
  - rewrite bool_decide_eq_true_2 by done. cbn [assoc]. case_bool_decide as Hk; [done|].
    clear E IH. induction o as [|[k2 v2] o IH]; [done|]. cbn [fmap list_fmap fst assoc].
    destruct (decide (k' = k2)) as [->|Hne2].
    + rewrite bool_decide_eq_true_2 by done. cbn [assoc]. rewrite bool_decide_eq_false_2 by done. apply IH.
    + rewrite bool_decide_eq_false_2 by done. cbn [assoc]. case_bool_decide; [done|]. apply IH.
  - rewrite (bool_decide_eq_false_2 (n = k')) by done. cbn [assoc fst]. cbn [fmap list_fmap fst] in E.
    apply elem_of_cons in E as [->|E]; [done|]. rewrite IH by done.
    repeat case_bool_decide; congruence.
Qed.

Lemma assign_present n v (o : object) : NoDup o.*1 → assoc n o = Some v → obj_assign o (n, v) = o.
Proof.
  intros Hnd Ha. unfold obj_assign. cbn [fst snd].
  assert (n ∈ o.*1) as Hn.
  { destruct (decide (n ∈ o.*1)) as [|Hn]; [done|]. apply assoc_None in Hn. congruence. }
  rewrite bool_decide_eq_true_2 by done. clear Hn. induction o as [|[k x] o IH]; [done|].
  cbn [fmap list_fmap fst assoc] in *. apply NoDup_cons in Hnd as [Hk Hnd].
  destruct (decide (n = k)) as [->|Hne].
  - rewrite bool_decide_eq_true_2 in * by done. injection Ha as ->. f_equal.
    rewrite <- (list_fmap_id o) at 2. apply list_fmap_ext. intros i [k2 x2] Hi. cbn [fst].
    rewrite bool_decide_eq_false_2; [done|]. intros ->. apply Hk.
    apply list_elem_of_fmap. eexists; split; [|by eapply list_elem_of_lookup_2]. done.
  - rewrite bool_decide_eq_false_2 in * by done. by rewrite IH.
Qed.

Lemma delete_absent n (o : object) : assoc n o = None → obj_delete n o = o.
Proof.
  rewrite assoc_None. unfold obj_delete, om_delete. induction o as [|[k v] o IH]; [done|].
  cbn [fmap list_fmap fst]. intros [Hk Hn]%not_elem_of_cons. rewrite filter_cons_True by done. by rewrite IH.
Qed.

(** The names of an object after an assignment depend on its names only. *)
Definition key_insert (k : jsstr) (ks : list jsstr) : list jsstr := (obj_insert k VNull ((λ n, (n, VNull)) <$> ks)).*1.

Lemma insert_keys k v (o : object) : (obj_insert k v o).*1 = key_insert k o.*1.
Proof.
  unfold key_insert. induction o as [|[n w] o IH]; [done|]. cbn [obj_insert fmap list_fmap fst].
  destruct (key_before k n); cbn [fmap list_fmap fst].
  - do 2 f_equal. clear. induction o as [|[n w] o IH]; [done|]. cbn [fmap list_fmap fst]. by f_equal.
  - f_equal. exact IH.
Qed.

Lemma assign_keys k v (o : object) :
  (obj_assign o (k, v)).*1 = if bool_decide (k ∈ o.*1) then o.*1 else key_insert k o.*1.
Proof.
  unfold obj_assign. cbn [fst snd]. destruct (bool_decide (k ∈ o.*1)); [|apply insert_keys].
  induction o as [|[n w] o IH]; [done|]. cbn [fmap list_fmap fst]. f_equal; [by case_bool_decide|exact IH].
Qed.

(** Objects with the same names in the same order and the same values. *)
Lemma obj_ext (o o' : object) : NoDup o.*1 → o.*1 = o'.*1 → (∀ k, assoc k o = assoc k o') → o = o'.
Proof.
  revert o'. induction o as [|[k v] o IH]; intros [|[k' v'] o'] Hn Hk Ha; try done.
  cbn [fmap list_fmap fst] in *. injection Hk as -> Hk. apply NoDup_cons in Hn as [Hnk Hn].
  assert (Some v = Some v') as [= ->].
  { specialize (Ha k'). cbn [assoc] in Ha. by rewrite bool_decide_eq_true_2 in Ha. }
  f_equal. apply IH; [done..|]. intros k. specialize (Ha k). cbn [assoc] in Ha.
  destruct (decide (k = k')) as [->|Hne]; [|by rewrite bool_decide_eq_false_2 in Ha].
  assert (assoc k' o = None) as -> by by apply assoc_None.
  symmetry. apply assoc_None. fold (fmap (M:=list) fst o') in Hk. by rewrite <- Hk.
Qed.

(** Objects the language can build, with a property of their values. *)
Definition obj_wf (P : value → Prop) (o : object) : Prop :=
  Forall (λ kv, forallb code_unit kv.1 = true ∧ P kv.2) o ∧ NoDup o.*1 ∧ in_order o.*1.

Lemma obj_ok_wf o : obj_ok o ↔ obj_wf (λ v, json_ok v = true) o.
Proof. apply obj_ok_spec. Qed.

Lemma assign_wf P n v o : obj_wf P o → forallb code_unit n = true → P v → obj_wf P (obj_assign o (n, v)).
Proof.
  intros (H1 & H2 & H3) Hn Hv. unfold obj_assign. cbn [fst snd].
  destruct (bool_decide (n ∈ o.*1)) eqn:E.
  - set (g := λ f : jsstr * value, if bool_decide (n = f.1) then (f.1, v) else f).
    assert ((g <$> o).*1 = o.*1) as Ek.
    { subst g. clear. induction o as [|[k x] o IH]; [done|]. cbn [fmap list_fmap fst]. f_equal; [by case_bool_decide|exact IH]. }
    unfold obj_wf. rewrite Ek. split_and!; [|done..]. rewrite Forall_forall in *.
    intros [k x] ([k' x'] & Ekx & Hin)%list_elem_of_fmap.
    specialize (H1 _ Hin). subst g. cbn [fst snd] in *. destruct (bool_decide (n = k')); injection Ekx as -> ->; [|done].
    by destruct H1.
  - apply bool_decide_eq_false in E. split_and!; [..|by apply obj_insert_sorted]; rewrite obj_insert_perm; [by constructor|].
    cbn [fmap list_fmap fst]. by constructor.
Qed.

Lemma delete_wf P n o : obj_wf P o → obj_wf P (obj_delete n o).
Proof.
  intros (Hv & Hn & Hs).
  assert (obj_delete n o `sublist_of` o) as Hsub by apply sublist_filter.
  assert ((obj_delete n o).*1 `sublist_of` o.*1) as Hk by by apply fmap_sublist.
  split_and!; [by eapply sublist_Forall|by eapply sublist_NoDup|by eapply sorted_sublist].
Qed.

Lemma obj_wf_impl (P Q : value → Prop) o : (∀ v, P v → Q v) → obj_wf P o → obj_wf Q o.
Proof. intros HPQ (H1 & H2 & H3). split_and!; [|done..]. eapply Forall_impl; [exact H1|]. naive_solver. Qed.

Lemma assoc_elem k v (o : object) : assoc k o = Some v → (k, v) ∈ o.
Proof.
  induction o as [|[k' v'] o IH]; cbn [assoc]; [done|]. case_bool_decide; [intros [= ->]; subst; by left|].
  intros Hk%IH. by right.
Qed.

Lemma assoc_in k v (o : object) : NoDup o.*1 → (k, v) ∈ o → assoc k o = Some v.
Proof.
  induction o as [|[k' v'] o IH]; [by intros _ ?%elem_of_nil|]. cbn [fmap list_fmap fst assoc].
  intros [Hk Hn]%NoDup_cons [Hin|Hin]%elem_of_cons; [simplify_eq; by rewrite bool_decide_eq_true_2|].
  rewrite bool_decide_eq_false_2; [by apply IH|]. intros ->. apply Hk. apply list_elem_of_fmap. by exists (k', v).
Qed.

Lemma fld_in k v (o : object) : NoDup o.*1 → (k, v) ∈ o → fld o k = v.
Proof. intros Hn Hin. unfold fld. by rewrite (assoc_in k v o Hn Hin). Qed.

(** ** What comes back from JSON *)

(** [JSON.parse(JSON.stringify(v))]: undefined properties are dropped, numbers
    JSON cannot express become null. *)
Fixpoint jclean (v : value) : value :=
  match v with
  | VNum x => if is_finite x then (if bool_decide (x = S754_zero true) then VNum (S754_zero false) else v) else VNull
  | VArr l => VArr ((λ x, match x with VUndefined => VNull | _ => jclean x end) <$> l)
  | VObj o => VObj (omap (λ kv, match kv.2 with VUndefined => None | _ => Some (kv.1, jclean kv.2) end) o)
  | _ => v
  end.

Definition clean_fields (o : object) : object :=
  omap (λ kv, match kv.2 with VUndefined => None | _ => Some (kv.1, jclean kv.2) end) o.

Lemma stringify_clean gap v : ∀ i, v ≠ VUndefined → stringify_at gap i (jclean v) = stringify_at gap i v.
Proof.
  induction v as [v Hv|l IH|o IH] using value_strong_ind; intros i Hne.
  - destruct v as [| | |x| | |]; try done. cbn [jclean]. destruct (is_finite x) eqn:Ef; cbn [stringify_at].
    + case_bool_decide as Hz; cbn [stringify_at]; [by subst x|by rewrite Ef].
    + by rewrite Ef.
  - cbn [jclean stringify_at]. do 2 f_equal. rewrite <- list_fmap_compose. clear Hne.
    induction IH as [|x l Hx _ IHl]; [done|]. cbn [fmap list_fmap compose]. f_equal; [|exact IHl].
    destruct x; try done; by rewrite Hx.
  - cbn [jclean stringify_at]. do 2 f_equal. clear Hne.
    induction IH as [|[k x] o Hx _ IHo]; [done|]. cbn [omap list_omap fst snd] in *.
    destruct x; cbn [omap list_omap fst snd]; try (rewrite Hx by done; destruct (stringify_at _ _ _); [f_equal|]; exact IHo).
    exact IHo.
Qed.

Lemma clean_ok v : json_ok v = true → jclean v = v.
Proof.
  induction v as [v Hv|l IH|o IH] using value_strong_ind; intros Hok.
  - destruct v as [| | |x| | |]; try done. cbn [json_ok jclean] in *. rewrite !andb_true_iff, bool_decide_eq_true in Hok.
    destruct Hok as [[-> _] Hz]. by rewrite bool_decide_eq_false_2.
  - cbn [json_ok jclean] in *. f_equal. induction IH as [|x l Hx _ IHl]; [done|]. cbn [forallb] in Hok.
    apply andb_true_iff in Hok as [Hk Hok]. cbn [fmap list_fmap]. f_equal; [|by apply IHl].
    destruct x; try done; by rewrite Hx.
  - cbn [json_ok jclean] in *. f_equal. rewrite !andb_true_iff in Hok. destruct Hok as [[_ Hok] _].
    induction IH as [|[k x] o Hx _ IHo]; [done|]. cbn [forallb fst snd] in *.
    apply andb_true_iff in Hok as [Hk Hok]. cbn [omap list_omap fst snd].
    destruct x; try done; rewrite Hx by done; f_equal; by apply IHo.
Qed.

(** Values whose text can be read back. *)
Definition printable (v : value) : Prop := v ≠ VUndefined ∧ json_ok (jclean v) = true.

Lemma ok_printable v : json_ok v = true → printable v.
Proof. intros H. split; [by intros ->|by rewrite clean_ok]. Qed.

Lemma clean_fields_map o : Forall (λ kv, kv.2 ≠ VUndefined) o → clean_fields o = (λ kv, (kv.1, jclean kv.2)) <$> o.
Proof.
  unfold clean_fields. induction 1 as [|[k x] o Hx _ IH]; [done|]. cbn [omap list_omap fmap list_fmap fst snd] in *.
  destruct x; try done; by rewrite IH.
Qed.

Lemma assoc_map_values (f : value → value) k (o : object) : assoc k ((λ kv, (kv.1, f kv.2)) <$> o) = f <$> assoc k o.
Proof. induction o as [|[k' x] o IH]; [done|]. cbn [fmap list_fmap assoc fst snd]. by case_bool_decide. Qed.

Lemma clean_fields_ok o : obj_wf printable o →
  obj_ok (clean_fields o) ∧ ∀ k, assoc k (clean_fields o) = jclean <$> assoc k o.
Proof.
  intros (H1 & H2 & H3).
  assert (Forall (λ kv, kv.2 ≠ VUndefined) o) as Hu by (eapply Forall_impl; [exact H1|]; by intros kv [_ [? _]]).
  rewrite clean_fields_map by done. split; [|intros k; apply assoc_map_values].
  assert (((λ kv, (kv.1, jclean kv.2)) <$> o).*1 = o.*1) as Ek by by rewrite <- list_fmap_compose.
  apply obj_ok_spec. rewrite Ek. split_and!; [|done..]. apply Forall_fmap. eapply Forall_impl; [exact H1|].
  by intros kv [? [_ ?]].
Qed.

Definition json_text (o : object) : jsstr := default [] (json_stringify [] (VObj o)).

Lemma json_text_parse o : obj_wf printable o →
  json_stringify [] (VObj o) = Some (json_text o) ∧ json_parse (json_text o) = Some (VObj (clean_fields o)) ∧
  ∃ s, json_text o = 123 :: s.
Proof.
  intros Ho. destruct (clean_fields_ok o Ho) as [Hok _]. unfold json_text.
  destruct (parse_stringify [] ltac:(done) _ Hok) as (t & Et & Ep).
  assert (json_stringify [] (VObj o) = Some t) as E.
  { rewrite <- Et. symmetry. by apply (stringify_clean [] (VObj o)). }
  rewrite E. split; [done|]. split; [done|].
  unfold json_stringify in E. cbn [stringify_at] in E. injection E as <-. unfold bracket.
  case_match; eexists; reflexivity.
Qed.

(** The text tells objects apart only by what comes back. *)
Lemma json_text_clean o : json_text (clean_fields o) = json_text o.
Proof. unfold json_text, json_stringify. exact (f_equal (default []) (stringify_clean [] (VObj o) [] ltac:(done))). Qed.

(** *** JSON texts have no white space at their ends *)

Lemma bracket_solid opening closing gap indent items :
  is_space opening = false → is_space closing = false →
  head_solid (bracket opening closing gap indent items) ∧ last_solid (bracket opening closing gap indent items).
Proof.
  intros Ho Hc. assert (last_solid [closing]) as Hl by done. unfold bracket.
  destruct items; [split; [done|by apply (last_solid_app [opening])]|].
  destruct (truthy gap); (split; [done|]); repeat apply last_solid_app; done.
Qed.

Lemma numeral_not_space c : numeral_char c = true → is_space c = false.
Proof.
  unfold numeral_char. rewrite !orb_true_iff, !Z.eqb_eq.
  intros [[[[[Hc%digit_not_space| ->]| ->]| ->]| ->]| ->]; done.
Qed.

Lemma stringify_solid gap v s : json_ok v = true → json_stringify gap v = Some s → head_solid s ∧ last_solid s.
Proof.
  unfold json_stringify. destruct v as [| |b|x|w|l|o]; cbn [stringify_at]; intros Hok [= <-]; try done.
  - by destruct b.
  - cbn [json_ok] in Hok. rewrite !andb_true_iff in Hok. destruct Hok as [[Hf Hv] _]. rewrite Hf.
    destruct (number_text_json x Hf Hv) as [Hj Hn]. apply no_spaces_solid; [by intros E; rewrite E in Hj|].
    unfold no_spaces. rewrite forallb_forall in *. intros c Hc. by rewrite numeral_not_space by auto.
  - split; [done|]. unfold quote. by repeat apply last_solid_app.
  - by apply bracket_solid.
  - by apply bracket_solid.
Qed.

(** A value that is written and read back, by code that trims the text. *)
Lemma text_read_back gap v : forallb is_json_space gap = true → json_ok v = true →
  ∃ s, json_stringify gap v = Some s ∧ trim s = s ∧ truthy s = true ∧ json_parse s = Some v.
Proof.
  intros Hg Hok. destruct (parse_stringify gap Hg v Hok) as (s & Es & Ep). exists s.
  destruct (stringify_solid gap v s Hok Es) as [Hh Hl]. split; [done|]. split; [by apply trim_solid|]. split; [by destruct s|done].
Qed.

(** The own entries of a value: what [{...v}] copies and [Object.entries(v)]
    lists. *)
Definition own_entries (v : value) : object :=
  match v with
  | VObj o => o
  | VArr l => imap (λ i x, (string_of_Z (Z.of_nat i), x)) l
  | VStr s => imap (λ i c, (string_of_Z (Z.of_nat i), VStr [c])) s
  | _ => []
  end.

(** [{...base, ...v}] *)
Definition spread_into (base : object) (v : value) : object := fold_left obj_assign (own_entries v) base.

Lemma assoc_spread k (o base : object) : NoDup o.*1 →
  assoc k (fold_left obj_assign o base) = match assoc k o with Some v => Some v | None => assoc k base end.
Proof.
  revert base. induction o as [|[n v] o IH]; intros base Hn; [done|]. cbn [fmap list_fmap fst] in Hn. apply NoDup_cons in Hn as [Hno Hn].
  cbn [fold_left]. rewrite IH, assoc_assign by done. cbn [assoc]. case_bool_decide as E; [|done].
  subst k. apply assoc_None in Hno. by rewrite Hno.
Qed.
