(* ===== verification/AuthStore.v ===== *)
(** * The authentication store (stores/auth-store.ts) and the roles and
      permissions read from it (lib/roles.ts, lib/admin-permissions.ts)

    The zustand store keeps one [auth] record; each setter replaces it.  The
    user object is kept as received: the fields every user has are typed, the
    optional ones stay readable through the object itself. *)

From S2P Require Import Prelude JsString JsNumber JsValue.

(** ** Data *)

Record AuthUser := mkUser {
  user_id : number;
  username : jsstr;
  role : number;
  user_object : value;  (* the object itself, for its optional fields *)
}.

Record LoginSession := mkSession {
  sid : jsstr;
  current : bool;
  login_method : jsstr;
  ip : jsstr;
  user_agent : jsstr;
  created_at : number;
  last_active_at : number;
  expires_at : number;
}.

Record AuthBundle := mkBundle {
  access_token : jsstr;
  token_type : jsstr;
  access_expires_at : number;
  bundle_user : AuthUser;
  bundle_session : LoginSession;
}.

Inductive AuthBootstrapState := idle | checking | complete.

#[global] Instance AuthBootstrapState_eq_dec : EqDecision AuthBootstrapState.
Proof. solve_decision. Defined.

Record AuthState := mkAuth {
  user : option AuthUser;
  accessToken : option jsstr;
  accessExpiresAt : option number;
  session : option LoginSession;
  bootstrapState : AuthBootstrapState;
}.

(** ** Setters *)

Definition initialAuth : AuthState := mkAuth None None None None idle.

Definition setBundle (bundle : AuthBundle) (a : AuthState) : AuthState :=
  mkAuth (Some (bundle_user bundle)) (Some (access_token bundle))
    (Some (access_expires_at bundle)) (Some (bundle_session bundle)) complete.

Definition setUser (u : option AuthUser) (a : AuthState) : AuthState :=
  mkAuth u (accessToken a) (accessExpiresAt a) (session a) (bootstrapState a).

Definition setBootstrapState (b : AuthBootstrapState) (a : AuthState) : AuthState :=
  mkAuth (user a) (accessToken a) (accessExpiresAt a) (session a) b.

(** [reset(bootstrapState = 'complete')] *)
Definition reset (b : option AuthBootstrapState) (a : AuthState) : AuthState :=
  mkAuth None None None None (default complete b).

(** [auth.session?.sid] *)
Definition currentSID (a : AuthState) : option jsstr := sid <$> session a.

(** ** Roles and permissions *)

Definition ROLE_GUEST : Z := 0.
Definition ROLE_USER : Z := 1.
Definition ROLE_ADMIN : Z := 10.
Definition ROLE_SUPER_ADMIN : Z := 100.

(** [ROLE_LABEL_KEYS[role] ?? ROLE_LABEL_KEYS[DEFAULT_ROLE]]; [None] is a
    missing role. *)
Definition getRoleLabelKey (role : option Z) : jsstr :=
  match role with
  | Some r =>
    if r =? ROLE_SUPER_ADMIN then $"Super Admin"
    else if r =? ROLE_ADMIN then $"Admin"
    else if r =? ROLE_USER then $"User"
    else $"Guest"
  | None => $"Guest"
  end.

(** [user.permissions?.admin_permissions?.[resource]?.[action] === true] reads
    through missing objects as [undefined]. *)
Definition hasPermission (u : option AuthUser) (resource action : jsstr) : bool :=
  match u with
  | None => false
  | Some u =>
    num_eqb (role u) (num_of_Z ROLE_SUPER_ADMIN)
    || is_true (get (get (get (get (user_object u) $"permissions")
                  $"admin_permissions") resource) action)
  end.

Abbreviation AdminPermissionMatrix := (gmap jsstr (gmap jsstr bool)).

Record PermissionResourceDef := mkResource {
  resource : jsstr;
  actions : list jsstr;  (* the [action] names *)
}.

Record PermissionRoleDef := mkRole {
  role_key : jsstr;
  grants : AdminPermissionMatrix;
}.

Record PermissionCatalog := mkCatalog {
  resources : list PermissionResourceDef;
  roles : list PermissionRoleDef;
}.

Definition ADMIN_ROLE_KEY : jsstr := $"admin".

(** [m?.[r]?.[a]] *)
Definition matrix_get (m : AdminPermissionMatrix) (r a : jsstr) : option bool :=
  m !! r ≫= λ row, row !! a.

Fixpoint find_role (roleKey : jsstr) (l : list PermissionRoleDef) : option PermissionRoleDef :=
  match l with
  | [] => None
  | rd :: l' => if bool_decide (role_key rd = roleKey) then Some rd else find_role roleKey l'
  end.

Definition roleGrants (catalog : PermissionCatalog) (roleKey : jsstr) : AdminPermissionMatrix :=
  default ∅ (grants <$> find_role roleKey (roles catalog)).

(** One cell: [value ?? baseline ?? false]. *)
Definition normalized_cell (v : option AdminPermissionMatrix)
    (baseline : AdminPermissionMatrix) (r a : jsstr) : bool :=
  default (default false (matrix_get baseline r a)) (v ≫= λ m, matrix_get m r a).

Definition normalized_row (v : option AdminPermissionMatrix)
    (baseline : AdminPermissionMatrix) (rd : PermissionResourceDef) : gmap jsstr bool :=
  fold_left (λ row a, <[a := normalized_cell v baseline (resource rd) a]> row)
    (actions rd) ∅.

Definition normalizeAdminPermissions (v : option AdminPermissionMatrix)
    (catalog : PermissionCatalog) : AdminPermissionMatrix :=
  let baseline := roleGrants catalog ADMIN_ROLE_KEY in
  fold_left (λ m rd, <[resource rd := normalized_row v baseline rd]> m)
    (resources catalog) ∅.

(** ** The store's invariant: token, expiry and session come and go together *)

Definition auth_coherent (a : AuthState) : Prop :=
  (is_Some (accessToken a) ↔ is_Some (session a))
  ∧ (is_Some (accessExpiresAt a) ↔ is_Some (session a)).

Lemma initialAuth_coherent : auth_coherent initialAuth.
Proof. split; split; intros [? [=]]. Qed.

Lemma setBundle_coherent b a : auth_coherent (setBundle b a).
Proof. unfold auth_coherent; simpl; split; split; eauto. Qed.

Lemma setUser_coherent u a : auth_coherent a → auth_coherent (setUser u a).
Proof. done. Qed.

Lemma setBootstrapState_coherent b a :
  auth_coherent a → auth_coherent (setBootstrapState b a).
Proof. done. Qed.

Lemma reset_coherent b a : auth_coherent (reset b a).
Proof. split; split; intros [? [=]]. Qed.

#[export] Hint Resolve initialAuth_coherent setBundle_coherent setUser_coherent
  setBootstrapState_coherent reset_coherent : flow.

(** ** The permission matrix *)

Lemma normalized_row_fold (v : option AdminPermissionMatrix)
    (b : AdminPermissionMatrix) (r : jsstr) (acts : list jsstr) (row : gmap jsstr bool) (a : jsstr) :
  fold_left (λ (row : gmap jsstr bool) (a : jsstr), <[a := normalized_cell v b r a]> row)
    acts row !! a =
  if decide (a ∈ acts) then Some (normalized_cell v b r a) else row !! a.
Proof.
  revert row. induction acts as [|a' acts IH]; intros row; simpl; [done|].
  rewrite IH. case_decide as H1; case_decide as H2; try set_solver.
  - destruct (decide (a = a')) as [->|]; [by simplify_map_eq|]. set_solver.
  - rewrite lookup_insert_ne; [done|]. set_solver.
Qed.

Lemma normalized_row_lookup v b rd (a : jsstr) :
  normalized_row v b rd !! a =
  if decide (a ∈ actions rd) then Some (normalized_cell v b (resource rd) a) else None.
Proof. unfold normalized_row. rewrite normalized_row_fold. by case_decide. Qed.

(** The definition of a resource that decides its row: the last of that name. *)
Definition last_def (r : jsstr) (l : list PermissionResourceDef) : option PermissionResourceDef :=
  fold_left (λ acc rd, if bool_decide (resource rd = r) then Some rd else acc) l None.

Lemma last_def_resource r l rd : last_def r l = Some rd → rd ∈ l ∧ resource rd = r.
Proof.
  unfold last_def. revert rd. induction l as [|rd' l IH] using rev_ind; intros rd; [done|].
  rewrite fold_left_app. simpl. case_bool_decide.
  - intros [= <-]. set_solver.
  - intros [? ?]%IH. set_solver.
Qed.

Lemma last_def_None r l rd : last_def r l = None → rd ∈ l → resource rd ≠ r.
Proof.
  unfold last_def. induction l as [|rd' l IH] using rev_ind; [set_solver|].
  rewrite fold_left_app. simpl. case_bool_decide; [done|]. set_solver.
Qed.

Lemma normalizeAdminPermissions_lookup v cat (r : jsstr) :
  normalizeAdminPermissions v cat !! r =
  normalized_row v (roleGrants cat ADMIN_ROLE_KEY) <$> last_def r (resources cat).
Proof.
  unfold normalizeAdminPermissions, last_def.
  set (b := roleGrants cat ADMIN_ROLE_KEY). generalize (resources cat). intros l.
  induction l as [|rd l IH] using rev_ind; [done|].
  rewrite !fold_left_app. simpl. case_bool_decide as Hr.
  - subst r. by simplify_map_eq.
  - by rewrite lookup_insert_ne.
Qed.

(** [normalizeAdminPermissions] produces the full matrix of the catalog.
    Its rows are exactly the catalog's resources; each action of a resource has
    a value, the explicit one if given, else the admin role's, else [false];
    and normalizing again changes nothing. *)
Theorem normalizeAdminPermissions_spec v cat :
  (∀ r, is_Some (normalizeAdminPermissions v cat !! r)
        ↔ ∃ rd, rd ∈ resources cat ∧ resource rd = r)
  ∧ (∀ r a, is_Some (matrix_get (normalizeAdminPermissions v cat) r a) →
       matrix_get (normalizeAdminPermissions v cat) r a
       = Some (default (default false (matrix_get (roleGrants cat ADMIN_ROLE_KEY) r a))
                 (v ≫= λ m, matrix_get m r a)))
  ∧ (∀ rd a, NoDup (resource <$> resources cat) → rd ∈ resources cat → a ∈ actions rd →
       is_Some (matrix_get (normalizeAdminPermissions v cat) (resource rd) a))
  ∧ normalizeAdminPermissions (Some (normalizeAdminPermissions v cat)) cat
    = normalizeAdminPermissions v cat.
Proof.
  assert (∀ r a, is_Some (matrix_get (normalizeAdminPermissions v cat) r a) →
       matrix_get (normalizeAdminPermissions v cat) r a
       = Some (normalized_cell v (roleGrants cat ADMIN_ROLE_KEY) r a)) as Hcell.
  { intros r a. unfold matrix_get. rewrite normalizeAdminPermissions_lookup.
    destruct (last_def r _) as [rd|] eqn:E; simpl; [|by intros []].
    apply last_def_resource in E as [_ <-]. rewrite normalized_row_lookup.
    case_decide; [done|by intros []]. }
  split; [|split; [exact Hcell|split]].
  - intros r. rewrite normalizeAdminPermissions_lookup. split.
    + intros [row Hrow]. destruct (last_def r _) as [rd|] eqn:E; [|done].
      exists rd. by apply last_def_resource.
    + intros (rd & Hin & Hr). destruct (last_def r _) as [rd'|] eqn:E; [by eexists|].
      by destruct (last_def_None _ _ _ E Hin).
  - intros rd a Hnd Hin Ha. unfold matrix_get. rewrite normalizeAdminPermissions_lookup.
    destruct (last_def (resource rd) _) as [rd'|] eqn:E.
    + apply last_def_resource in E as [Hin' Heq].
      apply list_elem_of_lookup in Hin as [i Hi], Hin' as [j Hj].
      assert (i = j) as ->.
      { eapply (NoDup_lookup _ _ _ (resource rd) Hnd); rewrite list_lookup_fmap;
          [by rewrite Hi|by rewrite Hj; simpl; rewrite Heq]. }
      simplify_eq. simpl. rewrite normalized_row_lookup, decide_True by done. by eexists.
    + by destruct (last_def_None _ _ _ E Hin).
  - apply map_eq. intros r. rewrite !normalizeAdminPermissions_lookup.
    destruct (last_def r _) as [rd|] eqn:E; [|done]. simpl. f_equal.
    apply map_eq. intros a. rewrite !normalized_row_lookup. case_decide; [|done].
    f_equal. unfold normalized_cell at 1. simpl.
    assert (is_Some (matrix_get (normalizeAdminPermissions v cat) (resource rd) a)) as Hs.
    { unfold matrix_get. rewrite normalizeAdminPermissions_lookup.
      pose proof E as [_ ->]%last_def_resource. rewrite E. simpl.
      rewrite normalized_row_lookup, decide_True by done. by eexists. }
    by rewrite (Hcell _ _ Hs).
Qed.
