(* ===== verification/AuthSync.v ===== *)
(** * Cross-tab session events (lib/auth-session-sync.ts)

    A tab announces a new session or a sign-out to the other tabs, over a
    [BroadcastChannel] or, without one, through a [localStorage] event.  The
    effects of publishing are the list of calls made on those two objects. *)

From S2P Require Import Prelude JsString JsNumber NumberText JsValue Json.

Definition AUTH_SYNC_CHANNEL : jsstr := $"new-api:auth-session".
Definition AUTH_SYNC_STORAGE_KEY : jsstr := $"new-api:auth-session:event".

Inductive EventKind := authenticated_event | signed_out_event.

#[global] Instance EventKind_eq_dec : EqDecision EventKind.
Proof. solve_decision. Defined.

Record AuthSessionSyncEvent := mkEvent {
  kind : EventKind;
  event_sid : jsstr;
  source : jsstr;
  nonce : jsstr;
  timestamp : number;
}.

Definition kind_string (k : EventKind) : jsstr :=
  match k with
  | authenticated_event => $"authenticated"
  | signed_out_event => $"signed_out"
  end.

(** The object posted to the channel. *)
Definition value_of_event (e : AuthSessionSyncEvent) : value :=
  VObj [($"kind", VStr (kind_string (kind e))); ($"sid", VStr (event_sid e));
        ($"source", VStr (source e)); ($"nonce", VStr (nonce e));
        ($"timestamp", VNum (timestamp e))].

Definition isAuthSessionSyncEvent (v : value) : bool :=
  if negb (to_boolean v) || negb (is_object v) then false
  else
    (eq_str (get v $"kind") $"authenticated" || eq_str (get v $"kind") $"signed_out")
    && is_string (get v $"sid") && truthy (str_of (get v $"sid"))
    && is_string (get v $"source") && is_string (get v $"nonce")
    && is_number (get v $"timestamp").

(** The typed view of a value that passed the guard. *)
Definition event_of_value (v : value) : AuthSessionSyncEvent :=
  mkEvent
    (if eq_str (get v $"kind") $"authenticated" then authenticated_event else signed_out_event)
    (str_of (get v $"sid")) (str_of (get v $"source")) (str_of (get v $"nonce"))
    (num_of (get v $"timestamp")).

(** ** Publishing *)

(** What the browser offers: a [window], a [BroadcastChannel] constructor, a
    usable [localStorage]. *)
Record Browser := mkBrowser {
  has_window : bool;
  has_broadcast : bool;
  storage_works : bool;
}.

Inductive sync_effect :=
| PostMessage (channel : jsstr) (e : AuthSessionSyncEvent)
| StorageSetItem (key text : jsstr)
| StorageRemoveItem (key : jsstr).

Definition event_text (e : AuthSessionSyncEvent) : jsstr :=
  default [] (json_stringify [] (value_of_event e)).

(** [publishAuthSessionEvent(kind, sid)] in the tab [authSyncSource], with the
    fresh identifier and the clock it reads. *)
Definition publishAuthSessionEvent (br : Browser) (authSyncSource fresh : jsstr)
    (now : number) (k : EventKind) (s : jsstr) : list sync_effect :=
  if negb (has_window br) || negb (truthy s) then []
  else
    let event := mkEvent k s authSyncSource fresh now in
    if has_broadcast br then [PostMessage AUTH_SYNC_CHANNEL event]
    else if storage_works br
    then [StorageSetItem AUTH_SYNC_STORAGE_KEY (event_text event); StorageRemoveItem AUTH_SYNC_STORAGE_KEY]
    else [].

(** ** Receiving *)

(** [Math.abs(Date.now() - value.timestamp) < 60_000] *)
Definition is_recent (now ts : number) : bool :=
  num_ltb (SFabs (num_sub now ts)) (num_of_Z 60000).

(** [deliver]: the event handed to the listener, if any. *)
Definition deliver (authSyncSource : jsstr) (now : number) (v : value)
    : option AuthSessionSyncEvent :=
  if isAuthSessionSyncEvent v then
    let e := event_of_value v in
    if negb (bool_decide (source e = authSyncSource)) && is_recent now (timestamp e)
    then Some e else None
  else None.

(** [handleStorage]: the key and the new value of a storage event may be null. *)
Definition handleStorage (authSyncSource : jsstr) (now : number) (key newValue : option jsstr)
    : option AuthSessionSyncEvent :=
  match newValue with
  | Some text =>
    if negb (bool_decide (key = Some AUTH_SYNC_STORAGE_KEY)) || negb (truthy text) then None
    else match json_parse text with
    | Some v => deliver authSyncSource now v
    | None => None
    end
  | None => None
  end.

(** [subscribeAuthSessionEvents]: what a tab hands to its listener when another
    tab of the same browser makes a call.  It listens to the channel where there
    is one, and to storage events otherwise. *)
Definition subscribeAuthSessionEvents (br : Browser) (self : jsstr) (now : number) (eff : sync_effect)
    : option AuthSessionSyncEvent :=
  if negb (has_window br) then None
  else if has_broadcast br then
    match eff with
    | PostMessage channel e =>
      if bool_decide (channel = AUTH_SYNC_CHANNEL) then deliver self now (value_of_event e) else None
    | _ => None
    end
  else
    match eff with
    | StorageSetItem key text => handleStorage self now (Some key) (Some text)
    | StorageRemoveItem key => handleStorage self now (Some key) None
    | PostMessage _ _ => None
    end.

(** ** Lemmas *)

Lemma isAuthSessionSyncEvent_value e :
  isAuthSessionSyncEvent (value_of_event e) = truthy (event_sid e).
Proof. destruct e as [[] s src n t]; destruct s; reflexivity. Qed.

Lemma event_of_value_of_event e : event_of_value (value_of_event e) = e.
Proof. by destruct e as [[] s src n t]. Qed.

Lemma deliver_guarded self now v e :
  deliver self now v = Some e →
  isAuthSessionSyncEvent v = true ∧ e = event_of_value v
  ∧ source e ≠ self ∧ is_recent now (timestamp e) = true.
Proof.
  unfold deliver. intros H. repeat break_match_hyp; simplify_eq; bool_hyps. done.
Qed.

Lemma isAuthSessionSyncEvent_sid v :
  isAuthSessionSyncEvent v = true → event_sid (event_of_value v) ≠ [].
Proof.
  unfold isAuthSessionSyncEvent. intros H. break_match_hyp; [done|].
  bool_hyps. by apply truthy_ne.
Qed.

(** An event that its JSON text carries unchanged. *)
Definition event_units (e : AuthSessionSyncEvent) : bool :=
  forallb code_unit (event_sid e) && forallb code_unit (source e) && forallb code_unit (nonce e)
  && json_ok (VNum (timestamp e)).

Lemma event_value_ok e : event_units e = true → json_ok (value_of_event e) = true.
Proof.
  unfold event_units. rewrite !andb_true_iff. intros [[[Hs Ho] Hn] Ht]. cbn [json_ok] in Ht.
  unfold value_of_event. cbn [json_ok forallb fst snd]. rewrite Hs, Ho, Hn, Ht.
  assert (forallb code_unit (kind_string (kind e)) = true) as -> by by destruct (kind e).
  vm_compute. reflexivity.
Qed.

Lemma handleStorage_event self now e :
  event_units e = true →
  handleStorage self now (Some AUTH_SYNC_STORAGE_KEY) (Some (event_text e)) =
    deliver self now (value_of_event e).
Proof.
  intros He. destruct (parse_stringify [] ltac:(done) _ (event_value_ok e He)) as (t & Et & Ep).
  unfold handleStorage, event_text. rewrite Et. change (default [] (Some t)) with t.
  rewrite bool_decide_eq_true_2, Ep by done. by destruct t.
Qed.

(** Whatever the transport, an event another tab published is delivered. *)
Lemma published_delivered br src self fresh now now' k sid :
  has_window br = true → has_broadcast br || storage_works br = true → truthy sid = true →
  event_units (mkEvent k sid src fresh now) = true →
  omap (subscribeAuthSessionEvents br self now') (publishAuthSessionEvent br src fresh now k sid) =
    match deliver self now' (value_of_event (mkEvent k sid src fresh now)) with Some e => [e] | None => [] end.
Proof.
  intros Hw Hb Hs He. unfold publishAuthSessionEvent. rewrite Hw, Hs. cbn [negb orb].
  unfold subscribeAuthSessionEvents. rewrite Hw. cbn [negb].
  destruct (has_broadcast br); cbn [omap list_omap].
  - rewrite bool_decide_eq_true_2 by done. by destruct (deliver _ _ _).
  - cbn [orb] in Hb. rewrite Hb. cbn [omap list_omap]. rewrite handleStorage_event by done.
    by destruct (deliver _ _ _).
Qed.
