(* ===== verification/AuthSession.v ===== *)
(** * Session coordination (lib/auth-session.ts)

    The module-level state is [World]: the store, the epoch counter and the
    events published to other tabs.  The refresh loop [createRefreshRunner] is
    an [async] function that yields at each [await]; it is a coroutine here:
    [run_enter], [run_resume] and [run_wake] are the code between two awaits,
    atomic as in the language, and [RunState] is where it is suspended.
    Whatever other code does to the world while the coroutine is suspended is
    a step of its own ([sys_step]). *)

From S2P Require Import Prelude JsString JsNumber JsValue AuthStore AuthSync.

(** ** Guards on server data *)

Definition isRecord (v : value) : bool := to_boolean v && is_object v.

Definition isAuthUser (v : value) : bool :=
  if negb (isRecord v) then false
  else
    value_is_integer (get v $"id")
    && num_ltb (num_of_Z 0) (num_of (get v $"id"))
    && is_string (get v $"username")
    && is_number (get v $"role").

Definition isLoginSession (v : value) : bool :=
  if negb (isRecord v) then false
  else
    is_string (get v $"sid") && truthy (str_of (get v $"sid"))
    && is_boolean (get v $"current")
    && is_string (get v $"login_method")
    && is_string (get v $"ip")
    && is_string (get v $"user_agent")
    && is_number (get v $"created_at")
    && is_number (get v $"last_active_at")
    && is_number (get v $"expires_at").

Definition hasValidTokenFields (v : value) : bool :=
  is_string (get v $"access_token") && truthy (str_of (get v $"access_token"))
  && is_string (get v $"token_type") && truthy (str_of (get v $"token_type"))
  && is_number (get v $"access_expires_at")
  && value_is_finite (get v $"access_expires_at")
  && num_ltb (num_of_Z 0) (num_of (get v $"access_expires_at")).

Definition isAuthBundle (v : value) : bool :=
  if negb (isRecord v) then false
  else hasValidTokenFields v && isAuthUser (get v $"user")
       && isLoginSession (get v $"session").

Definition isAuthTokenRotation (v : value) : bool :=
  isRecord v && hasValidTokenFields v
  && eq_str (get v $"token_type") $"Bearer"
  && isLoginSession (get v $"session")
  && bool_of (get (get v $"session") $"current").

(** Typed views of values that passed a guard. *)
Definition user_of_value (v : value) : AuthUser :=
  mkUser (num_of (get v $"id")) (str_of (get v $"username")) (num_of (get v $"role")) v.

Definition session_of_value (v : value) : LoginSession :=
  mkSession (str_of (get v $"sid")) (bool_of (get v $"current"))
    (str_of (get v $"login_method")) (str_of (get v $"ip")) (str_of (get v $"user_agent"))
    (num_of (get v $"created_at")) (num_of (get v $"last_active_at"))
    (num_of (get v $"expires_at")).

Definition bundle_of_value (v : value) : AuthBundle :=
  mkBundle (str_of (get v $"access_token")) (str_of (get v $"token_type"))
    (num_of (get v $"access_expires_at")) (user_of_value (get v $"user"))
    (session_of_value (get v $"session")).

(** ** The world and its synchronous operations *)

Record World := mkWorld {
  auth : AuthState;
  authEpoch : Z;
  published : list (EventKind * jsstr);  (* calls of publishAuthSessionEvent, oldest first *)
}.

Definition initialWorld : World := mkWorld initialAuth 0 [].

Definition on_auth (f : AuthState → AuthState) (w : World) : World :=
  mkWorld (f (auth w)) (authEpoch w) (published w).

Definition bump_epoch (w : World) : World :=
  mkWorld (auth w) (authEpoch w + 1) (published w).

Definition publish (k : EventKind) (s : jsstr) (w : World) : World :=
  mkWorld (auth w) (authEpoch w) (published w ++ [(k, s)]).

Definition applyAuthBundle (bundle : AuthBundle) (synchronizeTabs : bool) (w : World) : World :=
  let previousSID := currentSID (auth w) in
  let w := bump_epoch w in
  let w := on_auth (setBundle bundle) w in
  if synchronizeTabs && negb (bool_decide (previousSID = Some (sid (bundle_session bundle))))
  then publish authenticated_event (sid (bundle_session bundle)) w
  else w.

Inductive AuthRotationError :=
| InvalidRotationResponse
| NoActiveSession
| RotationSessionMismatch.

Definition applyAuthRotation (v : value) (w : World) : AuthRotationError + World :=
  if negb (isAuthTokenRotation v) then inl InvalidRotationResponse
  else
    match user (auth w), session (auth w) with
    | Some u, Some s =>
      let rotated := session_of_value (get v $"session") in
      if negb (bool_decide (sid rotated = sid s)) then inl RotationSessionMismatch
      else
        inr (applyAuthBundle
          (mkBundle (str_of (get v $"access_token")) (str_of (get v $"token_type"))
             (num_of (get v $"access_expires_at")) u rotated)
          false w)
    | _, _ => inl NoActiveSession
    end.

(** [clearAuthentication(synchronizeTabs = true, bootstrapState = 'complete')] *)
Definition clearAuthentication (synchronizeTabs : bool) (b : option AuthBootstrapState)
    (w : World) : World :=
  let s := currentSID (auth w) in
  let w := bump_epoch w in
  let w := on_auth (reset b) w in
  match s with
  | Some s => if synchronizeTabs && truthy s then publish signed_out_event s w else w
  | None => w
  end.

(** [clearAuthenticatedClientState]: the query cache is cleared first. *)
Definition clearAuthenticatedClientState {Q} (clear : Q → Q) (synchronizeTabs : bool)
    (qw : Q * World) : Q * World :=
  (clear qw.1, clearAuthentication synchronizeTabs None qw.2).

(** ** The refresh runner *)

Definition refreshRaceDelays : list Z := [80; 200; 500].

Inductive refresh_error :=
| SupersededError          (* new AuthRefreshSupersededError() *)
| ResponseError (v : value).

Inductive RefreshOutcome :=
| authenticated (bundle : AuthBundle)
| anonymous
| transient_error (error : refresh_error)
| out_of_sync (code : option jsstr).

(** [undefined] fields of a response are [VUndefined]. *)
Record AuthRefreshHTTPResponse := mkResponse {
  status : Z;
  data : value;
  error : value;
}.

(** The operations the runner is given.  [request] and [wait] are the two
    awaits; they are the suspension points of [RunState]. *)
Record AuthRefreshRuntime (S : Type) := mkRuntime {
  getExpectedSID : S → option jsstr;
  parseBundle : value → option AuthBundle;
  acceptBundle : AuthBundle → S → S;
  clear : bool → option AuthBootstrapState → S → S;
  markTransient : S → S;
  isCurrent : option (S → bool);
}.
Arguments getExpectedSID {S}.
Arguments parseBundle {S}.
Arguments acceptBundle {S}.
Arguments clear {S}.
Arguments markTransient {S}.
Arguments isCurrent {S}.
Arguments mkRuntime {S}.

Inductive RunState :=
| AwaitRequest (raceAttempt : nat) (allowMismatchRetry : bool) (expectedSID : option jsstr)
| AwaitWait (raceAttempt : nat) (allowMismatchRetry : bool) (delay : Z)
| Settled (o : RefreshOutcome).

Definition AUTH_REFRESH_RACE : jsstr := $"AUTH_REFRESH_RACE".
Definition AUTH_SESSION_MISMATCH : jsstr := $"AUTH_SESSION_MISMATCH".
Definition AUTH_INVALID_REFRESH_RESPONSE : jsstr := $"AUTH_INVALID_REFRESH_RESPONSE".

(** [a ?? b] *)
Definition nullish_or (a b : value) : value :=
  match a with VUndefined | VNull => b | _ => a end.

Section runner.
Context {S : Type} (runtime : AuthRefreshRuntime S).

(** [!runtime.isCurrent || runtime.isCurrent()] *)
Definition still_current (s : S) : bool :=
  match isCurrent runtime with Some f => f s | None => true end.

Definition superseded : RefreshOutcome := transient_error SupersededError.

(** [run], up to [await runtime.request(...)]. *)
Definition run_enter (raceAttempt : nat) (allowMismatchRetry : bool) (s : S) : S * RunState :=
  if negb (still_current s) then (s, Settled superseded)
  else (s, AwaitRequest raceAttempt allowMismatchRetry (getExpectedSID runtime s)).

(** The rest of [run] once the response is there. *)
Definition run_resume (raceAttempt : nat) (allowMismatchRetry : bool)
    (response : AuthRefreshHTTPResponse) (s : S) : S * RunState :=
  if negb (still_current s) then (s, Settled superseded)
  else
    let responseData := if isRecord (data response) then data response else VUndefined in
    let code :=
      if is_string (get responseData $"code") then Some (str_of (get responseData $"code"))
      else None in
    let bundle := parseBundle runtime (get responseData $"data") in
    match (if is_true (get responseData $"success") then bundle else None) with
    | Some b => (acceptBundle runtime b s, Settled (authenticated b))
    | None =>
      if (status response =? 409) && bool_decide (code = Some AUTH_REFRESH_RACE) then
        match refreshRaceDelays !! raceAttempt with
        | Some delay => (s, AwaitWait raceAttempt allowMismatchRetry delay)
        | None => (clear runtime false None s, Settled (out_of_sync code))
        end
      else if (status response =? 409) && bool_decide (code = Some AUTH_SESSION_MISMATCH) then
        if allowMismatchRetry then run_enter 0 false (clear runtime false (Some idle) s)
        else (clear runtime false None s, Settled (out_of_sync code))
      else if status response =? 401 then
        (clear runtime true None s, Settled anonymous)
      else if (status response =? 0) || (500 <=? status response) || (status response =? 429) then
        (markTransient runtime s,
         Settled (transient_error (ResponseError (nullish_or (error response) (data response)))))
      else
        (clear runtime false None s,
         Settled (out_of_sync (Some (default AUTH_INVALID_REFRESH_RESPONSE code))))
    end.

(** After [await runtime.wait(delay)]. *)
Definition run_wake (raceAttempt : nat) (allowMismatchRetry : bool) (s : S) : S * RunState :=
  run_enter (raceAttempt + 1) allowMismatchRetry s.

(** A whole run against a script: before each resumption the environment acts
    on the state, and each request gets the next scripted response.  [None]
    when the script ends first. *)
Fixpoint drive (env : nat → S → S) (script : list AuthRefreshHTTPResponse)
    (n : nat) (fuel : nat) (s : S) (r : RunState) : option (S * RefreshOutcome) :=
  match r with
  | Settled o => Some (s, o)
  | AwaitWait race allow _ =>
    match fuel with
    | O => None
    | Datatypes.S fuel =>
      let '(s, r) := run_wake race allow (env n s) in
      drive env script (n + 1) fuel s r
    end
  | AwaitRequest race allow _ =>
    match fuel, script with
    | Datatypes.S fuel, resp :: script =>
      let '(s, r) := run_resume race allow resp (env n s) in
      drive env script (n + 1) fuel s r
    | _, _ => None
    end
  end.

End runner.

(** [createRefreshRunner(runtime)()], up to its first await. *)
Definition createRefreshRunner {S} (runtime : AuthRefreshRuntime S) (s : S) : S * RunState :=
  run_enter runtime 0 true s.

(** ** The runtime of the real refresh *)

Definition runtimeFor (refreshEpoch : Z) : AuthRefreshRuntime World := {|
  getExpectedSID := λ w, currentSID (auth w);
  parseBundle := λ v, if isAuthBundle v then Some (bundle_of_value v) else None;
  acceptBundle := λ b, applyAuthBundle b false;
  clear := λ synchronizeTabs b w,
    if negb synchronizeTabs && bool_decide (b = Some idle) then on_auth (reset (Some idle)) w
    else clearAuthentication synchronizeTabs b w;
  markTransient := on_auth (setBootstrapState idle);
  isCurrent := Some (λ w, authEpoch w =? refreshEpoch);
|}.

Definition runRefresh (refreshEpoch : Z) (w : World) : World * RunState :=
  createRefreshRunner (runtimeFor refreshEpoch) w.

(** [requestRefresh]: the response record built from what axios reports. *)
Inductive axios_result :=
| HttpOk (status : Z) (body : value)
| AxiosError (response : option (Z * value)) (err : value)
| OtherError (err : value).

Definition requestRefresh (r : axios_result) : AuthRefreshHTTPResponse :=
  match r with
  | HttpOk st body => mkResponse st body VUndefined
  | OtherError e => mkResponse 0 VUndefined e
  | AxiosError (Some (st, body)) e => mkResponse st body e
  | AxiosError None e => mkResponse 0 VUndefined e
  end.

(** ** The module: one refresh in flight, interleaved with everything else *)

Inductive FlightPhase :=
| WaitLock                 (* queued on the browser lock *)
| Running (r : RunState)
| Rejected.                (* the lock request was rejected *)

Record Flight := mkFlight {
  flightEpoch : Z;
  phase : FlightPhase;
}.

Record System := mkSystem {
  world : World;
  refreshPromise : option Flight;
}.

Definition initialSystem : System := mkSystem initialWorld None.

Definition start_run (epoch : Z) (w : World) : World * FlightPhase :=
  let '(w, r) := runRefresh epoch w in (w, Running r).

Definition performRefreshWithBrowserLock (hasLocks : bool) (refreshEpoch : Z) (w : World)
    : World * FlightPhase :=
  if hasLocks then (w, WaitLock) else start_run refreshEpoch w.

Definition refreshAuthentication (hasLocks : bool) (s : System) : System :=
  match refreshPromise s with
  | Some _ => s
  | None =>
    let refreshEpoch := authEpoch (world s) in
    let '(w, ph) := performRefreshWithBrowserLock hasLocks refreshEpoch (world s) in
    mkSystem w (Some (mkFlight refreshEpoch ph))
  end.

(** ** Bootstrap and request headers *)

(** [Math.floor(Date.now() / 1000)] from the millisecond clock *)
Definition now_seconds (now_ms : Z) : number :=
  num_floor (num_div (num_of_Z now_ms) (num_of_Z 1000)).

Definition currentValidAuthBundle (now_ms : Z) (a : AuthState) : option AuthBundle :=
  match user a, accessToken a, accessExpiresAt a, session a with
  | Some u, Some t, Some e, Some s =>
    if negb (truthy t) || negb (num_truthy e) || num_leb e (now_seconds now_ms) then None
    else Some (mkBundle t $"Bearer" e u s)
  | _, _, _, _ => None
  end.

(** [None] is the promise of the refresh in flight. *)
Definition bootstrapAuthentication (hasLocks : bool) (now_ms : Z) (s : System)
    : System * option RefreshOutcome :=
  match currentValidAuthBundle now_ms (auth (world s)) with
  | Some b =>
    (mkSystem (on_auth (setBootstrapState complete) (world s)) (refreshPromise s),
     Some (authenticated b))
  | None =>
    let a := auth (world s) in
    let hasStaleSession := bool_decide (is_Some (user a)) && bool_decide (is_Some (session a)) in
    if bool_decide (bootstrapState a = complete) && negb hasStaleSession
    then (s, Some anonymous)
    else
      let s := mkSystem (on_auth (setBootstrapState checking) (world s)) (refreshPromise s) in
      (refreshAuthentication hasLocks s, None)
  end.

Definition getCommonHeaders (a : AuthState) : list (jsstr * jsstr) :=
  ($"Content-Type", $"application/json") ::
  match accessToken a with
  | Some t => if truthy t then [($"Authorization", $"Bearer " ++ t)] else []
  | None => []
  end.

(** [token && expiresAt && expiresAt > limit] *)
Definition token_valid_beyond (limit : number) (a : AuthState) : bool :=
  match accessToken a, accessExpiresAt a with
  | Some t, Some e => truthy t && num_truthy e && num_ltb limit e
  | _, _ => false
  end.

Inductive headers_result :=
| Headers (h : list (jsstr * jsstr))
| RequestFailed (cause : refresh_error)
| SessionExpired.

(** [getFreshAuthHeaders], before the await: the headers at once, or the
    refresh to wait for. *)
Definition getFreshAuthHeaders (hasLocks : bool) (now_ms : Z) (s : System)
    : System * option headers_result :=
  let refreshBefore := num_add (now_seconds now_ms) (num_of_Z 60) in
  if token_valid_beyond refreshBefore (auth (world s))
  then (s, Some (Headers (getCommonHeaders (auth (world s)))))
  else (refreshAuthentication hasLocks s, None).

(** [getFreshAuthHeaders], after the await. *)
Definition getFreshAuthHeaders_resume (o : RefreshOutcome) (now_ms : Z) (a : AuthState)
    : headers_result :=
  match o with
  | authenticated _ => Headers (getCommonHeaders a)
  | _ =>
    if token_valid_beyond (now_seconds now_ms) a then Headers (getCommonHeaders a)
    else match o with
    | transient_error e => RequestFailed e
    | _ => SessionExpired
    end
  end.

(** The listener of the root route: another tab signed in or out.  The boolean
    asks for a page reload. *)
Definition onAuthSessionEvent (e : AuthSessionSyncEvent) (w : World) : World * bool :=
  let cur := currentSID (auth w) in
  match kind e with
  | authenticated_event =>
    if bool_decide (cur = Some (event_sid e)) then (w, false)
    else match cur with
    | Some s => (if truthy s then clearAuthentication false None w else w, true)
    | None => (w, true)
    end
  | signed_out_event =>
    match cur with
    | Some s =>
      if truthy s && bool_decide (s = event_sid e)
      then (clearAuthentication false None w, false) else (w, false)
    | None => (w, false)
    end
  end.

(** ** Steps of the whole module *)

Inductive Event :=
| EvRefresh (hasLocks : bool)              (* a caller asks for a refresh *)
| EvBootstrap (hasLocks : bool) (now_ms : Z)
| EvHeaders (hasLocks : bool) (now_ms : Z)
| EvLockGranted
| EvLockRejected
| EvResponse (response : AuthRefreshHTTPResponse)
| EvTimer
| EvFinally                                (* .finally(() => refreshPromise = null) *)
| EvLogin (bundle : AuthBundle)            (* applyAuthBundle(bundle) *)
| EvRotation (v : value)
| EvClear (synchronizeTabs : bool)         (* sign-out, retry failure *)
| EvTabEvent (e : AuthSessionSyncEvent)
| EvSetUser (u : option AuthUser).

Definition with_run (s : System) (epoch : Z) (wr : World * RunState) : System :=
  mkSystem wr.1 (Some (mkFlight epoch (Running wr.2))).

(** [None]: the event cannot happen in this state. *)
Definition sys_step (s : System) (ev : Event) : option System :=
  match ev with
  | EvRefresh l => Some (refreshAuthentication l s)
  | EvBootstrap l t => Some (bootstrapAuthentication l t s).1
  | EvHeaders l t => Some (getFreshAuthHeaders l t s).1
  | EvLockGranted =>
    match refreshPromise s with
    | Some (mkFlight e WaitLock) => Some (with_run s e (runRefresh e (world s)))
    | _ => None
    end
  | EvLockRejected =>
    match refreshPromise s with
    | Some (mkFlight e WaitLock) => Some (mkSystem (world s) (Some (mkFlight e Rejected)))
    | _ => None
    end
  | EvResponse resp =>
    match refreshPromise s with
    | Some (mkFlight e (Running (AwaitRequest race allow _))) =>
      Some (with_run s e (run_resume (runtimeFor e) race allow resp (world s)))
    | _ => None
    end
  | EvTimer =>
    match refreshPromise s with
    | Some (mkFlight e (Running (AwaitWait race allow _))) =>
      Some (with_run s e (run_wake (runtimeFor e) race allow (world s)))
    | _ => None
    end
  | EvFinally =>
    match refreshPromise s with
    | Some (mkFlight _ (Running (Settled _))) | Some (mkFlight _ Rejected) =>
      Some (mkSystem (world s) None)
    | _ => None
    end
  | EvLogin b => Some (mkSystem (applyAuthBundle b true (world s)) (refreshPromise s))
  | EvRotation v =>
    match applyAuthRotation v (world s) with
    | inr w => Some (mkSystem w (refreshPromise s))
    | inl _ => Some s
    end
  | EvClear sync => Some (mkSystem (clearAuthentication sync None (world s)) (refreshPromise s))
  | EvTabEvent e => Some (mkSystem (onAuthSessionEvent e (world s)).1 (refreshPromise s))
  | EvSetUser u => Some (mkSystem (on_auth (setUser u) (world s)) (refreshPromise s))
  end.

Inductive reachable : System → Prop :=
| reach_init : reachable initialSystem
| reach_step s ev s' : reachable s → sys_step s ev = Some s' → reachable s'.
