(* ===== verification/AuthSessionFacts.v ===== *)
(** * Session coordination: theorems

    The lemmas and properties of [AuthSession]: the invariant of the module over
    every interleaving, termination of the refresh loop, what each outcome of a
    refresh did to the store, and the behaviour across tabs. *)

From S2P Require Import Prelude JsString JsNumber JsValue AuthStore AuthSync AuthSession.

(** ** Lemmas: synchronous operations *)

Lemma applyAuthBundle_auth b sync w :
  auth (applyAuthBundle b sync w) = setBundle b (auth w).
Proof. unfold applyAuthBundle. by break_match. Qed.

Lemma applyAuthBundle_epoch b sync w :
  authEpoch (applyAuthBundle b sync w) = authEpoch w + 1.
Proof. unfold applyAuthBundle. by break_match. Qed.

Lemma applyAuthBundle_silent b w : published (applyAuthBundle b false w) = published w.
Proof. done. Qed.

Lemma clearAuthentication_auth sync b w :
  auth (clearAuthentication sync b w) = reset b (auth w).
Proof. unfold clearAuthentication. repeat break_match; done. Qed.

Lemma clearAuthentication_epoch sync b w :
  authEpoch (clearAuthentication sync b w) = authEpoch w + 1.
Proof. unfold clearAuthentication. repeat break_match; done. Qed.

Lemma clearAuthentication_silent b w : published (clearAuthentication false b w) = published w.
Proof. unfold clearAuthentication. repeat break_match; done. Qed.

Lemma onAuthSessionEvent_cases e w :
  (onAuthSessionEvent e w).1 = w
  ∨ (onAuthSessionEvent e w).1 = clearAuthentication false None w.
Proof.
  unfold onAuthSessionEvent.
  repeat (break_match; simpl; auto).
Qed.

Lemma applyAuthRotation_inv v w w' :
  applyAuthRotation v w = inr w' →
  ∃ u s, user (auth w) = Some u ∧ session (auth w) = Some s
    ∧ isAuthTokenRotation v = true
    ∧ sid (session_of_value (get v $"session")) = sid s
    ∧ w' = applyAuthBundle
        (mkBundle (str_of (get v $"access_token")) (str_of (get v $"token_type"))
           (num_of (get v $"access_expires_at")) u
           (session_of_value (get v $"session"))) false w.
Proof.
  unfold applyAuthRotation. intros H.
  destruct (negb (isAuthTokenRotation v)) eqn:Hg; [done|].
  destruct (user (auth w)) as [u|]; [|done].
  destruct (session (auth w)) as [s|]; [|done].
  destruct (negb (bool_decide _)) eqn:Hs; [done|]. simplify_eq. bool_hyps.
  by exists u, s.
Qed.

#[export] Hint Rewrite applyAuthBundle_auth applyAuthBundle_epoch applyAuthBundle_silent
  clearAuthentication_auth clearAuthentication_epoch clearAuthentication_silent : flow.

(** ** Lemmas: one segment of the runner *)

(** The worlds a segment can leave behind. *)
Inductive segment_effect (w : World) : World → RunState → Prop :=
| seg_superseded : segment_effect w w (Settled superseded)
| seg_request race allow sid' : segment_effect w w (AwaitRequest race allow sid')
| seg_wait race allow d : segment_effect w w (AwaitWait race allow d)
| seg_accept v :
    isAuthBundle v = true →
    segment_effect w (applyAuthBundle (bundle_of_value v) false w)
      (Settled (authenticated (bundle_of_value v)))
| seg_retry sid' : segment_effect w (on_auth (reset (Some idle)) w) (AwaitRequest 0 false sid')
| seg_out_of_sync c :
    segment_effect w (clearAuthentication false None w) (Settled (out_of_sync c))
| seg_anonymous : segment_effect w (clearAuthentication true None w) (Settled anonymous)
| seg_transient e :
    segment_effect w (on_auth (setBootstrapState idle) w)
      (Settled (transient_error (ResponseError e))).

Lemma run_enter_world {S} (rt : AuthRefreshRuntime S) race allow s :
  (run_enter rt race allow s).1 = s.
Proof. unfold run_enter. by break_match. Qed.

Lemma run_enter_not_current {S} (rt : AuthRefreshRuntime S) race allow s :
  still_current rt s = false → run_enter rt race allow s = (s, Settled superseded).
Proof. unfold run_enter. by intros ->. Qed.

Lemma run_resume_not_current {S} (rt : AuthRefreshRuntime S) race allow resp s :
  still_current rt s = false → run_resume rt race allow resp s = (s, Settled superseded).
Proof. unfold run_resume. by intros ->. Qed.

(** The reset before a mismatch retry keeps the epoch, so the retry goes on. *)
Lemma run_enter_retry e w :
  still_current (runtimeFor e) w = true →
  run_enter (runtimeFor e) 0 false (on_auth (reset (Some idle)) w)
  = (on_auth (reset (Some idle)) w, AwaitRequest 0 false None).
Proof.
  intros Hc. unfold run_enter.
  change (still_current (runtimeFor e) (on_auth (reset (Some idle)) w))
    with (still_current (runtimeFor e) w). by rewrite Hc.
Qed.

Lemma run_enter_effect e race allow w :
  segment_effect w (run_enter (runtimeFor e) race allow w).1
    (run_enter (runtimeFor e) race allow w).2.
Proof. unfold run_enter. case_match; constructor. Qed.

Lemma run_resume_effect e race allow resp w :
  let wr := run_resume (runtimeFor e) race allow resp w in
  segment_effect w wr.1 wr.2.
Proof.
  unfold run_resume. destruct (still_current (runtimeFor e) w) eqn:Hc; [|constructor].
  cbn [negb]. set (rd := if isRecord _ then _ else _).
  set (code := if is_string _ then _ else _).
  destruct (if is_true _ then _ else _) as [b|] eqn:Hb.
  { cbn -[isAuthBundle bundle_of_value] in Hb. destruct (is_true _); [|done].
    destruct (isAuthBundle _) eqn:Hg; [|done]. injection Hb as <-. by apply seg_accept. }
  destruct (_ && _); [destruct (refreshRaceDelays !! race); constructor|].
  destruct (_ && _); [|repeat case_match; constructor].
  destruct allow; [|constructor].
  change (clear (runtimeFor e) false (Some idle) w) with (on_auth (reset (Some idle)) w).
  rewrite run_enter_retry by done. constructor.
Qed.

Lemma segment_coherent w w' r :
  segment_effect w w' r → auth_coherent (auth w) → auth_coherent (auth w').
Proof. destruct 1; intros; simpl; autorewrite with flow; auto with flow. Qed.

Lemma segment_epoch w w' r : segment_effect w w' r → authEpoch w ≤ authEpoch w'.
Proof. destruct 1; simpl; autorewrite with flow; lia. Qed.

(** ** The module invariant *)

Record sys_inv (s : System) : Prop := {
  inv_coherent : auth_coherent (auth (world s));
  inv_epoch : ∀ f, refreshPromise s = Some f → flightEpoch f ≤ authEpoch (world s);
}.

Lemma refreshAuthentication_world l s : world (refreshAuthentication l s) = world s.
Proof.
  unfold refreshAuthentication, performRefreshWithBrowserLock, start_run, runRefresh,
    createRefreshRunner.
  destruct (refreshPromise s); [done|]. destruct l; [done|].
  destruct (run_enter _ _ _ _) as [w r] eqn:E. simpl.
  change w with (w, r).1. by rewrite <- E, run_enter_world.
Qed.

Lemma refreshAuthentication_flight l s f :
  refreshPromise (refreshAuthentication l s) = Some f →
  refreshPromise s = Some f ∨ refreshPromise s = None ∧ flightEpoch f = authEpoch (world s).
Proof.
  unfold refreshAuthentication.
  destruct (refreshPromise s) eqn:E; [rewrite E; by left|].
  destruct (performRefreshWithBrowserLock _ _ _). simpl. intros [= <-]. by right.
Qed.

Lemma refreshAuthentication_some l s : is_Some (refreshPromise (refreshAuthentication l s)).
Proof.
  unfold refreshAuthentication. destruct (refreshPromise s) as [f|] eqn:E; [by exists f|].
  destruct (performRefreshWithBrowserLock _ _ _). by eexists.
Qed.

Lemma refreshAuthentication_inv l s : sys_inv s → sys_inv (refreshAuthentication l s).
Proof.
  intros [Hc He]. split; rewrite refreshAuthentication_world; [done|].
  intros f [Hf|[_ ->]]%refreshAuthentication_flight; [by apply He|lia].
Qed.

Lemma sys_inv_world s w' :
  sys_inv s → auth_coherent (auth w') → authEpoch (world s) ≤ authEpoch w' →
  sys_inv (mkSystem w' (refreshPromise s)).
Proof. intros [Hc He] Hc' Hle. split; [done|]. intros f Hf%He. simpl. lia. Qed.

Lemma bootstrapAuthentication_inv l t s :
  sys_inv s → sys_inv (bootstrapAuthentication l t s).1.
Proof.
  intros HI. pose proof (inv_coherent _ HI). unfold bootstrapAuthentication.
  repeat case_match; simpl; [by apply sys_inv_world|done|].
  apply refreshAuthentication_inv. by apply sys_inv_world.
Qed.

Lemma run_inv s f w' r :
  sys_inv s → refreshPromise s = Some f →
  segment_effect (world s) w' r → sys_inv (with_run s (flightEpoch f) (w', r)).
Proof.
  intros [Hc He] Hf Hseg. split; simpl.
  - by eapply segment_coherent.
  - intros g [= <-]. simpl. apply He in Hf. apply segment_epoch in Hseg. lia.
Qed.

Lemma sys_step_inv s ev s' : sys_inv s → sys_step s ev = Some s' → sys_inv s'.
Proof.
  intros HI. pose proof (inv_coherent _ HI).
  destruct ev; simpl; intros Hstep; repeat case_match; simplify_eq;
    try (by apply refreshAuthentication_inv);
    try (by apply bootstrapAuthentication_inv);
    try (apply sys_inv_world; simpl; autorewrite with flow; auto with flow; lia);
    try done.
  all: try match goal with
    | Hf : refreshPromise ?s = Some (mkFlight ?e ?ph) |- sys_inv (with_run ?s ?e ?wr) =>
      rewrite (surjective_pairing wr);
      apply (run_inv s (mkFlight e ph)); [done|done|];
      first [apply run_resume_effect | apply run_enter_effect]
    end.
  - unfold getFreshAuthHeaders. case_match; [done|]. by apply refreshAuthentication_inv.
  - split; [done|]. simpl. intros f [= <-]. simpl.
    match goal with Hf : refreshPromise s = _ |- _ => by apply (inv_epoch _ HI) in Hf end.
  - match goal with Hr : applyAuthRotation _ _ = inr _ |- _ =>
      apply applyAuthRotation_inv in Hr as (u & se & _ & _ & _ & _ & ->) end.
    apply sys_inv_world; autorewrite with flow; auto with flow. lia.
  - destruct (onAuthSessionEvent_cases e (world s)) as [->| ->];
      apply sys_inv_world; autorewrite with flow; auto with flow; lia.
Qed.

Lemma reachable_inv s : reachable s → sys_inv s.
Proof.
  induction 1; [|by eapply sys_step_inv].
  split; [apply initialAuth_coherent|done].
Qed.

(** ** The refresh loop terminates *)

(** Requests still possible from a suspended run: four per pass (the first and
    one after each of the three delays), and a second pass after a mismatch. *)
Definition requests_left (r : RunState) : nat :=
  match r with
  | AwaitRequest race allow _ => (if allow then 4 else 0) + (4 - race)
  | AwaitWait race allow _ => (if allow then 4 else 0) + (3 - race)
  | Settled _ => 0
  end.

(** Resumptions still possible: each request but the last of a pass may be
    followed by a timer. *)
Definition resumptions_left (r : RunState) : nat :=
  match r with
  | AwaitRequest race allow _ => (if allow then 8 else 0) + 2 * (4 - race)
  | AwaitWait race allow _ => (if allow then 8 else 0) + 2 * (3 - race) + 1
  | Settled _ => 0
  end.

(** The attempt counter never leaves the table of delays. *)
Definition run_ok (r : RunState) : Prop :=
  match r with
  | AwaitRequest race _ _ => (race ≤ 3)%nat
  | AwaitWait race _ d => (race ≤ 2)%nat ∧ refreshRaceDelays !! race = Some d
  | Settled _ => True
  end.

Section termination.
Context {S : Type} (rt : AuthRefreshRuntime S).

Lemma run_enter_left race allow s :
  (race ≤ 3)%nat →
  run_ok (run_enter rt race allow s).2
  ∧ (requests_left (run_enter rt race allow s).2 ≤ (if allow then 4 else 0) + (4 - race))%nat
  ∧ (resumptions_left (run_enter rt race allow s).2
     ≤ (if allow then 8 else 0) + 2 * (4 - race))%nat.
Proof. unfold run_enter. destruct (negb _); simpl; lia. Qed.

Lemma run_resume_left race allow resp s :
  (race ≤ 3)%nat →
  run_ok (run_resume rt race allow resp s).2
  ∧ (requests_left (run_resume rt race allow resp s).2
     < (if allow then 4 else 0) + (4 - race))%nat
  ∧ (resumptions_left (run_resume rt race allow resp s).2
     < (if allow then 8 else 0) + 2 * (4 - race))%nat.
Proof.
  intros Hr. unfold run_resume.
  destruct (negb _); [simpl; lia|].
  destruct (if is_true _ then _ else _); [simpl; lia|].
  destruct (_ && _).
  { destruct (refreshRaceDelays !! race) as [d|] eqn:Hd; [|simpl; lia].
    assert (race < 3)%nat by (by apply lookup_lt_Some in Hd).
    cbn [snd]. unfold run_ok, requests_left, resumptions_left.
    split; [split; [lia|done]|]. destruct allow; lia. }
  destruct (_ && _).
  { destruct allow; [|simpl; lia].
    pose proof (run_enter_left 0 false (clear rt false (Some idle) s) ltac:(lia)) as (? & ? & ?).
    split; [done|]. lia. }
  destruct (_ =? _); [simpl; lia|]. destruct (_ || _); simpl; lia.
Qed.

Lemma drive_settles env n fuel script s r :
  run_ok r → (requests_left r ≤ length script)%nat → (resumptions_left r ≤ fuel)%nat →
  is_Some (drive rt env script n fuel s r).
Proof.
  revert n script s r. induction fuel as [|fuel IH]; intros n script s r Hok Hreq Hres.
  - destruct r as [race allow ?|race allow ?|o]; simpl in *; [lia|lia|eauto].
  - destruct r as [race allow sid'|race allow d|o]; simpl in Hok, Hreq, Hres; simpl; [| |eauto].
    + destruct script as [|resp script]; [simpl in Hreq; lia|].
      pose proof (run_resume_left race allow resp (env n s) Hok) as (? & ? & ?).
      destruct (run_resume rt race allow resp (env n s)) as [s' r']. simpl in *.
      apply IH; [done|lia|lia].
    + unfold run_wake.
      pose proof (run_enter_left (race + 1) allow (env n s) ltac:(lia)) as (? & ? & ?).
      destruct (run_enter rt (race + 1) allow (env n s)) as [s' r']. simpl in *.
      apply IH; [done|lia|lia].
Qed.

End termination.

(** ** Executions *)

Fixpoint exec (s : System) (evs : list Event) : option System :=
  match evs with
  | [] => Some s
  | ev :: evs => sys_step s ev ≫= λ s', exec s' evs
  end.

(** The events that belong to the refresh in flight. *)
Definition flight_event (ev : Event) : bool :=
  match ev with
  | EvLockGranted | EvLockRejected | EvResponse _ | EvTimer | EvFinally => true
  | _ => false
  end.

(** The flight, if any, started before the last login or sign-out. *)
Definition stale (s : System) : Prop :=
  ∀ f, refreshPromise s = Some f → flightEpoch f ≠ authEpoch (world s).

Lemma stale_not_current w e : e ≠ authEpoch w → still_current (runtimeFor e) w = false.
Proof. intros. unfold still_current; simpl. apply Z.eqb_neq. lia. Qed.

Lemma stale_step s ev s' :
  stale s → flight_event ev = true → sys_step s ev = Some s' →
  world s' = world s ∧ stale s'.
Proof.
  intros Hst Hev Hstep.
  destruct (refreshPromise s) as [[e ph]|] eqn:Hf; destruct ev; simpl in *; try done;
    rewrite Hf in Hstep; simpl in Hstep; try done;
    pose proof (stale_not_current _ _ (Hst _ Hf)) as Hcur; simpl in Hcur;
    repeat case_match; simplify_eq; unfold runRefresh, createRefreshRunner, run_wake;
    rewrite ?run_enter_not_current, ?run_resume_not_current by done; simpl;
    (split; [done|]); intros f [= <-]; simpl; exact (Hst _ Hf).
Qed.

Lemma stale_exec evs s s' :
  stale s → forallb flight_event evs = true → exec s evs = Some s' → world s' = world s.
Proof.
  revert s. induction evs as [|ev evs IH]; simpl; intros s Hst Hev Hex; [by simplify_eq|].
  bool_hyps. apply bind_Some in Hex as (s1 & Hstep & Hex).
  eapply stale_step in Hstep as [Hw Hst1]; [|done..]. rewrite <- Hw. by eapply IH.
Qed.

(** ** Well-formed credentials *)

Record wf_bundle (b : AuthBundle) : Prop := {
  wf_token : access_token b ≠ [];
  wf_token_type : token_type b ≠ [];
  wf_expiry : is_finite (access_expires_at b) = true
              ∧ num_ltb (num_of_Z 0) (access_expires_at b) = true;
  wf_user : is_integer (user_id (bundle_user b)) = true
            ∧ num_ltb (num_of_Z 0) (user_id (bundle_user b)) = true;
  wf_sid : sid (bundle_session b) ≠ [];
}.

Lemma isLoginSession_sid v : isLoginSession v = true → sid (session_of_value v) ≠ [].
Proof.
  unfold isLoginSession. intros H. case_match; [done|]. bool_hyps. by apply truthy_ne.
Qed.

Lemma isAuthUser_id v :
  isAuthUser v = true →
  is_integer (user_id (user_of_value v)) = true
  ∧ num_ltb (num_of_Z 0) (user_id (user_of_value v)) = true.
Proof.
  unfold isAuthUser. intros H. case_match; [done|]. bool_hyps. simpl.
  split; [|done]. by destruct (get v $"id").
Qed.

Lemma isAuthBundle_wf v : isAuthBundle v = true → wf_bundle (bundle_of_value v).
Proof.
  unfold isAuthBundle, hasValidTokenFields. intros H. case_match; [done|]. bool_hyps.
  split; simpl; [by apply truthy_ne|by apply truthy_ne| |by apply isAuthUser_id|
    by apply isLoginSession_sid].
  split; [|done]. by destruct (get v $"access_expires_at").
Qed.

(** ** Properties *)

(** C29: every refresh settles.  For any runtime, whatever the environment does
    to the state during each await and whatever the server answers, the run
    started by [createRefreshRunner] produces an outcome within eight requests
    and sixteen resumptions. *)
Theorem refresh_always_settles {S} (rt : AuthRefreshRuntime S)
    (env : nat → S → S) (answer : nat → AuthRefreshHTTPResponse) (s : S) :
  ∃ s' o, drive rt env (answer <$> seq 0 8) 0 16
            (createRefreshRunner rt s).1 (createRefreshRunner rt s).2 = Some (s', o).
Proof.
  unfold createRefreshRunner.
  pose proof (run_enter_left rt 0 true s ltac:(lia)) as (Hok & Hreq & Hres).
  destruct (drive_settles rt env 0 16 (answer <$> seq 0 8)
    (run_enter rt 0 true s).1 _ Hok) as [[s' o] Hd]; [exact Hreq|exact Hres|].
  by exists s', o.
Qed.

(** C1: a login or a sign-out wins over a refresh in flight.  From any
    reachable state, once the user signs in or out, every later event of the
    refresh that was already in flight (lock, responses, timers, completion)
    leaves the store, the epoch and the published events as the login or
    sign-out left them. *)
Theorem user_action_survives_inflight_refresh s ev s1 evs s2 :
  reachable s →
  (∃ b, ev = EvLogin b) ∨ (∃ sync, ev = EvClear sync) →
  sys_step s ev = Some s1 →
  forallb flight_event evs = true →
  exec s1 evs = Some s2 →
  world s2 = world s1.
Proof.
  intros Hr Hev Hstep Hall Hex. apply reachable_inv in Hr.
  apply (stale_exec evs); [|done|done].
  intros f Hf. destruct Hev as [[b ->]|[sync ->]]; simpl in Hstep; simplify_eq; simpl in *;
    apply (inv_epoch _ Hr) in Hf; autorewrite with flow; lia.
Qed.

Definition demoUser : value :=
  VObj [($"id", VNum (num_of_Z 42)); ($"username", VStr $"test-user"); ($"role", VNum (num_of_Z 1))].

Definition demoSession : value :=
  VObj [($"sid", VStr $"session-a"); ($"current", VBool true); ($"login_method", VStr $"password");
        ($"ip", VStr $"127.0.0.1"); ($"user_agent", VStr $"test");
        ($"created_at", VNum (num_of_Z 100)); ($"last_active_at", VNum (num_of_Z 100));
        ($"expires_at", VNum (num_of_Z 1000))].

Definition demoBundle : value :=
  VObj [($"access_token", VStr $"access-token"); ($"token_type", VStr $"Bearer");
        ($"access_expires_at", VNum (num_of_Z 1700000600)); ($"user", demoUser);
        ($"session", demoSession)].

Definition okResponse : AuthRefreshHTTPResponse :=
  mkResponse 200 (VObj [($"success", VBool true); ($"data", demoBundle)]) VUndefined.

Lemma user_action_survives_inflight_refresh_witness :
  ∃ s1 s2, sys_step (refreshAuthentication false initialSystem) (EvClear true) = Some s1
    ∧ exec s1 [EvResponse okResponse; EvFinally] = Some s2 ∧ world s2 = world s1.
Proof.
  eexists _, _. split; [reflexivity|]. split; [vm_compute; reflexivity|].
  apply (user_action_survives_inflight_refresh (refreshAuthentication false initialSystem)
    (EvClear true) _ [EvResponse okResponse; EvFinally]).
  - apply (reach_step initialSystem (EvRefresh false)); [constructor|reflexivity].
  - right. by exists true.
  - reflexivity.
  - reflexivity.
  - vm_compute. reflexivity.
Defined.

(** C32: in every reachable state of the module, under every interleaving of
    logins, sign-outs, rotations, events of other tabs and the steps of a
    refresh, access token, expiry and session are present together or absent
    together. *)
Theorem reachable_store_coherent s :
  reachable s → auth_coherent (auth (world s)).
Proof. intros H. exact (inv_coherent _ (reachable_inv _ H)). Qed.

Lemma reachable_store_coherent_witness :
  auth_coherent (auth (world (refreshAuthentication true initialSystem))).
Proof.
  apply reachable_store_coherent.
  apply (reach_step initialSystem (EvRefresh true)); [constructor|reflexivity].
Defined.

(** What each outcome of a refresh promises about the world it leaves. *)
Definition outcome_spec (w : World) (o : RefreshOutcome) (w' : World) : Prop :=
  match o with
  | authenticated b =>
    wf_bundle b ∧ auth w' = setBundle b (auth w) ∧ authEpoch w' = authEpoch w + 1
    ∧ published w' = published w
  | anonymous =>
    auth w' = reset None (auth w) ∧ authEpoch w' = authEpoch w + 1
    ∧ published w' = published w ++
        match currentSID (auth w) with
        | Some s => if truthy s then [(signed_out_event, s)] else []
        | None => []
        end
  | out_of_sync _ =>
    auth w' = reset None (auth w) ∧ authEpoch w' = authEpoch w + 1
    ∧ published w' = published w
  | transient_error SupersededError => w' = w
  | transient_error (ResponseError _) =>
    w' = on_auth (setBootstrapState idle) w
  end.

Lemma clearAuthentication_published b w :
  published (clearAuthentication true b w) = published w ++
    match currentSID (auth w) with
    | Some s => if truthy s then [(signed_out_event, s)] else []
    | None => []
    end.
Proof.
  unfold clearAuthentication. repeat case_match; simpl; by rewrite ?app_nil_r.
Qed.

(** C33: the resumption of a refresh implements the outcome it reports.  An
    [authenticated] outcome carries a well-formed bundle and installs exactly
    it without announcing it to other tabs; [anonymous] and [out_of_sync] empty
    the store, and only [anonymous] announces the sign-out; a superseded
    refresh changes nothing; a transient failure only marks the bootstrap as
    not done. *)
Theorem refresh_outcome_refines e race allow resp w w' o :
  run_resume (runtimeFor e) race allow resp w = (w', Settled o) → outcome_spec w o w'.
Proof.
  intros H. pose proof (run_resume_effect e race allow resp w) as Hseg.
  cbn zeta in Hseg. rewrite H in Hseg. simpl in Hseg.
  inversion Hseg; subst; simpl; autorewrite with flow; try done.
  - by split; [apply isAuthBundle_wf|].
  - split; [done|]. split; [done|]. apply clearAuthentication_published.
Qed.

Lemma refresh_outcome_refines_witness :
  ∃ w' o, run_resume (runtimeFor 0) 0 true okResponse initialWorld = (w', Settled o)
    ∧ outcome_spec initialWorld o w'.
Proof.
  eexists _, _. split; [vm_compute; reflexivity|].
  apply (refresh_outcome_refines 0 0 true okResponse). vm_compute. reflexivity.
Defined.

(** Token rotation is bound to the active session.  It succeeds exactly
    when the response is a valid rotation and a user with a session of the same
    id is signed in; it then replaces the token and the session record, keeps
    the user and the session id, invalidates refreshes in flight and announces
    nothing.  Each failure names its cause. *)
Theorem applyAuthRotation_spec v w :
  match applyAuthRotation v w with
  | inr w' =>
    isAuthTokenRotation v = true
    ∧ is_Some (user (auth w)) ∧ user (auth w') = user (auth w)
    ∧ is_Some (currentSID (auth w)) ∧ currentSID (auth w') = currentSID (auth w)
    ∧ accessToken (auth w') = Some (str_of (get v $"access_token"))
    ∧ authEpoch w' = authEpoch w + 1 ∧ published w' = published w
  | inl InvalidRotationResponse => isAuthTokenRotation v = false
  | inl NoActiveSession =>
    isAuthTokenRotation v = true ∧ (user (auth w) = None ∨ session (auth w) = None)
  | inl RotationSessionMismatch =>
    isAuthTokenRotation v = true
    ∧ currentSID (auth w) ≠ Some (str_of (get (get v $"session") $"sid"))
  end.
Proof.
  destruct (applyAuthRotation v w) as [e|w'] eqn:E.
  - unfold applyAuthRotation in E. destruct (isAuthTokenRotation v); [|by simplify_eq/=].
    cbn [negb] in E. unfold currentSID.
    destruct (user (auth w)); [|injection E as <-; auto].
    destruct (session (auth w)); [|injection E as <-; auto].
    destruct (negb (bool_decide _)) eqn:Hs; [|done].
    injection E as <-. apply negb_true_iff, bool_decide_eq_false in Hs.
    split; [done|]. simpl. intros [= Heq]. by apply Hs.
  - apply applyAuthRotation_inv in E as (u & s & Hu & Hs & Hg & Hsid & ->).
    unfold currentSID. autorewrite with flow. simpl. rewrite Hu, Hs. simpl.
    rewrite <- Hsid. repeat split; eauto.
Qed.

(** Events of other tabs are never echoed and leave no conflicting
    session: handling one publishes nothing, a sign-out leaves the tab without
    that session, and a sign-in leaves it with that session or with none. *)
Theorem tab_event_handled e w :
  event_sid e ≠ [] → currentSID (auth w) ≠ Some [] →
  published (onAuthSessionEvent e w).1 = published w
  ∧ match kind e with
    | signed_out_event => currentSID (auth (onAuthSessionEvent e w).1) ≠ Some (event_sid e)
    | authenticated_event =>
      currentSID (auth (onAuthSessionEvent e w).1) = Some (event_sid e)
      ∨ currentSID (auth (onAuthSessionEvent e w).1) = None
    end.
Proof.
  intros Hne Hcur. unfold onAuthSessionEvent.
  destruct (kind e), (currentSID (auth w)) as [s|] eqn:Hs; simpl;
    repeat case_match; simpl; autorewrite with flow; bool_hyps; simplify_eq;
    rewrite ?Hs; auto.
  - by destruct s.
  - split; [done|]. intros [= ->]. apply andb_false_iff in H as [H|H]; bool_hyps; [|done].
    by destruct (event_sid e).
Qed.

Lemma tab_event_handled_witness :
  published (onAuthSessionEvent
    (mkEvent signed_out_event $"session-a" $"tab-b" $"n" (num_of_Z 0))
    (applyAuthBundle (bundle_of_value demoBundle) false initialWorld)).1 = [].
Proof.
  apply (tab_event_handled (mkEvent signed_out_event $"session-a" $"tab-b" $"n" (num_of_Z 0))
    (applyAuthBundle (bundle_of_value demoBundle) false initialWorld)); vm_compute; done.
Defined.

(** The events of a list of effects, as another tab receives them. *)
Definition received (br : Browser) (self : jsstr) (now : number) (effs : list sync_effect)
    : list AuthSessionSyncEvent :=
  omap (subscribeAuthSessionEvents br self now) effs.

(** The listener over the received events. *)
Definition handle_all (evs : list AuthSessionSyncEvent) (w : World) : World :=
  fold_left (λ w e, (onAuthSessionEvent e w).1) evs w.

(** C40: a sign-out reaches the other tabs of the session.  When a tab with
    session [s] signs out with synchronization, over a [BroadcastChannel] or,
    without one, through [localStorage], any other tab that holds the same session
    and reads the event within a minute ends without a session. *)
Theorem signout_reaches_other_tab br srcA srcB fresh t1 t2 s wA wB :
  has_window br = true → has_broadcast br || storage_works br = true → s ≠ [] → srcA ≠ srcB →
  event_units (mkEvent signed_out_event s srcA fresh t1) = true →
  is_recent t2 t1 = true →
  currentSID (auth wA) = Some s → currentSID (auth wB) = Some s →
  last (published (clearAuthentication true None wA)) = Some (signed_out_event, s)
  ∧ currentSID (auth (handle_all
      (received br srcB t2 (publishAuthSessionEvent br srcA fresh t1 signed_out_event s)) wB)) = None.
Proof.
  intros Hw Hb Hne Hsrc He Hrec HA HB.
  assert (truthy s = true) as Hs by (by apply truthy_ne). split.
  - rewrite clearAuthentication_published, HA, Hs. apply last_snoc.
  - unfold received. rewrite published_delivered by done.
    unfold deliver. rewrite isAuthSessionSyncEvent_value, event_of_value_of_event. simpl.
    rewrite Hs, Hrec, bool_decide_eq_false_2 by done. simpl.
    unfold onAuthSessionEvent. simpl. rewrite HB, Hs, bool_decide_eq_true_2 by done.
    simpl. by autorewrite with flow.
Qed.

Lemma signout_reaches_other_tab_witness :
  let w := applyAuthBundle (bundle_of_value demoBundle) false initialWorld in
  let br := mkBrowser true false true in
  currentSID (auth (handle_all (received br $"b" (num_of_Z 5000)
    (publishAuthSessionEvent br $"a" $"n" (num_of_Z 100) signed_out_event $"session-a")) w)) = None.
Proof.
  intros w br. apply (signout_reaches_other_tab br $"a" $"b" $"n"
    (num_of_Z 100) (num_of_Z 5000) $"session-a" w w); vm_compute; done.
Defined.

(** [bootstrapAuthentication] answers at once only when it may.  An
    immediate [authenticated] answer is the store's own unexpired session; an
    immediate [anonymous] answer means a finished bootstrap without a user
    session; otherwise a refresh is in flight and the state says
    [checking]. *)
Theorem bootstrapAuthentication_spec l now s :
  match bootstrapAuthentication l now s with
  | (s', Some (authenticated b)) =>
    user (auth (world s)) = Some (bundle_user b)
    ∧ session (auth (world s)) = Some (bundle_session b)
    ∧ accessToken (auth (world s)) = Some (access_token b)
    ∧ num_leb (access_expires_at b) (now_seconds now) = false
    ∧ bootstrapState (auth (world s')) = complete
  | (s', Some anonymous) =>
    s' = s ∧ bootstrapState (auth (world s)) = complete
    ∧ (user (auth (world s)) = None ∨ session (auth (world s)) = None)
  | (_, Some _) => False
  | (s', None) => is_Some (refreshPromise s') ∧ bootstrapState (auth (world s')) = checking
  end.
Proof.
  unfold bootstrapAuthentication.
  destruct (currentValidAuthBundle now (auth (world s))) as [b|] eqn:Hb.
  - unfold currentValidAuthBundle in Hb. repeat case_match; simplify_eq. bool_hyps.
    done.
  - destruct (bool_decide _ && _) eqn:Hc; bool_hyps.
    + split; [done|]. split; [done|]. apply andb_false_iff in H0.
      rewrite !bool_decide_eq_false, !is_Some_alt in H0.
      destruct (user _), (session _); naive_solver.
    + rewrite refreshAuthentication_world. split; [|done].
      apply refreshAuthentication_some.
Qed.

(** [getFreshAuthHeaders] never hands out headers without credentials
    unless a refresh said so.  Headers returned without a refresh carry the
    stored token, which outlives the next minute, and start nothing; after a
    refresh that did not authenticate, headers are returned only for a stored
    token that has not expired. *)
Theorem fresh_headers_spec l now s o :
  (∀ h, (getFreshAuthHeaders l now s).2 = Some (Headers h) →
     (getFreshAuthHeaders l now s).1 = s
     ∧ token_valid_beyond (num_add (now_seconds now) (num_of_Z 60)) (auth (world s)) = true
     ∧ ∃ t, accessToken (auth (world s)) = Some t ∧ ($"Authorization", $"Bearer " ++ t) ∈ h)
  ∧ (∀ h, getFreshAuthHeaders_resume o now (auth (world s)) = Headers h →
     (∃ b, o = authenticated b)
     ∨ token_valid_beyond (now_seconds now) (auth (world s)) = true
       ∧ ∃ t, accessToken (auth (world s)) = Some t ∧ ($"Authorization", $"Bearer " ++ t) ∈ h).
Proof.
  assert (∀ lim a, token_valid_beyond lim a = true →
    ∃ t, accessToken a = Some t ∧ ($"Authorization", $"Bearer " ++ t) ∈ getCommonHeaders a) as Hh.
  { intros lim a Hv. unfold token_valid_beyond in Hv. repeat case_match; simplify_eq.
    bool_hyps. unfold getCommonHeaders. eexists. split; [done|].
    rewrite H, H1. apply elem_of_cons. right. apply list_elem_of_singleton. done. }
  unfold getFreshAuthHeaders, getFreshAuthHeaders_resume. split; intros h Hr.
  - case_match; [|done]. simplify_eq/=. split; [done|]. split; [done|]. by eapply Hh.
  - destruct o; [by left; eexists| | |]; case_match; simplify_eq; right; split; eauto.
Qed.

(** A rejected lock request leaves the bootstrap unfinished.  The [catch]
    of [performRefreshWithBrowserLock] does not see a promise that is returned
    without [await]: when the browser rejects the lock request, the refresh
    ends and the state stays [checking]. *)
Theorem lock_rejection_keeps_checking :
  ∃ s, exec initialSystem [EvBootstrap true 0; EvLockRejected; EvFinally] = Some s
    ∧ refreshPromise s = None ∧ bootstrapState (auth (world s)) = checking.
Proof. eexists. split; [vm_compute; reflexivity|]. done. Qed.
