(* ===== verification/HttpClient.v ===== *)
(** * The HTTP client (lib/http-client.ts, lib/server-error-message.ts)

    The axios instance of the console: de-duplication of concurrent GETs, the
    request interceptor that attaches the access token, and the response
    interceptors that apply token rotations, report errors and retry a 401
    once after a refresh.

    The interceptors await, so a request is a small state machine: [Sending]
    while the network has it, [AwaitRefresh] while the 401 handler waits for
    the refresh, [Done] when its promise settles.  Between two steps the rest
    of the program may change the world in any way; [Client] collects what the
    handlers touch: the session world, the toasts and the address bar. *)

From S2P Require Import Prelude JsString JsNumber JsValue OrderedMap AuthStore AuthSync AuthSession.

Local Open Scope js_scope.

(** ** Server error messages *)

Module ServerErrorMessage.

(** The keys of [serverErrorMessageKeys]; the texts are translation keys and
    are represented by their code. *)
Definition serverErrorMessageKeys : list jsstr := [
  $"AUTH_SESSION_LIMIT"; $"AUTH_SESSION_ISSUANCE_LIMIT"; $"TELEGRAM_BIND_DISABLED";
  $"TELEGRAM_BIND_INVALID_REQUEST"; $"TELEGRAM_BIND_FLOW_INVALID";
  $"TELEGRAM_BIND_SESSION_INVALID"; $"TELEGRAM_BIND_ALREADY_BOUND";
  $"TELEGRAM_BIND_USER_DELETED"; $"TELEGRAM_BIND_USER_DISABLED";
  $"TELEGRAM_BIND_INTERNAL_ERROR" ].

Definition serverErrorPayload (v : value) : option value :=
  if negb (isRecord v) then None
  else
    let response := get v $"response" in
    if isRecord response && isRecord (get response $"data") then Some (get response $"data")
    else Some v.

Definition getServerErrorMessageKey (v : value) : option jsstr :=
  match serverErrorPayload v with
  | None => None
  | Some payload =>
    match get payload $"code" with
    | VStr code => if decide (code ∈ serverErrorMessageKeys) then Some code else None
    | _ => None
    end
  end.

End ServerErrorMessage.

Export ServerErrorMessage.

(** ** Requests *)

Record Config := mkConfig {
  url : jsstr;
  params : option jsstr;                 (* JSON.stringify(config.params) *)
  headers : list (jsstr * jsstr);
  skipBusinessError : bool;
  skipErrorHandler : bool;
  disableDuplicate : bool;
  skipAuthRefresh : bool;
  authRetry : bool;
  acceptAuthRotation : bool;
}.

Definition set_headers (h : list (jsstr * jsstr)) (c : Config) : Config :=
  mkConfig (url c) (params c) h (skipBusinessError c) (skipErrorHandler c) (disableDuplicate c)
    (skipAuthRefresh c) (authRetry c) (acceptAuthRotation c).

Definition set_authRetry (c : Config) : Config :=
  mkConfig (url c) (params c) (headers c) (skipBusinessError c) (skipErrorHandler c)
    (disableDuplicate c) (skipAuthRefresh c) true (acceptAuthRotation c).

Inductive Toast :=
| ToastSessionExpired
| ToastRequestFailed
| ToastKey (k : jsstr)
| ToastMessage (m : value).

Record Client := mkClient {
  client_world : World;
  toasts : list Toast;
  pathname : jsstr;
}.

(** [axios.isAxiosError]-like failures: the config is absent when the request
    never got one; [err_value] is the error object as the message helpers see
    it. *)
Record HttpError := mkHttpError {
  err_config : option Config;
  err_status : option Z;
  err_value : value;
}.

Inductive RequestResult :=
| Resolved (data : value)
| ThrownError (e : HttpError)
| ThrownRotation (e : AuthRotationError)
| ThrownRefresh (reason : value).

Inductive ReqState :=
| Sending (config : Config)
| AwaitRefresh (config : Config) (e : HttpError)
| Done (r : RequestResult).

Definition on_world (f : World → World) (c : Client) : Client :=
  mkClient (f (client_world c)) (toasts c) (pathname c).

Definition toast (t : Toast) (c : Client) : Client :=
  mkClient (client_world c) (toasts c ++ [t]) (pathname c).

Definition redirectToSignIn (c : Client) : Client :=
  if negb (bool_decide (pathname c = $"/sign-in"))
  then mkClient (client_world c) (toasts c) $"/sign-in" else c.

Definition AUTHORIZATION : jsstr := $"Authorization".

Definition bearer (token : jsstr) (h : list (jsstr * jsstr)) : list (jsstr * jsstr) :=
  om_set AUTHORIZATION ($"Bearer " ++ token) h.

(** The request interceptor. *)
Definition requestInterceptor (a : AuthState) (config : Config) : Config :=
  match accessToken a with
  | Some t => if truthy t then set_headers (bearer t (headers config)) config else config
  | None => config
  end.

(** [api.request(config)], up to the network. *)
Definition request (c : Client) (config : Config) : ReqState :=
  Sending (requestInterceptor (auth (client_world c)) config).

(** [data?.message || t('Request failed')] *)
Definition message_toast (v : value) : Toast :=
  if to_boolean v then ToastMessage v else ToastRequestFailed.

(** The interceptor of a successful response. *)
Definition onFulfilled (c : Client) (config : Config) (data : value) : Client * ReqState :=
  let rotation :=
    if acceptAuthRotation config && is_true (get data $"success")
    then applyAuthRotation (get data $"data") (client_world c)
    else inr (client_world c) in
  match rotation with
  | inl e => (c, Done (ThrownRotation e))
  | inr w =>
    let c := on_world (λ _, w) c in
    let c :=
      if negb (skipBusinessError config) && is_boolean (get data $"success")
         && negb (to_boolean (get data $"success"))
      then toast (match getServerErrorMessageKey data with
                  | Some k => ToastKey k
                  | None => message_toast (get data $"message")
                  end) c
      else c in
    (c, Done (Resolved data))
  end.

(** [if (!skipErrorHandler) toast.error(...)] *)
Definition toast_unless (skip : bool) (t : Toast) (c : Client) : Client :=
  if skip then c else toast t c.

Definition skip_of (e : HttpError) : bool :=
  match err_config e with Some config => skipErrorHandler config | None => false end.

(** [error?.response?.data?.message || error?.message || t('Request failed')] *)
Definition error_toast (v : value) : Toast :=
  let m := get (get (get v $"response") $"data") $"message" in
  if to_boolean m then ToastMessage m else message_toast (get v $"message").

(** The interceptor of a failed response, up to [await refreshAuthentication()]. *)
Definition onRejected (c : Client) (e : HttpError) : Client * ReqState :=
  let skip := skip_of e in
  if bool_decide (err_status e = Some 401) then
    match err_config e with
    | Some config =>
      if negb (skipAuthRefresh config) && negb (authRetry config) then
        (* the error holds the same config object *)
        (c, AwaitRefresh (set_authRetry config)
              (mkHttpError (Some (set_authRetry config)) (err_status e) (err_value e)))
      else if authRetry config then
        (redirectToSignIn (toast_unless skip ToastSessionExpired
           (on_world (clearAuthentication false None) c)), Done (ThrownError e))
      else (toast_unless skip ToastSessionExpired c, Done (ThrownError e))
    | None => (toast_unless skip ToastSessionExpired c, Done (ThrownError e))
    end
  else
    (if skip then c
     else toast (match getServerErrorMessageKey (err_value e) with
                 | Some k => ToastKey k
                 | None => error_toast (err_value e)
                 end) c,
     Done (ThrownError e)).

(** How [refreshAuthentication()] settles: with an outcome, or rejected, as when the
    lock cannot be had. *)
Inductive RefreshResult := Refresh (outcome : RefreshOutcome) | RefreshRejected (reason : value).

(** The rest of the interceptor once the refresh has settled; a rejection leaves the
    interceptor in place of the error it was called with. *)
Definition onRefreshed (c : Client) (config : Config) (e : HttpError) (settled : RefreshResult)
    : Client * ReqState :=
  match settled with
  | RefreshRejected reason => (c, Done (ThrownRefresh reason))
  | Refresh (authenticated _) =>
    let config :=
      match accessToken (auth (client_world c)) with
      | Some token => if truthy token then set_headers (bearer token (headers config)) config
                      else config
      | None => config
      end in
    (c, request c config)
  | Refresh (anonymous | out_of_sync _) =>
    (redirectToSignIn (toast_unless (skip_of e) ToastSessionExpired c), Done (ThrownError e))
  | Refresh (transient_error _) => (c, Done (ThrownError e))
  end.

(** What the network and the refresh report. *)
Inductive ReqEvent :=
| NetOk (data : value)
| NetFail (status : option Z) (v : value)
| Refreshed (settled : RefreshResult).

(** [None]: the event cannot happen in this state. *)
Definition req_step (c : Client) (r : ReqState) (ev : ReqEvent) : option (Client * ReqState) :=
  match r, ev with
  | Sending config, NetOk data => Some (onFulfilled c config data)
  | Sending config, NetFail status v => Some (onRejected c (mkHttpError (Some config) status v))
  | AwaitRefresh config e, Refreshed settled => Some (onRefreshed c config e settled)
  | _, _ => None
  end.

(** One request from its start.  Before each step [env] changes the client; the
    [n]-th step gets the answer [net n] of the network or how the refresh
    settled, [refresh n].  The result is the final state and the configs that were
    sent, in order. *)
Inductive NetAnswer := AnswerOk (data : value) | AnswerFail (status : option Z) (v : value).

Definition net_event (a : NetAnswer) : ReqEvent :=
  match a with AnswerOk d => NetOk d | AnswerFail st v => NetFail st v end.

Fixpoint run_request (env : nat → Client → Client) (net : nat → NetAnswer)
    (refresh : nat → RefreshResult) (fuel n : nat) (c : Client) (r : ReqState)
    (sent : list Config) : Client * ReqState * list Config :=
  let '(ev, sent) :=
    match r with
    | Sending config => (net_event (net n), sent ++ [config])
    | _ => (Refreshed (refresh n), sent)
    end in
  match fuel with
  | O => (c, r, sent)
  | Datatypes.S fuel =>
    match req_step (env n c) r ev with
    | None => (c, r, sent)
    | Some (c, r) => run_request env net refresh fuel (n + 1) c r sent
    end
  end.

(** ** De-duplication of GET requests *)

(** [inFlightGet], and the ids of the requests that were started so far. *)
Record GetState := mkGetState {
  inFlightGet : list (jsstr * nat);
  nextRequest : nat;
  pending : list (nat * option jsstr);     (* started and not settled: id, key *)
}.

Definition initialGets : GetState := mkGetState [] 0 [].

(** [useAuthStore.getState().auth.session?.sid || 'anonymous'] *)
Definition session_key (a : AuthState) : jsstr :=
  match session a with
  | Some s => str_or (sid s) ($"anonymous")
  | None => $"anonymous"
  end.

Definition get_key (sessionSID : jsstr) (config : Config) : jsstr :=
  sessionSID ++ $":" ++ url config ++ $"?" ++ default ($"{}") (params config).

(** [api.get(url, config)]: the id of the request whose promise is returned. *)
Definition api_get (a : AuthState) (config : Config) (g : GetState) : GetState * nat :=
  let fresh := nextRequest g in
  if disableDuplicate config then
    (mkGetState (inFlightGet g) (fresh + 1) (pending g ++ [(fresh, None)]), fresh)
  else
    let key := get_key (session_key a) config in
    match om_get key (inFlightGet g) with
    | Some existingRequest => (g, existingRequest)
    | None =>
      (mkGetState (om_set key fresh (inFlightGet g)) (fresh + 1) (pending g ++ [(fresh, Some key)]),
       fresh)
    end.

(** A request settles; its [finally] removes its key. *)
Definition settle_get (id : nat) (g : GetState) : GetState :=
  let pending' := filter (λ p, p.1 ≠ id) (pending g) in
  match om_get id (pending g) with
  | Some (Some key) => mkGetState (om_delete key (inFlightGet g)) (nextRequest g) pending'
  | _ => mkGetState (inFlightGet g) (nextRequest g) pending'
  end.

Inductive gets_reachable : GetState → Prop :=
| gets_init : gets_reachable initialGets
| gets_get a config g : gets_reachable g → gets_reachable (api_get a config g).1
| gets_settle id g : gets_reachable g → gets_reachable (settle_get id g).

(** ** Every request settles, with at most one retry *)

Section request_facts.
Context (env : nat → Client → Client) (net : nat → NetAnswer) (refresh : nat → RefreshResult).

Lemma request_config c config : ∃ config', request c config = Sending config'
  ∧ authRetry config' = authRetry config ∧ skipAuthRefresh config' = skipAuthRefresh config
  ∧ skipErrorHandler config' = skipErrorHandler config.
Proof.
  unfold request, requestInterceptor. eexists. split; [done|].
  by destruct (accessToken _) as [t|]; [destruct (truthy t)|].
Qed.

Lemma onFulfilled_done c config d : ∃ res, (onFulfilled c config d).2 = Done res.
Proof. unfold onFulfilled. destruct (if _ && _ then _ else _); simpl; eauto. Qed.

Lemma onRejected_retry c e config e' :
  (onRejected c e).2 = AwaitRefresh config e' →
  err_status e = Some 401
  ∧ ∃ config0, err_config e = Some config0 ∧ config = set_authRetry config0
    ∧ skipAuthRefresh config0 = false ∧ authRetry config0 = false.
Proof.
  unfold onRejected. case_bool_decide as Hst; [|done]. destruct (err_config e) as [c0|]; [|done].
  destruct (skipAuthRefresh c0) eqn:Es, (authRetry c0) eqn:Ea; simpl; try done.
  intros [= <- _]. eauto 6.
Qed.

Lemma onRejected_cases c e :
  (∃ res, (onRejected c e).2 = Done res) ∨ ∃ config e', (onRejected c e).2 = AwaitRefresh config e'.
Proof. unfold onRejected. repeat case_match; simpl; eauto. Qed.

Lemma run_done fuel n c res sent :
  run_request env net refresh fuel n c (Done res) sent = (c, Done res, sent).
Proof. by destruct fuel. Qed.

Definition answered (c : Client) (config : Config) (a : NetAnswer) : Client * ReqState :=
  match a with
  | AnswerOk d => onFulfilled c config d
  | AnswerFail st v => onRejected c (mkHttpError (Some config) st v)
  end.

Lemma run_sending fuel n c config sent :
  run_request env net refresh (Datatypes.S fuel) n c (Sending config) sent
  = run_request env net refresh fuel (n + 1) (answered (env n c) config (net n)).1
      (answered (env n c) config (net n)).2 (sent ++ [config]).
Proof.
  cbn [run_request]. unfold answered.
  destruct (net n); simpl; [destruct (onFulfilled _ _ _)|destruct (onRejected _ _)]; done.
Qed.

Lemma run_await fuel n c config e sent :
  run_request env net refresh (Datatypes.S fuel) n c (AwaitRefresh config e) sent
  = run_request env net refresh fuel (n + 1) (onRefreshed (env n c) config e (refresh n)).1
      (onRefreshed (env n c) config e (refresh n)).2 sent.
Proof. cbn [run_request]. simpl. by destruct (onRefreshed _ _ _ _). Qed.

Lemma answered_cases c config a :
  (∃ res, (answered c config a).2 = Done res)
  ∨ ∃ v e', a = AnswerFail (Some 401) v
      ∧ (answered c config a).2 = AwaitRefresh (set_authRetry config) e'
      ∧ skipAuthRefresh config = false ∧ authRetry config = false.
Proof.
  destruct a as [d|st v]; simpl; [left; apply onFulfilled_done|].
  destruct (onRejected_cases c (mkHttpError (Some config) st v)) as [?|(cf & e' & H)]; [by left|].
  right. destruct (onRejected_retry _ _ _ _ H) as (Hst & c0 & [= <-] & -> & ? & ?).
  simpl in Hst. subst st. eauto 8.
Qed.

(** A request marked as a retry settles with the next answer. *)
Lemma retry_settles fuel n c config sent :
  authRetry config = true →
  ∃ c' res, run_request env net refresh (Datatypes.S fuel) n c (Sending config) sent
            = (c', Done res, sent ++ [config]).
Proof.
  intros Hr. rewrite run_sending.
  destruct (answered_cases (env n c) config (net n)) as [[res ->]|(_ & _ & _ & _ & _ & Ha)].
  - rewrite run_done. eauto.
  - congruence.
Qed.

Lemma refreshed_cases c config e o :
  (∃ b config', o = Refresh (authenticated b) ∧ onRefreshed c config e o = (c, Sending config')
     ∧ authRetry config' = authRetry config ∧ skipErrorHandler config' = skipErrorHandler config)
  ∨ (∃ res, (onRefreshed c config e o).2 = Done res).
Proof.
  destruct o as [[b| | |]|]; simpl; [left|right; eauto..]. exists b.
  match goal with |- context [request c ?cf] =>
    destruct (request_config c cf) as (cf' & Hcf & Ha & _ & Hs); rewrite Hcf end.
  eexists. split; [done|]. split; [done|]. rewrite Ha, Hs.
  by destruct (accessToken _) as [t|]; [destruct (truthy t)|].
Qed.

(** C4: every request settles, and it is sent at most twice.  Whatever the
    server answers, however the refresh settles (with an outcome or rejected) and
    whatever other code does in between, the promise settles within three steps;
    a second send happens only after a 401,
    when the request allows a refresh and is not itself a retry, and only if
    the refresh authenticated. *)
Theorem request_settles c config :
  ∃ c' res sent,
    run_request env net refresh 3 0 c (request c config) [] = (c', Done res, sent)
    ∧ (length sent = 1%nat
       ∨ (length sent = 2%nat
          ∧ (∃ v, net 0 = AnswerFail (Some 401) v)
          ∧ skipAuthRefresh config = false ∧ authRetry config = false
          ∧ ∃ b, refresh 1 = Refresh (authenticated b))).
Proof.
  destruct (request_config c config) as (cf & -> & <- & <- & _). rewrite run_sending.
  destruct (answered_cases (env 0 c) cf (net 0)) as [[res ->]|(v & e & Hnet & -> & Hskip & Hretry)].
  { rewrite run_done. eexists _, _, _. split; [done|by left]. }
  rewrite run_await. set (c1 := env (0 + 1)%nat _).
  destruct (refreshed_cases c1 (set_authRetry cf) e (refresh 1))
    as [(b & cf2 & Ho & Hr & Ha & _)|[res Hr]].
  - change (0 + 1)%nat with 1%nat. rewrite Hr. simpl fst. simpl snd.
    destruct (retry_settles 0 (1 + 1) c1 cf2 ([] ++ [cf]) Ha) as (c2 & res & ->).
    eexists _, _, _. split; [done|]. right. split; [done|]. eauto 6.
  - change (0 + 1)%nat with 1%nat. rewrite Hr, run_done.
    eexists _, _, _. split; [done|by left].
Qed.

Lemma answered_401 c config v :
  skipAuthRefresh config = false → authRetry config = false →
  answered c config (AnswerFail (Some 401) v)
  = (c, AwaitRefresh (set_authRetry config)
          (mkHttpError (Some (set_authRetry config)) (Some 401) v)).
Proof. intros Hs Ha. unfold answered, onRejected. simpl. by rewrite Hs, Ha. Qed.

Lemma request_eq c config :
  request c config = Sending (requestInterceptor (auth (client_world c)) config).
Proof. done. Qed.

Lemma requestInterceptor_flags a config :
  authRetry (requestInterceptor a config) = authRetry config
  ∧ skipAuthRefresh (requestInterceptor a config) = skipAuthRefresh config.
Proof.
  unfold requestInterceptor. by destruct (accessToken a) as [t|]; [destruct (truthy t)|].
Qed.

(** A retry that is refused again ends the session.  If the request is
    answered 401, the refresh authenticates and the retry is answered 401 too,
    the local session is cleared without telling other tabs, the page goes to
    the sign-in route and the caller gets the error. *)
Theorem second_401_signs_out c config v0 v2 b :
  skipAuthRefresh config = false → authRetry config = false →
  net 0 = AnswerFail (Some 401) v0 → refresh 1 = Refresh (authenticated b) →
  net 2 = AnswerFail (Some 401) v2 →
  ∃ c' e sent,
    run_request env net refresh 3 0 c (request c config) [] = (c', Done (ThrownError e), sent)
    ∧ client_world c' = clearAuthentication false None (client_world (env 2 (env 1 (env 0 c))))
    ∧ pathname c' = $"/sign-in".
Proof.
  intros Hs Ha H0 H1 H2.
  destruct (requestInterceptor_flags (auth (client_world c)) config) as [Hia His].
  rewrite request_eq. set (cf0 := requestInterceptor (auth (client_world c)) config) in *.
  rewrite run_sending, H0, answered_401 by congruence. simpl fst. simpl snd.
  rewrite run_await. change (0 + 1)%nat with 1%nat. rewrite H1.
  destruct (refreshed_cases (env 1 (env 0 c)) (set_authRetry cf0)
    (mkHttpError (Some (set_authRetry cf0)) (Some 401) v0) (Refresh (authenticated b))) as [(b' & cf & _ & -> & Hcf & _)|[res Hr]]; [|done].
  simpl fst. simpl snd. rewrite run_sending. change (1 + 1)%nat with 2%nat. rewrite H2.
  unfold answered, onRejected. simpl err_status. simpl err_config. rewrite bool_decide_true by done.
  rewrite Hcf. change (authRetry (set_authRetry _)) with true.
  rewrite andb_false_r. simpl fst. simpl snd. rewrite run_done.
  eexists _, _, _. split; [done|]. unfold redirectToSignIn, toast_unless.
  case_bool_decide; destruct (skip_of _); done.
Qed.

Lemma bearer_get token h : om_get AUTHORIZATION (bearer token h) = Some ($"Bearer " ++ token).
Proof. apply om_get_set_eq. Qed.

(** A retry carries the token of the moment.  After a 401 and an
    authenticating refresh the request is sent again, to the same address and
    marked as a retry, with the access token the store holds when the refresh
    settles. *)
Theorem retry_uses_current_token c config v0 b t :
  skipAuthRefresh config = false → authRetry config = false →
  net 0 = AnswerFail (Some 401) v0 → refresh 1 = Refresh (authenticated b) →
  accessToken (auth (client_world (env 1 (env 0 c)))) = Some t → t ≠ [] →
  ∃ c' res cf1 cf2,
    run_request env net refresh 3 0 c (request c config) [] = (c', Done res, [cf1; cf2])
    ∧ url cf2 = url config ∧ params cf2 = params config ∧ authRetry cf2 = true
    ∧ om_get AUTHORIZATION (headers cf2) = Some ($"Bearer " ++ t).
Proof.
  intros Hs Ha H0 H1 Ht Hne.
  destruct (requestInterceptor_flags (auth (client_world c)) config) as [Hia His].
  rewrite request_eq, run_sending, H0, answered_401 by congruence. simpl fst. simpl snd.
  rewrite run_await. change (0 + 1)%nat with 1%nat. rewrite H1. unfold onRefreshed.
  apply truthy_ne in Hne. rewrite Ht, Hne. rewrite request_eq. unfold requestInterceptor at 2 4.
  rewrite Ht, Hne. simpl fst. simpl snd.
  match goal with |- context [run_request _ _ _ 1 _ ?c1 (Sending ?cf) ?sent] =>
    destruct (retry_settles 0 (1 + 1) c1 cf sent eq_refl) as (c2 & res & ->) end.
  eexists _, _, _, _. split; [done|]. simpl. rewrite bearer_get.
  unfold requestInterceptor. destruct (accessToken (auth (client_world c))) as [t0|];
    [destruct (truthy t0)|]; done.
Qed.

End request_facts.

(** ** De-duplication *)

(** The table of requests in flight and the pending requests agree. *)
Record gets_inv (g : GetState) : Prop := {
  gets_keys : om_wf (inFlightGet g);
  gets_ids : om_wf (pending g);
  gets_agree : ∀ key id, om_get key (inFlightGet g) = Some id ↔ om_get id (pending g) = Some (Some key);
  gets_fresh : ∀ id k, om_get id (pending g) = Some k → (id < nextRequest g)%nat;
}.

Lemma om_get_app_new (m : list (nat * option jsstr)) id k x :
  om_get id m = None → om_get x (m ++ [(id, k)]) = if decide (x = id) then Some k else om_get x m.
Proof.
  induction m as [|[i o] m IH]; simpl; [done|]. destruct (decide (id = i)); [done|].
  intros H. rewrite IH by done. destruct (decide (x = i)) as [->|]; [|done].
  by rewrite decide_False by congruence.
Qed.

Lemma pending_fresh g : gets_inv g → om_get (nextRequest g) (pending g) = None.
Proof.
  intros [_ _ _ Hf]. destruct (om_get (nextRequest g) (pending g)) as [k|] eqn:Hk; [|done].
  apply Hf in Hk. lia.
Qed.

Lemma pending_snoc_wf g k : gets_inv g → om_wf (pending g ++ [(nextRequest g, k)]).
Proof.
  intros Hg. pose proof (pending_fresh g Hg) as Hn. destruct Hg as [_ Hi _ _].
  unfold om_wf, om_keys. rewrite fmap_app. apply NoDup_app. split; [done|].
  split; [|apply NoDup_singleton]. intros x Hx Hx'%list_elem_of_singleton. subst x.
  by apply om_get_None in Hn.
Qed.

Lemma initialGets_inv : gets_inv initialGets.
Proof. split; try done; try apply NoDup_nil_2. Qed.

Lemma api_get_inv a config g : gets_inv g → gets_inv (api_get a config g).1.
Proof.
  intros Hg. pose proof (pending_fresh g Hg) as Hnew.
  pose proof (pending_snoc_wf g) as Hsnoc. unfold api_get.
  destruct (disableDuplicate config).
  { destruct Hg as [Hk Hi Hag Hf]. split; simpl; [done|by apply Hsnoc|..].
    - intros key id. rewrite om_get_app_new by done. rewrite Hag.
      case_decide as Hid; [subst id; rewrite Hnew; done|done].
    - intros id k. rewrite om_get_app_new by done. case_decide; [lia|]. intros Hid%Hf. lia. }
  destruct (om_get (get_key (session_key a) config) (inFlightGet g)) as [id0|] eqn:Eg; [done|].
  set (key0 := get_key (session_key a) config) in *.
  split; simpl; [apply om_set_wf, Hg|by apply Hsnoc|..]; destruct Hg as [Hk Hi Hag Hf].
  - intros key id. rewrite om_get_app_new by done.
    destruct (decide (key = key0)) as [->|Hne].
    + rewrite om_get_set_eq. case_decide as Hid; [subst id; done|]. rewrite <- Hag, Eg.
      split; congruence.
    + rewrite om_get_set_ne, Hag by done. case_decide as Hid; [|done]. subst id. rewrite Hnew.
      split; congruence.
  - intros id k. rewrite om_get_app_new by done. case_decide; [lia|]. intros Hid%Hf. lia.
Qed.

Lemma settle_get_inv id g : gets_inv g → gets_inv (settle_get id g).
Proof.
  intros [Hk Hi Hag Hf].
  assert (∀ x, om_get x (filter (λ p, p.1 ≠ id) (pending g))
            = if decide (x = id) then None else om_get x (pending g)) as Hget.
  { intros x. apply (om_get_delete x id (pending g) Hi). }
  assert (om_wf (filter (λ p, p.1 ≠ id) (pending g))) as Hwf by by apply om_filter_wf.
  unfold settle_get. destruct (om_get id (pending g)) as [[key0|]|] eqn:Ep; split; simpl; try done.
  - by apply om_filter_wf.
  - intros key x. rewrite Hget, om_get_delete by done.
    destruct (decide (key = key0)) as [->|Hne].
    + case_decide as Hx; [done|]. split; [done|]. intros Hp.
      apply Hag in Hp, Ep. congruence.
    + rewrite Hag. case_decide as Hx; [|done]. subst x. rewrite Ep. split; congruence.
  - intros x k. rewrite Hget. case_decide; [done|]. apply Hf.
  - intros key x. rewrite Hget, Hag. case_decide as Hx; [|done]. subst x. by rewrite Ep.
  - intros x k. rewrite Hget. case_decide; [done|]. apply Hf.
  - intros key x. rewrite Hget, Hag. case_decide as Hx; [|done]. subst x. by rewrite Ep.
  - intros x k. rewrite Hget. case_decide; [done|]. apply Hf.
Qed.

Lemma gets_reachable_inv g : gets_reachable g → gets_inv g.
Proof.
  induction 1; [apply initialGets_inv|by apply api_get_inv|by apply settle_get_inv].
Qed.

Lemma api_get_key a config g :
  gets_inv g → disableDuplicate config = false →
  om_get (api_get a config g).2 (pending (api_get a config g).1)
  = Some (Some (get_key (session_key a) config)).
Proof.
  intros Hg Hd. unfold api_get. rewrite Hd.
  destruct (om_get (get_key (session_key a) config) (inFlightGet g)) as [id|] eqn:Eg; simpl.
  - by apply Hg.
  - rewrite om_get_app_new by by apply pending_fresh. by rewrite decide_True.
Qed.

Lemma api_get_keeps a config g id k :
  gets_inv g → om_get id (pending g) = Some k → om_get id (pending (api_get a config g).1) = Some k.
Proof.
  intros Hg Hid. pose proof (pending_fresh g Hg) as Hnew.
  assert (∀ o, om_get id (pending g ++ [(nextRequest g, o)]) = Some k) as H.
  { intros o. rewrite om_get_app_new by done. case_decide; [congruence|done]. }
  unfold api_get. destruct (disableDuplicate config); simpl; [apply H|].
  destruct (om_get _ (inFlightGet g)); simpl; [done|apply H].
Qed.

(** Concurrent equal GETs share one request.  In every reachable state at
    most one pending request is registered under a key, and the request a
    de-duplicated GET returns is pending under that GET's own key (session,
    address and parameters). *)
Theorem gets_share_requests g :
  gets_reachable g →
  (∀ id1 id2 key, om_get id1 (pending g) = Some (Some key) →
     om_get id2 (pending g) = Some (Some key) → id1 = id2)
  ∧ (∀ a config, disableDuplicate config = false →
     om_get (api_get a config g).2 (pending (api_get a config g).1)
     = Some (Some (get_key (session_key a) config))).
Proof.
  intros Hg%gets_reachable_inv. split.
  - intros id1 id2 key H1 H2. apply (gets_agree _ Hg) in H1, H2. congruence.
  - intros a config. by apply api_get_key.
Qed.

(** A response never crosses sessions.  If two de-duplicated GETs are handed
    the same request, they were made under the same session id (for ids without
    a colon). *)
Theorem gets_never_cross_sessions g a1 config1 a2 config2 :
  gets_reachable g →
  disableDuplicate config1 = false → disableDuplicate config2 = false →
  58 ∉ session_key a1 → 58 ∉ session_key a2 →
  let g1 := (api_get a1 config1 g).1 in
  (api_get a1 config1 g).2 = (api_get a2 config2 g1).2 →
  session_key a1 = session_key a2.
Proof.
  intros Hg%gets_reachable_inv Hd1 Hd2 Hc1 Hc2 g1 Heq.
  assert (gets_inv g1) as Hg1 by by apply api_get_inv.
  pose proof (api_get_key a1 config1 g Hg Hd1) as H1. fold g1 in H1.
  pose proof (api_get_key a2 config2 g1 Hg1 Hd2) as H2. rewrite <- Heq in H2.
  apply (api_get_keeps a2 config2) in H1; [|done].
  rewrite H1 in H2. injection H2 as Hkey.
  destruct (sep_inj 58 (session_key a1) (session_key a2) _ _ Hc1 Hc2 Hkey). done.
Qed.

(** ** The theorems at concrete inputs *)

Definition sample_bundle : AuthBundle :=
  mkBundle ($"tok2") ($"Bearer") (num_of_Z 9999)
    (mkUser (num_of_Z 1) ($"ann") (num_of_Z 1) VNull)
    (mkSession ($"s1") true ($"password") [] [] (num_of_Z 1) (num_of_Z 1) (num_of_Z 9999)).

Definition sample_client : Client := mkClient initialWorld [] ($"/keys").

Definition sample_config : Config := mkConfig ($"/api/user/self") None [] false false false false false false.

(** The refresh signs the user in before the handler resumes. *)
Definition sample_step_env (n : nat) (c : Client) : Client :=
  if Nat.eqb n 1 then on_world (applyAuthBundle sample_bundle true) c else c.

Definition sample_net (n : nat) : NetAnswer := AnswerFail (Some 401) VNull.
Definition sample_refresh (n : nat) : RefreshResult := Refresh (authenticated sample_bundle).

Lemma second_401_signs_out_witness :
  ∃ c' e sent,
    run_request sample_step_env sample_net sample_refresh 3 0 sample_client
      (request sample_client sample_config) [] = (c', Done (ThrownError e), sent)
    ∧ session (auth (client_world c')) = None ∧ pathname c' = $"/sign-in".
Proof.
  destruct (second_401_signs_out sample_step_env sample_net sample_refresh sample_client sample_config
    VNull VNull sample_bundle eq_refl eq_refl eq_refl eq_refl eq_refl)
    as (c' & e & sent & Hrun & Hw & Hp).
  exists c', e, sent. rewrite Hw. auto.
Defined.

Lemma retry_uses_current_token_witness :
  ∃ c' res cf1 cf2,
    run_request sample_step_env sample_net sample_refresh 3 0 sample_client
      (request sample_client sample_config) [] = (c', Done res, [cf1; cf2])
    ∧ url cf2 = $"/api/user/self" ∧ params cf2 = None ∧ authRetry cf2 = true
    ∧ om_get AUTHORIZATION (headers cf2) = Some ($"Bearer tok2").
Proof.
  apply (retry_uses_current_token sample_step_env sample_net sample_refresh sample_client sample_config
    VNull sample_bundle ($"tok2") eq_refl eq_refl eq_refl eq_refl eq_refl).
  discriminate.
Defined.

Definition sample_auth : AuthState := setBundle sample_bundle initialAuth.

Lemma sample_gets_reachable : gets_reachable (api_get sample_auth sample_config initialGets).1.
Proof. apply gets_get, gets_init. Qed.

Lemma gets_share_requests_witness :
  om_get 0%nat (pending (api_get sample_auth sample_config initialGets).1)
  = Some (Some ($"s1:/api/user/self?{}")).
Proof.
  exact (proj2 (gets_share_requests _ sample_gets_reachable) sample_auth sample_config eq_refl).
Defined.

Lemma gets_never_cross_sessions_witness :
  (api_get sample_auth sample_config initialGets).2
  = (api_get sample_auth sample_config (api_get sample_auth sample_config initialGets).1).2
  ∧ session_key sample_auth = session_key sample_auth.
Proof.
  split; [vm_compute; reflexivity|].
  apply (gets_never_cross_sessions initialGets sample_auth sample_config sample_auth sample_config
    gets_init eq_refl eq_refl); [apply (bool_decide_unpack _); vm_compute; exact I..|].
  vm_compute. reflexivity.
Defined.
