(* ===== verification/StatusCodeRules.v ===== *)
(** * HTTP status code rules (lib/http-status-code-rules.ts)

    Administrators enter the status codes that disable a channel or retry a
    request as text, "401, 500-503, 429".  The parser validates each token,
    merges the ranges and prints them back in normal form. *)

From S2P Require Import Prelude JsString.

(** ** Data and operations *)

Record StatusCodeRange := mkRange { start : Z; end_ : Z }.

Record ParsedHttpStatusCodeRules := mkParsed {
  ok : bool;
  ranges : list StatusCodeRange;
  tokens : list jsstr;
  normalized : jsstr;
  invalidTokens : list jsstr;
}.

(** [/^\d+$/] *)
Definition isNumber (s : jsstr) : bool := all_digits s.

(** Numerals above 2^53 lose digits in the language but stay far above 599. *)
Definition isValidCode (code : Z) : bool := (100 <=? code) && (code <=? 599).

Definition dash : Z := 45.
Definition comma : Z := 44.
Definition fullwidth_comma : Z := 65292.

Definition parseToken (token : jsstr) : option StatusCodeRange :=
  let cleaned := remove_spaces (trim token) in
  if negb (truthy cleaned) then None
  else if includes [dash] cleaned then
    match split dash cleaned with
    | a :: b :: _ =>
      if negb (isNumber a) || negb (isNumber b) then None
      else
        let s := parse_digits a in
        let e := parse_digits b in
        if negb (isValidCode s) || negb (isValidCode e) || (e <? s) then None
        else Some (mkRange s e)
    | _ => None
    end
  else if negb (isNumber cleaned) then None
  else
    let code := parse_digits cleaned in
    if negb (isValidCode code) then None else Some (mkRange code code).

Definition compare_ranges (a b : StatusCodeRange) : Z :=
  if negb (start a =? start b) then start a - start b else end_ a - end_ b.

(** One step of the [reduce]: extend the last range or open a new one. *)
Definition merge_step (merged : list StatusCodeRange) (current : StatusCodeRange)
    : list StatusCodeRange :=
  match last merged with
  | None => merged ++ [current]
  | Some l =>
    if end_ l + 1 <? start current then merged ++ [current]
    else removelast merged ++ [mkRange (start l) (Z.max (end_ l) (end_ current))]
  end.

Definition mergeRanges (rs : list StatusCodeRange) : list StatusCodeRange :=
  fold_left merge_step (js_sort compare_ranges rs) [].

Definition range_token (r : StatusCodeRange) : jsstr :=
  if start r =? end_ r then string_of_Z (start r)
  else string_of_Z (start r) ++ [dash] ++ string_of_Z (end_ r).

(** The [for] loop over the segments: ranges and invalid tokens, in order. *)
Fixpoint parse_segments (segments : list jsstr) : list StatusCodeRange * list jsstr :=
  match segments with
  | [] => ([], [])
  | segment :: rest =>
    let '(rs, bad) := parse_segments rest in
    match parseToken segment with
    | Some r => (r :: rs, bad)
    | None => (rs, segment :: bad)
    end
  end.

Definition segments_of (raw : jsstr) : list jsstr :=
  List.filter truthy (trim <$> split comma (replace_char fullwidth_comma comma raw)).

(** The argument is [input.toString()], [None] for [null] and [undefined]. *)
Definition parseHttpStatusCodeRules (input : option jsstr) : ParsedHttpStatusCodeRules :=
  let raw := trim (default [] input) in
  if negb (truthy raw) then mkParsed true [] [] [] []
  else
    let '(rs, bad) := parse_segments (segments_of raw) in
    match bad with
    | _ :: _ => mkParsed false [] [] raw bad
    | [] =>
      let merged := mergeRanges rs in
      let toks := range_token <$> merged in
      mkParsed true merged toks (join [comma] toks) []
    end.

(** ** What a set of ranges means *)

Definition in_range (r : StatusCodeRange) (c : Z) : Prop := start r ≤ c ≤ end_ r.
Definition covers (rs : list StatusCodeRange) (c : Z) : Prop := ∃ r, r ∈ rs ∧ in_range r c.

Definition wf_range (r : StatusCodeRange) : Prop := start r ≤ end_ r.
Definition valid_range (r : StatusCodeRange) : Prop := 100 ≤ start r ≤ end_ r ∧ end_ r ≤ 599.

(** Normal form: increasing, with a gap between neighbours. *)
Definition separated (rs : list StatusCodeRange) : Prop :=
  StronglySorted (λ a b, end_ a + 1 < start b) rs ∧ Forall wf_range rs.

(** ** Merging *)

#[global] Instance compare_ranges_comparator : Comparator compare_ranges.
Proof.
  split; intros; unfold compare_ranges in *; repeat case_match; bool_hyps; lia.
Qed.

Lemma covers_app l1 l2 c : covers (l1 ++ l2) c ↔ covers l1 c ∨ covers l2 c.
Proof. unfold covers. setoid_rewrite elem_of_app. naive_solver. Qed.

Lemma covers_singleton r c : covers [r] c ↔ in_range r c.
Proof. unfold covers. setoid_rewrite list_elem_of_singleton. naive_solver. Qed.

Lemma covers_cons r l c : covers (r :: l) c ↔ in_range r c ∨ covers l c.
Proof. change (r :: l) with ([r] ++ l). by rewrite covers_app, covers_singleton. Qed.

Lemma covers_perm l1 l2 c : l1 ≡ₚ l2 → covers l1 c ↔ covers l2 c.
Proof. intros H. unfold covers. by setoid_rewrite H. Qed.

Lemma separated_nil : separated [].
Proof. split; constructor. Qed.

Lemma covers_nil c : ¬ covers [] c.
Proof. intros (r & Hr & _). set_solver. Qed.

Lemma separated_snoc l r :
  separated (l ++ [r]) ↔ separated l ∧ Forall (λ a, end_ a + 1 < start r) l ∧ wf_range r.
Proof.
  unfold separated. rewrite Forall_app, Forall_singleton.
  assert (StronglySorted (λ a b, end_ a + 1 < start b) (l ++ [r]) ↔
    StronglySorted (λ a b, end_ a + 1 < start b) l ∧ Forall (λ a, end_ a + 1 < start r) l) as ->;
    [|tauto].
  induction l as [|a l IH]; simpl.
  - split; [|repeat constructor]. intros _. split; constructor.
  - split.
    + inversion_clear 1 as [|? ? Hs Hf]. apply IH in Hs as [? ?].
      rewrite Forall_app, Forall_singleton in Hf. destruct Hf.
      split; constructor; done.
    + intros [Hs Hf]. inversion_clear Hs. inversion_clear Hf.
      constructor; [by apply IH|]. apply Forall_app. by rewrite Forall_singleton.
Qed.

Lemma merge_step_spec merged cur :
  separated merged → wf_range cur →
  (∀ l, last merged = Some l → start l ≤ start cur) →
  separated (merge_step merged cur)
  ∧ (∀ c, covers (merge_step merged cur) c ↔ covers merged c ∨ in_range cur c)
  ∧ (∀ l, last (merge_step merged cur) = Some l → start l ≤ start cur).
Proof.
  intros Hsep Hwf Hlast. unfold merge_step.
  destruct merged as [|l ms _] using rev_ind.
  { simpl. split; [|split].
    - apply (separated_snoc []). split; [apply separated_nil|]. by split.
    - intros c. rewrite covers_singleton. pose proof (covers_nil c). tauto.
    - intros l [= <-]. lia. }
  rewrite last_snoc in *. specialize (Hlast l eq_refl).
  apply separated_snoc in Hsep as (Hms & Hall & Hl).
  destruct (end_ l + 1 <? start cur) eqn:E; bool_hyps.
  - rewrite last_snoc. split; [|split].
    + apply separated_snoc. split; [by apply separated_snoc|]. split; [|done].
      apply Forall_app. rewrite Forall_singleton. split; [|done].
      eapply Forall_impl; [exact Hall|]. simpl. unfold wf_range in Hl. lia.
    + intros c. rewrite !covers_app, !covers_singleton. tauto.
    + intros l' [= <-]. lia.
  - rewrite removelast_last, last_snoc. split; [|split].
    + apply separated_snoc. unfold wf_range in *. simpl. split; [done|]. split; [done|lia].
    + intros c. rewrite !covers_app, !covers_singleton. unfold in_range, wf_range in *.
      simpl. split; [|intuition lia]. intros [?|?]; [tauto|]. lia.
    + intros l' [= <-]. done.
Qed.

Lemma merge_fold_spec rs merged :
  separated merged → Forall wf_range rs →
  StronglySorted (λ a b, compare_ranges a b ≤ 0) rs →
  (∀ l r, last merged = Some l → r ∈ rs → start l ≤ start r) →
  separated (fold_left merge_step rs merged)
  ∧ ∀ c, covers (fold_left merge_step rs merged) c ↔ covers merged c ∨ covers rs c.
Proof.
  revert merged. induction rs as [|r rs IH]; intros merged Hsep Hwf Hs Hlast; simpl.
  { split; [done|]. intros c. pose proof (covers_nil c). tauto. }
  inversion_clear Hwf. inversion_clear Hs as [|? ? Hs' Hr].
  destruct (merge_step_spec merged r) as (Hsep' & Hcov & Hl'); [done|done|set_solver|].
  destruct (IH (merge_step merged r)) as [? Hc]; [done|done|done| |].
  { intros l r' Hl Hin. apply Hl' in Hl. rewrite Forall_forall in Hr.
    specialize (Hr r' Hin). unfold compare_ranges in Hr. case_match; bool_hyps; lia. }
  split; [done|]. intros c. rewrite Hc, Hcov, covers_cons. tauto.
Qed.

Lemma mergeRanges_spec rs :
  Forall wf_range rs →
  separated (mergeRanges rs) ∧ ∀ c, covers (mergeRanges rs) c ↔ covers rs c.
Proof.
  intros Hwf. unfold mergeRanges.
  destruct (merge_fold_spec (js_sort compare_ranges rs) []) as [Hsep Hcov].
  - apply separated_nil.
  - by rewrite js_sort_perm.
  - apply js_sort_sorted, _.
  - done.
  - split; [done|]. intros c. rewrite Hcov, (covers_perm (js_sort _ _) rs) by apply js_sort_perm.
    pose proof (covers_nil c). tauto.
Qed.

(** ** The normal form is canonical *)

Lemma separated_cons r rs :
  separated (r :: rs) ↔
  separated rs ∧ wf_range r ∧ (∀ c, covers rs c → end_ r + 1 < c).
Proof.
  unfold separated. split.
  - intros [Hs Hf]. inversion_clear Hs as [|? ? Hs' Hr]. inversion_clear Hf.
    split; [done|]. split; [done|]. intros c (r' & Hin & Hc).
    rewrite Forall_forall in Hr. specialize (Hr r' Hin). unfold in_range in Hc. lia.
  - intros ([Hs Hf] & Hwf & Hc). split; constructor; try done.
    apply Forall_forall. intros r' Hin. apply Hc. exists r'. split; [done|].
    rewrite Forall_forall in Hf. specialize (Hf r' Hin). unfold in_range, wf_range in *. lia.
Qed.

Lemma separated_unique rs1 rs2 :
  separated rs1 → separated rs2 → (∀ c, covers rs1 c ↔ covers rs2 c) → rs1 = rs2.
Proof.
  revert rs2. induction rs1 as [|a rs1 IH]; intros [|b rs2] H1 H2 Hc; [done|..].
  - apply separated_cons in H2 as (_ & Hwf & _).
    destruct (covers_nil (start b)). apply Hc, covers_cons. left. unfold in_range, wf_range in *. lia.
  - apply separated_cons in H1 as (_ & Hwf & _).
    destruct (covers_nil (start a)). apply Hc, covers_cons. left. unfold in_range, wf_range in *. lia.
  - apply separated_cons in H1 as (Hs1 & Hwf1 & Hg1), H2 as (Hs2 & Hwf2 & Hg2).
    setoid_rewrite covers_cons in Hc. unfold in_range, wf_range in *.
    assert (start a = start b ∧ end_ a = end_ b) as [Es Ee].
    { pose proof (proj1 (Hc (start a)) ltac:(left; lia)) as Ha.
      pose proof (proj2 (Hc (start b)) ltac:(left; lia)) as Hb.
      assert (start a = start b).
      { destruct Ha as [?|Ha%Hg2], Hb as [?|Hb%Hg1]; lia. }
      split; [done|].
      destruct (Z.lt_trichotomy (end_ a) (end_ b)) as [Hlt|[?|Hlt]]; [|done|].
      - destruct (proj2 (Hc (end_ a + 1)) ltac:(left; lia)) as [?|Hx%Hg1]; lia.
      - destruct (proj1 (Hc (end_ b + 1)) ltac:(left; lia)) as [?|Hx%Hg2]; lia. }
    f_equal; [destruct a, b; simpl in *; congruence|].
    apply IH; [done|done|]. intros c. specialize (Hc c).
    split; intros Hx.
    + pose proof (Hg1 _ Hx). destruct (proj1 Hc (or_intror Hx)); [lia|done].
    + pose proof (Hg2 _ Hx). destruct (proj2 Hc (or_intror Hx)); [lia|done].
Qed.

Lemma mergeRanges_id rs : separated rs → mergeRanges rs = rs.
Proof.
  intros H. destruct (mergeRanges_spec rs) as [Hs Hc]; [by destruct H|].
  by apply separated_unique.
Qed.

(** ** Tokens *)

Lemma isValidCode_iff c : isValidCode c = true ↔ 100 ≤ c ≤ 599.
Proof. unfold isValidCode. rewrite andb_true_iff, !Z.leb_le. lia. Qed.

Lemma parseToken_valid t r : parseToken t = Some r → valid_range r.
Proof.
  unfold parseToken, valid_range. intros H. repeat case_match; simplify_eq; simpl;
    bool_hyps; repeat match goal with H : isValidCode _ = true |- _ => apply isValidCode_iff in H end;
    lia.
Qed.

Lemma starts_with_char c s : starts_with [c] s = match s with x :: _ => c =? x | [] => false end.
Proof. destruct s; simpl; [done|]. by rewrite andb_true_r. Qed.

Lemma includes_char c s : includes [c] s = true ↔ c ∈ s.
Proof.
  induction s as [|x s IH]; cbn [includes]; rewrite starts_with_char.
  - set_solver.
  - rewrite orb_true_iff, Z.eqb_eq, IH. set_solver.
Qed.

Lemma includes_dash_digits s : all_digits s = true → includes [dash] s = false.
Proof.
  intros H. apply not_true_iff_false. rewrite includes_char. intros Hin.
  eapply all_digits_elem in Hin; [|done]. unfold dash in Hin. lia.
Qed.

Lemma dash_not_digit s : all_digits s = true → dash ∉ s.
Proof. intros H. rewrite <- includes_char, includes_dash_digits; done. Qed.

Lemma range_token_no_spaces r : valid_range r → no_spaces (range_token r) = true.
Proof.
  intros [? ?]. unfold range_token. case_match; [auto with flow lia|].
  autorewrite with flow. rewrite !andb_true_iff. split; [|split; [done|]];
    apply all_digits_no_spaces, all_digits_string_of_Z; lia.
Qed.

Lemma range_token_chars r c : valid_range r → c ∈ range_token r → c = dash ∨ 48 ≤ c ≤ 57.
Proof.
  intros [? ?]. unfold range_token.
  assert (∀ n, 0 ≤ n → c ∈ string_of_Z n → 48 ≤ c ≤ 57) as Hd.
  { intros n Hn. by apply all_digits_elem, all_digits_string_of_Z. }
  case_match; rewrite ?elem_of_app, ?list_elem_of_singleton; intros Hc.
  - right. eapply Hd; [|done]. lia.
  - destruct Hc as [Hc|[Hc|Hc]]; [right|by left|right]; (eapply Hd; [|done]); lia.
Qed.

Lemma range_token_truthy r : valid_range r → truthy (range_token r) = true.
Proof.
  intros [? ?]. unfold range_token.
  assert (truthy (string_of_Z (start r)) = true) as Ht.
  { pose proof (all_digits_string_of_Z (start r) ltac:(lia)) as Hd.
    unfold all_digits in Hd. by bool_hyps. }
  case_match; [done|]. by destruct (string_of_Z (start r)).
Qed.

Lemma parseToken_range_token r : valid_range r → parseToken (range_token r) = Some r.
Proof.
  intros Hv. pose proof Hv as [? ?]. unfold parseToken.
  rewrite trim_no_spaces, remove_spaces_no_spaces, range_token_truthy
    by auto using range_token_no_spaces. cbn [negb].
  unfold range_token. destruct (start r =? end_ r) eqn:E; bool_hyps.
  - rewrite includes_dash_digits by auto with flow lia. unfold isNumber.
    rewrite all_digits_string_of_Z, parse_string_of_Z by lia. cbn [negb].
    rewrite (proj2 (isValidCode_iff _)) by lia. simpl. destruct r; simpl in *; congruence.
  - rewrite (proj2 (includes_char _ _)) by set_solver. simpl app.
    rewrite split_word_app by (apply dash_not_digit; auto with flow lia).
    rewrite split_word by (apply dash_not_digit; auto with flow lia).
    unfold isNumber. rewrite !all_digits_string_of_Z, !parse_string_of_Z by lia.
    rewrite !(proj2 (isValidCode_iff _)) by lia. simpl.
    rewrite (proj2 (Z.ltb_ge _ _)) by lia. by destruct r.
Qed.

(** ** The parser *)

Lemma parse_segments_spec segs :
  parse_segments segs =
  (omap parseToken segs, List.filter (λ s, negb (bool_decide (is_Some (parseToken s)))) segs).
Proof.
  induction segs as [|s segs IH]; [done|]. cbn [parse_segments]. rewrite IH. simpl.
  destruct (parseToken s) as [r|] eqn:E.
  - by rewrite bool_decide_eq_true_2 by eauto.
  - rewrite bool_decide_eq_false_2; [done|]. by intros [].
Qed.

Lemma segments_valid segs : Forall valid_range (omap parseToken segs).
Proof.
  apply Forall_forall. intros r (s & _ & Hs)%list_elem_of_omap. by eapply parseToken_valid.
Qed.

Lemma valid_wf r : valid_range r → wf_range r.
Proof. intros [? ?]. unfold wf_range. lia. Qed.

Lemma mergeRanges_valid rs : Forall valid_range rs → Forall valid_range (mergeRanges rs).
Proof.
  intros Hv. destruct (mergeRanges_spec rs) as [[_ Hwf] Hc].
  { eapply Forall_impl; [exact Hv|]. apply valid_wf. }
  apply Forall_forall. intros r Hr. rewrite Forall_forall in Hwf, Hv.
  specialize (Hwf r Hr). unfold wf_range in Hwf.
  assert (∀ c, in_range r c → 100 ≤ c ≤ 599) as Hb.
  { intros c Hin. assert (covers (mergeRanges rs) c) as Hcov by (by exists r).
    apply Hc in Hcov as (r' & Hr' & Hin'). specialize (Hv r' Hr').
    unfold valid_range, in_range in *. lia. }
  unfold valid_range, in_range in *.
  pose proof (Hb (start r) ltac:(lia)). pose proof (Hb (end_ r) ltac:(lia)). lia.
Qed.

(** The result on a valid set of ranges. *)
Definition parsed_of (rs : list StatusCodeRange) : ParsedHttpStatusCodeRules :=
  mkParsed true rs (range_token <$> rs) (join [comma] (range_token <$> rs)) [].

Lemma parse_ok_inv input :
  ok (parseHttpStatusCodeRules input) = true →
  ∃ rs, Forall valid_range rs ∧ separated rs
    ∧ parseHttpStatusCodeRules input = parsed_of rs
    ∧ ∀ c, covers rs c ↔ covers (omap parseToken (segments_of (trim (default [] input)))) c.
Proof.
  unfold parseHttpStatusCodeRules. destruct (truthy _) eqn:Ht; cbn [negb].
  - rewrite parse_segments_spec. set (segs := segments_of _).
    destruct (List.filter _ _); [|done]. intros _.
    exists (mergeRanges (omap parseToken segs)).
    pose proof (segments_valid segs) as Hv.
    destruct (mergeRanges_spec (omap parseToken segs)) as [Hs Hc].
    { eapply Forall_impl; [exact Hv|]. apply valid_wf. }
    auto using mergeRanges_valid.
  - intros _. exists []. repeat split; try done; try (by constructor).
    destruct (trim (default [] input)); [|done]. done.
    destruct (trim (default [] input)); [|done]. done.
Qed.

(** Segments, ranges and rejects of printed tokens. *)
Lemma tokens_trimmed rs :
  Forall valid_range rs →
  List.filter truthy (trim <$> (range_token <$> rs)) = range_token <$> rs.
Proof.
  induction 1 as [|r rs Hv _ IH]; [done|]. csimpl.
  rewrite trim_no_spaces by (by apply range_token_no_spaces).
  by rewrite range_token_truthy, IH.
Qed.

Lemma tokens_parsed rs :
  Forall valid_range rs → omap parseToken (range_token <$> rs) = rs.
Proof.
  induction 1 as [|r rs Hv _ IH]; [done|]. csimpl.
  by rewrite parseToken_range_token, IH.
Qed.

Lemma tokens_accepted rs :
  Forall valid_range rs →
  List.filter (λ s, negb (bool_decide (is_Some (parseToken s)))) (range_token <$> rs) = [].
Proof.
  induction 1 as [|r rs Hv _ IH]; [done|]. csimpl.
  rewrite parseToken_range_token by done.
  rewrite bool_decide_eq_true_2 by eauto. exact IH.
Qed.

Lemma normalized_chars rs c :
  Forall valid_range rs → c ∈ join [comma] (range_token <$> rs) →
  c = comma ∨ c = dash ∨ 48 ≤ c ≤ 57.
Proof.
  intros Hv [Hc|(w & Hw & Hc)]%elem_of_join; [set_solver|].
  apply list_elem_of_fmap in Hw as (r & -> & Hr). rewrite Forall_forall in Hv.
  apply range_token_chars in Hc; [tauto|auto].
Qed.

Lemma normalized_no_spaces rs :
  Forall valid_range rs → no_spaces (join [comma] (range_token <$> rs)) = true.
Proof.
  intros Hv. apply forallb_forall. intros c Hc.
  apply list_elem_of_In, normalized_chars in Hc; [|done].
  destruct Hc as [-> |[->|Hc]]; [done|done|]. rewrite digit_not_space; [done|].
  unfold is_digit. rewrite andb_true_iff, !Z.leb_le. lia.
Qed.

Lemma segments_of_normalized rs :
  rs ≠ [] → Forall valid_range rs →
  segments_of (join [comma] (range_token <$> rs)) = range_token <$> rs.
Proof.
  intros Hne Hv. unfold segments_of, replace_char.
  set (n := join [comma] _).
  assert ((λ x, if x =? fullwidth_comma then comma else x) <$> n = n) as ->.
  { rewrite <- (list_fmap_id n) at 2. apply list_fmap_ext. intros i c Hc.
    apply list_elem_of_lookup_2, normalized_chars in Hc; [|done].
    unfold fullwidth_comma, comma, dash in *. by destruct (Z.eqb_spec c 65292); [lia|]. }
  unfold n. rewrite split_join; [by apply tokens_trimmed| |].
  - by destruct rs.
  - intros w (r & -> & Hr)%list_elem_of_fmap Hc. rewrite Forall_forall in Hv.
    apply range_token_chars in Hc; [|auto]. unfold comma, dash in *. lia.
Qed.

Lemma parse_normalized rs :
  Forall valid_range rs → separated rs →
  parseHttpStatusCodeRules (Some (join [comma] (range_token <$> rs))) = parsed_of rs.
Proof.
  intros Hv Hs. unfold parseHttpStatusCodeRules. simpl default.
  rewrite trim_no_spaces by (by apply normalized_no_spaces).
  destruct (decide (rs = [])) as [->|Hne]; [done|].
  assert (join [comma] (range_token <$> rs) ≠ []) as Hj.
  { destruct rs as [|r rs']; [done|]. inversion_clear Hv.
    apply (join_nonempty _ _ (range_token r)); [simpl; left|].
    by apply truthy_ne, range_token_truthy. }
  rewrite (proj2 (truthy_ne _) Hj). cbn [negb].
  rewrite segments_of_normalized, parse_segments_spec by done.
  rewrite tokens_parsed, tokens_accepted, mergeRanges_id by done. done.
Qed.

(** ** Properties *)

(** C26: the parsed rules mean what was written.  When the text is accepted, the
    resulting ranges cover a status code exactly when one of the comma-separated
    tokens (after trimming) denotes a range containing it; all bounds lie
    between 100 and 599, and the ranges are increasing with gaps between
    them. *)
Theorem parsed_rules_meaning input :
  ok (parseHttpStatusCodeRules input) = true →
  Forall valid_range (ranges (parseHttpStatusCodeRules input))
  ∧ separated (ranges (parseHttpStatusCodeRules input))
  ∧ ∀ c, covers (ranges (parseHttpStatusCodeRules input)) c ↔
      ∃ token r, token ∈ segments_of (trim (default [] input))
        ∧ parseToken token = Some r ∧ in_range r c.
Proof.
  intros Hok. destruct (parse_ok_inv _ Hok) as (rs & Hv & Hs & Heq & Hc).
  rewrite Heq. simpl. split; [done|]. split; [done|]. intros c. rewrite Hc.
  unfold covers. setoid_rewrite list_elem_of_omap. naive_solver.
Qed.

Lemma parsed_rules_meaning_witness :
  covers (ranges (parseHttpStatusCodeRules (Some $"500-503, 401，502-505"))) 504.
Proof.
  apply (parsed_rules_meaning (Some $"500-503, 401，502-505")); [vm_compute; reflexivity|].
  exists $"502-505", (mkRange 502 505). repeat split; try (vm_compute; reflexivity); try done.
  vm_compute. right. right. left.
Defined.

(** Validation is exact.  The text is accepted precisely when every
    non-empty token parses; otherwise the rejected tokens are reported in order
    and no range is produced. *)
Theorem validation_exact input :
  let p := parseHttpStatusCodeRules input in
  invalidTokens p =
    List.filter (λ t, negb (bool_decide (is_Some (parseToken t))))
      (segments_of (trim (default [] input)))
  ∧ (ok p = true ↔ invalidTokens p = [])
  ∧ (ok p = false → ranges p = [] ∧ tokens p = [] ∧ normalized p = trim (default [] input)).
Proof.
  unfold parseHttpStatusCodeRules. set (raw := trim (default [] input)).
  destruct (truthy raw) eqn:Ht; cbn [negb].
  - rewrite parse_segments_spec.
    destruct (List.filter _ _) eqn:E; simpl; naive_solver.
  - by destruct raw.
Qed.

(** The printed form is a normal form.  Parsing the normalized text of
    accepted rules gives back the same ranges, tokens and text. *)
Theorem normalized_roundtrip input :
  ok (parseHttpStatusCodeRules input) = true →
  parseHttpStatusCodeRules (Some (normalized (parseHttpStatusCodeRules input)))
  = parseHttpStatusCodeRules input.
Proof.
  intros Hok. destruct (parse_ok_inv _ Hok) as (rs & Hv & Hs & Heq & _).
  rewrite Heq. by apply parse_normalized.
Qed.

Lemma normalized_roundtrip_witness :
  parseHttpStatusCodeRules (Some (normalized (parseHttpStatusCodeRules (Some $" 429,401, 400-402 "))))
  = parseHttpStatusCodeRules (Some $" 429,401, 400-402 ").
Proof. apply normalized_roundtrip. vm_compute. reflexivity. Defined.

(** The normal form is canonical: two accepted texts that cover the same
    status codes have the same ranges and the same normalized text. *)
Theorem normalized_canonical i1 i2 :
  ok (parseHttpStatusCodeRules i1) = true → ok (parseHttpStatusCodeRules i2) = true →
  (∀ c, covers (ranges (parseHttpStatusCodeRules i1)) c
        ↔ covers (ranges (parseHttpStatusCodeRules i2)) c) →
  parseHttpStatusCodeRules i1 = parseHttpStatusCodeRules i2.
Proof.
  intros H1 H2. destruct (parse_ok_inv _ H1) as (rs1 & _ & Hs1 & -> & _).
  destruct (parse_ok_inv _ H2) as (rs2 & _ & Hs2 & -> & _). simpl. intros Hc.
  by rewrite (separated_unique rs1 rs2).
Qed.

Lemma normalized_canonical_witness :
  parseHttpStatusCodeRules (Some $"500,501") = parseHttpStatusCodeRules (Some $"500-501").
Proof.
  apply (normalized_canonical (Some $"500,501") (Some $"500-501"));
    [vm_compute; reflexivity|vm_compute; reflexivity|].
  assert (ranges (parseHttpStatusCodeRules (Some $"500,501"))
    = ranges (parseHttpStatusCodeRules (Some $"500-501"))) as -> by (vm_compute; reflexivity).
  done.
Defined.

(** Text after a second dash is silently dropped.  A token "a-b-rest" with
    valid bounds is accepted as the range from [a] to [b], whatever [rest] is;
    the backend rejects such a token. *)
Theorem trailing_part_ignored a b rest :
  100 ≤ a ≤ b → b ≤ 599 → no_spaces rest = true →
  parseToken (string_of_Z a ++ [dash] ++ string_of_Z b ++ [dash] ++ rest) = Some (mkRange a b).
Proof.
  intros Hab Hb Hr. unfold parseToken.
  set (t := string_of_Z a ++ _).
  assert (no_spaces t = true) as Ht.
  { unfold t. autorewrite with flow. rewrite Hr.
    rewrite (all_digits_no_spaces (string_of_Z a)), (all_digits_no_spaces (string_of_Z b))
      by (apply all_digits_string_of_Z; lia). done. }
  rewrite trim_no_spaces, remove_spaces_no_spaces by done.
  rewrite (proj2 (truthy_ne t)) by (unfold t; destruct (string_of_Z a); simpl; done). cbn [negb].
  rewrite (proj2 (includes_char _ _)) by (unfold t; set_solver). unfold t. simpl app.
  rewrite split_word_app by (apply dash_not_digit; auto with flow lia).
  rewrite split_word_app by (apply dash_not_digit; auto with flow lia).
  unfold isNumber. rewrite !all_digits_string_of_Z, !parse_string_of_Z by lia.
  rewrite !(proj2 (isValidCode_iff _)) by lia. simpl.
  by rewrite (proj2 (Z.ltb_ge _ _)) by lia.
Qed.

Lemma trailing_part_ignored_witness :
  parseToken (string_of_Z 200 ++ [dash] ++ string_of_Z 300 ++ [dash] ++ $"junk")
  = Some (mkRange 200 300).
Proof. apply (trailing_part_ignored 200 300 $"junk"); [lia|lia|reflexivity]. Defined.
