(* ===== verification/RatioSync.v ===== *)
(** * Upstream ratio synchronization
      (features/system-settings/models/upstream-ratio-sync-helpers.ts)

    An administrator compares the local prices of each model with those of
    upstream sources and picks, cell by cell, the values to adopt.  The picks
    are a [ResolutionsMap]; this component applies and removes them so that a
    model never ends up priced in two ways at once. *)

From S2P Require Import Prelude JsString JsNumber OrderedMap.

(** ** Data *)

Inductive RatioType :=
| model_ratio | completion_ratio | cache_ratio | create_cache_ratio | image_ratio
| audio_ratio | audio_completion_ratio | model_price | billing_mode | billing_expr.

#[global] Instance RatioType_eq_dec : EqDecision RatioType.
Proof. solve_decision. Defined.

Definition ratioTypeName (rt : RatioType) : jsstr :=
  match rt with
  | model_ratio => $"model_ratio"
  | completion_ratio => $"completion_ratio"
  | cache_ratio => $"cache_ratio"
  | create_cache_ratio => $"create_cache_ratio"
  | image_ratio => $"image_ratio"
  | audio_ratio => $"audio_ratio"
  | audio_completion_ratio => $"audio_completion_ratio"
  | model_price => $"model_price"
  | billing_mode => $"billing_mode"
  | billing_expr => $"billing_expr"
  end.

Definition RATIO_SYNC_FIELDS : list RatioType :=
  [model_ratio; completion_ratio; cache_ratio; create_cache_ratio; image_ratio;
   audio_ratio; audio_completion_ratio].

Definition SYNC_FIELD_ORDER : list RatioType :=
  RATIO_SYNC_FIELDS ++ [model_price; billing_mode; billing_expr].

Definition ratioTypeIndex (rt : RatioType) : nat :=
  match rt with
  | model_ratio => 0 | completion_ratio => 1 | cache_ratio => 2 | create_cache_ratio => 3
  | image_ratio => 4 | audio_ratio => 5 | audio_completion_ratio => 6 | model_price => 7
  | billing_mode => 8 | billing_expr => 9
  end.

#[global] Program Instance RatioType_countable : Countable RatioType :=
  inj_countable ratioTypeIndex (λ n, SYNC_FIELD_ORDER !! n) _.
Next Obligation. by intros []. Qed.

(** [number | string | null]; [undefined] is a missing key. *)
Inductive sync_value :=
| NumV (n : number)
| StrV (s : jsstr)
| NullV.

#[global] Instance sync_value_eq_dec : EqDecision sync_value.
Proof. solve_decision. Defined.

Definition same : sync_value := StrV $"same".

Record RatioDifferenceEntry := mkEntry {
  entry_current : sync_value;
  upstreams : gmap jsstr sync_value;
  confidence : gmap jsstr bool;
}.

Abbreviation RatioRow := (gmap RatioType RatioDifferenceEntry).
Abbreviation Differences := (gmap jsstr RatioRow).
Abbreviation ModelResolution := (gmap RatioType sync_value).
Abbreviation ResolutionsMap := (gmap jsstr ModelResolution).

Record ResolutionSelection := mkSelection {
  sel_model : jsstr;
  sel_ratioType : RatioType;
  sel_value : sync_value;
  sel_sourceName : jsstr;
}.

Record ResolutionRemoval := mkRemoval {
  rem_model : jsstr;
  rem_ratioType : RatioType;
}.

#[global] Instance ResolutionRemoval_eq_dec : EqDecision ResolutionRemoval.
Proof. solve_decision. Defined.

(** ** Reading the differences *)

Definition NUMERIC_SYNC_FIELDS : list RatioType := RATIO_SYNC_FIELDS ++ [model_price].

(** [Object.keys(ratioTypes)] *)
Definition row_keys (row : RatioRow) : list RatioType := (map_to_list row).*1.

(** [filter] is [None] when absent. *)
Definition getOrderedRatioTypes (row : RatioRow) (filter_by : option jsstr) : list RatioType :=
  let keys := row_keys row in
  let ordered :=
    filter (λ f, f ∈ keys) SYNC_FIELD_ORDER ++ filter (λ f, f ∉ SYNC_FIELD_ORDER) keys in
  match filter_by with
  | None => ordered
  | Some f =>
    if negb (truthy f) || bool_decide (f = $"__all__") then ordered
    else filter (λ rt, ratioTypeName rt = f) ordered
  end.

(** [ratioTypes[rt]?.upstreams?.[source]] *)
Definition upstream_value (row : RatioRow) (rt : RatioType) (source : jsstr) : option sync_value :=
  row !! rt ≫= λ e, upstreams e !! source.

(** [value !== null && value !== undefined && value !== 'same'] *)
Definition isSelectableUpstreamValue (v : option sync_value) : bool :=
  match v with
  | None | Some NullV => false
  | Some v => negb (bool_decide (v = same))
  end.

Definition getPreferredSyncField (row : RatioRow) (rt : RatioType) (sourceName : jsstr) : RatioType :=
  if negb (bool_decide (rt = billing_expr))
     && isSelectableUpstreamValue (upstream_value row billing_expr sourceName)
  then billing_expr else rt.

Definition getVisibleRatioTypesForSource (row : RatioRow) (sourceName : jsstr)
    (filter_by : option jsstr) : list RatioType :=
  filter (λ rt, getPreferredSyncField row rt sourceName = rt) (getOrderedRatioTypes row filter_by).

Definition getAlignedRatioTypes (row : RatioRow) (sourceNames : list jsstr)
    (filter_by : option jsstr) : list RatioType :=
  let ordered := getOrderedRatioTypes row filter_by in
  match sourceNames with
  | [] => ordered
  | _ =>
    let visible := os_of_list
      (flat_map (λ s, getVisibleRatioTypesForSource row s filter_by) sourceNames) in
    filter (λ rt, rt ∈ visible) ordered
  end.

Inductive BillingCategory := price | ratio | tiered.

#[global] Instance BillingCategory_eq_dec : EqDecision BillingCategory.
Proof. solve_decision. Defined.

Definition getBillingCategory (rt : RatioType) : BillingCategory :=
  match rt with
  | model_price => price
  | billing_mode | billing_expr => tiered
  | _ => ratio
  end.

Definition OFFICIAL_CHANNEL_NAME : jsstr := $"官方倍率预设".
Definition OFFICIAL_CHANNEL_ID : Z := -100.
Definition MODELS_DEV_PRESET_NAME : jsstr := $"models.dev 价格预设".
Definition MODELS_DEV_PRESET_ID : Z := -101.

Definition getUpstreamDisplayName (sourceName : jsstr) : jsstr :=
  let full name id := name ++ $"(" ++ string_of_Z id ++ $")" in
  if bool_decide (sourceName = full OFFICIAL_CHANNEL_NAME OFFICIAL_CHANNEL_ID)
  then OFFICIAL_CHANNEL_NAME
  else if bool_decide (sourceName = full MODELS_DEV_PRESET_NAME MODELS_DEV_PRESET_ID)
  then MODELS_DEV_PRESET_NAME
  else sourceName.

(** [Number(v)] *)
Definition to_number (v : sync_value) : number :=
  match v with
  | NumV n => n
  | StrV s => number_of_string s
  | NullV => num_of_Z 0
  end.

(** [a === b] *)
Definition strict_eq (a b : sync_value) : bool :=
  match a, b with
  | NumV m, NumV n => num_eqb m n
  | StrV s, StrV t => bool_decide (s = t)
  | NullV, NullV => true
  | _, _ => false
  end.

Definition isSelectedResolutionValue (resolutions : ResolutionsMap) (model : jsstr)
    (rt : RatioType) (upstreamValue : option sync_value) : bool :=
  if negb (isSelectableUpstreamValue upstreamValue) then false
  else
    match resolutions !! model ≫= (.!! rt), upstreamValue with
    | Some selected, Some upstream =>
      if bool_decide (rt ∈ NUMERIC_SYNC_FIELDS) then
        is_finite (to_number selected) && is_finite (to_number upstream)
        && num_eqb (to_number selected) (to_number upstream)
      else strict_eq selected upstream
    | _, _ => false
    end.

(** ** Applying selections *)

(** [a ?? b] *)
Definition nullish_or (a : option sync_value) (b : sync_value) : sync_value :=
  match a with Some NullV | None => b | Some v => v end.

(** The field and the value a selection really adopts. *)
Definition preferred (modelDiffs : option RatioRow) (sel : ResolutionSelection)
    : RatioType * sync_value :=
  let preferredType :=
    getPreferredSyncField (default ∅ modelDiffs) (sel_ratioType sel) (sel_sourceName sel) in
  let preferredValue :=
    if bool_decide (preferredType = sel_ratioType sel) then sel_value sel
    else nullish_or
           (modelDiffs ≫= λ row, upstream_value row preferredType (sel_sourceName sel))
           (sel_value sel) in
  (preferredType, preferredValue).

Definition resolveResolutionSelection (differences : Differences) (sel : ResolutionSelection)
    : ResolutionSelection :=
  let '(preferredType, preferredValue) := preferred (differences !! sel_model sel) sel in
  mkSelection (sel_model sel) preferredType preferredValue (sel_sourceName sel).

(** [getDraftModelResolution]: the draft of a model, a copy of its resolution
    the first time. *)
Definition getDraftModelResolution (drafts : gmap jsstr ModelResolution)
    (resolutions : ResolutionsMap) (model : jsstr) : ModelResolution :=
  match drafts !! model with
  | Some draft => draft
  | None => default ∅ (resolutions !! model)
  end.

(** The fields a selection of [category] evicts. *)
Definition conflicts (category : BillingCategory) (rt : RatioType) : bool :=
  negb (bool_decide (category = tiered))
  && negb (bool_decide (getBillingCategory rt = tiered))
  && negb (bool_decide (getBillingCategory rt = category)).

Definition set_if_selectable (rt : RatioType) (v : option sync_value) (m : ModelResolution)
    : ModelResolution :=
  match v with
  | Some x => if isSelectableUpstreamValue v then <[rt := x]> m else m
  | None => m
  end.

(** The new contents of the draft [newModelRes]. *)
Definition select_into (modelDiffs : option RatioRow) (sel : ResolutionSelection)
    (newModelRes : ModelResolution) : ModelResolution :=
  let '(finalType, finalValue) := preferred modelDiffs sel in
  let category := getBillingCategory finalType in
  let kept := filter (λ kv, conflicts category kv.1 = false) newModelRes in
  let m := <[finalType := finalValue]> kept in
  match category, modelDiffs with
  | tiered, Some row =>
    let modeVal := upstream_value row billing_mode (sel_sourceName sel) in
    let exprVal := upstream_value row billing_expr (sel_sourceName sel) in
    let m :=
      if isSelectableUpstreamValue modeVal then set_if_selectable billing_mode modeVal m
      else if bool_decide (finalType = billing_expr)
           then <[billing_mode := StrV $"tiered_expr"]> m
      else m in
    set_if_selectable billing_expr exprVal m
  | _, _ => m
  end.

Definition applyResolutionSelectionToDraft (resolutions : ResolutionsMap)
    (differences : Differences) (drafts : gmap jsstr ModelResolution)
    (sel : ResolutionSelection) : gmap jsstr ModelResolution :=
  let newModelRes := getDraftModelResolution drafts resolutions (sel_model sel) in
  <[sel_model sel := select_into (differences !! sel_model sel) sel newModelRes]> drafts.

(** [drafts.forEach]: an empty draft deletes the model. *)
Definition commit_draft (next : ResolutionsMap) (model : jsstr) (draft : ModelResolution)
    : ResolutionsMap :=
  if bool_decide (draft = ∅) then delete model next else <[model := draft]> next.

Definition commit_drafts (drafts : gmap jsstr ModelResolution) (resolutions : ResolutionsMap)
    : ResolutionsMap :=
  fold_left (λ next kv, commit_draft next kv.1 kv.2) (map_to_list drafts) resolutions.

Definition applyResolutionSelections (resolutions : ResolutionsMap) (differences : Differences)
    (selections : list ResolutionSelection) : ResolutionsMap :=
  match selections with
  | [] => resolutions
  | _ =>
    commit_drafts
      (fold_left (applyResolutionSelectionToDraft resolutions differences) selections ∅)
      resolutions
  end.

Definition applyResolutionSelection (resolutions : ResolutionsMap) (differences : Differences)
    (sel : ResolutionSelection) : ResolutionsMap :=
  applyResolutionSelections resolutions differences [sel].

(** ** The selections that survive *)

Definition effective_key (sel : ResolutionSelection) : jsstr :=
  sel_model sel ++ [0] ++ ratioTypeName (sel_ratioType sel).

(** An entry that a later selection of [category] for [model] evicts. *)
Definition evicted (model : jsstr) (category : BillingCategory)
    (kv : jsstr * ResolutionSelection) : bool :=
  bool_decide (sel_model kv.2 = model) && conflicts category (sel_ratioType kv.2).

Definition effective_step (differences : Differences)
    (effectiveByKey : list (jsstr * ResolutionSelection)) (sel : ResolutionSelection)
    : list (jsstr * ResolutionSelection) :=
  let resolved := resolveResolutionSelection differences sel in
  let category := getBillingCategory (sel_ratioType resolved) in
  let kept :=
    if bool_decide (category = tiered) then effectiveByKey
    else filter (λ kv, evicted (sel_model resolved) category kv = false) effectiveByKey in
  om_set (effective_key resolved) resolved kept.

Definition getEffectiveResolutionSelections (differences : Differences)
    (selections : list ResolutionSelection) : list ResolutionSelection :=
  om_values (fold_left (effective_step differences) selections []).

(** ** Removing *)

Definition plan_add (plan : gmap jsstr (gset RatioType)) (r : ResolutionRemoval)
    : gmap jsstr (gset RatioType) :=
  <[rem_model r := {[rem_ratioType r]} ∪ default ∅ (plan !! rem_model r)]> plan.

Definition remove_field (rt : RatioType) (draft : ModelResolution) : ModelResolution :=
  let draft := delete rt draft in
  let draft := if bool_decide (rt = billing_expr) then delete billing_mode draft else draft in
  if bool_decide (rt = billing_mode) then delete billing_expr draft else draft.

Definition remove_fields (rts : gset RatioType) (draft : ModelResolution) : ModelResolution :=
  fold_left (λ d rt, remove_field rt d) (elements rts) draft.

Definition apply_plan_entry (resolutions next : ResolutionsMap) (kv : jsstr * gset RatioType)
    : ResolutionsMap :=
  match resolutions !! kv.1 with
  | None => next
  | Some row => commit_draft next kv.1 (remove_fields kv.2 row)
  end.

Definition applyResolutionRemovalPlan (resolutions : ResolutionsMap)
    (plan : gmap jsstr (gset RatioType)) : ResolutionsMap :=
  fold_left (apply_plan_entry resolutions) (map_to_list plan) resolutions.

Definition applyResolutionRemovals (resolutions : ResolutionsMap)
    (removals : list ResolutionRemoval) : ResolutionsMap :=
  match removals with
  | [] => resolutions
  | _ => applyResolutionRemovalPlan resolutions (fold_left plan_add removals ∅)
  end.

Definition deleteResolutionField (resolutions : ResolutionsMap) (model : jsstr) (rt : RatioType)
    : ResolutionsMap :=
  applyResolutionRemovals resolutions [mkRemoval model rt].

(** ** Lemmas: drafts and their commit *)

Lemma fold_commit (l : list (jsstr * ModelResolution)) (res : ResolutionsMap) (m : jsstr) :
  om_wf l →
  fold_left (λ next kv, commit_draft next kv.1 kv.2) l res !! m =
  match om_get m l with
  | Some d => if bool_decide (d = ∅) then None else Some d
  | None => res !! m
  end.
Proof.
  unfold om_wf, om_keys. revert res.
  induction l as [|[k d] l IH]; intros res Hnd; simpl; [done|].
  csimpl in Hnd. apply NoDup_cons in Hnd as [Hk Hnd]. rewrite IH by done.
  destruct (decide (m = k)) as [->|Hne].
  - rewrite (proj2 (om_get_None k l)) by done. unfold commit_draft.
    case_bool_decide; by simplify_map_eq.
  - destruct (om_get m l); [done|]. unfold commit_draft.
    case_bool_decide; by simplify_map_eq.
Qed.

Lemma om_get_map_to_list {A} (m : gmap jsstr A) (k : jsstr) :
  om_wf (map_to_list m) ∧ om_get k (map_to_list m) = m !! k.
Proof.
  assert (om_wf (map_to_list m)) as Hwf by apply NoDup_fst_map_to_list.
  split; [done|]. destruct (m !! k) as [x|] eqn:E.
  - apply elem_om_get; [done|]. by apply elem_of_map_to_list.
  - apply om_get_None. intros ([k' x] & -> & Hin)%list_elem_of_fmap. simpl in E.
    apply elem_of_map_to_list in Hin. congruence.
Qed.

Lemma commit_drafts_lookup drafts res (m : jsstr) :
  commit_drafts drafts res !! m =
  match drafts !! m with
  | Some d => if bool_decide (d = ∅) then None else Some d
  | None => res !! m
  end.
Proof.
  unfold commit_drafts. destruct (om_get_map_to_list drafts m) as [Hwf Hget].
  by rewrite fold_commit, Hget.
Qed.

Lemma applyResolutionSelections_lookup res diffs sels (m : jsstr) :
  applyResolutionSelections res diffs sels !! m =
  match fold_left (applyResolutionSelectionToDraft res diffs) sels ∅ !! m with
  | Some d => if bool_decide (d = ∅) then None else Some d
  | None => res !! m
  end.
Proof. destruct sels as [|s sels]; [done|]. apply commit_drafts_lookup. Qed.

(** ** Lemmas: one selection *)

Lemma set_if_selectable_ne rt rt' v m :
  rt ≠ rt' → set_if_selectable rt v m !! rt' = m !! rt'.
Proof.
  intros. unfold set_if_selectable. repeat case_match; try done. by rewrite lookup_insert_ne.
Qed.

(** A field of the price or ratio kind after a selection. *)
Lemma select_into_lookup md sel m rt :
  getBillingCategory rt ≠ tiered →
  select_into md sel m !! rt =
  if decide (rt = (preferred md sel).1) then Some (preferred md sel).2
  else if conflicts (getBillingCategory (preferred md sel).1) rt then None
  else m !! rt.
Proof.
  intros Hrt. unfold select_into. destruct (preferred md sel) as [ft fv]. simpl.
  assert (<[ft := fv]> (filter (λ kv, conflicts (getBillingCategory ft) kv.1 = false) m) !! rt
    = if decide (rt = ft) then Some fv
      else if conflicts (getBillingCategory ft) rt then None else m !! rt) as Hbase.
  { case_decide as Hd; [subst; by simplify_map_eq|]. rewrite lookup_insert_ne by done.
    rewrite map_lookup_filter. destruct (m !! rt) as [x|]; simpl; [|by case_match].
    case_guard; simpl in *; by case_match. }
  destruct (getBillingCategory ft) eqn:Hcat; [exact Hbase|exact Hbase|].
  destruct md as [row|]; [|exact Hbase].
  assert (rt ≠ billing_mode ∧ rt ≠ billing_expr) as [? ?] by (by split; intros ->).
  rewrite set_if_selectable_ne by done. repeat case_match;
    rewrite ?set_if_selectable_ne, ?(lookup_insert_ne _ billing_mode) by done; exact Hbase.
Qed.

Lemma is_Some_set_if_selectable rt v m rt' :
  is_Some (m !! rt') → is_Some (set_if_selectable rt v m !! rt').
Proof.
  intros. unfold set_if_selectable. repeat case_match; try done.
  destruct (decide (rt = rt')) as [->|]; simplify_map_eq; eauto.
Qed.

(** The adopted field is always present afterwards. *)
Lemma select_into_final md sel m : is_Some (select_into md sel m !! (preferred md sel).1).
Proof.
  unfold select_into. destruct (preferred md sel) as [ft fv]. simpl.
  assert (∀ m', is_Some ((<[ft := fv]> m' : ModelResolution) !! ft)) as Hb.
  { intros m'. simplify_map_eq. eauto. }
  destruct (getBillingCategory ft); [apply Hb|apply Hb|].
  destruct md as [row|]; [|apply Hb].
  apply is_Some_set_if_selectable. repeat case_match.
  - apply is_Some_set_if_selectable, Hb.
  - destruct (decide (billing_mode = ft)) as [->|]; simplify_map_eq; eauto.
  - apply Hb.
Qed.

Lemma select_into_ne md sel m : select_into md sel m ≠ ∅.
Proof. intros E. destruct (select_into_final md sel m) as [x Hx]. by rewrite E in Hx. Qed.

(** ** The invariant of a resolution map *)

(** A model is priced per request or by ratios, never both. *)
Definition exclusive (m : ModelResolution) : Prop :=
  ∀ rt1 rt2, is_Some (m !! rt1) → is_Some (m !! rt2) →
    getBillingCategory rt1 = price → getBillingCategory rt2 = ratio → False.

(** The fields of token-based pricing. *)
Definition token_fields : list RatioType :=
  [model_ratio; completion_ratio; cache_ratio; create_cache_ratio; image_ratio; audio_ratio; audio_completion_ratio].

(** A model with a fixed price has no field of token-based pricing. *)
Definition one_pricing (m : ModelResolution) : Prop := is_Some (m !! model_price) → ∀ rt, rt ∈ token_fields → m !! rt = None.

Lemma exclusive_one_pricing m : exclusive m ↔ one_pricing m.
Proof.
  unfold exclusive, one_pricing. split.
  - intros H Hp rt Hrt. destruct (m !! rt) eqn:E; [|done]. exfalso. apply (H model_price rt); [done|by eexists|done|].
    unfold token_fields in Hrt. rewrite !elem_of_cons in Hrt. by destruct Hrt as [->|[->|[->|[->|[->|[->|[->|[]%elem_of_nil]]]]]]].
  - intros H rt1 rt2 H1 [x H2] C1 C2. assert (rt1 = model_price) as -> by by destruct rt1.
    rewrite H in H2; [done|done|]. unfold token_fields. rewrite !elem_of_cons. destruct rt2; try done; tauto.
Qed.

Record res_wf (res : ResolutionsMap) : Prop := {
  wf_nonempty : ∀ model row, res !! model = Some row → row ≠ ∅;
  wf_exclusive : ∀ model row, res !! model = Some row → one_pricing row;
}.

Lemma select_into_exclusive md sel m : exclusive m → exclusive (select_into md sel m).
Proof.
  intros Hex rt1 rt2 H1 H2 Hp Hr.
  rewrite select_into_lookup in H1, H2 by congruence.
  unfold conflicts in *. rewrite Hp in H1. rewrite Hr in H2.
  destruct (decide (rt1 = _)) as [->|]; destruct (decide (rt2 = _)) as [->|];
    try congruence; rewrite ?Hp, ?Hr in *;
    repeat match goal with H : is_Some (if ?b then _ else _) |- _ => destruct b eqn:? end;
    try (by destruct H1); try (by destruct H2); try done.
  by eapply (Hex rt1 rt2).
Qed.

Lemma drafts_inv (P : ModelResolution → Prop) res diffs sels drafts :
  P ∅ →
  (∀ md sel m, P m → P (select_into md sel m)) →
  (∀ model row, res !! model = Some row → P row) →
  (∀ model row, drafts !! model = Some row → P row) →
  ∀ model row,
    fold_left (applyResolutionSelectionToDraft res diffs) sels drafts !! model = Some row → P row.
Proof.
  intros H0 Hstep Hres. revert drafts.
  induction sels as [|sel sels IH]; intros drafts Hd; simpl; [exact Hd|].
  apply IH. intros model row. unfold applyResolutionSelectionToDraft.
  rewrite lookup_insert. case_decide; [|apply Hd]. intros [= <-]. apply Hstep.
  unfold getDraftModelResolution. destruct (drafts !! sel_model sel) eqn:E; [by eapply Hd|].
  destruct (res !! sel_model sel) eqn:E'; [by eapply Hres|done].
Qed.

(** ** Lemmas: removal *)

(** A field goes away when it is named, or when its partner of the tiered
    billing pair is. *)
Definition removed (rts : gset RatioType) (rt : RatioType) : bool :=
  bool_decide (rt ∈ rts)
  || (bool_decide (rt = billing_mode) && bool_decide (billing_expr ∈ rts))
  || (bool_decide (rt = billing_expr) && bool_decide (billing_mode ∈ rts)).

Lemma remove_field_lookup rt rt' (d : ModelResolution) :
  remove_field rt d !! rt' = if removed {[rt]} rt' then None else d !! rt'.
Proof.
  unfold remove_field, removed. rewrite !(bool_decide_ext (_ ∈ {[rt]}) _ (elem_of_singleton _ _)).
  destruct (decide (rt = rt')) as [<-|Hne].
  - rewrite (bool_decide_eq_true_2 (rt = rt)) by done. simpl.
    repeat case_bool_decide; subst; simplify_map_eq; done.
  - rewrite (bool_decide_eq_false_2 (rt' = rt)) by done. simpl.
    repeat case_bool_decide; subst; simplify_map_eq; try done;
      rewrite ?lookup_delete_ne by congruence; done.
Qed.

Lemma removed_union S1 S2 rt : removed (S1 ∪ S2) rt = removed S1 rt || removed S2 rt.
Proof.
  unfold removed. apply Bool.eq_iff_eq_true.
  rewrite ?orb_true_iff, ?andb_true_iff, ?bool_decide_eq_true. set_solver.
Qed.

Lemma removed_empty rt : removed ∅ rt = false.
Proof.
  unfold removed. rewrite !(bool_decide_eq_false_2 (_ ∈ ∅)) by set_solver.
  by rewrite !andb_false_r.
Qed.

Lemma remove_fields_list l (d : ModelResolution) rt :
  fold_left (λ d rt, remove_field rt d) l d !! rt =
  if removed (list_to_set l) rt then None else d !! rt.
Proof.
  revert d. induction l as [|x l IH]; intros d; simpl; [by rewrite removed_empty|].
  rewrite IH, remove_field_lookup, removed_union.
  by destruct (removed {[x]} rt), (removed (list_to_set l) rt).
Qed.

Lemma remove_fields_lookup rts (d : ModelResolution) rt :
  remove_fields rts d !! rt = if removed rts rt then None else d !! rt.
Proof. unfold remove_fields. by rewrite remove_fields_list, list_to_set_elements_L. Qed.

Lemma plan_fold rems plan (m : jsstr) rt :
  rt ∈ default ∅ (fold_left plan_add rems plan !! m)
  ↔ rt ∈ default ∅ (plan !! m) ∨ mkRemoval m rt ∈ rems.
Proof.
  revert plan. induction rems as [|[m' rt'] rems IH]; intros plan; simpl; [set_solver|].
  rewrite IH. unfold plan_add. simpl.
  destruct (decide (m' = m)) as [->|Hne].
  - rewrite lookup_insert_eq. simpl. set_solver.
  - rewrite lookup_insert_ne by done. set_solver.
Qed.

Lemma plan_fold_apply (l : list (jsstr * gset RatioType)) res next (m : jsstr) :
  om_wf l →
  fold_left (apply_plan_entry res) l next !! m =
  match om_get m l, res !! m with
  | Some rts, Some row =>
    if bool_decide (remove_fields rts row = ∅) then None else Some (remove_fields rts row)
  | _, _ => next !! m
  end.
Proof.
  unfold om_wf, om_keys. revert next.
  induction l as [|[k rts] l IH]; intros next Hnd; simpl; [done|].
  csimpl in Hnd. apply NoDup_cons in Hnd as [Hk Hnd]. rewrite IH by done.
  unfold apply_plan_entry, commit_draft. simpl.
  destruct (decide (m = k)) as [->|Hne].
  - rewrite (proj2 (om_get_None k l)) by done.
    destruct (res !! k); [|done]. case_bool_decide; by simplify_map_eq.
  - destruct (om_get m l), (res !! m), (res !! k); try done;
      try case_bool_decide; by simplify_map_eq.
Qed.

Lemma applyResolutionRemovals_lookup res rems (m : jsstr) :
  applyResolutionRemovals res rems !! m =
  match fold_left plan_add rems ∅ !! m, res !! m with
  | Some rts, Some row =>
    if bool_decide (remove_fields rts row = ∅) then None else Some (remove_fields rts row)
  | _, _ => res !! m
  end.
Proof.
  destruct rems as [|r rems]; [done|]. unfold applyResolutionRemovals, applyResolutionRemovalPlan.
  set (plan := fold_left plan_add _ _).
  destruct (om_get_map_to_list plan m) as [Hwf Hget]. by rewrite plan_fold_apply, Hget.
Qed.

(** A field of a model is named by a list of removals, directly or through its
    partner. *)
Definition named_for_removal (rems : list ResolutionRemoval) (model : jsstr) (rt : RatioType) : Prop :=
  mkRemoval model rt ∈ rems
  ∨ rt = billing_mode ∧ mkRemoval model billing_expr ∈ rems
  ∨ rt = billing_expr ∧ mkRemoval model billing_mode ∈ rems.

#[global] Instance named_for_removal_dec rems model rt : Decision (named_for_removal rems model rt).
Proof. unfold named_for_removal. apply _. Defined.

Lemma removed_named (rts : gset RatioType) rems model rt :
  (∀ rt', rt' ∈ rts ↔ mkRemoval model rt' ∈ rems) →
  removed rts rt = bool_decide (named_for_removal rems model rt).
Proof.
  intros HS. apply Bool.eq_iff_eq_true. unfold removed, named_for_removal.
  rewrite !orb_true_iff, !andb_true_iff, !bool_decide_eq_true, !HS. tauto.
Qed.

Lemma applyResolutionRemovals_cell res rems model rt :
  applyResolutionRemovals res rems !! model ≫= (.!! rt) =
  if decide (named_for_removal rems model rt) then None else res !! model ≫= (.!! rt).
Proof.
  rewrite applyResolutionRemovals_lookup.
  pose proof (λ rt', plan_fold rems ∅ model rt') as Hplan.
  rewrite lookup_empty in Hplan. simpl in Hplan.
  destruct (res !! model) as [row|]; [|by case_match; case_decide].
  rewrite decide_bool_decide.
  destruct (fold_left plan_add rems ∅ !! model) as [rts|] eqn:ES; simpl in Hplan |- *.
  - rewrite <- (removed_named rts) by set_solver. rewrite <- remove_fields_lookup.
    case_bool_decide as He; [by rewrite He|done].
  - by rewrite <- (removed_named ∅), removed_empty by set_solver.
Qed.

Lemma applyResolutionRemovals_cases res rems model row :
  applyResolutionRemovals res rems !! model = Some row →
  res !! model = Some row
  ∨ row ≠ ∅ ∧ ∃ rts row0, res !! model = Some row0 ∧ row = remove_fields rts row0.
Proof.
  rewrite applyResolutionRemovals_lookup.
  destruct (_ !! model) as [rts|], (res !! model) as [row0|]; try case_bool_decide; naive_solver.
Qed.

(** ** Properties *)

(** C27: no model is ever priced in two ways.  If every model of the resolutions
    has some picked field, and none with a fixed price has one of the seven fields
    of token-based pricing, the same holds after applying any list of selections,
    whatever the upstream differences say. *)
Theorem selections_keep_pricing_exclusive res diffs sels :
  res_wf res → res_wf (applyResolutionSelections res diffs sels).
Proof.
  intros [Hne Hex]. split; intros model row; rewrite applyResolutionSelections_lookup;
    destruct (fold_left _ sels ∅ !! model) as [d|] eqn:E; eauto; case_bool_decide; try done;
    intros [= <-]; [done|].
  apply exclusive_one_pricing. eapply (drafts_inv exclusive res diffs sels ∅); eauto.
  - intros rt1 rt2 [x Hx]. done.
  - intros. by apply select_into_exclusive.
  - intros m r Hr. apply exclusive_one_pricing. by eapply Hex.
  - done.
Qed.

Definition demoRow : RatioRow :=
  {[ billing_expr := mkEntry NullV {[ $"src" := StrV $"p * 2" ]} ∅ ]}.

Lemma selections_keep_pricing_exclusive_witness :
  res_wf (applyResolutionSelections ∅ {[ $"gpt" := demoRow ]}
    [mkSelection $"m" model_price (StrV $"1") $"src"; mkSelection $"m" cache_ratio (StrV $"2") $"src"]).
Proof. apply selections_keep_pricing_exclusive. by split. Defined.

(** The last selection wins.  After applying selections that end with
    [sel], the model holds the field [resolveResolutionSelection] names; a price
    or ratio field has exactly the resolved value, and adopting an upstream
    expression also sets the billing mode. *)
Theorem last_selection_wins res diffs sels sel :
  let r := resolveResolutionSelection diffs sel in
  let row := applyResolutionSelections res diffs (sels ++ [sel]) !! sel_model sel in
  is_Some (row ≫= (.!! sel_ratioType r))
  ∧ (getBillingCategory (sel_ratioType r) ≠ tiered →
     row ≫= (.!! sel_ratioType r) = Some (sel_value r))
  ∧ (sel_ratioType r = billing_expr → is_Some (diffs !! sel_model sel) →
     is_Some (row ≫= (.!! billing_mode))).
Proof.
  intros r row.
  assert (sel_ratioType r = (preferred (diffs !! sel_model sel) sel).1
    ∧ sel_value r = (preferred (diffs !! sel_model sel) sel).2) as [Hrt Hrv].
  { unfold r, resolveResolutionSelection. by destruct (preferred _ _). }
  rewrite Hrt, Hrv. clear Hrt Hrv. clear r.
  unfold row. rewrite applyResolutionSelections_lookup, fold_left_app. simpl.
  set (drafts := fold_left _ sels ∅). unfold applyResolutionSelectionToDraft.
  rewrite lookup_insert_eq. set (d := getDraftModelResolution _ _ _).
  rewrite bool_decide_eq_false_2 by apply select_into_ne. simpl.
  split; [apply select_into_final|]. split.
  - intros Hc. rewrite select_into_lookup by done. by rewrite decide_True.
  - intros Hft [rw Hrw]. rewrite Hrw in Hft |- *. unfold select_into.
    change ((preferred (Some rw) sel).1 = billing_expr) in Hft.
    destruct (preferred (Some rw) sel) as [ft fv] eqn:Ep. simpl in Hft. subst ft. simpl.
    apply is_Some_set_if_selectable. case_match.
    + unfold set_if_selectable. destruct (upstream_value rw billing_mode _) eqn:E; [|done].
      rewrite H. simplify_map_eq. eauto.
    + simplify_map_eq. eauto.
Qed.

(** Selections touch only their own models. *)
Theorem selections_frame res diffs sels (model : jsstr) :
  (∀ sel, sel ∈ sels → sel_model sel ≠ model) →
  applyResolutionSelections res diffs sels !! model = res !! model.
Proof.
  intros Hne. rewrite applyResolutionSelections_lookup.
  enough (∀ drafts : gmap jsstr ModelResolution, drafts !! model = None →
    fold_left (applyResolutionSelectionToDraft res diffs) sels drafts !! model = None) as ->
    by done.
  induction sels as [|sel sels IH]; intros drafts Hd; simpl; [done|].
  apply IH; [set_solver|]. unfold applyResolutionSelectionToDraft.
  rewrite lookup_insert_ne; [done|]. set_solver.
Qed.

Lemma selections_frame_witness :
  applyResolutionSelections {[ $"b" := {[ model_price := StrV $"3" ]} ]} ∅
    [mkSelection $"a" model_price (StrV $"1") $"src"] !! $"b"
  = ({[ $"b" := {[ model_price := StrV $"3" ]} ]} : ResolutionsMap) !! $"b".
Proof.
  apply selections_frame. intros sel ->%list_elem_of_singleton. done.
Defined.

(** Removal takes away exactly what it names.  A field is gone when it was
    named, or when the other half of the tiered pair (mode and expression) was;
    every other field keeps its value; and models left without fields
    disappear, so the invariant of the resolutions is kept. *)
Theorem removals_exact res rems :
  (∀ model rt, applyResolutionRemovals res rems !! model ≫= (.!! rt) =
    if decide (named_for_removal rems model rt) then None else res !! model ≫= (.!! rt))
  ∧ (res_wf res → res_wf (applyResolutionRemovals res rems)).
Proof.
  split; [apply applyResolutionRemovals_cell|].
  intros [Hne Hex]. split; intros model row Hrow;
    destruct (applyResolutionRemovals_cases _ _ _ _ Hrow) as [?|(? & rts & row0 & Hr0 & ->)]; eauto.
  intros Hp rt Hrt. rewrite remove_fields_lookup in *. destruct (removed rts rt); [done|].
  apply (Hex _ _ Hr0); [by destruct (removed rts model_price)|done].
Qed.

(** ** The effective selections *)

Lemma ratioTypeName_no_nul rt : 0 ∉ ratioTypeName rt.
Proof. apply (bool_decide_eq_true_1 (0 ∉ ratioTypeName rt)). destruct rt; vm_compute; done. Qed.

Lemma ratioTypeName_inj rt1 rt2 : ratioTypeName rt1 = ratioTypeName rt2 → rt1 = rt2.
Proof. destruct rt1, rt2; try done; vm_compute; discriminate. Qed.

(** The separator keeps model names and fields apart. *)
Lemma effective_key_inj m1 rt1 m2 rt2 :
  m1 ++ [0] ++ ratioTypeName rt1 = m2 ++ [0] ++ ratioTypeName rt2 → m1 = m2 ∧ rt1 = rt2.
Proof.
  simpl. intros E. apply not_elem_of_app_cons_inv_r in E as (-> & _ & E);
    [|apply ratioTypeName_no_nul..].
  split; [done|]. by apply ratioTypeName_inj.
Qed.

(** The invariant of [effectiveByKey]: distinct keys, each entry under its own
    key. *)
Definition eff_wf (E : list (jsstr * ResolutionSelection)) : Prop :=
  om_wf E ∧ Forall (λ kv, kv.1 = effective_key kv.2) E.

Lemma effective_step_wf diffs E sel : eff_wf E → eff_wf (effective_step diffs E sel).
Proof.
  intros [Hwf Hk]. unfold effective_step. set (r := resolveResolutionSelection diffs sel).
  set (kept := if (_ : bool) then E else _).
  assert (eff_wf kept) as [Hwf' Hk'].
  { unfold kept. case_match; [done|]. split; [by apply om_filter_wf|].
    apply Forall_forall. intros kv [_ Hin]%list_elem_of_filter.
    rewrite Forall_forall in Hk. by apply Hk. }
  split; [by apply om_set_wf|].
  clear -Hk'. induction kept as [|[k s] kept IH]; simpl; [by repeat constructor|].
  inversion_clear Hk'. case_decide as Hd; constructor; auto.
Qed.

(** The value recorded for a field of a model. *)
Definition effective_value (E : list (jsstr * ResolutionSelection)) (model : jsstr)
    (rt : RatioType) : option sync_value :=
  sel_value <$> om_get (model ++ [0] ++ ratioTypeName rt) E.

Lemma effective_step_value diffs E sel model rt :
  eff_wf E → getBillingCategory rt ≠ tiered →
  let r := resolveResolutionSelection diffs sel in
  effective_value (effective_step diffs E sel) model rt =
  if decide (model = sel_model r ∧ rt = sel_ratioType r) then Some (sel_value r)
  else if bool_decide (model = sel_model r) && conflicts (getBillingCategory (sel_ratioType r)) rt
  then None
  else effective_value E model rt.
Proof.
  intros [Hwf Hk] Hrt r. unfold effective_value, effective_step. fold r.
  destruct (decide (model = sel_model r ∧ rt = sel_ratioType r)) as [[-> ->]|Hne].
  { unfold effective_key. by rewrite om_get_set_eq. }
  rewrite om_get_set_ne.
  2: { unfold effective_key. intros [-> ->]%effective_key_inj. by apply Hne. }
  case_bool_decide as Ht.
  { unfold conflicts. rewrite Ht. simpl. by rewrite andb_false_r. }
  rewrite om_get_filter by done.
  destruct (om_get _ E) as [s|] eqn:Eg; [|by case_match].
  apply om_get_elem in Eg. rewrite Forall_forall in Hk. specialize (Hk _ Eg). simpl in Hk.
  unfold effective_key in Hk. apply effective_key_inj in Hk as [-> ->].
  unfold evicted. simpl. destruct (bool_decide _ && _); by case_decide.
Qed.

Lemma effective_matches_drafts diffs sels model rt :
  getBillingCategory rt ≠ tiered →
  eff_wf (fold_left (effective_step diffs) sels [])
  ∧ effective_value (fold_left (effective_step diffs) sels []) model rt
    = fold_left (applyResolutionSelectionToDraft ∅ diffs) sels ∅ !! model ≫= (.!! rt).
Proof.
  intros Hrt. induction sels as [|sel sels IH] using rev_ind.
  { split; [split; [apply NoDup_nil_2|constructor]|done]. }
  rewrite !fold_left_app. simpl. destruct IH as [Hwf IH].
  split; [by apply effective_step_wf|].
  rewrite effective_step_value by done. cbn zeta.
  set (r := resolveResolutionSelection diffs sel).
  assert (sel_model r = sel_model sel
    ∧ sel_ratioType r = (preferred (diffs !! sel_model sel) sel).1
    ∧ sel_value r = (preferred (diffs !! sel_model sel) sel).2) as (-> & -> & ->).
  { unfold r, resolveResolutionSelection. by destruct (preferred _ _). }
  clear r. unfold applyResolutionSelectionToDraft at 1.
  destruct (decide (model = sel_model sel)) as [->|Hne].
  - rewrite lookup_insert_eq. cbn [mbind option_bind].
    rewrite select_into_lookup, IH by done.
    rewrite (bool_decide_eq_true_2 (sel_model sel = sel_model sel)) by done. simpl.
    unfold getDraftModelResolution. rewrite lookup_empty.
    destruct (decide (rt = _)) as [->|]; [by rewrite decide_True|].
    rewrite decide_False by naive_solver.
    case_match; [done|]. by destruct (fold_left _ sels ∅ !! sel_model sel).
  - rewrite lookup_insert_ne by done. rewrite decide_False by naive_solver.
    by rewrite bool_decide_eq_false_2.
Qed.

(** The effective selections are what applying them does.  Starting from no
    resolutions, a price or ratio field of a model receives a value by
    [applyResolutionSelections] exactly when [getEffectiveResolutionSelections]
    still lists a selection for that field and model, and it is that
    selection's value. *)
Theorem effective_selections_agree diffs sels model rt v :
  getBillingCategory rt ≠ tiered →
  applyResolutionSelections ∅ diffs sels !! model ≫= (.!! rt) = Some v ↔
  ∃ sel, sel ∈ getEffectiveResolutionSelections diffs sels
    ∧ sel_model sel = model ∧ sel_ratioType sel = rt ∧ sel_value sel = v.
Proof.
  intros Hrt. destruct (effective_matches_drafts diffs sels model rt Hrt) as [[Hwf Hk] Hval].
  assert (applyResolutionSelections ∅ diffs sels !! model ≫= (.!! rt)
    = effective_value (fold_left (effective_step diffs) sels []) model rt) as ->.
  { rewrite Hval, applyResolutionSelections_lookup.
    destruct (fold_left _ sels ∅ !! model) as [d|]; [|done].
    case_bool_decide as He; [by rewrite He|done]. }
  unfold getEffectiveResolutionSelections, effective_value.
  set (E := fold_left _ sels []) in *. rewrite fmap_Some. split.
  - intros (sel & Hg & ->). pose proof (om_get_elem _ _ _ Hg) as Hin. exists sel.
    rewrite Forall_forall in Hk. specialize (Hk _ Hin).
    apply effective_key_inj in Hk as [-> ->].
    split; [|done]. unfold om_values. by apply (list_elem_of_fmap_2 snd) in Hin.
  - intros (sel & Hin & <- & <- & <-). unfold om_values in Hin.
    apply list_elem_of_fmap in Hin as ([k s] & -> & Hin). simpl. exists s. split; [|done].
    rewrite Forall_forall in Hk. pose proof (Hk _ Hin) as Hks. simpl in Hks. subst k.
    by apply elem_om_get.
Qed.

Lemma effective_selections_agree_witness :
  applyResolutionSelections ∅ ∅
    [mkSelection $"m" model_price (StrV $"1") $"s"; mkSelection $"m" model_ratio (StrV $"2") $"s"]
    !! $"m" ≫= (.!! model_ratio) = Some (StrV $"2").
Proof.
  apply (effective_selections_agree ∅ _ $"m" model_ratio (StrV $"2")); [done|].
  exists (mkSelection $"m" model_ratio (StrV $"2") $"s"). split; [|done].
  vm_compute. left.
Defined.
