(* ===== verification/FlowModel.v ===== *)
(** * Usage-flow dashboard: rows, paths and filters

    [features/dashboard/types.ts] (the flow types) and the first half of
    [features/dashboard/lib/flow.ts]: from a quota row to the path of nodes it
    contributes to, the colour helpers and the row filters.

    Quota rows come from the backend, whose [user_id], [token_id],
    [channel_id], [token_used], [count] and [quota] are integers, so the
    metrics are integers here; [FlowFacts] proves the bound under which the
    doubles of the program compute the same sums.  Where the program divides
    (link shares, link opacity) the model uses binary64 numbers.  An absent
    optional string and the empty string take the same branch everywhere
    ([row.username || ...]), so an optional string is a [jsstr]. *)

From S2P Require Import Prelude JsString JsNumber JsValue OrderedMap.

Local Open Scope js_scope.

(** ** Third-party code and the locale

    [String.prototype.localeCompare] and [Intl.NumberFormat] depend on the
    user's locale; the colour schemes are data of the chart library, a
    non-empty list of schemes. *)

Record SchemeItem := {
  maxDomainLength : option Z;
  scheme : list value;
}.

Class FlowEnv := {
  localeCompare : jsstr → jsstr → Z;
  formatNumber : Z → jsstr;
  firstScheme : SchemeItem;
  otherSchemes : list SchemeItem;
}.

(** What the language promises of [localeCompare]: a consistent comparison. *)
Class LocaleLaws (E : FlowEnv) : Prop := locale_comparison :: Comparison localeCompare.

(** ** Data *)

Inductive FlowNodeKind := KUser | KNode | KToken | KGroup | KModel | KChannel.
#[global] Instance FlowNodeKind_eq_dec : EqDecision FlowNodeKind.
Proof. solve_decision. Defined.

Inductive FlowMetric := MQuota | MTokens | MRequests.
Inductive FlowOverflowMode := OAggregate | OHide.
Inductive FlowRole := RUser | RAdmin | RRoot.

Record FlowQuotaDataItem := {
  user_id : option Z;
  username : jsstr;
  node_name : jsstr;
  use_group : jsstr;
  token_id : option Z;
  token_name : jsstr;
  channel_id : option Z;
  channel_name : jsstr;
  model_name : jsstr;
  token_used : option Z;
  count : option Z;
  quota : option Z;
}.

Record FlowMetrics := { m_quota : Z; m_tokens : Z; m_requests : Z }.

Record FlowPathNode := { p_id : jsstr; p_label : jsstr; p_kind : FlowNodeKind }.

Record FlowNodeFilter := { f_kind : FlowNodeKind; f_id : jsstr }.
Record FlowLinkSelection := { s_source : jsstr; s_target : jsstr }.

Record FlowPathContext := { deletedTokenLabel_cb : option (Z → jsstr) }.

(** ** Rows to path nodes *)

Definition FLOW_NODE_KINDS : list FlowNodeKind :=
  [KUser; KNode; KToken; KGroup; KModel; KChannel].

Definition kind_str (k : FlowNodeKind) : jsstr :=
  match k with
  | KUser => $"user" | KNode => $"node" | KToken => $"token"
  | KGroup => $"group" | KModel => $"model" | KChannel => $"channel"
  end.

Definition OTHER_FLOW_NODE_IDS (k : FlowNodeKind) : jsstr :=
  match k with
  | KUser => $"user:__other__" | KNode => $"node:__other__" | KToken => $"token:__other__"
  | KGroup => $"group:__other__" | KModel => $"model:__other__" | KChannel => $"channel:__other__"
  end.

Definition DEFAULT_OTHER_FLOW_NODE_LABELS (k : FlowNodeKind) : jsstr :=
  match k with
  | KUser => $"Other users" | KNode => $"Other nodes" | KToken => $"Other tokens"
  | KGroup => $"Other groups" | KModel => $"Other models" | KChannel => $"Other channels"
  end.

Definition SENSITIVE_FLOW_KINDS : list FlowNodeKind := [KUser; KNode; KToken; KGroup; KChannel].

Definition OTHER_FLOW_NODE_ID_SET : list jsstr := OTHER_FLOW_NODE_IDS <$> FLOW_NODE_KINDS.

(** [Number(undefined)] is [NaN], which becomes [0]. *)
Definition numberValue (value : option Z) : Z := default 0 value.

Definition rowMetrics (row : FlowQuotaDataItem) : FlowMetrics := {|
  m_quota := numberValue (quota row);
  m_tokens := numberValue (token_used row);
  m_requests := numberValue (count row);
|}.

Definition metricValue (metrics : FlowMetrics) (metric : FlowMetric) : Z :=
  match metric with
  | MRequests => m_requests metrics
  | MTokens => m_tokens metrics
  | MQuota => m_quota metrics
  end.

Definition userNode (row : FlowQuotaDataItem) : FlowPathNode :=
  let userID := numberValue (user_id row) in {|
  p_id := if 0 <? userID then $"user:" ++ string_of_Z userID
          else $"user:" ++ str_or (username row) ($"unknown");
  p_label := str_or (username row)
               (if 0 <? userID then $"user-" ++ string_of_Z userID else $"Unknown User");
  p_kind := KUser |}.

Definition nodeNameNode (row : FlowQuotaDataItem) : FlowPathNode :=
  let nodeName := str_or (node_name row) ($"default-node") in
  {| p_id := $"node:" ++ nodeName; p_label := nodeName; p_kind := KNode |}.

Definition deletedTokenLabel (tokenID : Z) (ctx : FlowPathContext) : jsstr :=
  if tokenID <=? 0 then $"Unknown Token"
  else match deletedTokenLabel_cb ctx with
       | Some f => f tokenID
       | None => $"token-" ++ string_of_Z tokenID
       end.

Definition tokenNode (row : FlowQuotaDataItem) (ctx : FlowPathContext) : FlowPathNode :=
  let tokenID := numberValue (token_id row) in {|
  p_id := if 0 <? tokenID then $"token:" ++ string_of_Z tokenID
          else $"token:" ++ str_or (token_name row) ($"unknown");
  p_label := str_or (token_name row) (deletedTokenLabel tokenID ctx);
  p_kind := KToken |}.

Definition groupNode (row : FlowQuotaDataItem) : FlowPathNode :=
  let useGroup := str_or (use_group row) ($"unknown") in
  {| p_id := $"group:" ++ useGroup; p_label := useGroup; p_kind := KGroup |}.

Definition modelNode (row : FlowQuotaDataItem) : FlowPathNode :=
  let model := str_or (model_name row) ($"unknown") in
  {| p_id := $"model:" ++ model;
     p_label := str_or (model_name row) ($"Unknown Model");
     p_kind := KModel |}.

Definition channelNode (row : FlowQuotaDataItem) : FlowPathNode :=
  let channelID := numberValue (channel_id row) in {|
  p_id := if 0 <? channelID then $"channel:" ++ string_of_Z channelID
          else $"channel:" ++ str_or (channel_name row) ($"unknown");
  p_label := str_or (channel_name row)
               (if 0 <? channelID then $"channel-" ++ string_of_Z channelID else $"Unknown");
  p_kind := KChannel |}.

Definition NODE_BUILDERS (k : FlowNodeKind)
    (row : FlowQuotaDataItem) (ctx : FlowPathContext) : FlowPathNode :=
  match k with
  | KUser => userNode row
  | KNode => nodeNameNode row
  | KToken => tokenNode row ctx
  | KGroup => groupNode row
  | KModel => modelNode row
  | KChannel => channelNode row
  end.

(** ** Stages *)

Definition ROLE_FLOW_STAGES (role : FlowRole) : list FlowNodeKind :=
  match role with
  | RRoot => [KUser; KNode; KToken; KGroup; KModel; KChannel]
  | RAdmin => [KUser; KGroup; KModel; KChannel]
  | RUser => [KToken; KGroup; KModel]
  end.

Definition MIN_FLOW_STAGES : Z := 2.

Definition getFlowStages (role : FlowRole) : list FlowNodeKind := ROLE_FLOW_STAGES role.

Definition resolveVisibleStages (role : FlowRole)
    (visibleStages : option (list FlowNodeKind)) : list FlowNodeKind :=
  let stages := getFlowStages role in
  match visibleStages with
  | None => stages
  | Some visibleStages =>
    let visible := os_of_list visibleStages in
    let filtered := filter (λ stage, stage ∈ visible) stages in
    if MIN_FLOW_STAGES <=? Z.of_nat (length filtered) then filtered else stages
  end.

Definition flowPathForStages (row : FlowQuotaDataItem) (stages : list FlowNodeKind)
    (ctx : FlowPathContext) : list FlowPathNode :=
  (λ stage, NODE_BUILDERS stage row ctx) <$> stages.

(** ** Row filters *)

(** [filterRows]: [selectedUsers] absent or empty keeps every row. *)
Definition filterRows (rows : list FlowQuotaDataItem)
    (selectedUsers : option (list jsstr)) : list FlowQuotaDataItem :=
  let selectedUsers := os_of_list (default [] selectedUsers) in
  match selectedUsers with
  | [] => rows
  | _ => filter (λ row, p_id (userNode row) ∈ selectedUsers) rows
  end.

Definition nodeFilterKey (f : FlowNodeFilter) : jsstr := kind_str (f_kind f) ++ [0] ++ f_id f.

(** One kind's set of selected ids, kept in a [Map]; used for the filters and
    for the ids of a path. *)
Definition add_to_kind (m : list (FlowNodeKind * list jsstr)) (k : FlowNodeKind) (id : jsstr)
    : list (FlowNodeKind * list jsstr) :=
  om_set k (os_add (default [] (om_get k m)) id) m.

Definition normalizeSelectedNodeFilters (selectedNodes : option (list FlowNodeFilter))
    (stages : list FlowNodeKind) : list (FlowNodeKind * list jsstr) :=
  let visibleKinds := os_of_list stages in
  fold_left (λ filters f,
      if decide (f_kind f ∈ visibleKinds) then add_to_kind filters (f_kind f) (f_id f)
      else filters)
    (default [] selectedNodes) [].

Definition pathMatchesNodeFilters (path : list FlowPathNode)
    (filters : list (FlowNodeKind * list jsstr)) : bool :=
  match filters with
  | [] => true
  | _ =>
    let pathNodesByKind := fold_left (λ m node, add_to_kind m (p_kind node) (p_id node)) path [] in
    forallb (λ '(kind, selectedIds),
        match om_get kind pathNodesByKind with
        | None => false
        | Some pathIds => existsb (λ id, bool_decide (id ∈ pathIds)) selectedIds
        end) filters
  end.

Definition filterRowsByNodes (rows : list FlowQuotaDataItem)
    (selectedNodes : option (list FlowNodeFilter)) (stages : list FlowNodeKind)
    (ctx : FlowPathContext) : list FlowQuotaDataItem :=
  let filters := normalizeSelectedNodeFilters selectedNodes stages in
  match filters with
  | [] => rows
  | _ => filter (λ row, pathMatchesNodeFilters (flowPathForStages row stages ctx) filters = true) rows
  end.

Definition selectedNodeFiltersExceptKind (selectedNodes : option (list FlowNodeFilter))
    (kind : FlowNodeKind) : option (list FlowNodeFilter) :=
  let filtered := filter (λ f, f_kind f ≠ kind) (default [] selectedNodes) in
  match filtered with [] => None | _ => Some filtered end.

Definition buildSummary (rows : list FlowQuotaDataItem) : FlowMetrics :=
  fold_left (λ summary row,
      let metrics := rowMetrics row in
      {| m_quota := m_quota summary + m_quota metrics;
         m_tokens := m_tokens summary + m_tokens metrics;
         m_requests := m_requests summary + m_requests metrics |})
    rows {| m_quota := 0; m_tokens := 0; m_requests := 0 |}.

(** ** Colours *)

Definition DEFAULT_FLOW_CHART_COLOR : jsstr := $"#1664FF".

Section colours.
Context {E : FlowEnv}.

Definition getDashboardChartColors (domainLength : Z) : list jsstr :=
  let fits item :=
    match maxDomainLength item with
    | None => true
    | Some n => (n =? 0) || (domainLength <=? n)
    end in
  let s := match List.find fits (firstScheme :: otherSchemes) with
           | Some s => s
           | None => List.last otherSchemes firstScheme
           end in
  str_of <$> List.filter is_string (scheme s).

Definition colorAt (index : Z) (palette : option (list jsstr)) : jsstr :=
  let colors := match palette with
                | Some ((_ :: _) as p) => p
                | _ => getDashboardChartColors (index + 1)
                end in
  match colors with
  | [] => DEFAULT_FLOW_CHART_COLOR
  | _ => default DEFAULT_FLOW_CHART_COLOR
           (colors !! Z.to_nat (index mod Z.of_nat (length colors)))
  end.

Definition colorPalette (colorCount : Z) (palette : option (list jsstr)) : list jsstr :=
  match palette with
  | Some ((_ :: _) as p) => p
  | _ => match getDashboardChartColors colorCount with
         | [] => [DEFAULT_FLOW_CHART_COLOR]
         | colors => colors
         end
  end.

Definition stableColorMap (keys : list jsstr) (palette : option (list jsstr))
    : list (jsstr * jsstr) :=
  let uniqueKeys := os_of_list keys in
  let colors := colorPalette (Z.of_nat (length uniqueKeys)) palette in
  fold_left (λ map '(index, key), om_set key (colorAt (Z.of_nat index) (Some colors)) map)
    (imap pair uniqueKeys) [].

End colours.

Definition is_hex_digit (c : Z) : bool :=
  match radix_digit c with Some d => d <? 16 | None => false end.

(** [Number.parseInt(hex, 16)] on a string of hexadecimal digits *)
Definition parse_hex (s : jsstr) : Z :=
  fold_left (λ acc c, 16 * acc + default 0 (radix_digit c)) s 0.

Definition alphaColor (color : jsstr) (alpha : number) : jsstr * number :=
  let normalized := trim color in
  let hex := if starts_with ($"#") normalized then drop 1 normalized else normalized in
  if negb ((Z.of_nat (length hex) =? 6) && forallb is_hex_digit hex) then (normalized, alpha)
  else
    let value := parse_hex hex in
    let red := Z.land (Z.shiftr value 16) 255 in
    let green := Z.land (Z.shiftr value 8) 255 in
    let blue := Z.land value 255 in
    ($"rgba(" ++ string_of_Z red ++ $", " ++ string_of_Z green ++ $", " ++ string_of_Z blue
       ++ $", " ++ to_fixed 2 alpha ++ $")", num_of_Z 1).
