(* ===== verification/FlowGraph.v ===== *)
(** * Usage-flow dashboard: the Sankey graph

    The second half of [features/dashboard/lib/flow.ts]: ranking and the
    top-node limit, accumulation of nodes and links, highlighting, masking,
    shares and colours ([buildFlowGraph]), the filter options, the whole
    [buildDashboardFlowData] and the data handed to the chart.

    [Map]s are ordered maps.  The objects a [Map] holds are mutated in place
    and shared by no other structure until [buildFlowGraph] lists the links;
    from there on [assignLinkDisplayColors] reaches the same link objects
    through a second [Map], which is modelled by references (positions) into
    the list of links. *)

From S2P Require Import Prelude JsString JsNumber JsValue OrderedMap FlowModel.

Local Open Scope js_scope.

(** ** Nodes and links *)

Record DashboardFlowNode := {
  n_id : jsstr;
  n_label : jsstr;
  n_kind : FlowNodeKind;
  n_value : Z;
  n_requests : Z;
  n_quota : Z;
  n_tokens : Z;
  n_color : jsstr;
  n_colorKey : jsstr;
  n_highlighted : option bool;
  n_dimmed : option bool;
}.

Record DashboardFlowLink := {
  l_source : jsstr;
  l_target : jsstr;
  l_value : Z;
  l_requests : Z;
  l_quota : Z;
  l_tokens : Z;
  l_sourceLabel : jsstr;
  l_targetLabel : jsstr;
  l_color : jsstr;
  l_linkColor : jsstr;
  l_linkAlpha : number;
  l_hoverColor : jsstr;
  l_colorKey : jsstr;
  l_share : number;
  l_highlighted : option bool;
  l_dimmed : option bool;
}.

Record DashboardFlowGraph := {
  g_nodes : list DashboardFlowNode;
  g_links : list DashboardFlowLink;
}.

Record PreparedFlowPath := { pp_path : list FlowPathNode; pp_metrics : FlowMetrics }.
Record FlowNodeRank := { rank_node : FlowPathNode; rank_value : Z }.
Record FlowHighlightSets := { h_nodes : list jsstr; h_links : list jsstr }.

Record FlowGraphOptions := {
  topNodeLimit : option number;
  overflowMode : option FlowOverflowMode;
  otherNodeLabel : option (FlowNodeKind → jsstr);
  activeNode : option FlowNodeFilter;
  activeLink : option FlowLinkSelection;
  maskSensitive : bool;
}.

Abbreviation NodeMap := (list (jsstr * DashboardFlowNode)).
Abbreviation LinkMap := (list (jsstr * DashboardFlowLink)).

(** ** Accumulation *)

Definition addNode (map : NodeMap) (pathNode : FlowPathNode) (metrics : FlowMetrics)
    (metric : FlowMetric) (color colorKey : jsstr) : NodeMap :=
  let previous := default
    {| n_id := p_id pathNode; n_label := p_label pathNode; n_kind := p_kind pathNode;
       n_value := 0; n_requests := 0; n_quota := 0; n_tokens := 0;
       n_color := color; n_colorKey := colorKey; n_highlighted := None; n_dimmed := None |}
    (om_get (p_id pathNode) map) in
  om_set (p_id pathNode)
    {| n_id := n_id previous; n_label := n_label previous; n_kind := n_kind previous;
       n_value := n_value previous + metricValue metrics metric;
       n_requests := n_requests previous + m_requests metrics;
       n_quota := n_quota previous + m_quota metrics;
       n_tokens := n_tokens previous + m_tokens metrics;
       n_color := n_color previous; n_colorKey := n_colorKey previous;
       n_highlighted := n_highlighted previous; n_dimmed := n_dimmed previous |} map.

(** The key of a link: [`${source}\u0000${target}`] *)
Definition link_key (source target : jsstr) : jsstr := source ++ [0] ++ target.

Definition pathLinkKey (source target : FlowPathNode) : jsstr :=
  link_key (p_id source) (p_id target).

Definition linkStableKey (link : DashboardFlowLink) : jsstr :=
  link_key (l_source link) (l_target link).

Definition addLink (map : LinkMap) (source target : FlowPathNode) (metrics : FlowMetrics)
    (metric : FlowMetric) (color colorKey : jsstr) : LinkMap :=
  let key := link_key (p_id source) (p_id target) in
  let previous := default
    {| l_source := p_id source; l_target := p_id target;
       l_value := 0; l_requests := 0; l_quota := 0; l_tokens := 0;
       l_sourceLabel := p_label source; l_targetLabel := p_label target;
       l_color := color; l_linkColor := color; l_linkAlpha := num_of_Z 1;
       l_hoverColor := color; l_colorKey := colorKey; l_share := num_of_Z 0;
       l_highlighted := None; l_dimmed := None |}
    (om_get key map) in
  om_set key
    {| l_source := l_source previous; l_target := l_target previous;
       l_value := l_value previous + metricValue metrics metric;
       l_requests := l_requests previous + m_requests metrics;
       l_quota := l_quota previous + m_quota metrics;
       l_tokens := l_tokens previous + m_tokens metrics;
       l_sourceLabel := l_sourceLabel previous; l_targetLabel := l_targetLabel previous;
       l_color := l_color previous; l_linkColor := l_linkColor previous;
       l_linkAlpha := l_linkAlpha previous; l_hoverColor := l_hoverColor previous;
       l_colorKey := l_colorKey previous; l_share := l_share previous;
       l_highlighted := l_highlighted previous; l_dimmed := l_dimmed previous |} map.

(** [for (let i = 0; i < path.length - 1; i++)]: the pairs [path[i], path[i+1]] *)
Definition steps {A} (path : list A) : list (A * A) := zip path (tail path).

Section graph.
Context {E : FlowEnv}.

(** ** Ranking and the top-node limit *)

Definition normalizeTopNodeLimit (limit : option number) : option Z :=
  match limit with
  | None => None
  | Some limit =>
    let parsed := num_floor limit in
    if is_finite parsed && num_ltb (num_of_Z 0) parsed then Z_of_num parsed else None
  end.

Definition otherFlowNode (kind : FlowNodeKind) (labeler : option (FlowNodeKind → jsstr))
    : FlowPathNode :=
  {| p_id := OTHER_FLOW_NODE_IDS kind;
     p_label := match labeler with
                | Some f => f kind
                | None => DEFAULT_OTHER_FLOW_NODE_LABELS kind
                end;
     p_kind := kind |}.

(** One node of one row added to the totals of its stage. *)
Definition rank_add (value : Z) (totals : list (FlowNodeKind * list (jsstr * FlowNodeRank)))
    (node : FlowPathNode) : list (FlowNodeKind * list (jsstr * FlowNodeRank)) :=
  match om_get (p_kind node) totals with
  | None => totals
  | Some stageTotals =>
    let current := default {| rank_node := node; rank_value := 0 |}
                     (om_get (p_id node) stageTotals) in
    om_set (p_kind node)
      (om_set (p_id node)
         {| rank_node := rank_node current; rank_value := rank_value current + value |}
         stageTotals) totals
  end.

Definition compare_ranks (a b : FlowNodeRank) : Z :=
  cmp_or (rank_value b - rank_value a)
    (cmp_or (localeCompare (p_label (rank_node a)) (p_label (rank_node b)))
       (localeCompare (p_id (rank_node a)) (p_id (rank_node b)))).

Definition buildTotals (rows : list FlowQuotaDataItem) (metric : FlowMetric)
    (stages : list FlowNodeKind) (ctx : FlowPathContext)
    : list (FlowNodeKind * list (jsstr * FlowNodeRank)) :=
  let totals := fold_left (λ totals stage, om_set stage [] totals) stages [] in
  fold_left (λ totals row,
      let value := metricValue (rowMetrics row) metric in
      fold_left (rank_add value) (flowPathForStages row stages ctx) totals)
    rows totals.

Definition topIds (limit : Z) (stageTotals : list (jsstr * FlowNodeRank)) : list jsstr :=
  (λ rank, p_id (rank_node rank)) <$>
    take (Z.to_nat limit) (js_sort compare_ranks (om_values stageTotals)).

Definition buildTopNodeSets (rows : list FlowQuotaDataItem) (metric : FlowMetric)
    (stages : list FlowNodeKind) (limit : option Z) (ctx : FlowPathContext)
    : option (list (FlowNodeKind * list jsstr)) :=
  match limit with
  | None => None
  | Some limit =>
    if limit =? 0 then None else
    Some (fold_left (λ topSets '(kind, stageTotals),
              om_set kind (os_of_list (topIds limit stageTotals)) topSets)
            (buildTotals rows metric stages ctx) [])
  end.

Definition isTopFlowNode (node : FlowPathNode)
    (topNodeSets : option (list (FlowNodeKind * list jsstr))) : bool :=
  match topNodeSets ≫= om_get (p_kind node) with
  | None => true
  | Some topNodes => bool_decide (p_id node ∈ topNodes)
  end.

Definition applyTopNodeLimit (path : list FlowPathNode)
    (topNodeSets : option (list (FlowNodeKind * list jsstr)))
    (mode : FlowOverflowMode) (labeler : option (FlowNodeKind → jsstr))
    : option (list FlowPathNode) :=
  match topNodeSets with
  | None => Some path
  | Some _ =>
    let containsOverflowNode := existsb (λ node, negb (isTopFlowNode node topNodeSets)) path in
    if negb containsOverflowNode then Some path
    else match mode with
         | OHide => None
         | OAggregate => Some ((λ node, if isTopFlowNode node topNodeSets then node
                                        else otherFlowNode (p_kind node) labeler) <$> path)
         end
  end.

(** ** Highlighting *)

Definition pathContainsFlowNode (path : list FlowPathNode) (f : FlowNodeFilter) : bool :=
  existsb (λ node, bool_decide (p_kind node = f_kind f) && bool_decide (p_id node = f_id f)) path.

Definition pathContainsFlowLink (path : list FlowPathNode) (link : FlowLinkSelection) : bool :=
  existsb (λ '(a, b), bool_decide (p_id a = s_source link) && bool_decide (p_id b = s_target link))
    (steps path).

Definition matchesPath (activeNode : option FlowNodeFilter) (activeLink : option FlowLinkSelection)
    (path : list FlowPathNode) : bool :=
  match activeLink with
  | Some link => pathContainsFlowLink path link
  | None => match activeNode with
            | Some f => pathContainsFlowNode path f
            | None => false
            end
  end.

Definition highlight_path (sets : FlowHighlightSets) (path : list FlowPathNode)
    : FlowHighlightSets :=
  {| h_nodes := fold_left (λ s node, os_add s (p_id node)) path (h_nodes sets);
     h_links := fold_left (λ s '(source, target), os_add s (pathLinkKey source target))
                  (steps path) (h_links sets) |}.

Definition buildFlowHighlightSets (preparedPaths : list PreparedFlowPath)
    (activeNode : option FlowNodeFilter) (activeLink : option FlowLinkSelection)
    (stages : list FlowNodeKind) : option FlowHighlightSets :=
  let nodeActive := match activeNode with
                    | Some f => bool_decide (f_kind f ∈ stages)
                    | None => false
                    end in
  if negb nodeActive && negb (bool_decide (is_Some activeLink)) then None
  else
    let sets := fold_left (λ sets prepared,
          if negb (matchesPath activeNode activeLink (pp_path prepared)) then sets
          else highlight_path sets (pp_path prepared))
        preparedPaths {| h_nodes := []; h_links := [] |} in
    match h_nodes sets with
    | [] => None
    | _ => Some sets
    end.

Definition applyFlowHighlights_node (sets : FlowHighlightSets) (node : DashboardFlowNode)
    : DashboardFlowNode :=
  let highlighted := bool_decide (n_id node ∈ h_nodes sets) in
  {| n_id := n_id node; n_label := n_label node; n_kind := n_kind node;
     n_value := n_value node; n_requests := n_requests node;
     n_quota := n_quota node; n_tokens := n_tokens node;
     n_color := n_color node; n_colorKey := n_colorKey node;
     n_highlighted := Some highlighted; n_dimmed := Some (negb highlighted) |}.

Definition applyFlowHighlights_link (sets : FlowHighlightSets) (link : DashboardFlowLink)
    : DashboardFlowLink :=
  let highlighted := bool_decide (linkStableKey link ∈ h_links sets) in
  {| l_source := l_source link; l_target := l_target link;
     l_value := l_value link; l_requests := l_requests link;
     l_quota := l_quota link; l_tokens := l_tokens link;
     l_sourceLabel := l_sourceLabel link; l_targetLabel := l_targetLabel link;
     l_color := l_color link; l_linkColor := l_linkColor link; l_linkAlpha := l_linkAlpha link;
     l_hoverColor := l_hoverColor link; l_colorKey := l_colorKey link; l_share := l_share link;
     l_highlighted := Some highlighted; l_dimmed := Some (negb highlighted) |}.

Definition applyFlowHighlights (nodes : NodeMap) (links : LinkMap)
    (highlightSets : option FlowHighlightSets) : NodeMap * LinkMap :=
  match highlightSets with
  | None => (nodes, links)
  | Some sets =>
    (prod_map id (applyFlowHighlights_node sets) <$> nodes,
     prod_map id (applyFlowHighlights_link sets) <$> links)
  end.

(** ** Masking *)

Definition FLOW_MASK_TEXT : jsstr := [8226; 8226; 8226; 8226].

Definition maskFlowLabel (label : jsstr) : jsstr :=
  match label with [] => label | _ => FLOW_MASK_TEXT end.

(** The nodes whose label is replaced. *)
Definition is_masked_node (node : DashboardFlowNode) : bool :=
  bool_decide (n_kind node ∈ SENSITIVE_FLOW_KINDS)
  && negb (bool_decide (n_id node ∈ OTHER_FLOW_NODE_ID_SET)).

Definition mask_node (node : DashboardFlowNode) : DashboardFlowNode :=
  if is_masked_node node then
    {| n_id := n_id node; n_label := maskFlowLabel (n_label node); n_kind := n_kind node;
       n_value := n_value node; n_requests := n_requests node;
       n_quota := n_quota node; n_tokens := n_tokens node;
       n_color := n_color node; n_colorKey := n_colorKey node;
       n_highlighted := n_highlighted node; n_dimmed := n_dimmed node |}
  else node.

Definition maskedById (nodes : NodeMap) : list (jsstr * jsstr) :=
  fold_left (λ m node,
      if is_masked_node node then om_set (n_id node) (maskFlowLabel (n_label node)) m else m)
    (om_values nodes) [].

Definition mask_link (masked : list (jsstr * jsstr)) (link : DashboardFlowLink)
    : DashboardFlowLink :=
  {| l_source := l_source link; l_target := l_target link;
     l_value := l_value link; l_requests := l_requests link;
     l_quota := l_quota link; l_tokens := l_tokens link;
     l_sourceLabel := default (l_sourceLabel link) (om_get (l_source link) masked);
     l_targetLabel := default (l_targetLabel link) (om_get (l_target link) masked);
     l_color := l_color link; l_linkColor := l_linkColor link; l_linkAlpha := l_linkAlpha link;
     l_hoverColor := l_hoverColor link; l_colorKey := l_colorKey link; l_share := l_share link;
     l_highlighted := l_highlighted link; l_dimmed := l_dimmed link |}.

Definition maskFlowGraphLabels (nodes : NodeMap) (links : LinkMap) : NodeMap * LinkMap :=
  let masked := maskedById nodes in
  let nodes' := prod_map id mask_node <$> nodes in
  match masked with
  | [] => (nodes', links)
  | _ => (nodes', prod_map id (mask_link masked) <$> links)
  end.

(** ** Colours of the links *)

Definition set_display (displayColor : jsstr * number) (link : DashboardFlowLink)
    : DashboardFlowLink :=
  {| l_source := l_source link; l_target := l_target link;
     l_value := l_value link; l_requests := l_requests link;
     l_quota := l_quota link; l_tokens := l_tokens link;
     l_sourceLabel := l_sourceLabel link; l_targetLabel := l_targetLabel link;
     l_color := l_color link; l_linkColor := displayColor.1; l_linkAlpha := displayColor.2;
     l_hoverColor := l_color link; l_colorKey := l_colorKey link; l_share := l_share link;
     l_highlighted := l_highlighted link; l_dimmed := l_dimmed link |}.

Definition compare_source_links (a b : DashboardFlowLink) : Z :=
  cmp_or (l_value b - l_value a) (localeCompare (linkStableKey a) (linkStableKey b)).

(** [linksBySource]: for each source, the references (positions in [links]) of
    its links, in order. *)
Definition linksBySource (links : list DashboardFlowLink) : list (jsstr * list nat) :=
  fold_left (λ m '(ref, link),
      om_set (l_source link) (default [] (om_get (l_source link) m) ++ [ref]) m)
    (imap pair links) [].

(** The opacity of the link at [index] among [n] links of one source. *)
Definition link_alpha (n index : nat) : number :=
  let denominator := Z.max (Z.of_nat n - 1) 1 in
  if Nat.eqb n 1 then num_lit 34 2
  else num_add (num_lit 24 2)
         (num_mul (num_div (num_of_Z (Z.of_nat index)) (num_of_Z denominator)) (num_lit 2 1)).

Definition compare_refs (links : list DashboardFlowLink) (r1 r2 : nat) : Z :=
  match links !! r1, links !! r2 with
  | Some a, Some b => compare_source_links a b
  | _, _ => 0
  end.

Definition color_source_links (links : list DashboardFlowLink) (refs : list nat)
    : list DashboardFlowLink :=
  let sortedLinks := js_sort (compare_refs links) refs in
  fold_left (λ links '(index, ref),
      alter (λ link, set_display
               (alphaColor (l_color link) (link_alpha (length sortedLinks) index)) link) ref links)
    (imap pair sortedLinks) links.

Definition assignLinkDisplayColors (links : list DashboardFlowLink) : list DashboardFlowLink :=
  fold_left color_source_links (om_values (linksBySource links)) links.

(** ** [buildFlowGraph] *)

Definition preparePaths (rows : list FlowQuotaDataItem) (stages : list FlowNodeKind)
    (topNodeSets : option (list (FlowNodeKind * list jsstr))) (mode : FlowOverflowMode)
    (labeler : option (FlowNodeKind → jsstr)) (ctx : FlowPathContext) : list PreparedFlowPath :=
  fold_left (λ preparedPaths row,
      match applyTopNodeLimit (flowPathForStages row stages ctx) topNodeSets mode labeler with
      | None => preparedPaths
      | Some path => preparedPaths ++ [{| pp_path := path; pp_metrics := rowMetrics row |}]
      end) rows [].

(** [preparedPaths.map((p) => p.path[0]?.id).filter(Boolean)] *)
Definition root_ids (preparedPaths : list PreparedFlowPath) : list jsstr :=
  List.filter truthy
    (omap (λ prepared, p_id <$> head (pp_path prepared)) preparedPaths).

Definition accumulatePath (metric : FlowMetric) (color colorKey : jsstr)
    (maps : NodeMap * LinkMap) (prepared : PreparedFlowPath) : NodeMap * LinkMap :=
  (fold_left (λ nodes node, addNode nodes node (pp_metrics prepared) metric color colorKey)
     (pp_path prepared) maps.1,
   fold_left (λ links '(source, target),
       addLink links source target (pp_metrics prepared) metric color colorKey)
     (steps (pp_path prepared)) maps.2).

Definition accumulate (preparedPaths : list PreparedFlowPath) (metric : FlowMetric)
    (palette : option (list jsstr)) : NodeMap * LinkMap :=
  let colors := stableColorMap (js_sort localeCompare (root_ids preparedPaths)) palette in
  fold_left (λ maps prepared,
      match pp_path prepared with
      | [] => maps
      | root :: _ =>
        let color := default (colorAt 0 palette) (om_get (p_id root) colors) in
        accumulatePath metric color (p_id root) maps prepared
      end) preparedPaths ([], []).

Definition set_share (total : Z) (link : DashboardFlowLink) : DashboardFlowLink :=
  {| l_source := l_source link; l_target := l_target link;
     l_value := l_value link; l_requests := l_requests link;
     l_quota := l_quota link; l_tokens := l_tokens link;
     l_sourceLabel := l_sourceLabel link; l_targetLabel := l_targetLabel link;
     l_color := l_color link; l_linkColor := l_linkColor link; l_linkAlpha := l_linkAlpha link;
     l_hoverColor := l_hoverColor link; l_colorKey := l_colorKey link;
     l_share := if 0 <? total then num_div (num_of_Z (l_value link)) (num_of_Z total)
                else num_of_Z 0;
     l_highlighted := l_highlighted link; l_dimmed := l_dimmed link |}.

Definition compare_links (a b : DashboardFlowLink) : Z :=
  cmp_or (localeCompare (l_source a) (l_source b)) (localeCompare (l_target a) (l_target b)).

Definition byValueThenLabel (a b : DashboardFlowNode) : Z :=
  cmp_or (n_value b - n_value a) (localeCompare (n_label a) (n_label b)).

(** [total]: the flow out of the first stage. *)
Definition flowTotal (preparedPaths : list PreparedFlowPath) (flowLinks : list DashboardFlowLink)
    : Z :=
  let firstStepSources := os_of_list (root_ids preparedPaths) in
  fold_left (λ sum link, sum + l_value link)
    (filter (λ link, l_source link ∈ firstStepSources) flowLinks) 0.

(** The prepared paths of a request: stages, ranking, limit. *)
Definition preparedPathsOf (rows : list FlowQuotaDataItem) (metric : FlowMetric)
    (stages : list FlowNodeKind) (ctx : FlowPathContext) (options : FlowGraphOptions)
    : list PreparedFlowPath :=
  let topNodeSets := buildTopNodeSets rows metric stages
                       (normalizeTopNodeLimit (topNodeLimit options)) ctx in
  preparePaths rows stages topNodeSets (default OAggregate (overflowMode options))
    (otherNodeLabel options) ctx.

Definition buildFlowGraph (rows : list FlowQuotaDataItem) (metric : FlowMetric) (role : FlowRole)
    (palette : option (list jsstr)) (visibleStages : option (list FlowNodeKind))
    (ctx : FlowPathContext) (options : FlowGraphOptions) : DashboardFlowGraph :=
  let stages := resolveVisibleStages role visibleStages in
  let preparedPaths := preparedPathsOf rows metric stages ctx options in
  let '(nodes, links) := accumulate preparedPaths metric palette in
  let '(nodes, links) := if maskSensitive options then maskFlowGraphLabels nodes links
                         else (nodes, links) in
  let '(nodes, links) := applyFlowHighlights nodes links
    (buildFlowHighlightSets preparedPaths (activeNode options) (activeLink options) stages) in
  let flowLinks := js_sort compare_links (om_values links) in
  let total := flowTotal preparedPaths flowLinks in
  let flowLinks := set_share total <$> flowLinks in
  let flowLinks := assignLinkDisplayColors flowLinks in
  {| g_nodes := js_sort byValueThenLabel (om_values nodes); g_links := flowLinks |}.

End graph.
