(* ===== verification/FlowFacts.v ===== *)
(** * Usage-flow dashboard: the graph conserves the flow

    Theorems about [buildFlowGraph]: the value of the nodes of a stage, the
    flow into and out of a node, the total behind the shares, the top-node
    limit, highlighting and masking. *)

From S2P Require Import Prelude JsString JsNumber JsValue OrderedMap FlowModel FlowGraph.

Local Open Scope js_scope.

(** ** The four counters a node, a link and a row carry *)

Inductive field := FValue | FRequests | FQuota | FTokens.

Definition metrics_field (metric : FlowMetric) (f : field) (m : FlowMetrics) : Z :=
  match f with
  | FValue => metricValue m metric
  | FRequests => m_requests m
  | FQuota => m_quota m
  | FTokens => m_tokens m
  end.

Definition node_field (f : field) (n : DashboardFlowNode) : Z :=
  match f with
  | FValue => n_value n | FRequests => n_requests n | FQuota => n_quota n | FTokens => n_tokens n
  end.

Definition link_field (f : field) (l : DashboardFlowLink) : Z :=
  match f with
  | FValue => l_value l | FRequests => l_requests l | FQuota => l_quota l | FTokens => l_tokens l
  end.

(** The counters of the nodes of one stage, the flow into and out of an id. *)
Definition stage_flow (f : field) (g : DashboardFlowGraph) (k : FlowNodeKind) : Z :=
  zsum (node_field f) (filter (λ n, n_kind n = k) (g_nodes g)).
Definition inflow (f : field) (g : DashboardFlowGraph) (id : jsstr) : Z :=
  zsum (link_field f) (filter (λ l, l_target l = id) (g_links g)).
Definition outflow (f : field) (g : DashboardFlowGraph) (id : jsstr) : Z :=
  zsum (link_field f) (filter (λ l, l_source l = id) (g_links g)).

(** The counters of a list of rows. *)
Definition rows_flow (metric : FlowMetric) (f : field) (rows : list FlowQuotaDataItem) : Z :=
  zsum (λ row, metrics_field metric f (rowMetrics row)) rows.

Definition paths_flow (metric : FlowMetric) (f : field) (paths : list PreparedFlowPath) : Z :=
  zsum (λ p, metrics_field metric f (pp_metrics p)) paths.

Lemma buildSummary_flow metric f rows :
  metrics_field metric f (buildSummary rows) = rows_flow metric f rows.
Proof.
  unfold buildSummary, rows_flow.
  enough (∀ acc, metrics_field metric f (fold_left (λ summary row,
      let metrics := rowMetrics row in
      {| m_quota := m_quota summary + m_quota metrics;
         m_tokens := m_tokens summary + m_tokens metrics;
         m_requests := m_requests summary + m_requests metrics |}) rows acc)
    = metrics_field metric f acc
      + zsum (λ row, metrics_field metric f (rowMetrics row)) rows) as ->.
  { destruct f, metric; simpl; lia. }
  induction rows as [|row rows IH]; intros acc; cbn [fold_left zsum]; [lia|].
  rewrite IH. destruct f, metric; simpl; lia.
Qed.

(** ** Accumulation as grouped events *)

Section accumulation.
Context {E : FlowEnv} (metric : FlowMetric).

Record NodeEvent := {
  ne_node : FlowPathNode; ne_metrics : FlowMetrics; ne_color : jsstr; ne_colorKey : jsstr }.
Record LinkEvent := {
  le_source : FlowPathNode; le_target : FlowPathNode;
  le_metrics : FlowMetrics; le_color : jsstr; le_colorKey : jsstr }.

Definition node_key (e : NodeEvent) : jsstr := p_id (ne_node e).
Definition node_init (e : NodeEvent) : DashboardFlowNode :=
  {| n_id := p_id (ne_node e); n_label := p_label (ne_node e); n_kind := p_kind (ne_node e);
     n_value := 0; n_requests := 0; n_quota := 0; n_tokens := 0;
     n_color := ne_color e; n_colorKey := ne_colorKey e;
     n_highlighted := None; n_dimmed := None |}.
Definition node_upd (n : DashboardFlowNode) (e : NodeEvent) : DashboardFlowNode :=
  {| n_id := n_id n; n_label := n_label n; n_kind := n_kind n;
     n_value := n_value n + metricValue (ne_metrics e) metric;
     n_requests := n_requests n + m_requests (ne_metrics e);
     n_quota := n_quota n + m_quota (ne_metrics e);
     n_tokens := n_tokens n + m_tokens (ne_metrics e);
     n_color := n_color n; n_colorKey := n_colorKey n;
     n_highlighted := n_highlighted n; n_dimmed := n_dimmed n |}.

Definition link_event_key (e : LinkEvent) : jsstr := pathLinkKey (le_source e) (le_target e).
Definition link_init (e : LinkEvent) : DashboardFlowLink :=
  {| l_source := p_id (le_source e); l_target := p_id (le_target e);
     l_value := 0; l_requests := 0; l_quota := 0; l_tokens := 0;
     l_sourceLabel := p_label (le_source e); l_targetLabel := p_label (le_target e);
     l_color := le_color e; l_linkColor := le_color e; l_linkAlpha := num_of_Z 1;
     l_hoverColor := le_color e; l_colorKey := le_colorKey e; l_share := num_of_Z 0;
     l_highlighted := None; l_dimmed := None |}.
Definition link_upd (l : DashboardFlowLink) (e : LinkEvent) : DashboardFlowLink :=
  {| l_source := l_source l; l_target := l_target l;
     l_value := l_value l + metricValue (le_metrics e) metric;
     l_requests := l_requests l + m_requests (le_metrics e);
     l_quota := l_quota l + m_quota (le_metrics e);
     l_tokens := l_tokens l + m_tokens (le_metrics e);
     l_sourceLabel := l_sourceLabel l; l_targetLabel := l_targetLabel l;
     l_color := l_color l; l_linkColor := l_linkColor l; l_linkAlpha := l_linkAlpha l;
     l_hoverColor := l_hoverColor l; l_colorKey := l_colorKey l; l_share := l_share l;
     l_highlighted := l_highlighted l; l_dimmed := l_dimmed l |}.

Context (palette : option (list jsstr)) (paths : list PreparedFlowPath).

Definition path_color (p : PreparedFlowPath) : jsstr * jsstr :=
  match pp_path p with
  | [] => ([], [])
  | root :: _ =>
    (default (colorAt 0 palette)
       (om_get (p_id root) (stableColorMap (js_sort localeCompare (root_ids paths)) palette)),
     p_id root)
  end.

Definition node_events (p : PreparedFlowPath) : list NodeEvent :=
  (λ n, {| ne_node := n; ne_metrics := pp_metrics p;
           ne_color := (path_color p).1; ne_colorKey := (path_color p).2 |}) <$> pp_path p.

Definition link_events (p : PreparedFlowPath) : list LinkEvent :=
  (λ st, {| le_source := st.1; le_target := st.2; le_metrics := pp_metrics p;
            le_color := (path_color p).1; le_colorKey := (path_color p).2 |}) <$> steps (pp_path p).

Definition nodes_of : NodeMap := om_group node_key node_init node_upd (flat_map node_events paths).
Definition links_of : LinkMap := om_group link_event_key link_init link_upd (flat_map link_events paths).

Lemma accumulate_group : accumulate paths metric palette = (nodes_of, links_of).
Proof.
  unfold accumulate, nodes_of, links_of, om_group. rewrite !fold_left_flat_map.
  rewrite <- fold_left_pair. apply fold_left_ext. intros [nodes links] p _.
  unfold node_events, link_events, path_color. rewrite !fold_left_fmap.
  destruct p as [[|root path] metrics]; [done|]. unfold accumulatePath. simpl pp_path.
  f_equal. apply fold_left_ext. intros m [a b] _. done.
Qed.

End accumulation.

(** ** What the later passes leave alone *)

Section passes.
Context {E : FlowEnv}.

Lemma alter_proj {A B} (h : A → B) (f : A → A) (i : nat) (l : list A) :
  (∀ x, h (f x) = h x) → h <$> alter f i l = h <$> l.
Proof.
  intros Hh. revert i. induction l as [|x l IH]; intros [|i]; csimpl; try done.
  - by rewrite Hh.
  - f_equal. apply IH.
Qed.

Lemma color_source_links_proj {B} (h : DashboardFlowLink → B) links refs :
  (∀ d l, h (set_display d l) = h l) → h <$> color_source_links links refs = h <$> links.
Proof.
  intros Hh. unfold color_source_links.
  generalize (length (js_sort (compare_refs links) refs)). intros n.
  generalize (imap pair (js_sort (compare_refs links) refs)). intros l.
  revert links. induction l as [|[i r] l IH]; intros links; simpl; [done|].
  rewrite IH. by apply alter_proj.
Qed.

Lemma assignLinkDisplayColors_proj {B} (h : DashboardFlowLink → B) links :
  (∀ d l, h (set_display d l) = h l) → h <$> assignLinkDisplayColors links = h <$> links.
Proof.
  intros Hh. unfold assignLinkDisplayColors.
  generalize (om_values (linksBySource links)). intros groups.
  revert links. induction groups as [|refs groups IH]; intros links; simpl; [done|].
  rewrite IH. by apply color_source_links_proj.
Qed.

Definition highlight_node (sets : option FlowHighlightSets) : DashboardFlowNode → DashboardFlowNode :=
  match sets with None => id | Some s => applyFlowHighlights_node s end.
Definition highlight_link (sets : option FlowHighlightSets) : DashboardFlowLink → DashboardFlowLink :=
  match sets with None => id | Some s => applyFlowHighlights_link s end.

Lemma mask_link_nil l : mask_link [] l = l.
Proof. by destruct l. Qed.

Lemma fmap_prod_map_snd {A B} (f : B → B) (m : list (A * B)) :
  om_values (prod_map id f <$> m) = f <$> om_values m.
Proof. unfold om_values. rewrite <- !list_fmap_compose. by apply list_fmap_ext. Qed.

Lemma om_values_id {A B} (m : list (A * B)) : id <$> om_values m = om_values m.
Proof. apply list_fmap_id. Qed.

(** The graph in terms of the grouped events. *)
Section result.
Context (rows : list FlowQuotaDataItem) (metric : FlowMetric) (role : FlowRole)
  (palette : option (list jsstr)) (visibleStages : option (list FlowNodeKind))
  (ctx : FlowPathContext) (options : FlowGraphOptions).

Definition the_stages : list FlowNodeKind := resolveVisibleStages role visibleStages.
Definition the_paths : list PreparedFlowPath := preparedPathsOf rows metric the_stages ctx options.
Definition the_nodes : NodeMap := nodes_of metric palette the_paths.
Definition the_links : LinkMap := links_of metric palette the_paths.
Definition the_sets : option FlowHighlightSets :=
  buildFlowHighlightSets the_paths (activeNode options) (activeLink options) the_stages.
Definition mask_node_if : DashboardFlowNode → DashboardFlowNode :=
  if maskSensitive options then mask_node else id.
Definition mask_link_if : DashboardFlowLink → DashboardFlowLink :=
  if maskSensitive options then mask_link (maskedById the_nodes) else id.
Definition the_graph : DashboardFlowGraph :=
  buildFlowGraph rows metric role palette visibleStages ctx options.
Definition drawn_links : list DashboardFlowLink :=
  js_sort compare_links (highlight_link the_sets <$> (mask_link_if <$> om_values the_links)).

Lemma the_graph_eq :
  the_graph = {|
    g_nodes := js_sort byValueThenLabel
                 (highlight_node the_sets <$> (mask_node_if <$> om_values the_nodes));
    g_links := assignLinkDisplayColors (set_share (flowTotal the_paths drawn_links) <$> drawn_links) |}.
Proof.
  unfold the_graph, buildFlowGraph, drawn_links, mask_node_if, mask_link_if, the_nodes, the_links.
  fold the_stages the_paths. rewrite accumulate_group. fold the_nodes the_links the_sets.
  assert ((if maskSensitive options then maskFlowGraphLabels the_nodes the_links
           else (the_nodes, the_links)) =
    (prod_map id (if maskSensitive options then mask_node else id) <$> the_nodes,
     prod_map id (if maskSensitive options then mask_link (maskedById the_nodes) else id)
       <$> the_links)) as ->.
  { assert (∀ {A B} (m : list (A * B)), prod_map id id <$> m = m) as Hid.
    { intros A B m. rewrite <- (list_fmap_id m) at 2. apply list_fmap_ext. by intros ? []. }
    unfold maskFlowGraphLabels. destruct (maskSensitive options); [|by rewrite !Hid].
    destruct (maskedById the_nodes) as [|]; [|done]. f_equal.
    rewrite <- (Hid _ _ the_links) at 1. apply list_fmap_ext. intros ? [k l] _.
    unfold prod_map. simpl. by rewrite mask_link_nil. }
  unfold applyFlowHighlights, highlight_node, highlight_link.
  destruct the_sets; rewrite ?fmap_prod_map_snd, ?list_fmap_id; done.
Qed.


Lemma the_graph_nodes {B} (h : DashboardFlowNode → B) :
  (∀ s n, h (applyFlowHighlights_node s n) = h n) → (∀ n, h (mask_node n) = h n) →
  h <$> g_nodes the_graph ≡ₚ h <$> om_values the_nodes.
Proof.
  intros Hs Hm. rewrite the_graph_eq. simpl. rewrite js_sort_perm, <- !list_fmap_compose.
  erewrite list_fmap_ext; [done|]. intros i n _. unfold highlight_node, mask_node_if. simpl.
  destruct the_sets, (maskSensitive options); rewrite ?Hs, ?Hm; simpl; rewrite ?Hs, ?Hm; done.
Qed.

Lemma the_graph_links {B} (h : DashboardFlowLink → B) :
  (∀ d l, h (set_display d l) = h l) → (∀ t l, h (set_share t l) = h l) →
  (∀ s l, h (applyFlowHighlights_link s l) = h l) → (∀ m l, h (mask_link m l) = h l) →
  h <$> g_links the_graph ≡ₚ h <$> om_values the_links.
Proof.
  intros Hd Ht Hs Hm. rewrite the_graph_eq. simpl.
  rewrite assignLinkDisplayColors_proj by done. rewrite <- list_fmap_compose.
  rewrite (list_fmap_ext _ h) by (intros; apply Ht).
  unfold drawn_links. rewrite js_sort_perm, <- !list_fmap_compose.
  erewrite list_fmap_ext; [done|]. intros i n _. unfold highlight_link, mask_link_if. simpl.
  destruct the_sets, (maskSensitive options); simpl; rewrite ?Hs, ?Hm; done.
Qed.

End result.
End passes.

(** ** The nodes of a path *)

(** An id names its kind. *)
Definition wf_node (n : FlowPathNode) : Prop :=
  ∃ r, p_id n = kind_str (p_kind n) ++ $":" ++ r.

Definition nul_free (s : jsstr) : bool := forallb (λ c, negb (c =? 0)) s.

(** No text of the row contains U+0000, the separator of the link keys. *)
Definition row_nul_free (row : FlowQuotaDataItem) : bool :=
  nul_free (username row) && nul_free (node_name row) && nul_free (use_group row)
  && nul_free (token_name row) && nul_free (channel_name row) && nul_free (model_name row).

Lemma kind_prefix_inj k1 k2 r1 r2 :
  kind_str k1 ++ $":" ++ r1 = kind_str k2 ++ $":" ++ r2 → k1 = k2.
Proof. destruct k1, k2; simpl; intros H; try done; discriminate H. Qed.

Lemma wf_node_kind n1 n2 : wf_node n1 → wf_node n2 → p_id n1 = p_id n2 → p_kind n1 = p_kind n2.
Proof. intros [r1 E1] [r2 E2] H. rewrite E1, E2 in H. by eapply kind_prefix_inj. Qed.

Lemma NODE_BUILDERS_kind k row ctx : p_kind (NODE_BUILDERS k row ctx) = k.
Proof. by destruct k. Qed.

Lemma NODE_BUILDERS_wf k row ctx : wf_node (NODE_BUILDERS k row ctx).
Proof.
  unfold wf_node. destruct k; simpl; try case_match; eauto.
Qed.

Lemma otherFlowNode_wf k labeler : wf_node (otherFlowNode k labeler).
Proof. exists ($"__other__"). by destruct k. Qed.

Lemma nul_free_app s t : nul_free (s ++ t) = nul_free s && nul_free t.
Proof. apply forallb_app. Qed.

Lemma nul_free_str_or a b : nul_free a = true → nul_free b = true → nul_free (str_or a b) = true.
Proof. unfold str_or. by destruct (truthy a). Qed.

Lemma nul_free_digits s : forallb is_digit s = true → nul_free s = true.
Proof.
  unfold nul_free. rewrite !forallb_forall. intros H x Hx. specialize (H x Hx).
  apply is_digit_range in H. apply negb_true_iff, Z.eqb_neq. lia.
Qed.

Lemma nul_free_string_of_Z n : 0 ≤ n → nul_free (string_of_Z n) = true.
Proof.
  intros Hn. apply nul_free_digits. apply all_digits_string_of_Z in Hn.
  unfold all_digits in Hn. by bool_hyps.
Qed.

Lemma NODE_BUILDERS_nul_free k row ctx :
  row_nul_free row = true → nul_free (p_id (NODE_BUILDERS k row ctx)) = true.
Proof.
  unfold row_nul_free. intros H. bool_hyps.
  destruct k; unfold NODE_BUILDERS, userNode, nodeNameNode, tokenNode, groupNode, modelNode,
    channelNode; cbn [p_id]; try case_match; bool_hyps; rewrite nul_free_app;
    apply andb_true_iff; split; try reflexivity; try (apply nul_free_string_of_Z; lia); by apply nul_free_str_or.
Qed.

Lemma otherFlowNode_nul_free k labeler : nul_free (p_id (otherFlowNode k labeler)) = true.
Proof. by destruct k. Qed.

(** The link key determines its source when ids contain no U+0000. *)
Lemma link_key_inj s1 t1 s2 t2 :
  nul_free s1 = true → nul_free s2 = true → link_key s1 t1 = link_key s2 t2 → s1 = s2 ∧ t1 = t2.
Proof.
  assert (∀ s, nul_free s = true → 0 ∉ s) as Hnf.
  { unfold nul_free. intros s. rewrite forallb_forall. intros Hs Hin%list_elem_of_In%Hs. done. }
  intros H1%Hnf H2%Hnf. by apply sep_inj.
Qed.

(** ** The prepared paths *)

Section paths.
Context {E : FlowEnv}.

Lemma applyTopNodeLimit_shape path sets mode labeler path' :
  applyTopNodeLimit path sets mode labeler = Some path' →
  p_kind <$> path' = p_kind <$> path
  ∧ ∀ n, n ∈ path' → n ∈ path ∨ ∃ k, n = otherFlowNode k labeler.
Proof.
  unfold applyTopNodeLimit. destruct sets as [sets|]; [|intros [= <-]; eauto].
  destruct (existsb _ path); simpl; [|intros [= <-]; eauto].
  destruct mode; [|done]. intros [= <-]. split.
  - rewrite <- list_fmap_compose. apply list_fmap_ext. intros ? n _. simpl. by case_match.
  - intros n (n' & -> & Hn)%list_elem_of_fmap. case_match; eauto.
Qed.

Lemma preparePaths_omap rows stages sets mode labeler ctx :
  preparePaths rows stages sets mode labeler ctx =
  omap (λ row, (λ path, {| pp_path := path; pp_metrics := rowMetrics row |}) <$>
          applyTopNodeLimit (flowPathForStages row stages ctx) sets mode labeler) rows.
Proof.
  unfold preparePaths. induction rows as [|row rows IH] using rev_ind; [done|].
  rewrite fold_left_app, IH, omap_app. simpl.
  destruct (applyTopNodeLimit _ _ _ _); simpl; [done|by rewrite app_nil_r].
Qed.

(** A prepared path has one node per stage, in the order of the stages, and
    every node is that of a row or a synthetic "other" node. *)
Record path_ok (rows : list FlowQuotaDataItem) (stages : list FlowNodeKind)
    (ctx : FlowPathContext) (p : PreparedFlowPath) : Prop := {
  path_kinds : p_kind <$> pp_path p = stages;
  path_wf : ∀ n, n ∈ pp_path p → wf_node n;
  path_nul : forallb row_nul_free rows = true → ∀ n, n ∈ pp_path p → nul_free (p_id n) = true;
  path_row : ∃ row, row ∈ rows ∧ pp_metrics p = rowMetrics row;
}.

Lemma preparedPathsOf_ok rows metric stages ctx options p :
  p ∈ preparedPathsOf rows metric stages ctx options → path_ok rows stages ctx p.
Proof.
  unfold preparedPathsOf. rewrite preparePaths_omap.
  intros (row & Hrow & Hp)%list_elem_of_omap.
  apply fmap_Some in Hp as (path & Hp & ->).
  apply applyTopNodeLimit_shape in Hp as [Hk Hn].
  assert (∀ n, n ∈ path → (∃ k, n = NODE_BUILDERS k row ctx)
                           ∨ ∃ k, n = otherFlowNode k (otherNodeLabel options)) as Hn'.
  { intros n [Hin|?]%Hn; [|by right]. left.
    apply list_elem_of_fmap in Hin as (k & -> & _). eauto. }
  split; simpl.
  - rewrite Hk. unfold flowPathForStages. rewrite <- list_fmap_compose.
    rewrite <- (list_fmap_id stages) at 2. apply list_fmap_ext. intros ? k _.
    apply NODE_BUILDERS_kind.
  - intros n [[k ->]|[k ->]]%Hn'; [apply NODE_BUILDERS_wf|apply otherFlowNode_wf].
  - rewrite forallb_forall. intros Hfree n [[k ->]|[k ->]]%Hn'.
    + apply NODE_BUILDERS_nul_free, Hfree. by apply list_elem_of_In.
    + apply otherFlowNode_nul_free.
  - eauto.
Qed.

Lemma resolveVisibleStages_NoDup role visible : NoDup (resolveVisibleStages role visible).
Proof.
  assert (NoDup (getFlowStages role)).
  { destruct role; apply (bool_decide_unpack _); reflexivity. }
  unfold resolveVisibleStages. destruct visible; [|done].
  case_match; [|done]. by apply NoDup_filter.
Qed.

End paths.

Arguments path_kinds {_ _ _ _}.
Arguments path_wf {_ _ _ _}.
Arguments path_nul {_ _ _ _}.
Arguments path_row {_ _ _ _}.

(** ** Sums along one path *)

Lemma zsum_kind_once {A} (kind : A → FlowNodeKind) (w : Z) k (l : list A) :
  NoDup (kind <$> l) → k ∈ kind <$> l →
  zsum (λ n, if is_eq k (kind n) then w else 0) l = w.
Proof.
  assert (∀ l, k ∉ kind <$> l → zsum (λ n, if is_eq k (kind n) then w else 0) l = 0) as H0.
  { intros l' Hk. rewrite (zsum_ext _ (λ _, 0)); [apply zsum_0|].
    intros n Hn. unfold is_eq. rewrite bool_decide_false; [done|]. intros <-. by apply Hk, list_elem_of_fmap_2. }
  induction l as [|n l IH]; csimpl; [set_solver|].
  intros [Hn Hnd]%NoDup_cons Hk. unfold is_eq at 1. destruct (bool_decide_reflect (kind n = k)) as [<-|Hkn].
  - rewrite H0 by done. lia.
  - rewrite IH; [lia|done|set_solver].
Qed.

Lemma steps_sources {A} (l : list A) (g : A → Z) :
  (∀ x, last l = Some x → g x = 0) → zsum (λ st, g st.1) (steps l) = zsum g l.
Proof.
  induction l as [|x [|y l] IH]; intros H; [done| |].
  - simpl. rewrite (H x); [lia|done].
  - change (g x + zsum (λ st, g st.1) (steps (y :: l)) = g x + zsum g (y :: l)).
    by rewrite IH.
Qed.

Lemma steps_targets {A} (l : list A) (g : A → Z) :
  (∀ x, head l = Some x → g x = 0) → zsum (λ st, g st.2) (steps l) = zsum g l.
Proof.
  destruct l as [|x l]; [done|]. intros H. cbn [zsum]. rewrite (H x) by done.
  rewrite Z.add_0_l. clear H. unfold steps. simpl. revert x.
  induction l as [|y l IH]; intros x; simpl; [done|]. by rewrite IH.
Qed.

(** ** Conservation *)

Section conservation.
Context {E : FlowEnv}.
Context (rows : list FlowQuotaDataItem) (metric : FlowMetric) (role : FlowRole)
  (palette : option (list jsstr)) (visibleStages : option (list FlowNodeKind))
  (ctx : FlowPathContext) (options : FlowGraphOptions).

Abbreviation stages := (resolveVisibleStages role visibleStages).
Abbreviation paths := (preparedPathsOf rows metric stages ctx options).
Abbreviation graph := (buildFlowGraph rows metric role palette visibleStages ctx options).
Abbreviation node_evs := (flat_map (node_events palette paths) paths).
Abbreviation link_evs := (flat_map (link_events palette paths) paths).

Lemma graph_nodes_perm {B} (h : DashboardFlowNode → B) :
  (∀ s n, h (applyFlowHighlights_node s n) = h n) → (∀ n, h (mask_node n) = h n) →
  h <$> g_nodes graph ≡ₚ h <$> om_values (nodes_of metric palette paths).
Proof. apply the_graph_nodes. Qed.

Lemma graph_links_perm {B} (h : DashboardFlowLink → B) :
  (∀ d l, h (set_display d l) = h l) → (∀ t l, h (set_share t l) = h l) →
  (∀ s l, h (applyFlowHighlights_link s l) = h l) → (∀ m l, h (mask_link m l) = h l) →
  h <$> g_links graph ≡ₚ h <$> om_values (links_of metric palette paths).
Proof. apply the_graph_links. Qed.

Lemma mask_node_field f n : node_field f (mask_node n) = node_field f n.
Proof. unfold mask_node. case_match; by destruct f. Qed.
Lemma mask_node_kind n : n_kind (mask_node n) = n_kind n.
Proof. unfold mask_node. by case_match. Qed.
Lemma mask_node_id n : n_id (mask_node n) = n_id n.
Proof. unfold mask_node. by case_match. Qed.

Lemma elem_node_evs e :
  e ∈ node_evs → ∃ p, p ∈ paths ∧ ne_node e ∈ pp_path p ∧ ne_metrics e = pp_metrics p.
Proof.
  intros (p & Hp & He)%list_elem_of_In%in_flat_map. exists p.
  rewrite <- !list_elem_of_In in *. apply list_elem_of_fmap in He as (n & -> & Hn). auto.
Qed.

Lemma elem_link_evs e :
  e ∈ link_evs →
  ∃ p, p ∈ paths ∧ (le_source e, le_target e) ∈ steps (pp_path p) ∧ le_metrics e = pp_metrics p.
Proof.
  intros (p & Hp & He)%list_elem_of_In%in_flat_map. exists p.
  rewrite <- !list_elem_of_In in *. apply list_elem_of_fmap in He as ([a b] & -> & Hn). auto.
Qed.

Lemma steps_elem {A} (l : list A) a b : (a, b) ∈ steps l → a ∈ l ∧ b ∈ l.
Proof.
  unfold steps. intros H. split; [by eapply elem_of_zip_l|].
  apply elem_of_zip_r in H. destruct l; [done|]. by right.
Qed.

Lemma node_ev_wf e : e ∈ node_evs → wf_node (ne_node e).
Proof. intros (p & Hp & Hn & _)%elem_node_evs. by eapply path_wf, Hn; eapply preparedPathsOf_ok. Qed.

Lemma node_evs_sum (P : FlowPathNode → bool) f :
  zsum (λ e, if P (ne_node e) then metrics_field metric f (ne_metrics e) else 0) node_evs
  = zsum (λ p, zsum (λ n, if P n then metrics_field metric f (pp_metrics p) else 0)
                 (pp_path p)) paths.
Proof. rewrite zsum_flat_map. apply zsum_ext. intros p _. unfold node_events. by rewrite zsum_map. Qed.

Lemma link_evs_sum (P : FlowPathNode * FlowPathNode → bool) f :
  zsum (λ e, if P (le_source e, le_target e)
             then metrics_field metric f (le_metrics e) else 0) link_evs
  = zsum (λ p, zsum (λ st, if P st then metrics_field metric f (pp_metrics p) else 0)
                 (steps (pp_path p))) paths.
Proof.
  rewrite zsum_flat_map. apply zsum_ext. intros p _. unfold link_events. rewrite zsum_map. apply zsum_ext.
  by intros [] _.
Qed.

Lemma node_init_field f e : node_field f (node_init e) = 0.
Proof. by destruct f. Qed.
Lemma node_upd_field f n e :
  node_field f (node_upd metric n e) = node_field f n + metrics_field metric f (ne_metrics e).
Proof. by destruct f. Qed.
Lemma link_init_field f e : link_field f (link_init e) = 0.
Proof. by destruct f. Qed.
Lemma link_upd_field f l e :
  link_field f (link_upd metric l e) = link_field f l + metrics_field metric f (le_metrics e).
Proof. by destruct f. Qed.

Lemma link_ev_nul e :
  forallb row_nul_free rows = true → e ∈ link_evs → nul_free (p_id (le_source e)) = true.
Proof.
  intros Hfree (p & Hp & [Hs _]%steps_elem & _)%elem_link_evs.
  by eapply path_nul, Hs; [eapply preparedPathsOf_ok|].
Qed.

Lemma aggregate_paths_flow f :
  overflowMode options ≠ Some OHide → paths_flow metric f paths = rows_flow metric f rows.
Proof.
  intros Hm. unfold paths_flow, rows_flow, preparedPathsOf. rewrite preparePaths_omap.
  generalize (buildTopNodeSets rows metric stages (normalizeTopNodeLimit (topNodeLimit options)) ctx).
  intros sets. induction rows as [|row l IH]; [done|]. csimpl.
  assert (is_Some (applyTopNodeLimit (flowPathForStages row stages ctx) sets
            (default OAggregate (overflowMode options)) (otherNodeLabel options))) as [path ->].
  { unfold applyTopNodeLimit. destruct sets; [|eauto]. destruct (existsb _ _); simpl; [|eauto].
    destruct (overflowMode options) as [[]|]; simpl; eauto. done. }
  csimpl. by rewrite IH.
Qed.

(** Sums over the nodes of the graph are sums over the nodes of the paths. *)
Lemma graph_kind_sum f k :
  stage_flow f graph k
  = zsum (λ p, zsum (λ n, if is_eq k (p_kind n) then metrics_field metric f (pp_metrics p)
                          else 0) (pp_path p)) paths.
Proof.
  unfold stage_flow. rewrite zsum_filter.
  pose (h n := (n_kind n, node_field f n)).
  pose (g (x : FlowNodeKind * Z) := if bool_decide (x.1 = k) then x.2 else 0).
  etrans; [apply (zsum_fmap_perm h g), graph_nodes_perm|].
  { by destruct f. }
  { intros n. unfold h. by rewrite mask_node_kind, mask_node_field. }
  rewrite <- (node_evs_sum (λ n, is_eq k (p_kind n))).
  apply (om_group_total node_key node_init (node_upd metric) (node_field f)
    (λ e, metrics_field metric f (ne_metrics e)) (node_init_field f) (node_upd_field f)
    n_kind (is_eq k)); [done|].
  intros e1 e2 H1%node_ev_wf H2%node_ev_wf He. by apply wf_node_kind.
Qed.

Lemma graph_source_sum f id :
  forallb row_nul_free rows = true →
  outflow f graph id
  = zsum (λ p, zsum (λ st, if is_eq id (p_id st.1) then metrics_field metric f (pp_metrics p)
                           else 0) (steps (pp_path p))) paths.
Proof.
  intros Hfree. unfold outflow. rewrite zsum_filter.
  pose (h l := (l_source l, link_field f l)).
  pose (g (x : jsstr * Z) := if is_eq id x.1 then x.2 else 0).
  etrans; [apply (zsum_fmap_perm h g), graph_links_perm; by destruct f|].
  rewrite <- (link_evs_sum (λ st, is_eq id (p_id st.1))).
  apply (om_group_total link_event_key link_init (link_upd metric) (link_field f)
    (λ e, metrics_field metric f (le_metrics e)) (link_init_field f) (link_upd_field f)
    l_source (is_eq id)); [done|].
  intros e1 e2 H1 H2 [He _]%link_key_inj; [done|by apply link_ev_nul..].
Qed.

Lemma graph_target_sum f id :
  forallb row_nul_free rows = true →
  inflow f graph id
  = zsum (λ p, zsum (λ st, if is_eq id (p_id st.2) then metrics_field metric f (pp_metrics p)
                           else 0) (steps (pp_path p))) paths.
Proof.
  intros Hfree. unfold inflow. rewrite zsum_filter.
  pose (h l := (l_target l, link_field f l)).
  pose (g (x : jsstr * Z) := if is_eq id x.1 then x.2 else 0).
  etrans; [apply (zsum_fmap_perm h g), graph_links_perm; by destruct f|].
  rewrite <- (link_evs_sum (λ st, is_eq id (p_id st.2))).
  apply (om_group_total link_event_key link_init (link_upd metric) (link_field f)
    (λ e, metrics_field metric f (le_metrics e)) (link_init_field f) (link_upd_field f)
    l_target (is_eq id)); [done|].
  intros e1 e2 H1 H2 [_ He]%link_key_inj; [done|by apply link_ev_nul..].
Qed.

(** A node of the graph stands for the path nodes with its id. *)
Lemma graph_node_value f n :
  n ∈ g_nodes graph →
  node_field f n
  = zsum (λ p, zsum (λ pn, if is_eq (n_id n) (p_id pn) then metrics_field metric f (pp_metrics p)
                           else 0) (pp_path p)) paths
  ∧ ∃ p pn, p ∈ paths ∧ pn ∈ pp_path p ∧ p_id pn = n_id n ∧ p_kind pn = n_kind n.
Proof.
  intros Hn. pose (h n := (n_id n, n_kind n, node_field f n)).
  assert (h n ∈ h <$> g_nodes graph) as Hh by by apply list_elem_of_fmap_2.
  rewrite graph_nodes_perm in Hh;
    [|by destruct f|intros; unfold h; by rewrite mask_node_id, mask_node_kind, mask_node_field].
  apply list_elem_of_fmap in Hh as (n' & [= -> -> ->] & Hn').
  apply list_elem_of_fmap in Hn' as ([k n2] & -> & Hget). simpl in *.
  apply elem_om_get in Hget; [|apply om_group_wf].
  destruct (om_group_static node_key node_init (node_upd metric) (λ n, (n_id n, n_kind n))
    node_evs k n2) as (e & He & Hk & Hst); [done|done|]. injection Hst as Hid Hkind. split.
  - rewrite <- (node_evs_sum (λ pn, is_eq (n_id n2) (p_id pn))).
    pose proof (om_group_count node_key node_init (node_upd metric) (node_field f)
      (λ e, metrics_field metric f (ne_metrics e)) (node_init_field f) (node_upd_field f)
      node_evs k) as Hc.
    unfold nodes_of in Hget. rewrite Hget in Hc. simpl in Hc. rewrite Hc. apply zsum_ext.
    intros e' _. unfold is_eq, node_key. rewrite bool_decide_decide.
    assert (n_id n2 = k) as -> by (rewrite Hid; exact Hk). by case_decide.
  - apply elem_node_evs in He as (p & Hp & Hpn & _). exists p, (ne_node e). auto.
Qed.

(** The path node with the id of a graph node is at the stage of its kind. *)
Lemma same_id_same_kind p1 p2 n1 n2 :
  p1 ∈ paths → p2 ∈ paths → n1 ∈ pp_path p1 → n2 ∈ pp_path p2 →
  p_id n1 = p_id n2 → p_kind n1 = p_kind n2.
Proof.
  intros Hp1 Hp2 Hn1 Hn2. apply wf_node_kind;
    eapply path_wf; eauto; by eapply preparedPathsOf_ok.
Qed.

Lemma stage_flow_paths f k : k ∈ stages → stage_flow f graph k = paths_flow metric f paths.
Proof.
  intros Hk. rewrite graph_kind_sum. apply zsum_ext. intros p Hp.
  apply preparedPathsOf_ok, path_kinds in Hp as Hkinds.
  apply zsum_kind_once; rewrite Hkinds; [apply resolveVisibleStages_NoDup|done].
Qed.

(** The graph conserves the flow of every stage.  For each visible stage the
    values (and the requests, quota and tokens) of the nodes of that stage add
    up to those of the paths that are drawn, whatever the top-node limit,
    masking, highlighting or palette; unless overflowing rows are hidden these
    are the totals the summary shows. *)
Theorem stage_flow_conserved f k :
  k ∈ stages →
  stage_flow f graph k = paths_flow metric f paths
  ∧ (overflowMode options ≠ Some OHide →
     stage_flow f graph k = metrics_field metric f (buildSummary rows)).
Proof.
  intros Hk. rewrite (stage_flow_paths f k Hk). split; [done|]. intros Hm.
  rewrite buildSummary_flow. by apply aggregate_paths_flow.
Qed.

(** C3: flow in equals flow out.  For texts without U+0000, the links leaving a
    node carry exactly the value (requests, quota, tokens) of the node unless
    it is in the last visible stage, and the links entering it do unless it is
    in the first. *)
Theorem node_flow_conserved f n :
  forallb row_nul_free rows = true → n ∈ g_nodes graph →
  (last stages ≠ Some (n_kind n) → outflow f graph (n_id n) = node_field f n)
  ∧ (head stages ≠ Some (n_kind n) → inflow f graph (n_id n) = node_field f n).
Proof.
  intros Hfree Hn. rewrite graph_source_sum, graph_target_sum by done.
  destruct (graph_node_value f n Hn) as (-> & p0 & pn & Hp0 & Hpn & Hid & Hkind).
  split; intros Hend; apply zsum_ext; intros p Hp;
    apply preparedPathsOf_ok in Hp as Hok; apply path_kinds in Hok as Hkinds.
  - apply (steps_sources _ (λ a, if is_eq (n_id n) (p_id a) then _ else 0)).
    intros x Hx. unfold is_eq. case_bool_decide as Hxn; [|done]. exfalso. apply Hend.
    rewrite <- Hkinds, fmap_last, Hx. simpl. f_equal. rewrite <- Hkind.
    eapply (same_id_same_kind p p0); [..|congruence]; eauto. by apply last_Some_elem_of.
  - apply (steps_targets _ (λ a, if is_eq (n_id n) (p_id a) then _ else 0)).
    intros x Hx. unfold is_eq. case_bool_decide as Hxn; [|done]. exfalso. apply Hend.
    rewrite <- Hkinds. rewrite <- Hkind. destruct (pp_path p) as [|y l] eqn:Ep; [done|].
    injection Hx as ->. simpl. f_equal.
    eapply (same_id_same_kind p p0); [..|congruence]; eauto. rewrite Ep. left.
Qed.

(** ** The total behind the shares *)

Lemma resolveVisibleStages_length : (2 ≤ length stages)%nat.
Proof.
  assert (2 ≤ length (getFlowStages role))%nat by (destruct role; simpl; lia).
  unfold resolveVisibleStages, MIN_FLOW_STAGES. destruct visibleStages; [|done].
  case_match; bool_hyps; [lia|done].
Qed.

Lemma elem_root_ids x :
  x ∈ root_ids paths ↔ ∃ p n, p ∈ paths ∧ head (pp_path p) = Some n ∧ p_id n = x.
Proof.
  unfold root_ids. rewrite list_elem_of_In, filter_In, <- list_elem_of_In, list_elem_of_omap.
  split.
  - intros [(p & Hp & (n & Hn & ->)%fmap_Some) _]. eauto.
  - intros (p & n & Hp & Hn & <-). split; [exists p; by rewrite Hn|].
    assert (wf_node n) as [r ->]; [|by destruct (p_kind n)].
    eapply path_wf; [by eapply preparedPathsOf_ok|]. by apply head_Some_elem_of.
Qed.

(** The sources of a path that are roots of some path: its own root only. *)
Lemma path_root_sum p (w : Z) :
  p ∈ paths →
  zsum (λ st, if bool_decide (p_id st.1 ∈ root_ids paths) then w else 0) (steps (pp_path p)) = w.
Proof.
  intros Hp. apply preparedPathsOf_ok in Hp as Hok. pose proof (path_kinds Hok) as Hk.
  pose proof resolveVisibleStages_length as Hlen.
  pose proof (resolveVisibleStages_NoDup role visibleStages) as Hnd.
  rewrite <- Hk in Hlen, Hnd. rewrite length_fmap in Hlen.
  destruct (pp_path p) as [|a [|b l]] eqn:Ep; simpl in Hlen; [lia..|].
  change (steps (a :: b :: l)) with ((a, b) :: steps (b :: l)). cbn [zsum fst].
  rewrite bool_decide_true.
  2: { apply elem_root_ids. exists p, a. by rewrite Ep. }
  rewrite (zsum_ext _ (λ _, 0)); [rewrite zsum_0; lia|].
  intros [c d] Hcd. simpl. rewrite bool_decide_false; [done|].
  intros (p' & r & Hp' & Hr & Hid)%elem_root_ids.
  apply steps_elem in Hcd as [Hc _]. csimpl in Hnd. apply NoDup_cons in Hnd as [Hna _].
  apply Hna. replace (p_kind a) with (p_kind c).
  { rewrite <- fmap_cons. by apply list_elem_of_fmap_2. }
  transitivity (p_kind r).
  - eapply (same_id_same_kind p p'); eauto; [rewrite Ep; by right|by apply head_Some_elem_of].
  - apply preparedPathsOf_ok in Hp' as Hok'. pose proof (path_kinds Hok') as Hk'.
    rewrite <- Hk in Hk'. destruct (pp_path p') as [|r' l']; [done|].
    injection Hr as ->. csimpl in Hk'. congruence.
Qed.

Lemma flowTotal_zsum links :
  flowTotal paths links = zsum l_value (filter (λ l, l_source l ∈ root_ids paths) links).
Proof.
  unfold flowTotal. rewrite !zsum_filter.
  assert (∀ acc l, fold_left (λ sum link, sum + l_value link) l acc = acc + zsum l_value l) as H.
  { intros acc l. revert acc. induction l as [|x l IH]; intros acc; simpl; [lia|].
    rewrite IH. lia. }
  rewrite H, zsum_filter, Z.add_0_l. apply zsum_ext. intros x _.
  erewrite bool_decide_ext; [done|]. apply elem_of_os_of_list.
Qed.

Lemma root_links_sum :
  forallb row_nul_free rows = true →
  zsum (λ l, if bool_decide (l_source l ∈ root_ids paths) then l_value l else 0)
    (om_values (links_of metric palette paths)) = paths_flow metric FValue paths.
Proof.
  intros Hfree.
  pose (is_root id := bool_decide (id ∈ root_ids paths)).
  etrans; [apply (om_group_total link_event_key link_init (link_upd metric) (link_field FValue)
    (λ e, metrics_field metric FValue (le_metrics e)) (link_init_field _) (link_upd_field _)
    l_source is_root); [done|]|].
  { intros e1 e2 H1 H2 [He _]%link_key_inj; [done|by apply link_ev_nul..]. }
  etrans; [apply (link_evs_sum (λ st, is_root (p_id st.1)) FValue)|].
  apply zsum_ext. intros p Hp. by apply path_root_sum.
Qed.

Definition share_of (value total : Z) : number :=
  if 0 <? total then num_div (num_of_Z value) (num_of_Z total) else num_of_Z 0.

(** The share of a link is its value over the flow of all drawn paths.  For
    texts without U+0000 the links leaving the first visible stage add up to
    the flow of all drawn paths, every drawn path counted once, and every link
    carries its value divided by that total (0 when the total is not positive). *)
Theorem link_share_spec :
  forallb row_nul_free rows = true →
  zsum l_value (filter (λ l, l_source l ∈ root_ids paths) (g_links graph))
    = paths_flow metric FValue paths
  ∧ ∀ l, l ∈ g_links graph → l_share l = share_of (l_value l) (paths_flow metric FValue paths).
Proof.
  intros Hfree. pose proof (root_links_sum Hfree) as Hroot.
  pose (h l := (l_source l, l_value l)).
  pose (g (x : jsstr * Z) := if bool_decide (x.1 ∈ root_ids paths) then x.2 else 0).
  split.
  { rewrite zsum_filter, <- Hroot. by apply (zsum_fmap_perm h g), graph_links_perm. }
  intros l Hl. set (the_total := flowTotal paths
    (drawn_links rows metric role palette visibleStages ctx options)).
  assert (the_total = paths_flow metric FValue paths) as Htot.
  { unfold the_total. rewrite flowTotal_zsum, zsum_filter, <- Hroot.
    apply (zsum_fmap_perm h g). unfold drawn_links.
    rewrite js_sort_perm, <- !list_fmap_compose. erewrite list_fmap_ext; [done|].
    intros i x _. unfold highlight_link, mask_link_if.
    by destruct the_sets, (maskSensitive options). }
  rewrite <- Htot.
  assert ((l_value l, l_share l) ∈ (λ l, (l_value l, l_share l)) <$> g_links graph) as Hin
    by by apply (list_elem_of_fmap_2 (λ l, (l_value l, l_share l))).
  pose proof (the_graph_eq rows metric role palette visibleStages ctx options) as Hg.
  unfold the_graph in Hg. rewrite Hg in Hin. simpl in Hin.
  rewrite assignLinkDisplayColors_proj in Hin by done.
  apply list_elem_of_fmap in Hin as (l' & [= -> ->] & Hl').
  by apply list_elem_of_fmap in Hl' as (l2 & -> & _).
Qed.

End conservation.
