(* ===== verification/FlowView.v ===== *)
(** * Usage-flow dashboard: bounds, the top-node limit, highlighting, masking

    Theorems about what [buildFlowGraph] shows: the range of its counters, which
    nodes survive the top-node limit, what is highlighted or dimmed, and what
    masking hides. *)

From S2P Require Import Prelude JsString JsNumber JsValue OrderedMap FlowModel FlowGraph FlowFacts.

Local Open Scope js_scope.

(** ** Range of the counters *)

(** The largest integer up to which doubles add exactly. *)
Definition MAX_SAFE_INTEGER : Z := 2 ^ 53 - 1.

Definition metrics_nonneg (row : FlowQuotaDataItem) : bool :=
  let m := rowMetrics row in
  (0 <=? m_quota m) && (0 <=? m_tokens m) && (0 <=? m_requests m).

Lemma metrics_field_nonneg metric f row :
  metrics_nonneg row = true → 0 ≤ metrics_field metric f (rowMetrics row).
Proof. unfold metrics_nonneg. intros. bool_hyps. destruct f, metric; done. Qed.

(** A test that only nodes of one kind pass selects at most one of a path. *)
Lemma zsum_at_most_once {A} (kind : A → FlowNodeKind) (P : A → bool) (w : Z) k (l : list A) :
  0 ≤ w → NoDup (kind <$> l) → (∀ n, n ∈ l → P n = true → kind n = k) →
  0 ≤ zsum (λ n, if P n then w else 0) l ≤ w.
Proof.
  intros Hw Hnd HP.
  assert (0 ≤ zsum (λ n, if P n then w else 0) l).
  { apply zsum_nonneg. intros x _. case_match; lia. }
  split; [done|]. destruct (decide (k ∈ kind <$> l)) as [Hk|Hk].
  - transitivity (zsum (λ n, if is_eq k (kind n) then w else 0) l);
      [|by rewrite zsum_kind_once]. apply zsum_le. intros x Hx.
    unfold is_eq. destruct (P x) eqn:Px; [by rewrite bool_decide_true by eauto|].
    case_bool_decide; lia.
  - rewrite (zsum_ext _ (λ _, 0)), zsum_0; [done|]. intros n Hn.
    destruct (P n) eqn:Px; [|done]. destruct Hk. rewrite <- (HP n) by done.
    by apply list_elem_of_fmap_2.
Qed.

Lemma steps_fst_NoDup {A} (kind : A → FlowNodeKind) (l : list A) :
  NoDup (kind <$> l) → NoDup ((λ st, kind st.1) <$> steps l).
Proof.
  induction l as [|x [|y l] IH]; intros Hnd; [constructor..|].
  rewrite fmap_cons in Hnd. apply NoDup_cons in Hnd as [Hx Hnd].
  change (NoDup (kind x :: ((λ st, kind st.1) <$> steps (y :: l)))). constructor; [|by apply IH].
  intros ([a b] & Heq & [Ha _]%steps_elem)%list_elem_of_fmap. simpl in Heq.
  apply Hx. rewrite Heq. by apply list_elem_of_fmap_2.
Qed.

Section view.
Context {E : FlowEnv}.
Context (rows : list FlowQuotaDataItem) (metric : FlowMetric) (role : FlowRole)
  (palette : option (list jsstr)) (visibleStages : option (list FlowNodeKind))
  (ctx : FlowPathContext) (options : FlowGraphOptions).

Abbreviation stages := (resolveVisibleStages role visibleStages).
Abbreviation paths := (preparedPathsOf rows metric stages ctx options).
Abbreviation graph := (buildFlowGraph rows metric role palette visibleStages ctx options).

Lemma paths_nonneg p f :
  forallb metrics_nonneg rows = true → p ∈ paths → 0 ≤ metrics_field metric f (pp_metrics p).
Proof.
  rewrite forallb_forall. intros Hnn Hp. apply preparedPathsOf_ok in Hp as Hok.
  destruct (path_row Hok) as (row & Hrow & ->). apply metrics_field_nonneg, Hnn.
  by apply list_elem_of_In.
Qed.

Lemma paths_flow_le f :
  forallb metrics_nonneg rows = true → paths_flow metric f paths ≤ rows_flow metric f rows.
Proof.
  unfold paths_flow, rows_flow, preparedPathsOf. rewrite preparePaths_omap.
  generalize (buildTopNodeSets rows metric stages (normalizeTopNodeLimit (topNodeLimit options)) ctx).
  intros sets. induction rows as [|row l IH]; [done|]. csimpl. intros Hnn. bool_hyps.
  pose proof (metrics_field_nonneg metric f row ltac:(done)).
  destruct (applyTopNodeLimit _ _ _ _); csimpl; specialize (IH ltac:(done)); lia.
Qed.

Lemma path_NoDup p : p ∈ paths → NoDup (p_kind <$> pp_path p).
Proof.
  intros Hp. apply preparedPathsOf_ok in Hp as Hok. rewrite (path_kinds Hok).
  apply resolveVisibleStages_NoDup.
Qed.

Lemma node_range f n :
  forallb metrics_nonneg rows = true → n ∈ g_nodes graph →
  0 ≤ node_field f n ≤ paths_flow metric f paths.
Proof.
  intros Hnn Hn. destruct (graph_node_value _ _ _ _ _ _ _ f n Hn)
    as (-> & p0 & pn & Hp0 & Hpn & Hid & Hkind).
  assert (∀ p, p ∈ paths → 0 ≤ zsum (λ pn, if is_eq (n_id n) (p_id pn)
      then metrics_field metric f (pp_metrics p) else 0) (pp_path p)
      ≤ metrics_field metric f (pp_metrics p)) as Hp.
  { intros p Hp. apply (zsum_at_most_once p_kind _ _ (n_kind n));
      [by apply paths_nonneg|by apply path_NoDup|].
    intros x Hx Hxn. unfold is_eq in Hxn. bool_hyps. rewrite <- Hkind.
    eapply (same_id_same_kind _ _ _ _ _ _ p p0); eauto. congruence. }
  split; [apply zsum_nonneg|apply zsum_le]; intros p Hin; by apply Hp.
Qed.

Lemma outflow_range f id :
  forallb row_nul_free rows = true → forallb metrics_nonneg rows = true →
  outflow f graph id ≤ paths_flow metric f paths.
Proof.
  intros Hfree Hnn. rewrite graph_source_sum by done. apply zsum_le. intros p Hp.
  destruct (decide (Exists (λ st, p_id st.1 = id) (steps (pp_path p)))) as [Hex|Hno].
  - apply Exists_exists in Hex as (st & Hst & Hid).
    apply (zsum_at_most_once (λ st, p_kind st.1) _ _ (p_kind st.1));
      [by apply paths_nonneg|by apply steps_fst_NoDup, path_NoDup|].
    intros [a b] Hab Hx. unfold is_eq in Hx. bool_hyps. destruct st as [c d]. simpl in *.
    apply steps_elem in Hst as [Hc _], Hab as [Ha _].
    eapply (same_id_same_kind _ _ _ _ _ _ p p); eauto. congruence.
  - rewrite (zsum_ext _ (λ _, 0)), zsum_0; [by apply paths_nonneg|].
    intros st Hst. unfold is_eq. rewrite bool_decide_false; [done|].
    intros Hid. apply Hno, Exists_exists. eauto.
Qed.

Lemma links_nonneg f :
  forallb metrics_nonneg rows = true → ∀ l, l ∈ g_links graph → 0 ≤ link_field f l.
Proof.
  intros Hnn l Hl.
  assert (link_field f l ∈ link_field f <$> g_links graph) as Hh by by apply list_elem_of_fmap_2.
  rewrite graph_links_perm in Hh by by destruct f.
  apply list_elem_of_fmap in Hh as (l' & -> & Hl').
  apply list_elem_of_fmap in Hl' as ([k l2] & -> & Hget). simpl.
  apply elem_om_get in Hget; [|apply om_group_wf].
  pose proof (om_group_count link_event_key link_init (link_upd metric) (link_field f)
    (λ e, metrics_field metric f (le_metrics e)) (link_init_field f) (link_upd_field metric f)
    (flat_map (link_events palette paths) paths) k) as Hc.
  unfold links_of in Hget. rewrite Hget in Hc. simpl in Hc. rewrite Hc.
  apply zsum_nonneg. intros e (p & Hp & _ & ->)%elem_link_evs.
  case_decide; [by apply paths_nonneg|lia].
Qed.

(** The counters stay where doubles are exact.  When no metric is negative
    and texts contain no U+0000, every counter of every node and link lies
    between 0 and the total of the rows; so if that total is a safe integer no
    sum the graph accumulates is ever rounded. *)
Theorem counters_in_range f :
  forallb row_nul_free rows = true → forallb metrics_nonneg rows = true →
  rows_flow metric f rows ≤ MAX_SAFE_INTEGER →
  (∀ n, n ∈ g_nodes graph → 0 ≤ node_field f n ≤ MAX_SAFE_INTEGER)
  ∧ (∀ l, l ∈ g_links graph → 0 ≤ link_field f l ≤ MAX_SAFE_INTEGER)
  ∧ 0 ≤ metrics_field metric f (buildSummary rows) ≤ MAX_SAFE_INTEGER.
Proof.
  intros Hfree Hnn Hmax. pose proof (paths_flow_le f Hnn) as Hle. split; [|split].
  - intros n Hn. pose proof (node_range f n Hnn Hn). lia.
  - intros l Hl. pose proof (links_nonneg f Hnn) as Hpos.
    pose proof (outflow_range f (l_source l) Hfree Hnn) as Hout. split; [by apply Hpos|].
    enough (link_field f l ≤ outflow f graph (l_source l)) by lia.
    apply zsum_elem_le; [|by apply list_elem_of_filter].
    intros l' [_ Hl']%list_elem_of_filter. by apply Hpos.
  - rewrite buildSummary_flow. split; [|done]. apply zsum_nonneg. intros row Hrow.
    apply metrics_field_nonneg. rewrite forallb_forall in Hnn. by apply Hnn, list_elem_of_In.
Qed.

End view.

(** ** Ranking *)

Section ranking.
Context {E : FlowEnv}.
Context (rows : list FlowQuotaDataItem) (metric : FlowMetric) (stages : list FlowNodeKind)
  (ctx : FlowPathContext).
Hypothesis stages_NoDup : NoDup stages.

Definition row_value (row : FlowQuotaDataItem) : Z := metricValue (rowMetrics row) metric.

(** The total of an id at a stage: the value the ranking is about. *)
Definition stage_total (k : FlowNodeKind) (id : jsstr) : Z :=
  zsum (λ row, if is_eq id (p_id (NODE_BUILDERS k row ctx)) then row_value row else 0) rows.

Definition rank_key (e : FlowPathNode * Z) : jsstr := p_id e.1.
Definition rank_init (e : FlowPathNode * Z) : FlowNodeRank :=
  {| rank_node := e.1; rank_value := 0 |}.
Definition rank_upd (r : FlowNodeRank) (e : FlowPathNode * Z) : FlowNodeRank :=
  {| rank_node := rank_node r; rank_value := rank_value r + e.2 |}.

Definition rank_events (k : FlowNodeKind) (rs : list FlowQuotaDataItem)
    : list (FlowPathNode * Z) :=
  (λ row, (NODE_BUILDERS k row ctx, row_value row)) <$> rs.

Definition ranks_of (k : FlowNodeKind) (rs : list FlowQuotaDataItem)
    : list (jsstr * FlowNodeRank) :=
  om_group rank_key rank_init rank_upd (rank_events k rs).

Lemma rank_add_get v (totals : list (FlowNodeKind * list (jsstr * FlowNodeRank))) node k :
  om_get k (rank_add v totals node) =
  if decide (k = p_kind node)
  then (λ st, om_upsert rank_key rank_init rank_upd st (node, v)) <$> om_get k totals
  else om_get k totals.
Proof.
  unfold rank_add. destruct (om_get (p_kind node) totals) as [st|] eqn:Est.
  - case_decide as Hk; [subst k; by rewrite om_get_set_eq, Est|by rewrite om_get_set_ne].
  - case_decide as Hk; [subst k; by rewrite Est|done].
Qed.

Lemma rank_add_keys v (totals : list (FlowNodeKind * list (jsstr * FlowNodeRank))) node :
  om_keys (rank_add v totals node) = om_keys totals.
Proof.
  unfold rank_add. destruct (om_get (p_kind node) totals) as [st|] eqn:Est; [|done].
  rewrite om_keys_set, decide_True; [done|]. apply om_get_elem in Est.
  apply list_elem_of_fmap. by exists (p_kind node, st).
Qed.

Lemma rank_path_get v row sts (totals : list (FlowNodeKind * list (jsstr * FlowNodeRank))) k :
  NoDup sts →
  om_get k (fold_left (rank_add v) (flowPathForStages row sts ctx) totals) =
  if decide (k ∈ sts)
  then (λ st, om_upsert rank_key rank_init rank_upd st (NODE_BUILDERS k row ctx, v))
         <$> om_get k totals
  else om_get k totals.
Proof.
  revert totals. induction sts as [|s sts IH]; intros totals Hnd.
  - by rewrite decide_False by set_solver.
  - apply NoDup_cons in Hnd as [Hs Hnd].
    change (flowPathForStages row (s :: sts) ctx)
      with (NODE_BUILDERS s row ctx :: flowPathForStages row sts ctx). cbn [fold_left].
    rewrite (IH _ Hnd), rank_add_get, NODE_BUILDERS_kind.
    destruct (decide (k = s)) as [->|Hne].
    + rewrite decide_False by done. by rewrite decide_True by set_solver.
    + destruct (decide (k ∈ sts)); [rewrite decide_True|rewrite decide_False]; done || set_solver.
Qed.

Lemma init_totals_get k sts :
  om_get k (fold_left (λ totals stage, om_set stage [] totals) sts
    ([] : list (FlowNodeKind * list (jsstr * FlowNodeRank))))
  = if decide (k ∈ sts) then Some [] else None.
Proof.
  induction sts as [|s sts IH] using rev_ind; [by rewrite decide_False by set_solver|].
  rewrite fold_left_app. simpl. destruct (decide (k = s)) as [->|Hne].
  - rewrite om_get_set_eq, decide_True by set_solver. done.
  - rewrite om_get_set_ne, IH by done.
    destruct (decide (k ∈ sts)); [rewrite decide_True|rewrite decide_False]; done || set_solver.
Qed.

Lemma fold_wf {A B} (P : B → Prop) (f : B → A → B) l b :
  P b → (∀ b a, P b → P (f b a)) → P (fold_left f l b).
Proof. revert b. induction l; simpl; eauto. Qed.

Lemma buildTotals_wf rs : om_wf (buildTotals rs metric stages ctx).
Proof.
  unfold buildTotals. apply fold_wf; [apply fold_wf; [apply NoDup_nil_2|]|].
  - intros. by apply om_set_wf.
  - intros m row Hm. apply fold_wf; [done|]. intros m' n Hm'. unfold om_wf.
    by rewrite rank_add_keys.
Qed.

Lemma buildTotals_get k :
  k ∈ stages → om_get k (buildTotals rows metric stages ctx) = Some (ranks_of k rows).
Proof.
  intros Hk. unfold buildTotals, ranks_of.
  induction rows as [|row rs IH] using rev_ind.
  - simpl. by rewrite init_totals_get, decide_True.
  - rewrite fold_left_app. simpl. rewrite rank_path_get, decide_True by done. rewrite IH. simpl.
    unfold rank_events. rewrite fmap_app. simpl. by rewrite om_group_snoc.
Qed.

Lemma topSets_get limit k :
  0 < limit → k ∈ stages →
  (buildTopNodeSets rows metric stages (Some limit) ctx ≫= om_get k)
  = Some (os_of_list (topIds limit (ranks_of k rows))).
Proof.
  intros Hl Hk. unfold buildTopNodeSets. destruct (Z.eqb_spec limit 0); [lia|]. simpl.
  rewrite om_get_fold_map by apply buildTotals_wf. by rewrite buildTotals_get.
Qed.

(** Every rank of a stage carries the id it is filed under and its total. *)
Lemma ranks_of_spec k rank :
  rank ∈ om_values (ranks_of k rows) →
  rank_value rank = stage_total k (p_id (rank_node rank))
  ∧ om_get (p_id (rank_node rank)) (ranks_of k rows) = Some rank.
Proof.
  intros ([id r] & -> & Hget)%list_elem_of_fmap. simpl.
  apply elem_om_get in Hget; [|apply om_group_wf].
  assert (p_id (rank_node r) = id) as ->.
  { destruct (om_group_static rank_key rank_init rank_upd (λ r, p_id (rank_node r))
      (rank_events k rows) id r) as (e & _ & <- & ->); done. }
  split; [|done].
  pose proof (om_group_count rank_key rank_init rank_upd rank_value snd
    (λ _, eq_refl) (λ _ _, eq_refl) (rank_events k rows) id) as Hc.
  unfold ranks_of in Hget. rewrite Hget in Hc. simpl in Hc. rewrite Hc.
  unfold rank_events. rewrite zsum_map. apply zsum_ext. intros row _. unfold is_eq, rank_key.
  simpl. rewrite bool_decide_decide. by case_decide.
Qed.

Lemma ranks_of_complete k row :
  row ∈ rows → ∃ rank, rank ∈ om_values (ranks_of k rows)
                       ∧ p_id (rank_node rank) = p_id (NODE_BUILDERS k row ctx).
Proof.
  intros Hrow.
  assert (p_id (NODE_BUILDERS k row ctx) ∈ om_keys (ranks_of k rows)) as Hin.
  { apply om_group_keys. exists (NODE_BUILDERS k row ctx, row_value row). split; [|done].
    by apply (list_elem_of_fmap_2 (λ row, (NODE_BUILDERS k row ctx, row_value row))). }
  destruct (om_get (p_id (NODE_BUILDERS k row ctx)) (ranks_of k rows)) as [r|] eqn:Eg.
  - exists r. split.
    + apply om_get_elem in Eg. apply list_elem_of_fmap. by eexists (_, r).
    + by destruct (om_group_static rank_key rank_init rank_upd (λ r, p_id (rank_node r))
        (rank_events k rows) _ r ltac:(done) Eg) as (e & _ & <- & ->).
  - by apply om_get_None in Eg.
Qed.

Lemma compare_ranks_comparison : LocaleLaws E → Comparison compare_ranks.
Proof.
  intros HL. apply (comparison_or (λ a b, rank_value b - rank_value a)); [apply comparison_desc|].
  apply (comparison_or (λ a b, localeCompare (p_label (rank_node a)) (p_label (rank_node b))));
    [apply (comparison_proj (λ r, p_label (rank_node r)))
    |apply (comparison_proj (λ r, p_id (rank_node r)))]; apply HL.
Qed.

Lemma compare_ranks_value a b : compare_ranks a b ≤ 0 → rank_value b ≤ rank_value a.
Proof. unfold compare_ranks, cmp_or. destruct (Z.eqb_spec (rank_value b - rank_value a) 0); lia. Qed.

Lemma isTop_spec limit k row :
  0 < limit → k ∈ stages →
  isTopFlowNode (NODE_BUILDERS k row ctx) (buildTopNodeSets rows metric stages (Some limit) ctx)
  = bool_decide (p_id (NODE_BUILDERS k row ctx) ∈ topIds limit (ranks_of k rows)).
Proof.
  intros Hl Hk. unfold isTopFlowNode. rewrite NODE_BUILDERS_kind, topSets_get by done.
  apply bool_decide_ext. apply elem_of_os_of_list.
Qed.

Lemma StronglySorted_split {A} (R : A → A → Prop) n (l : list A) x y :
  StronglySorted R l → x ∈ take n l → y ∈ drop n l → R x y.
Proof.
  intros Hs. rewrite <- (take_drop n l) in Hs at 1. intros Hx Hy.
  induction (take n l) as [|z l' IH]; [set_solver|].
  apply StronglySorted_inv in Hs as [Hs Hz].
  apply elem_of_cons in Hx as [->|Hx]; [|auto].
  rewrite Forall_forall in Hz. apply Hz. set_solver.
Qed.

(** The top-node limit keeps the heaviest nodes.  With a limit, of two nodes
    of a stage of which the first is kept and the second overflows, the second
    never has the larger total over the rows. *)
Theorem top_nodes_are_heaviest limit k row1 row2 :
  LocaleLaws E → 0 < limit → k ∈ stages → row1 ∈ rows → row2 ∈ rows →
  let sets := buildTopNodeSets rows metric stages (Some limit) ctx in
  isTopFlowNode (NODE_BUILDERS k row1 ctx) sets = true →
  isTopFlowNode (NODE_BUILDERS k row2 ctx) sets = false →
  stage_total k (p_id (NODE_BUILDERS k row2 ctx)) ≤ stage_total k (p_id (NODE_BUILDERS k row1 ctx)).
Proof.
  intros HL Hl Hk H1 H2 sets. unfold sets. rewrite !isTop_spec by done. intros Hin Hout.
  bool_hyps. apply list_elem_of_fmap in Hin as (r1 & -> & Hr1).
  destruct (ranks_of_complete k row2 H2) as (r2 & Hr2 & Hid2). rewrite <- Hid2 in Hout |- *.
  assert (r2 ∈ drop (Z.to_nat limit) (js_sort compare_ranks (om_values (ranks_of k rows)))) as Hd.
  { rewrite <- (js_sort_perm compare_ranks), <- (take_drop (Z.to_nat limit)) in Hr2.
    apply elem_of_app in Hr2 as [Ht|]; [|done]. destruct Hout.
    by apply (list_elem_of_fmap_2 (λ rank, p_id (rank_node rank))). }
  assert (rank_value r2 ≤ rank_value r1) as Hle.
  { apply compare_ranks_value. eapply (StronglySorted_split (λ x y, compare_ranks x y ≤ 0));
      [|exact Hr1|exact Hd].
    apply js_sort_sorted, comparison_comparator, compare_ranks_comparison, HL. }
  assert (r1 ∈ om_values (ranks_of k rows)) as Hr1'.
  { rewrite <- (js_sort_perm compare_ranks). apply elem_of_take in Hr1 as (i & Hr1 & _).
    by eapply list_elem_of_lookup_2. }
  destruct (ranks_of_spec k r1 Hr1') as [<- _], (ranks_of_spec k r2 Hr2) as [<- _]. done.
Qed.

End ranking.

(** ** The limit on the graph *)

Lemma normalizeTopNodeLimit_pos limit z : normalizeTopNodeLimit limit = Some z → 0 < z.
Proof.
  unfold normalizeTopNodeLimit. destruct limit as [limit|]; [|done].
  destruct (is_finite (num_floor limit) && num_ltb (num_of_Z 0) (num_floor limit)) eqn:H; [|done].
  bool_hyps. destruct (num_floor limit) as [s|s| |s m e]; try done. destruct s; [done|]. simpl.
  destruct (0 <=? e) eqn:He; bool_hyps; [intros [= <-]; lia|].
  destruct (Zpos m mod 2 ^ (- e) =? 0) eqn:Hm; [|done]. bool_hyps. intros [= <-].
  pose proof (Z.div_mod (Zpos m) (2 ^ (- e)) ltac:(lia)). nia.
Qed.

Lemma applyTopNodeLimit_nodes {E : FlowEnv} path sets mode labeler path' n :
  applyTopNodeLimit path sets mode labeler = Some path' → n ∈ path' →
  (n ∈ path ∧ isTopFlowNode n sets = true)
  ∨ (mode = OAggregate ∧ ∃ n0, n0 ∈ path ∧ n = otherFlowNode (p_kind n0) labeler).
Proof.
  unfold applyTopNodeLimit. destruct sets as [sets|]; [|intros [= <-]; eauto].
  destruct (existsb _ path) eqn:Hex; simpl.
  - destruct mode; [|done]. intros [= <-] (n0 & -> & Hn)%list_elem_of_fmap.
    destruct (isTopFlowNode n0 (Some sets)) eqn:Ht; eauto.
  - intros [= <-] Hn. left. split; [done|]. apply not_false_is_true. intros Ht.
    assert (existsb (λ n, negb (isTopFlowNode n (Some sets))) path = true) by
      (apply existsb_exists; exists n; by rewrite <- list_elem_of_In, Ht). congruence.
Qed.

Section shown.
Context {E : FlowEnv}.
Context (rows : list FlowQuotaDataItem) (metric : FlowMetric) (role : FlowRole)
  (palette : option (list jsstr)) (visibleStages : option (list FlowNodeKind))
  (ctx : FlowPathContext) (options : FlowGraphOptions).

Abbreviation stages := (resolveVisibleStages role visibleStages).
Abbreviation paths := (preparedPathsOf rows metric stages ctx options).
Abbreviation graph := (buildFlowGraph rows metric role palette visibleStages ctx options).
Abbreviation mode := (default OAggregate (overflowMode options)).

(** Every id occurs once in the graph. *)
Lemma graph_ids_NoDup : NoDup (n_id <$> g_nodes graph).
Proof.
  rewrite graph_nodes_perm by (done || apply mask_node_id).
  assert (n_id <$> om_values (nodes_of metric palette paths)
          = om_keys (nodes_of metric palette paths)) as ->; [|apply om_group_wf].
  unfold om_values, om_keys. rewrite <- list_fmap_compose. apply list_fmap_ext.
  intros i [k n] Hin%list_elem_of_lookup_2. simpl. apply elem_om_get in Hin; [|apply om_group_wf].
  by destruct (om_group_static node_key node_init (node_upd metric) n_id _ _ _ ltac:(done) Hin)
    as (e & _ & <- & ->).
Qed.

Lemma shown_node_cases limit n :
  normalizeTopNodeLimit (topNodeLimit options) = Some limit → n ∈ g_nodes graph →
  n_id n ∈ topIds limit (ranks_of metric ctx (n_kind n) rows)
  ∨ (mode = OAggregate ∧ n_id n = OTHER_FLOW_NODE_IDS (n_kind n)).
Proof.
  intros Hlim Hn.
  destruct (graph_node_value _ _ _ _ _ _ _ FValue n Hn) as (_ & p & pn & Hp & Hpn & <- & <-).
  unfold preparedPathsOf in Hp. rewrite preparePaths_omap in Hp.
  apply list_elem_of_omap in Hp as (row & Hrow & (path & Hpath & ->)%fmap_Some). simpl in Hpn.
  rewrite Hlim in Hpath.
  destruct (applyTopNodeLimit_nodes _ _ _ _ _ _ Hpath Hpn) as [[Hin Htop]|(-> & n0 & _ & ->)];
    [left|by right].
  apply list_elem_of_fmap in Hin as (k & -> & Hk). rewrite NODE_BUILDERS_kind.
  rewrite isTop_spec in Htop; [by bool_hyps|apply resolveVisibleStages_NoDup| |done].
  by eapply normalizeTopNodeLimit_pos.
Qed.

(** C28: the top-node limit bounds what is shown.  With a valid limit every
    visible stage has at most that many nodes when overflowing rows are hidden,
    and at most one more, the "other" node, when they are aggregated. *)
Theorem top_limit_bound limit k :
  normalizeTopNodeLimit (topNodeLimit options) = Some limit →
  Z.of_nat (length (filter (λ n, n_kind n = k) (g_nodes graph)))
  ≤ limit + (match mode with OHide => 0 | OAggregate => 1 end).
Proof.
  intros Hlim. pose proof (normalizeTopNodeLimit_pos _ _ Hlim) as Hpos.
  set (top := topIds limit (ranks_of metric ctx k rows)).
  set (extra := match mode with OHide => [] | OAggregate => [OTHER_FLOW_NODE_IDS k] end).
  assert (length top ≤ Z.to_nat limit)%nat as Htop.
  { unfold top, topIds. rewrite length_fmap, length_take. lia. }
  rewrite <- (length_fmap n_id).
  assert (length (n_id <$> filter (λ n, n_kind n = k) (g_nodes graph))
          ≤ length (top ++ extra))%nat as Hlen.
  { apply NoDup_incl_length.
    - apply NoDup_ListNoDup. eapply sublist_NoDup; [apply graph_ids_NoDup|].
      apply fmap_sublist, sublist_filter.
    - intros id Hid. apply list_elem_of_In in Hid. apply list_elem_of_In.
      apply list_elem_of_fmap in Hid as (n & -> & [Hk Hn]%list_elem_of_filter).
      apply elem_of_app. destruct (shown_node_cases limit n Hlim Hn) as [Hin|[Hm Hid]].
      + left. unfold top. by rewrite <- Hk.
      + right. unfold extra. rewrite Hm, Hid, Hk. left. }
  rewrite length_app in Hlen.
  assert (Z.of_nat (length extra) = match mode with OHide => 0 | OAggregate => 1 end) as <-
    by (unfold extra; by destruct mode). lia.
Qed.

(** ** Highlighting *)

Abbreviation matches p := (matchesPath (activeNode options) (activeLink options) (pp_path p)).
Abbreviation sets := (buildFlowHighlightSets paths (activeNode options) (activeLink options) stages).

(** The selection is one the code acts on and some drawn path goes through it. *)
Definition selection_lit : bool :=
  (match activeNode options with
   | Some f => bool_decide (f_kind f ∈ stages)
   | None => false
   end || bool_decide (is_Some (activeLink options)))
  && existsb (λ p, matches p) paths.

Lemma os_add_fold {A B} `{EqDecision B} (g : A → B) l (acc : list B) x :
  x ∈ fold_left (λ s a, os_add s (g a)) l acc ↔ x ∈ acc ∨ x ∈ g <$> l.
Proof.
  revert acc. induction l as [|a l IH]; intros acc; csimpl; [set_solver|].
  rewrite IH, elem_of_os_add. set_solver.
Qed.

Lemma exists_elem_cons {A} (Q : A → Prop) a (l : list A) :
  (∃ x, x ∈ a :: l ∧ Q x) ↔ Q a ∨ ∃ x, x ∈ l ∧ Q x.
Proof.
  split.
  - intros (x & [->|Hx]%elem_of_cons & HQ); eauto.
  - intros [HQ|(x & Hx & HQ)]; [exists a|exists x]; (split; [|done]); [left|by right].
Qed.

Lemma highlight_fold ps s0 :
  let s := fold_left (λ sets prepared, if negb (matches prepared) then sets
             else highlight_path sets (pp_path prepared)) ps s0 in
  (∀ x, x ∈ h_nodes s ↔ x ∈ h_nodes s0
        ∨ ∃ p, p ∈ ps ∧ matches p = true ∧ x ∈ p_id <$> pp_path p)
  ∧ (∀ x, x ∈ h_links s ↔ x ∈ h_links s0
        ∨ ∃ p, p ∈ ps ∧ matches p = true ∧ x ∈ (λ st, pathLinkKey st.1 st.2) <$> steps (pp_path p)).
Proof.
  revert s0. induction ps as [|p ps IH]; intros s0; cbn [fold_left].
  { split; intros x; (split; [tauto|]); intros [?|(p & []%elem_of_nil & _)]; done. }
  edestruct (IH (if negb (matches p) then s0 else highlight_path s0 (pp_path p))) as [Hn Hl].
  clear IH. split; intros x; [rewrite Hn|rewrite Hl]; rewrite exists_elem_cons; clear Hn Hl;
    destruct (matches p); cbn [negb]; [|intuition congruence| |intuition congruence].
  - unfold highlight_path. cbn [h_nodes]. rewrite os_add_fold. intuition.
  - unfold highlight_path. cbn [h_links].
    rewrite (fold_left_ext _ (λ s st, os_add s (pathLinkKey st.1 st.2))) by (by intros ? []).
    rewrite os_add_fold. intuition.
Qed.

Lemma path_nonempty p : p ∈ paths → pp_path p ≠ [].
Proof.
  intros Hp Hnil. apply preparedPathsOf_ok in Hp as Hok. pose proof (path_kinds Hok) as Hk.
  rewrite Hnil in Hk. pose proof (resolveVisibleStages_length role visibleStages) as Hlen.
  rewrite <- Hk in Hlen. simpl in Hlen. lia.
Qed.

Lemma sets_spec :
  if selection_lit then
    ∃ s, sets = Some s
      ∧ (∀ x, x ∈ h_nodes s ↔ ∃ p, p ∈ paths ∧ matches p = true ∧ x ∈ p_id <$> pp_path p)
      ∧ (∀ x, x ∈ h_links s ↔ ∃ p, p ∈ paths ∧ matches p = true
            ∧ x ∈ (λ st, pathLinkKey st.1 st.2) <$> steps (pp_path p))
  else sets = None.
Proof.
  unfold selection_lit, buildFlowHighlightSets.
  set (nodeActive := match activeNode options with
                     | Some f => bool_decide (f_kind f ∈ stages) | None => false end).
  rewrite <- negb_orb.
  destruct (nodeActive || bool_decide (is_Some (activeLink options))); simpl; [|done].
  destruct (highlight_fold paths {| h_nodes := []; h_links := [] |}) as [Hn Hl].
  revert Hn Hl. generalize (fold_left (λ sets prepared, if negb (matches prepared) then sets
             else highlight_path sets (pp_path prepared)) paths {| h_nodes := []; h_links := [] |}).
  intros s Hn Hl. destruct (existsb (λ p, matches p) paths) eqn:Hex.
  - apply existsb_exists in Hex as (p & Hp%list_elem_of_In & Hm).
    pose proof (path_nonempty p Hp) as Hne. destruct (pp_path p) as [|n l] eqn:Ep; [done|].
    destruct (h_nodes s) as [|x xs] eqn:Es.
    + exfalso. assert (p_id n ∈ ([] : list jsstr)) as []%elem_of_nil. apply Hn. right.
      exists p. rewrite Ep. split; [done|]. split; [done|]. left.
    + exists s. split; [done|]. rewrite Es.
      split; intros y; [rewrite Hn|rewrite Hl]; cbn [h_nodes h_links]; rewrite elem_of_nil; tauto.
  - destruct (h_nodes s) as [|x xs] eqn:Es; [done|]. exfalso.
    assert (x ∈ x :: xs) as Hx by left. apply Hn in Hx as [[]%elem_of_nil|(p & Hp & Hm & _)].
    assert (existsb (λ p, matches p) paths = true); [|congruence].
    apply existsb_exists. exists p. by rewrite <- list_elem_of_In.
Qed.

Lemma shown_node_flags n :
  n ∈ g_nodes graph →
  (n_highlighted n, n_dimmed n) =
  match sets with
  | None => (None, None)
  | Some s => let b := bool_decide (n_id n ∈ h_nodes s) in (Some b, Some (negb b))
  end.
Proof.
  pose proof (the_graph_eq rows metric role palette visibleStages ctx options) as Hg.
  unfold the_graph in Hg. rewrite Hg. simpl. rewrite elem_of_js_sort.
  intros (n1 & -> & (n0 & -> & Hn0)%list_elem_of_fmap)%list_elem_of_fmap.
  unfold highlight_node, the_sets, the_paths, the_stages. destruct sets; [done|].
  apply list_elem_of_fmap in Hn0 as ([k n2] & -> & Hn2). simpl.
  apply elem_om_get in Hn2; [|apply om_group_wf].
  destruct (om_group_static node_key node_init (node_upd metric)
    (λ n, (n_highlighted n, n_dimmed n)) _ _ _ ltac:(done) Hn2) as (e & _ & _ & Hst).
  simpl in Hst. rewrite <- Hst. unfold mask_node_if, mask_node. by repeat case_match.
Qed.

Lemma shown_link_flags l :
  l ∈ g_links graph →
  (l_highlighted l, l_dimmed l) =
  match sets with
  | None => (None, None)
  | Some s => let b := bool_decide (linkStableKey l ∈ h_links s) in (Some b, Some (negb b))
  end.
Proof.
  intros Hl. pose (h l := (linkStableKey l, l_highlighted l, l_dimmed l)).
  assert (h l ∈ h <$> g_links graph) as Hin by by apply list_elem_of_fmap_2.
  pose proof (the_graph_eq rows metric role palette visibleStages ctx options) as Hg.
  unfold the_graph in Hg. rewrite Hg in Hin. simpl in Hin.
  rewrite assignLinkDisplayColors_proj in Hin by done.
  apply list_elem_of_fmap in Hin as (l1 & [= -> -> ->] & Hin).
  apply list_elem_of_fmap in Hin as (l2 & -> & Hin). unfold drawn_links in Hin.
  rewrite elem_of_js_sort in Hin.
  apply list_elem_of_fmap in Hin as (l3 & -> & Hin).
  apply list_elem_of_fmap in Hin as (l4 & -> & Hin).
  unfold highlight_link, the_sets, the_paths, the_stages. destruct sets; [done|].
  apply list_elem_of_fmap in Hin as ([k l5] & -> & Hin). simpl.
  apply elem_om_get in Hin; [|apply om_group_wf].
  destruct (om_group_static link_event_key link_init (link_upd metric)
    (λ l, (l_highlighted l, l_dimmed l)) _ _ _ ltac:(done) Hin) as (e & _ & _ & Hst).
  simpl in Hst. rewrite <- Hst. unfold mask_link_if. by repeat case_match.
Qed.

(** A selection lights exactly the paths through it.  When the active link
    (or, without one, the active node of a visible kind) lies on a drawn path,
    every node and every link is either highlighted or dimmed, and it is
    highlighted exactly when some drawn path through the selection goes through
    it; otherwise nothing is highlighted and nothing is dimmed. *)
Theorem highlight_spec :
  if selection_lit then
    (∀ n, n ∈ g_nodes graph → ∃ b, n_highlighted n = Some b ∧ n_dimmed n = Some (negb b)
       ∧ (b = true ↔ ∃ p, p ∈ paths ∧ matches p = true ∧ n_id n ∈ p_id <$> pp_path p))
    ∧ (∀ l, l ∈ g_links graph → ∃ b, l_highlighted l = Some b ∧ l_dimmed l = Some (negb b)
       ∧ (b = true ↔ ∃ p, p ∈ paths ∧ matches p = true
             ∧ linkStableKey l ∈ (λ st, pathLinkKey st.1 st.2) <$> steps (pp_path p)))
  else
    (∀ n, n ∈ g_nodes graph → n_highlighted n = None ∧ n_dimmed n = None)
    ∧ (∀ l, l ∈ g_links graph → l_highlighted l = None ∧ l_dimmed l = None).
Proof.
  pose proof sets_spec as Hs. destruct selection_lit.
  - destruct Hs as (s & Hs & Hn & Hl). split.
    + intros n Hin. apply shown_node_flags in Hin as Hf. rewrite Hs in Hf. injection Hf as H1 H2.
      eexists. split; [exact H1|]. split; [exact H2|]. by rewrite bool_decide_eq_true, Hn.
    + intros l Hin. apply shown_link_flags in Hin as Hf. rewrite Hs in Hf. injection Hf as H1 H2.
      eexists. split; [exact H1|]. split; [exact H2|]. by rewrite bool_decide_eq_true, Hl.
  - split; [intros n Hin%shown_node_flags|intros l Hin%shown_link_flags]; rewrite Hs in Hin;
      by injection Hin.
Qed.

(** ** Masking *)

Lemma the_ids_NoDup : NoDup (n_id <$> om_values (nodes_of metric palette paths)).
Proof.
  pose proof graph_ids_NoDup as H. by rewrite graph_nodes_perm in H by (done || apply mask_node_id).
Qed.

Lemma masked_fold_get (vals : list DashboardFlowNode) (acc : list (jsstr * jsstr)) id :
  NoDup (n_id <$> vals) →
  om_get id (fold_left (λ m node,
      if is_masked_node node then om_set (n_id node) (maskFlowLabel (n_label node)) m else m)
    vals acc)
  = match List.find (λ n, is_eq id (n_id n)) vals with
    | Some n => if is_masked_node n then Some (maskFlowLabel (n_label n)) else om_get id acc
    | None => om_get id acc
    end.
Proof.
  revert acc. induction vals as [|v vals IH]; intros acc Hnd; simpl; [done|].
  apply NoDup_cons in Hnd as [Hv Hnd]. rewrite IH by done.
  unfold is_eq at 2. case_bool_decide as Hid.
  - subst id. destruct (List.find _ vals) as [n|] eqn:Ef.
    + apply find_some in Ef as [Hin Heq]. unfold is_eq in Heq. bool_hyps.
      destruct Hv. rewrite <- Heq. by apply list_elem_of_fmap_2, list_elem_of_In.
    + destruct (is_masked_node v); [by rewrite om_get_set_eq|done].
  - assert (om_get id (if is_masked_node v
        then om_set (n_id v) (maskFlowLabel (n_label v)) acc else acc) = om_get id acc) as ->.
    { destruct (is_masked_node v); [by rewrite om_get_set_ne by done|done]. }
    done.
Qed.

Lemma find_unique_id vals n :
  NoDup (n_id <$> vals) → n ∈ vals → List.find (λ x, is_eq (n_id n) (n_id x)) vals = Some n.
Proof.
  induction vals as [|v vals IH]; [set_solver|]. intros [Hv Hnd]%NoDup_cons Hin. simpl.
  unfold is_eq at 1. case_bool_decide as Hid.
  - apply elem_of_cons in Hin as [->|Hin]; [done|]. destruct Hv. rewrite Hid.
    by apply list_elem_of_fmap_2.
  - apply elem_of_cons in Hin as [->|Hin]; [done|]. by apply IH.
Qed.

(** A node of the masked graph and the node it was accumulated as. *)
Lemma masked_node_origin n :
  maskSensitive options = true → n ∈ g_nodes graph →
  ∃ n0, n0 ∈ om_values (nodes_of metric palette paths)
    ∧ n_id n = n_id n0 ∧ n_kind n = n_kind n0
    ∧ n_label n = if is_masked_node n0 then maskFlowLabel (n_label n0) else n_label n0.
Proof.
  intros Hmask Hn.
  pose proof (the_graph_eq rows metric role palette visibleStages ctx options) as Hg.
  unfold the_graph in Hg. rewrite Hg in Hn. simpl in Hn. rewrite elem_of_js_sort in Hn.
  apply list_elem_of_fmap in Hn as (n1 & -> & (n0 & -> & Hn0)%list_elem_of_fmap).
  exists n0. split; [done|]. unfold highlight_node, mask_node_if, mask_node. rewrite Hmask.
  destruct (the_sets _ _ _ _ _), (is_masked_node n0); done.
Qed.

Lemma is_masked_node_cong n1 n2 :
  n_id n1 = n_id n2 → n_kind n1 = n_kind n2 → is_masked_node n1 = is_masked_node n2.
Proof. unfold is_masked_node. by intros -> ->. Qed.

Lemma maskFlowLabel_cases s : maskFlowLabel s = [] ∨ maskFlowLabel s = FLOW_MASK_TEXT.
Proof. destruct s; [by left|by right]. Qed.

(** The ids of the nodes that stand for overflowing ones. *)
Definition other_ids : list jsstr :=
  [$"user:__other__"; $"node:__other__"; $"token:__other__"; $"group:__other__"; $"model:__other__"; $"channel:__other__"].

Lemma sensitive_masked n : n_kind n ≠ KModel → n_id n ∉ other_ids → is_masked_node n = true.
Proof using.
  intros Hk Hid. unfold is_masked_node. apply andb_true_iff. split; [|by apply negb_true_iff, bool_decide_eq_false_2].
  apply bool_decide_eq_true_2. unfold SENSITIVE_FLOW_KINDS. rewrite !elem_of_cons. destruct (n_kind n); tauto.
Qed.

(** C30: with masking on, no sensitive label is shown.  The label of every node that
    is no model, so every user, node, token, group and channel, is empty or the
    mask text, and so is every link label that names one of them; except for the six
    ids of the synthetic "other" nodes (which a group or user of the name [__other__]
    has as well). *)
Theorem masking_hides_labels n :
  maskSensitive options = true → n ∈ g_nodes graph → n_kind n ≠ KModel → n_id n ∉ other_ids →
  (n_label n = [] ∨ n_label n = FLOW_MASK_TEXT)
  ∧ ∀ l, l ∈ g_links graph →
      (l_source l = n_id n → l_sourceLabel l = n_label n)
      ∧ (l_target l = n_id n → l_targetLabel l = n_label n).
Proof.
  intros Hmask Hn Hk Hother. pose proof (sensitive_masked n Hk Hother) as Hm. destruct (masked_node_origin n Hmask Hn) as (n0 & Hn0 & Hid & Hkind & Hlab).
  rewrite (is_masked_node_cong _ _ Hid Hkind) in Hm. rewrite Hm in Hlab. rewrite Hlab.
  split; [apply maskFlowLabel_cases|]. intros l Hl.
  assert (om_get (n_id n) (maskedById (nodes_of metric palette paths))
          = Some (maskFlowLabel (n_label n0))) as Hget.
  { unfold maskedById. rewrite masked_fold_get by apply the_ids_NoDup.
    rewrite Hid, (find_unique_id _ n0) by (done || apply the_ids_NoDup). by rewrite Hm. }
  pose (h l := (l_source l, l_target l, l_sourceLabel l, l_targetLabel l)).
  assert (h l ∈ h <$> g_links graph) as Hin by by apply list_elem_of_fmap_2.
  pose proof (the_graph_eq rows metric role palette visibleStages ctx options) as Hg.
  unfold the_graph in Hg. rewrite Hg in Hin. simpl in Hin.
  rewrite assignLinkDisplayColors_proj in Hin by done.
  apply list_elem_of_fmap in Hin as (l1 & [= -> -> -> ->] & Hin).
  apply list_elem_of_fmap in Hin as (l2 & -> & Hin). unfold drawn_links in Hin.
  rewrite elem_of_js_sort in Hin.
  apply list_elem_of_fmap in Hin as (l3 & -> & (l4 & -> & _)%list_elem_of_fmap).
  unfold highlight_link, mask_link_if. rewrite Hmask.
  unfold the_nodes, the_paths, the_stages.
  destruct (the_sets _ _ _ _ _); simpl; split; intros ->; by rewrite Hget.
Qed.

End shown.

Definition set_maskSensitive (b : bool) (o : FlowGraphOptions) : FlowGraphOptions :=
  {| topNodeLimit := topNodeLimit o; overflowMode := overflowMode o;
     otherNodeLabel := otherNodeLabel o; activeNode := activeNode o;
     activeLink := activeLink o; maskSensitive := b |}.

Definition node_shape (n : DashboardFlowNode) : jsstr * FlowNodeKind * list Z * jsstr :=
  (n_id n, n_kind n, (λ f, node_field f n) <$> [FValue; FRequests; FQuota; FTokens], n_color n).
Definition link_shape (l : DashboardFlowLink) : jsstr * jsstr * list Z * jsstr :=
  (l_source l, l_target l, (λ f, link_field f l) <$> [FValue; FRequests; FQuota; FTokens], l_color l).

(** Masking changes labels only.  The masked and the unmasked graph have the
    same nodes and links up to order: the same ids, kinds, ends, counters and
    colours. *)
Theorem masking_keeps_shape {E : FlowEnv} rows metric role palette visibleStages ctx options :
  let g b := buildFlowGraph rows metric role palette visibleStages ctx
               (set_maskSensitive b options) in
  node_shape <$> g_nodes (g true) ≡ₚ node_shape <$> g_nodes (g false)
  ∧ link_shape <$> g_links (g true) ≡ₚ link_shape <$> g_links (g false).
Proof.
  assert (∀ n, node_shape (mask_node n) = node_shape n) as Hm.
  { intros n. unfold mask_node. by case_match. }
  split.
  - etrans; [|symmetry].
    + by apply (graph_nodes_perm rows metric role palette visibleStages ctx
                  (set_maskSensitive true options)).
    + by apply (graph_nodes_perm rows metric role palette visibleStages ctx
                  (set_maskSensitive false options)).
  - etrans; [|symmetry].
    + by apply (graph_links_perm rows metric role palette visibleStages ctx
                  (set_maskSensitive true options)).
    + by apply (graph_links_perm rows metric role palette visibleStages ctx
                  (set_maskSensitive false options)).
Qed.
