(* ===== verification/FlowDashboard.v ===== *)
(** * Usage-flow dashboard: filter options, the page data, the chart data

    The rest of [features/dashboard/lib/flow.ts] ([buildUserFilterOptions],
    [buildNodeFilterOptions], [buildFlowFilterOptions],
    [buildDashboardFlowData], the nodes and links of [buildFlowSankeySpec]) and
    [features/dashboard/lib/flow-selection.ts]. *)

From S2P Require Import Prelude JsString JsNumber JsValue OrderedMap.
From S2P Require Import FlowModel FlowGraph FlowFacts FlowView.

Local Open Scope js_scope.

Record FlowUserFilterOption := {
  uo_value : jsstr; uo_label : jsstr; uo_valueLabel : jsstr; uo_valueRaw : Z; uo_color : jsstr }.

Record FlowNodeFilterOption := {
  no_kind : FlowNodeKind; no_value : jsstr; no_label : jsstr;
  no_valueLabel : jsstr; no_valueRaw : Z; no_color : jsstr }.

Record FlowFilterOptions := {
  fo_users : list FlowUserFilterOption;
  fo_nodes : list FlowNodeFilterOption }.

Record ProcessedFlowData := {
  pd_summary : FlowMetrics;
  pd_flow : DashboardFlowGraph;
  pd_filterOptions : FlowFilterOptions }.

Record FlowBuildOptions := {
  bo_role : option FlowRole;
  bo_selectedUsers : option (list jsstr);
  bo_selectedNodes : option (list FlowNodeFilter);
  bo_activeNode : option FlowNodeFilter;
  bo_activeLink : option FlowLinkSelection;
  bo_colorPalette : option (list jsstr);
  bo_visibleStages : option (list FlowNodeKind);
  bo_topNodeLimit : option number;
  bo_overflowMode : option FlowOverflowMode;
  bo_maskSensitive : bool;
  bo_deletedTokenLabel : option (Z → jsstr);
  bo_otherNodeLabel : option (FlowNodeKind → jsstr) }.

Definition EMPTY_FLOW_PATH_CONTEXT : FlowPathContext := {| deletedTokenLabel_cb := None |}.
Definition DEFAULT_FLOW_ROLE : FlowRole := RUser.

(** The accumulator of one user: [{ label, value, color }]. *)
Record UserTotal := { ut_label : jsstr; ut_value : Z; ut_color : jsstr }.

Section dashboard.
Context {E : FlowEnv}.

(** [!row.user_id && !row.username] *)
Definition has_no_user (row : FlowQuotaDataItem) : bool :=
  (numberValue (user_id row) =? 0) && negb (truthy (username row)).

Definition user_add (metric : FlowMetric) (colors : list (jsstr * jsstr))
    (palette : option (list jsstr)) (users : list (jsstr * UserTotal)) (row : FlowQuotaDataItem)
    : list (jsstr * UserTotal) :=
  let user := userNode row in
  if has_no_user row then users
  else
    let value := metricValue (rowMetrics row) metric in
    let current := default
      {| ut_label := p_label user; ut_value := 0;
         ut_color := default (colorAt 0 palette) (om_get (p_id user) colors) |}
      (om_get (p_id user) users) in
    om_set (p_id user)
      {| ut_label := ut_label current; ut_value := ut_value current + value;
         ut_color := ut_color current |} users.

Definition compare_user_options (a b : FlowUserFilterOption) : Z :=
  cmp_or (uo_valueRaw b - uo_valueRaw a) (localeCompare (uo_label a) (uo_label b)).

Definition user_option (entry : jsstr * UserTotal) : FlowUserFilterOption :=
  {| uo_value := entry.1; uo_label := ut_label entry.2;
     uo_valueLabel := formatNumber (ut_value entry.2);
     uo_valueRaw := ut_value entry.2; uo_color := ut_color entry.2 |}.

Definition buildUserFilterOptions (rows : list FlowQuotaDataItem) (metric : FlowMetric)
    (palette : option (list jsstr)) : list FlowUserFilterOption :=
  let colors := stableColorMap
    (js_sort localeCompare ((λ row, p_id (userNode row)) <$> rows)) palette in
  js_sort compare_user_options
    (user_option <$> fold_left (user_add metric colors palette) rows []).

(** One row added to the totals of a stage. *)
Definition option_add (metric : FlowMetric) (stage : FlowNodeKind) (ctx : FlowPathContext)
    (totals : list (jsstr * FlowNodeRank)) (row : FlowQuotaDataItem)
    : list (jsstr * FlowNodeRank) :=
  let value := metricValue (rowMetrics row) metric in
  let node := NODE_BUILDERS stage row ctx in
  let key := nodeFilterKey {| f_kind := p_kind node; f_id := p_id node |} in
  let current := default {| rank_node := node; rank_value := 0 |} (om_get key totals) in
  om_set key {| rank_node := rank_node current; rank_value := rank_value current + value |} totals.

Definition node_option (colors : list (jsstr * jsstr)) (palette : option (list jsstr))
    (rank : FlowNodeRank) : FlowNodeFilterOption :=
  {| no_kind := p_kind (rank_node rank); no_value := p_id (rank_node rank);
     no_label := p_label (rank_node rank); no_valueLabel := formatNumber (rank_value rank);
     no_valueRaw := rank_value rank;
     no_color := default (colorAt 0 palette) (om_get (p_id (rank_node rank)) colors) |}.

Definition stageOrder (stages : list FlowNodeKind) : list (FlowNodeKind * Z) :=
  fold_left (λ m '(index, stage), om_set stage (Z.of_nat index) m) (imap pair stages) [].

Definition compare_node_options (order : list (FlowNodeKind * Z)) (a b : FlowNodeFilterOption) : Z :=
  cmp_or (default 0 (om_get (no_kind a) order) - default 0 (om_get (no_kind b) order))
    (cmp_or (no_valueRaw b - no_valueRaw a)
       (cmp_or (localeCompare (no_label a) (no_label b))
          (localeCompare (no_value a) (no_value b)))).

(** The options one stage contributes: its totals over the rows the filters of
    the other kinds keep. *)
Definition stage_options (rows : list FlowQuotaDataItem) (metric : FlowMetric)
    (stages : list FlowNodeKind) (ctx : FlowPathContext)
    (selectedNodes : option (list FlowNodeFilter)) (colors : list (jsstr * jsstr))
    (palette : option (list jsstr)) (stage : FlowNodeKind) : list FlowNodeFilterOption :=
  let candidateRows := filterRowsByNodes rows
    (selectedNodeFiltersExceptKind selectedNodes stage) stages ctx in
  node_option colors palette <$>
    om_values (fold_left (option_add metric stage ctx) candidateRows []).

Definition buildNodeFilterOptions (rows : list FlowQuotaDataItem) (metric : FlowMetric)
    (role : FlowRole) (visibleStages : option (list FlowNodeKind)) (palette : option (list jsstr))
    (ctx : FlowPathContext) (selectedNodes : option (list FlowNodeFilter))
    : list FlowNodeFilterOption :=
  let stages := resolveVisibleStages role visibleStages in
  let colorIds := os_of_list
    (flat_map (λ row, p_id <$> flowPathForStages row stages ctx) rows) in
  let colors := stableColorMap (js_sort localeCompare colorIds) palette in
  let options := flat_map (stage_options rows metric stages ctx selectedNodes colors palette)
                   stages in
  js_sort (compare_node_options (stageOrder stages)) options.

Definition buildFlowFilterOptions (rows : list FlowQuotaDataItem) (metric : FlowMetric)
    (palette : option (list jsstr)) (role : FlowRole) (visibleStages : option (list FlowNodeKind))
    (selectedNodes : option (list FlowNodeFilter)) : FlowFilterOptions :=
  {| fo_users := buildUserFilterOptions rows metric palette;
     fo_nodes := buildNodeFilterOptions rows metric role visibleStages palette
                   EMPTY_FLOW_PATH_CONTEXT selectedNodes |}.

Definition buildDashboardFlowData (rows : list FlowQuotaDataItem) (metric : FlowMetric)
    (options : FlowBuildOptions) : ProcessedFlowData :=
  let role := default DEFAULT_FLOW_ROLE (bo_role options) in
  let palette := bo_colorPalette options in
  let ctx := {| deletedTokenLabel_cb := bo_deletedTokenLabel options |} in
  let stages := resolveVisibleStages role (bo_visibleStages options) in
  let userFilteredRows := filterRows rows (bo_selectedUsers options) in
  let filteredRows := filterRowsByNodes userFilteredRows (bo_selectedNodes options) stages ctx in
  {| pd_summary := buildSummary filteredRows;
     pd_flow := buildFlowGraph filteredRows metric role palette (bo_visibleStages options) ctx
       {| topNodeLimit := bo_topNodeLimit options;
          overflowMode := bo_overflowMode options;
          otherNodeLabel := bo_otherNodeLabel options;
          activeNode := bo_activeNode options;
          activeLink := bo_activeLink options;
          maskSensitive := bo_maskSensitive options |};
     pd_filterOptions :=
       {| fo_users := buildUserFilterOptions rows metric palette;
          fo_nodes := buildNodeFilterOptions userFilteredRows metric role
                        (bo_visibleStages options) palette ctx (bo_selectedNodes options) |} |}.

(** ** The data of the chart *)

(** [Number(flag)] is [NaN] for an absent flag, and a [NaN] difference is falsy. *)
Definition flag_diff (a b : option bool) : Z :=
  match a, b with
  | Some a, Some b => Z.b2z a - Z.b2z b
  | _, _ => 0
  end.

Definition byLinkDrawPriority (a b : DashboardFlowLink) : Z :=
  cmp_or (flag_diff (l_dimmed a) (l_dimmed b))
    (cmp_or (flag_diff (l_highlighted b) (l_highlighted a))
       (cmp_or (l_value b - l_value a)
          (localeCompare (linkStableKey a) (linkStableKey b)))).

Record SankeyLink := { sl_link : DashboardFlowLink; sl_linkKey : jsstr; sl_zIndex : Z }.

Definition zIndexOf (index : Z) (link : DashboardFlowLink) : Z :=
  match l_highlighted link with
  | Some true => 1000000 + index
  | _ => match l_dimmed link with
         | Some true => index
         | _ => 100000 + index
         end
  end.

(** The links of the chart: positive values only, in drawing order. *)
Definition sankeyLinks (flow : DashboardFlowGraph) : list SankeyLink :=
  imap (λ index link,
      {| sl_link := link; sl_linkKey := linkStableKey link;
         sl_zIndex := zIndexOf (Z.of_nat index) link |})
    (js_sort byLinkDrawPriority (List.filter (λ link, 0 <? l_value link) (g_links flow))).

End dashboard.

(** ** [flow-selection.ts] *)

Inductive FlowDisplayState := DLoading | DError | DEmpty | DChart.

Record FlowResponse := {
  fr_success : bool;
  fr_data : option (list FlowQuotaDataItem);
  fr_message : jsstr }.

(** The rows, or the message of the error that is thrown. *)
Definition requireSuccessfulFlowRows (response : FlowResponse) (fallbackMessage : jsstr)
    : jsstr + list FlowQuotaDataItem :=
  if negb (fr_success response) then inl (str_or (fr_message response) fallbackMessage)
  else inr (default [] (fr_data response)).

Definition flowDisplayState (isLoading isError : bool) (linkCount : Z) (themeReady : bool)
    : FlowDisplayState :=
  if isLoading then DLoading
  else if isError then DError
  else if linkCount =? 0 then DEmpty
  else if negb themeReady then DLoading
  else DChart.

Definition compactFlowSelectionLabel (count : Z) : jsstr :=
  if 0 <? count then string_of_Z count else $"*".

Definition visibleFlowUsers (users : list FlowUserFilterOption) (selectedUsers : list jsstr)
    : list FlowUserFilterOption :=
  match selectedUsers with
  | [] => users
  | _ => let selected := os_of_list selectedUsers in
         filter (λ user, uo_value user ∈ selected) users
  end.

(** ** Row filters *)

(** What selecting nodes means: for every visible kind with a selected node, the
    node of the row at that stage is a selected one. *)
Definition selects (sel : list FlowNodeFilter) (stages : list FlowNodeKind)
    (ctx : FlowPathContext) (row : FlowQuotaDataItem) : bool :=
  forallb (λ k, match filter (λ f, f_kind f = k) sel with
                | [] => true
                | fs => existsb (λ f, is_eq (p_id (NODE_BUILDERS k row ctx)) (f_id f)) fs
                end) stages.

Definition add_kind_pair (m : list (FlowNodeKind * list jsstr)) (ki : FlowNodeKind * jsstr)
    : list (FlowNodeKind * list jsstr) := add_to_kind m ki.1 ki.2.

Lemma add_kind_fold (evs : list (FlowNodeKind * jsstr)) k :
  let m := fold_left add_kind_pair evs [] in
  om_wf m ∧ (om_get k m = None ↔ k ∉ evs.*1)
  ∧ ∀ l, om_get k m = Some l → ∀ x, x ∈ l ↔ (k, x) ∈ evs.
Proof.
  induction evs as [|[k' x'] evs IH] using rev_ind.
  { split; [apply NoDup_nil_2|]. split; [|done]. split; [intros _; apply not_elem_of_nil|done]. }
  rewrite fold_left_app. simpl. destruct IH as (Hwf & Hnone & Hsome).
  set (m := fold_left add_kind_pair evs []) in *. unfold add_kind_pair, add_to_kind. simpl.
  split; [by apply om_set_wf|]. rewrite fmap_app. simpl. destruct (decide (k = k')) as [->|Hne].
  - rewrite om_get_set_eq. split; [split; [done|set_solver]|]. intros l [= <-] x.
    rewrite elem_of_os_add, elem_of_app, list_elem_of_singleton.
    destruct (om_get k' m) as [l|] eqn:El; simpl.
    + rewrite (Hsome l) by done. split; intros [?|H]; auto; right; congruence.
    + rewrite elem_of_nil. split; [intros [[]| ->]; auto|]. intros [Hin|[= ->]]; [|auto].
      exfalso. apply Hnone; [done|]. apply list_elem_of_fmap. by exists (k', x).
  - rewrite om_get_set_ne by done. split; [rewrite Hnone; set_solver|].
    intros l Hl x. rewrite (Hsome l) by done. set_solver.
Qed.

Definition filter_pair (f : FlowNodeFilter) : FlowNodeKind * jsstr := (f_kind f, f_id f).

Lemma normalize_events sel stages :
  normalizeSelectedNodeFilters sel stages
  = fold_left add_kind_pair
      (filter_pair <$> filter (λ f, f_kind f ∈ stages) (default [] sel)) [].
Proof.
  unfold normalizeSelectedNodeFilters. rewrite fold_left_fmap.
  generalize ([] : list (FlowNodeKind * list jsstr)).
  induction (default [] sel) as [|f l IH]; intros acc; [done|].
  rewrite filter_cons. simpl.
  destruct (decide (f_kind f ∈ stages)) as [Hin|Hin].
  - rewrite decide_True by by apply elem_of_os_of_list. simpl. apply IH.
  - rewrite decide_False by by rewrite elem_of_os_of_list. apply IH.
Qed.

Lemma path_ids_get row stages ctx k l :
  om_get k (fold_left (λ m node, add_to_kind m (p_kind node) (p_id node))
              (flowPathForStages row stages ctx) []) = Some l →
  ∀ x, x ∈ l ↔ k ∈ stages ∧ x = p_id (NODE_BUILDERS k row ctx).
Proof.
  pose (ev n := (p_kind n, p_id n)).
  change (fold_left _ (flowPathForStages row stages ctx) [])
    with (fold_left (λ m n, add_kind_pair m (ev n)) (flowPathForStages row stages ctx) []).
  rewrite <- (fold_left_fmap add_kind_pair ev). intros Hl x.
  destruct (add_kind_fold (ev <$> flowPathForStages row stages ctx) k) as (_ & _ & Hs).
  rewrite (Hs l Hl). rewrite list_elem_of_fmap. unfold ev. split.
  - intros (n & [= -> ->] & (k' & -> & Hk)%list_elem_of_fmap). by rewrite NODE_BUILDERS_kind.
  - intros [Hk ->]. exists (NODE_BUILDERS k row ctx). rewrite NODE_BUILDERS_kind. split; [done|].
    by apply (list_elem_of_fmap_2 (λ s, NODE_BUILDERS s row ctx)).
Qed.

Lemma path_ids_Some row stages ctx k :
  k ∈ stages → is_Some (om_get k (fold_left (λ m node, add_to_kind m (p_kind node) (p_id node))
              (flowPathForStages row stages ctx) [])).
Proof.
  intros Hk. pose (ev n := (p_kind n, p_id n)).
  change (fold_left _ (flowPathForStages row stages ctx) [])
    with (fold_left (λ m n, add_kind_pair m (ev n)) (flowPathForStages row stages ctx) []).
  rewrite <- (fold_left_fmap add_kind_pair ev).
  destruct (add_kind_fold (ev <$> flowPathForStages row stages ctx) k) as (_ & Hn & _).
  destruct (om_get k _); [eauto|]. exfalso. apply (proj1 Hn eq_refl).
  rewrite <- list_fmap_compose. apply list_elem_of_fmap.
  exists (NODE_BUILDERS k row ctx). split; [simpl; by rewrite NODE_BUILDERS_kind|].
  by apply (list_elem_of_fmap_2 (λ s, NODE_BUILDERS s row ctx)).
Qed.

Lemma elem_filter_pairs (sel : list FlowNodeFilter) (stages : list FlowNodeKind) k x :
  (k, x) ∈ filter_pair <$> filter (λ f, f_kind f ∈ stages) sel
  ↔ k ∈ stages ∧ ∃ f, f ∈ sel ∧ f_kind f = k ∧ f_id f = x.
Proof.
  rewrite list_elem_of_fmap. split.
  - intros (f & [= -> ->] & [Hk Hf]%list_elem_of_filter). eauto.
  - intros (Hk & f & Hf & <- & <-). exists f. split; [done|]. by apply list_elem_of_filter.
Qed.

Lemma selects_spec sel stages ctx row :
  selects sel stages ctx row = true ↔
  ∀ k f, k ∈ stages → f ∈ sel → f_kind f = k →
    ∃ f', f' ∈ sel ∧ f_kind f' = k ∧ f_id f' = p_id (NODE_BUILDERS k row ctx).
Proof.
  unfold selects. rewrite forallb_forall. split.
  - intros H k f Hk Hf Hfk. specialize (H k ltac:(by apply list_elem_of_In)).
    assert (f ∈ filter (λ f, f_kind f = k) sel) as Hin by by apply list_elem_of_filter.
    destruct (filter (λ f, f_kind f = k) sel) as [|g gs] eqn:Eg; [by apply elem_of_nil in Hin|].
    apply existsb_exists in H as (f' & Hf' & Heq). unfold is_eq in Heq. bool_hyps.
    apply list_elem_of_In in Hf'. rewrite <- Eg in Hf'. apply list_elem_of_filter in Hf' as [? ?].
    eauto.
  - intros H k Hk%list_elem_of_In.
    destruct (filter (λ f, f_kind f = k) sel) as [|g gs] eqn:Eg; [done|].
    assert (g ∈ filter (λ f, f_kind f = k) sel) as [Hgk Hg]%list_elem_of_filter
      by (rewrite Eg; left).
    destruct (H k g Hk Hg Hgk) as (f' & Hf' & Hk' & Hid). apply existsb_exists. exists f'.
    split; [|unfold is_eq; by apply bool_decide_eq_true].
    apply list_elem_of_In. rewrite <- Eg. by apply list_elem_of_filter.
Qed.

Lemma pathMatches_selects sel stages ctx row :
  pathMatchesNodeFilters (flowPathForStages row stages ctx) (normalizeSelectedNodeFilters sel stages)
  = selects (default [] sel) stages ctx row.
Proof.
  rewrite normalize_events. set (evs := filter_pair <$> _).
  assert (∀ k, om_wf (fold_left add_kind_pair evs [])
    ∧ (om_get k (fold_left add_kind_pair evs []) = None ↔ k ∉ evs.*1)
    ∧ ∀ l, om_get k (fold_left add_kind_pair evs []) = Some l → ∀ x, x ∈ l ↔ (k, x) ∈ evs) as Hf
    by apply add_kind_fold.
  assert (∀ k x, (k, x) ∈ evs ↔ k ∈ stages ∧ ∃ f, f ∈ default [] sel ∧ f_kind f = k ∧ f_id f = x)
    as Hev by apply elem_filter_pairs.
  revert Hf. generalize (fold_left add_kind_pair evs []). intros filters Hf.
  set (ids := fold_left (λ m node, add_to_kind m (p_kind node) (p_id node))
                (flowPathForStages row stages ctx) []).
  assert (pathMatchesNodeFilters (flowPathForStages row stages ctx) filters =
    forallb (λ '(kind, selectedIds), match om_get kind ids with
        | None => false
        | Some pathIds => existsb (λ id, bool_decide (id ∈ pathIds)) selectedIds end) filters) as ->
    by by destruct filters.
  apply eq_iff_eq_true. rewrite selects_spec, forallb_forall. split.
  - intros H k f Hk Hin Hfk. destruct (Hf k) as (Hwf & Hnone & Hsome).
    destruct (om_get k filters) as [l|] eqn:El.
    2: { exfalso. apply (proj1 Hnone eq_refl). apply list_elem_of_fmap. exists (k, f_id f).
         split; [done|]. apply Hev. eauto. }
    specialize (H (k, l) ltac:(by apply list_elem_of_In, om_get_elem)). simpl in H.
    destruct (om_get k ids) as [pathIds|] eqn:Ei; [|done].
    apply existsb_exists in H as (x & Hx%list_elem_of_In & Hxp). bool_hyps.
    apply (Hsome l eq_refl), Hev in Hx as (_ & f' & ? & ? & <-).
    apply (path_ids_get row stages ctx k pathIds Ei) in Hxp as [_ Hxp]. eauto.
  - intros H [k l] Hkl%list_elem_of_In. destruct (Hf k) as (Hwf & Hnone & Hsome).
    apply elem_om_get in Hkl; [|done].
    assert (∃ x, (k, x) ∈ evs) as [x Hx].
    { destruct (decide (k ∈ evs.*1)) as [((k' & x) & -> & Hin)%list_elem_of_fmap|Hno]; [eauto|].
      apply Hnone in Hno. congruence. }
    apply Hev in Hx as (Hk & f & Hin & Hfk & _).
    destruct (H k f Hk Hin Hfk) as (f' & Hf' & Hfk' & Hid).
    destruct (path_ids_Some row stages ctx k Hk) as [pathIds Ei]. fold ids in Ei. rewrite Ei.
    apply existsb_exists. exists (f_id f'). split.
    + apply list_elem_of_In, (Hsome l Hkl), Hev. eauto.
    + apply bool_decide_eq_true, (path_ids_get row stages ctx k pathIds Ei). auto.
Qed.

Lemma filterRowsByNodes_selects rows sel stages ctx :
  filterRowsByNodes rows sel stages ctx
  = filter (λ row, selects (default [] sel) stages ctx row = true) rows.
Proof.
  unfold filterRowsByNodes.
  assert (∀ row, pathMatchesNodeFilters (flowPathForStages row stages ctx)
            (normalizeSelectedNodeFilters sel stages) = selects (default [] sel) stages ctx row) as H
    by apply pathMatches_selects.
  destruct (normalizeSelectedNodeFilters sel stages) as [|kf filters] eqn:En.
  - induction rows as [|row l IH]; [done|]. rewrite filter_cons, decide_True by by rewrite <- H.
    by rewrite <- IH.
  - apply list_filter_iff. intros row. by rewrite H.
Qed.

(** Node filters mean what the user selects.  A row is kept exactly when,
    for every visible kind with at least one selected node, the node of the row
    at that stage is one of those selected; filters of hidden kinds are
    ignored. *)
Theorem node_filters_meaning rows sel stages ctx row :
  row ∈ filterRowsByNodes rows (Some sel) stages ctx ↔
  row ∈ rows ∧ ∀ k, k ∈ stages → (∃ f, f ∈ sel ∧ f_kind f = k) →
    {| f_kind := k; f_id := p_id (NODE_BUILDERS k row ctx) |} ∈ sel.
Proof.
  rewrite filterRowsByNodes_selects, list_elem_of_filter, selects_spec. simpl. split.
  - intros [H Hrow]. split; [done|]. intros k Hk (f & Hf & Hfk).
    destruct (H k f Hk Hf Hfk) as ([k' i'] & Hf' & Hk' & Hi'). simpl in *. by subst.
  - intros [Hrow H]. split; [|done]. intros k f Hk Hf Hfk.
    eexists. split; [apply (H k Hk)|]; eauto.
Qed.

(** ** Facet counts *)

Section facets.
Context {E : FlowEnv}.

Definition option_event (stage : FlowNodeKind) (ctx : FlowPathContext) (metric : FlowMetric)
    (row : FlowQuotaDataItem) : FlowPathNode * Z :=
  (NODE_BUILDERS stage row ctx, metricValue (rowMetrics row) metric).

Definition option_key (e : FlowPathNode * Z) : jsstr :=
  nodeFilterKey {| f_kind := p_kind e.1; f_id := p_id e.1 |}.

Lemma option_totals_group metric stage ctx rows :
  fold_left (option_add metric stage ctx) rows []
  = om_group option_key rank_init rank_upd
      (option_event stage ctx metric <$> rows).
Proof. unfold om_group. by rewrite fold_left_fmap. Qed.

Lemma option_rank_spec metric stage ctx rows rank :
  rank ∈ om_values (fold_left (option_add metric stage ctx) rows []) →
  p_kind (rank_node rank) = stage
  ∧ rank_value rank = zsum (λ row, if is_eq (p_id (rank_node rank)) (p_id (NODE_BUILDERS stage row ctx))
                                   then metricValue (rowMetrics row) metric else 0) rows.
Proof.
  rewrite option_totals_group. intros ([key r] & -> & Hget)%list_elem_of_fmap. simpl.
  apply elem_om_get in Hget; [|apply om_group_wf].
  pose proof (om_group_static option_key rank_init rank_upd rank_node _ _ _ ltac:(done) Hget) as (e & He & Hk & Hst).
  apply list_elem_of_fmap in He as (row & -> & Hrow). simpl in Hst.
  assert (p_kind (rank_node r) = stage) as Hkind by (rewrite Hst; apply NODE_BUILDERS_kind).
  split; [done|].
  pose proof (om_group_count option_key rank_init rank_upd rank_value snd
      (λ _, eq_refl) (λ _ _, eq_refl) (option_event stage ctx metric <$> rows) key) as Hc.
  rewrite Hget in Hc. simpl in Hc. rewrite Hc, zsum_map. apply zsum_ext. intros row' _.
  unfold is_eq. rewrite bool_decide_decide. subst key. unfold option_key, nodeFilterKey. simpl.
  rewrite Hst, !NODE_BUILDERS_kind.
  destruct (decide (p_id (NODE_BUILDERS stage row' ctx) = p_id (NODE_BUILDERS stage row ctx)))
    as [->|Hne]; [by rewrite decide_True|].
  rewrite decide_False; [done|]. intros H%app_inv_head. by injection H.
Qed.

Lemma selects_snoc (others : list FlowNodeFilter) stages ctx row f :
  f_kind f ∈ stages → (∀ g, g ∈ others → f_kind g ≠ f_kind f) →
  selects (others ++ [f]) stages ctx row = true ↔
  selects others stages ctx row = true ∧ p_id (NODE_BUILDERS (f_kind f) row ctx) = f_id f.
Proof.
  intros Hk Hoth. rewrite !selects_spec. split.
  - intros H. split.
    + intros k g Hg Hin Hgk. destruct (H k g Hg) as (g' & Hg' & Hk' & Hid); [set_solver|done|].
      apply elem_of_app in Hg' as [?|Hg'%list_elem_of_singleton]; [eauto|]. subst g'.
      exfalso. apply (Hoth g Hin). congruence.
    + destruct (H (f_kind f) f Hk) as (g' & Hg' & Hk' & Hid); [set_solver|done|].
      apply elem_of_app in Hg' as [Hin|Hg'%list_elem_of_singleton]; [|by subst g'].
      by apply Hoth in Hin.
  - intros [H Hid] k g Hg Hin Hgk. apply elem_of_app in Hin as [Hin|Hin%list_elem_of_singleton].
    + destruct (H k g Hg Hin Hgk) as (g' & ? & ? & ?). exists g'. set_solver.
    + subst g k. exists f. set_solver.
Qed.

Lemma except_kind_elems sel k g :
  g ∈ default [] (selectedNodeFiltersExceptKind sel k) ↔ g ∈ default [] sel ∧ f_kind g ≠ k.
Proof.
  unfold selectedNodeFiltersExceptKind.
  assert (g ∈ filter (λ f, f_kind f ≠ k) (default [] sel) ↔ g ∈ default [] sel ∧ f_kind g ≠ k) as <-
    by (rewrite list_elem_of_filter; tauto).
  by destruct (filter (λ f, f_kind f ≠ k) (default [] sel)).
Qed.

(** A facet shows what selecting it would give.  The number next to a node
    filter option is the total of the rows that remain when exactly this node
    is selected at its kind and the selections at the other kinds are kept. *)
Theorem facet_value_is_drilldown rows metric role visibleStages palette ctx sel o :
  let stages := resolveVisibleStages role visibleStages in
  o ∈ buildNodeFilterOptions rows metric role visibleStages palette ctx sel →
  no_valueRaw o = rows_flow metric FValue
    (filterRowsByNodes rows
       (Some (default [] (selectedNodeFiltersExceptKind sel (no_kind o))
              ++ [{| f_kind := no_kind o; f_id := no_value o |}])) stages ctx).
Proof.
  intros stages. unfold buildNodeFilterOptions. rewrite elem_of_js_sort.
  intros (stage & Hstage%list_elem_of_In & Ho%list_elem_of_In)%list_elem_of_In%in_flat_map.
  apply list_elem_of_fmap in Ho as (rank & -> & Hrank).
  apply option_rank_spec in Hrank as [Hkind Hval]. simpl. rewrite Hval, Hkind.
  unfold rows_flow. rewrite !filterRowsByNodes_selects, !zsum_filter. apply zsum_ext.
  intros row _. simpl. set (others := default [] (selectedNodeFiltersExceptKind sel stage)).
  pose proof (selects_snoc others stages ctx row
    {| f_kind := stage; f_id := p_id (rank_node rank) |} Hstage) as Hs. simpl in Hs.
  specialize (Hs ltac:(intros g [_ ?]%except_kind_elems; done)).
  unfold is_eq. repeat case_bool_decide; tauto.
Qed.

(** C25: the page is consistent.  In the data of the whole page the nodes of every
    visible stage add up to the summary above the chart, unless overflowing
    rows are hidden. *)
Theorem dashboard_flow_matches_summary rows metric options f k :
  bo_overflowMode options ≠ Some OHide →
  k ∈ resolveVisibleStages (default DEFAULT_FLOW_ROLE (bo_role options)) (bo_visibleStages options) →
  stage_flow f (pd_flow (buildDashboardFlowData rows metric options)) k
  = metrics_field metric f (pd_summary (buildDashboardFlowData rows metric options)).
Proof.
  intros Hm Hk. cbn [pd_flow pd_summary buildDashboardFlowData].
  rewrite (stage_flow_paths _ _ _ _ _ _ _ f k Hk), buildSummary_flow. by apply aggregate_paths_flow.
Qed.

(** ** Drawing order *)

Definition layer (l : DashboardFlowLink) : Z :=
  match l_highlighted l, l_dimmed l with
  | Some true, _ => 2
  | _, Some true => 0
  | _, _ => 1
  end.

(** Highlighted links are drawn above plain ones and plain ones above dimmed
    ones.  The chart gets exactly the links of positive value, and with at most
    100000 links the z-index of a link of a higher layer is the larger. *)
Theorem sankey_layers flow :
  (sl_link <$> sankeyLinks flow ≡ₚ List.filter (λ link, 0 <? l_value link) (g_links flow))
  ∧ (Z.of_nat (length (g_links flow)) ≤ 100000 →
     ∀ a b, a ∈ sankeyLinks flow → b ∈ sankeyLinks flow →
       layer (sl_link a) < layer (sl_link b) → sl_zIndex a < sl_zIndex b).
Proof.
  unfold sankeyLinks. split.
  - rewrite fmap_imap. etrans; [|apply (js_sort_perm byLinkDrawPriority)].
    match goal with |- ?x ≡ₚ ?y => enough (x = y) as -> by done end.
    apply list_eq. intros i. rewrite list_lookup_imap. by destruct (js_sort _ _ !! i).
  - intros Hlen a b (i & la & -> & Ha)%elem_of_lookup_imap_1
      (j & lb & -> & Hb)%elem_of_lookup_imap_1. simpl.
    apply lookup_lt_Some in Ha, Hb. rewrite js_sort_perm in Ha, Hb.
    pose proof (filter_length_le (λ link, 0 <? l_value link) (g_links flow)) as Hle.
    unfold layer, zIndexOf. repeat case_match; lia.
Qed.

End facets.
