(* ===== verification/FlowSamples.v ===== *)
(** * Usage-flow dashboard: concrete inputs

    A locale that compares code units, a small data set, and the theorems of the
    flow files at these inputs. *)

From S2P Require Import Prelude JsString JsNumber JsValue OrderedMap.
From S2P Require Import FlowModel FlowGraph FlowFacts FlowView FlowDashboard.

Local Open Scope js_scope.

(** ** A locale *)

#[global] Instance sample_env : FlowEnv := {|
  localeCompare := code_unit_compare;
  formatNumber := string_of_Z;
  firstScheme := {| maxDomainLength := Some 10; scheme := [VStr ($"#1664FF"); VStr ($"#1AC6FF")] |};
  otherSchemes := [{| maxDomainLength := None; scheme := [VStr ($"#FF8A00")] |}] |}.

#[global] Instance sample_locale : LocaleLaws sample_env.
Proof. exact code_unit_comparison. Qed.

(** ** A data set *)

Definition sample_row (uid : Z) (name group model : jsstr) (n : Z) : FlowQuotaDataItem := {|
  user_id := Some uid; username := name; node_name := []; use_group := group;
  token_id := Some 7; token_name := []; channel_id := Some uid; channel_name := [];
  model_name := model; token_used := Some (2 * n); count := Some 1; quota := Some n |}.

Definition sample_rows : list FlowQuotaDataItem := [
  sample_row 1 ($"ann") ($"vip") ($"gpt") 10;
  sample_row 2 ($"bob") ($"vip") ($"claude") 20;
  sample_row 3 ($"eve") [] ($"gpt") 5;
  sample_row 1 ($"ann") ($"free") ($"claude") 30 ].

Definition sample_ctx : FlowPathContext := {| deletedTokenLabel_cb := None |}.

Definition sample_options : FlowGraphOptions := {|
  topNodeLimit := Some (num_lit 25 1); overflowMode := None; otherNodeLabel := None;
  activeNode := Some {| f_kind := KModel; f_id := $"model:gpt" |}; activeLink := None;
  maskSensitive := true |}.

Definition sample_graph : DashboardFlowGraph :=
  buildFlowGraph sample_rows MQuota RAdmin None None sample_ctx sample_options.

Definition dummy_node : DashboardFlowNode := {|
  n_id := []; n_label := []; n_kind := KUser; n_value := 0; n_requests := 0; n_quota := 0;
  n_tokens := 0; n_color := []; n_colorKey := []; n_highlighted := None; n_dimmed := None |}.

Definition sample_node : DashboardFlowNode := nth 1 (g_nodes sample_graph) dummy_node.

Lemma sample_limit : normalizeTopNodeLimit (topNodeLimit sample_options) = Some 2.
Proof. vm_compute. reflexivity. Qed.

Lemma sample_node_shown : sample_node ∈ g_nodes sample_graph.
Proof. apply list_elem_of_In, nth_In. vm_compute. lia. Qed.

Lemma sample_node_spec : n_value sample_node = 40 ∧ n_kind sample_node = KUser.
Proof. vm_compute. done. Qed.

Lemma sample_rows_nul_free : forallb row_nul_free sample_rows = true.
Proof. reflexivity. Qed.

(** ** The theorems at the sample *)

Lemma stage_flow_conserved_witness : stage_flow FValue sample_graph KGroup = 65.
Proof.
  assert (KGroup ∈ resolveVisibleStages RAdmin None) as Hk by (simpl; set_solver).
  destruct (stage_flow_conserved sample_rows MQuota RAdmin None None sample_ctx sample_options
    FValue KGroup Hk) as [_ H].
  exact (H ltac:(discriminate)).
Defined.

Lemma node_flow_conserved_witness : outflow FTokens sample_graph (n_id sample_node) = 80.
Proof.
  destruct (node_flow_conserved sample_rows MQuota RAdmin None None sample_ctx sample_options
    FTokens sample_node sample_rows_nul_free sample_node_shown) as [Hout _].
  etrans; [apply Hout; vm_compute; discriminate|vm_compute; reflexivity].
Defined.

Lemma link_share_spec_witness :
  forallb row_nul_free sample_rows = true
  ∧ ∀ l, l ∈ g_links sample_graph → l_share l = share_of (l_value l) 65.
Proof.
  split; [reflexivity|].
  exact (proj2 (link_share_spec sample_rows MQuota RAdmin None None sample_ctx sample_options
    sample_rows_nul_free)).
Defined.

Lemma counters_in_range_witness : 0 ≤ n_tokens sample_node ≤ MAX_SAFE_INTEGER.
Proof.
  assert (rows_flow MQuota FTokens sample_rows ≤ MAX_SAFE_INTEGER) as Hmax by (vm_compute; discriminate).
  exact (proj1 (counters_in_range sample_rows MQuota RAdmin None None sample_ctx
    sample_options FTokens sample_rows_nul_free eq_refl Hmax) sample_node sample_node_shown).
Defined.

Lemma top_nodes_are_heaviest_witness :
  stage_total sample_rows MQuota sample_ctx KUser ($"user:3")
  ≤ stage_total sample_rows MQuota sample_ctx KUser ($"user:2").
Proof.
  apply (top_nodes_are_heaviest sample_rows MQuota (resolveVisibleStages RAdmin None) sample_ctx
    (resolveVisibleStages_NoDup RAdmin None) 2 KUser
    (sample_row 2 ($"bob") ($"vip") ($"claude") 20) (sample_row 3 ($"eve") [] ($"gpt") 5));
    [apply sample_locale|lia|simpl; set_solver|unfold sample_rows; set_solver
    |unfold sample_rows; set_solver|vm_compute; reflexivity|vm_compute; reflexivity].
Defined.

Lemma top_limit_bound_witness :
  Z.of_nat (length (filter (λ n, n_kind n = KUser) (g_nodes sample_graph))) ≤ 3.
Proof.
  exact (top_limit_bound sample_rows MQuota RAdmin None None sample_ctx sample_options 2 KUser
    sample_limit).
Defined.

Lemma masking_hides_labels_witness :
  n_label sample_node = [] ∨ n_label sample_node = FLOW_MASK_TEXT.
Proof.
  refine (proj1 (masking_hides_labels sample_rows MQuota RAdmin None None sample_ctx
    sample_options sample_node eq_refl sample_node_shown _ _));
    apply (bool_decide_unpack _); vm_compute; exact I.
Defined.

(** A group named like the id of the overflow is shown with its name. *)
Example group_named_other_shown :
  n_label <$> List.filter (λ n, bool_decide (n_kind n = KGroup))
    (g_nodes (buildFlowGraph [sample_row 1 ($"ann") ($"__other__") ($"gpt") 10] MQuota RAdmin None None sample_ctx sample_options))
  = [$"__other__"].
Proof. vm_compute. reflexivity. Qed.

Definition dummy_option : FlowNodeFilterOption := {|
  no_kind := KUser; no_value := []; no_label := []; no_valueLabel := []; no_valueRaw := 0;
  no_color := [] |}.

Definition sample_selection : list FlowNodeFilter := [{| f_kind := KGroup; f_id := $"group:vip" |}].

Definition sample_facet : FlowNodeFilterOption :=
  nth 0 (buildNodeFilterOptions sample_rows MQuota RAdmin None None sample_ctx
           (Some sample_selection)) dummy_option.

(** Of user 2 the page offers 20: what selecting that user would leave. *)
Lemma facet_value_is_drilldown_witness :
  no_value sample_facet = $"user:2"
  ∧ 20 = rows_flow MQuota FValue
      (filterRowsByNodes sample_rows
         (Some (default [] (selectedNodeFiltersExceptKind (Some sample_selection) KUser)
                ++ [{| f_kind := KUser; f_id := $"user:2" |}]))
         (resolveVisibleStages RAdmin None) sample_ctx).
Proof.
  split; [vm_compute; reflexivity|].
  apply (facet_value_is_drilldown sample_rows MQuota RAdmin None None sample_ctx
    (Some sample_selection) sample_facet).
  apply list_elem_of_In, nth_In. vm_compute. lia.
Defined.

Definition sample_build_options : FlowBuildOptions := {|
  bo_role := Some RAdmin; bo_selectedUsers := Some [$"user:1"; $"user:2"];
  bo_selectedNodes := None; bo_activeNode := None; bo_activeLink := None;
  bo_colorPalette := None; bo_visibleStages := Some [KUser; KModel];
  bo_topNodeLimit := Some (num_of_Z 1); bo_overflowMode := Some OAggregate;
  bo_maskSensitive := false; bo_deletedTokenLabel := None; bo_otherNodeLabel := None |}.

Lemma dashboard_flow_matches_summary_witness :
  stage_flow FTokens (pd_flow (buildDashboardFlowData sample_rows MQuota sample_build_options)) KModel
  = 120.
Proof.
  rewrite (dashboard_flow_matches_summary sample_rows MQuota sample_build_options FTokens KModel);
    [vm_compute; reflexivity|discriminate|].
  apply (bool_decide_unpack _). vm_compute. exact I.
Defined.
