(* ===== verification/Timeline.v ===== *)
(** * Group monitoring timeline (features/group-monitoring/lib/timeline.ts)

    The card shows at most as many bars as fit its width: consecutive buckets
    are merged, their counters summed and the colour derived once per bar.
    Timestamps and counters are integers; the availability rate is computed in
    doubles as the program does. *)

From S2P Require Import Prelude JsString JsNumber.

Inductive GroupMonitoringState := healthy | degraded | down | no_data.

Record GroupMonitoringBucket := mkBucket {
  bucket_ts : Z;
  bucket_request_count : Z;
  bucket_success_count : Z;
  bucket_state : GroupMonitoringState;
}.

Record GroupMonitoringThresholds := mkThresholds {
  healthy_rate : number;
  degraded_rate : number;
  min_bucket_requests : Z;
}.

Record GroupMonitoringTimelineBar := mkBar {
  bar_ts : Z;
  bar_end_ts : Z;
  bar_request_count : Z;
  bar_success_count : Z;
  bar_span : Z;
  bar_state : GroupMonitoringState;
}.

Definition barState (requestCount successCount : Z) (thresholds : GroupMonitoringThresholds)
    : GroupMonitoringState :=
  if (requestCount <? min_bucket_requests thresholds) || (requestCount <=? 0) then no_data
  else
    let rate :=
      num_div
        (num_round
           (num_mul (num_mul (num_div (num_of_Z successCount) (num_of_Z requestCount)) (num_of_Z 100))
              (num_of_Z 100)))
        (num_of_Z 100) in
    if num_leb (healthy_rate thresholds) rate then healthy
    else if num_leb (degraded_rate thresholds) rate then degraded
    else down.

(** [Math.max(1, Math.ceil(n / Math.max(1, capacity)))]; the quotient of two
    list-sized integers is rounded far less than it differs from an integer,
    so its ceiling is the exact one. *)
Definition timeline_step (n capacity : Z) : Z := Z.max 1 (- (- n / Z.max 1 capacity)).

(** The bar of a non-empty slice. *)
Definition merge_bar (bucketSeconds : Z) (thresholds : GroupMonitoringThresholds)
    (first : GroupMonitoringBucket) (slice : list GroupMonitoringBucket)
    : GroupMonitoringTimelineBar :=
  let requestCount := fold_left (λ n b, n + bucket_request_count b) slice 0 in
  let successCount := fold_left (λ n b, n + bucket_success_count b) slice 0 in
  {| bar_ts := bucket_ts first;
     bar_end_ts := bucket_ts first + Z.of_nat (length slice) * bucketSeconds;
     bar_request_count := requestCount;
     bar_success_count := successCount;
     bar_span := Z.of_nat (length slice);
     bar_state := barState requestCount successCount thresholds |}.

(** [for (let index = 0; index < buckets.length; index += step)].  The index
    grows by at least one, so as many iterations as there are buckets are
    enough. *)
Fixpoint merge_loop (fuel : nat) (step : Z) (bucketSeconds : Z)
    (thresholds : GroupMonitoringThresholds) (buckets : list GroupMonitoringBucket) (index : Z)
    : list GroupMonitoringTimelineBar :=
  match fuel with
  | O => []
  | S fuel =>
    match take (Z.to_nat step) (drop (Z.to_nat index) buckets) with
    | [] => []
    | (first :: _) as slice =>
      merge_bar bucketSeconds thresholds first slice
        :: merge_loop fuel step bucketSeconds thresholds buckets (index + step)
    end
  end.

Definition mergeTimelineBuckets (buckets : list GroupMonitoringBucket) (capacity bucketSeconds : Z)
    (thresholds : GroupMonitoringThresholds) : list GroupMonitoringTimelineBar :=
  match buckets with
  | [] => []
  | _ =>
    let step := timeline_step (Z.of_nat (length buckets)) capacity in
    merge_loop (length buckets) step bucketSeconds thresholds buckets 0
  end.

(** ** What the bars show *)

Section timeline.
Context (bucketSeconds : Z) (thresholds : GroupMonitoringThresholds).
Implicit Types (buckets slice : list GroupMonitoringBucket).

Lemma fold_sum {A} (f : A → Z) l acc : fold_left (λ n b, n + f b) l acc = acc + zsum f l.
Proof. revert acc. induction l as [|x l IH]; intros acc; simpl; [lia|]. rewrite IH. lia. Qed.

(** The bar that shows exactly the buckets of a slice. *)
Definition bar_shows (bar : GroupMonitoringTimelineBar) slice : Prop :=
  bar_ts bar = match slice with b :: _ => bucket_ts b | [] => 0 end
  ∧ bar_request_count bar = zsum bucket_request_count slice
  ∧ bar_success_count bar = zsum bucket_success_count slice
  ∧ bar_span bar = Z.of_nat (length slice)
  ∧ bar_end_ts bar = bar_ts bar + bar_span bar * bucketSeconds
  ∧ bar_state bar
    = barState (zsum bucket_request_count slice) (zsum bucket_success_count slice) thresholds.

Lemma merge_bar_shows b slice :
  bar_shows (merge_bar bucketSeconds thresholds b (b :: slice)) (b :: slice).
Proof.
  unfold merge_bar, bar_shows. simpl bar_ts. simpl bar_request_count. simpl bar_success_count.
  simpl bar_span. simpl bar_end_ts. simpl bar_state. rewrite !fold_sum, !Z.add_0_l. done.
Qed.

(** From [index] on, the loop cuts the remaining buckets into slices of [step]. *)
Lemma merge_loop_slices fuel step buckets index :
  0 < step → 0 ≤ index → (length (drop (Z.to_nat index) buckets) ≤ fuel)%nat →
  ∃ slices,
    concat slices = drop (Z.to_nat index) buckets
    ∧ Forall2 bar_shows (merge_loop fuel step bucketSeconds thresholds buckets index) slices
    ∧ Forall (λ s, (0 < length s)%nat ∧ Z.of_nat (length s) ≤ step) slices
    ∧ Z.of_nat (length slices) * step < Z.of_nat (length (drop (Z.to_nat index) buckets)) + step.
Proof.
  intros Hs. revert index. induction fuel as [|fuel IH]; intros index Hi Hf; simpl.
  { exists []. destruct (drop (Z.to_nat index) buckets); simpl in *; [|lia].
    repeat split; [constructor..|lia]. }
  destruct (take (Z.to_nat step) (drop (Z.to_nat index) buckets)) as [|b l] eqn:Et.
  - exists []. apply (f_equal length) in Et. rewrite length_take in Et. cbn [length] in Et.
    assert (length (drop (Z.to_nat index) buckets) = 0%nat) as Hd%nil_length_inv by lia.
    rewrite Hd. repeat split; [constructor..|simpl; lia].
  - assert (drop (Z.to_nat (index + step)) buckets
            = drop (Z.to_nat step) (drop (Z.to_nat index) buckets)) as Hdrop.
    { rewrite drop_drop. f_equal. lia. }
    pose proof (f_equal length Et) as Hlen. rewrite length_take in Hlen. cbn [length] in Hlen.
    destruct (IH (index + step)) as (slices & Hc & Hb & Hl & Hn); [lia| |].
    { rewrite Hdrop, length_drop. lia. }
    exists ((b :: l) :: slices). split; [|split; [|split]].
    + change (concat ((b :: l) :: slices)) with ((b :: l) ++ concat slices).
      rewrite Hc, Hdrop, <- Et. apply take_drop.
    + constructor; [apply merge_bar_shows|done].
    + constructor; [simpl; lia|done].
    + rewrite Hdrop, length_drop in Hn. cbn [length]. rewrite Nat2Z.inj_succ.
      set (n := Z.of_nat (length slices)) in *.
      set (d := length (drop (Z.to_nat index) buckets)) in *.
      destruct (Z.le_gt_cases step (Z.of_nat d)); [nia|]. assert (n = 0) by nia. nia.
Qed.

Lemma timeline_step_bound n capacity :
  0 < n → 0 < timeline_step n capacity ∧ n ≤ timeline_step n capacity * Z.max 1 capacity.
Proof.
  intros Hn. unfold timeline_step. set (c := Z.max 1 capacity).
  assert (0 < c) by lia. pose proof (Z.div_mod (- n) c ltac:(lia)).
  pose proof (Z.mod_pos_bound (- n) c ltac:(lia)). nia.
Qed.

(** Merging for display loses nothing.  The bars show consecutive slices
    that together are exactly the returned buckets; each bar carries the sums of
    its slice and the state of those sums, as one wider bucket would; and there
    are never more bars than fit (at least one is allowed). *)
Theorem timeline_merge_faithful buckets capacity :
  let bars := mergeTimelineBuckets buckets capacity bucketSeconds thresholds in
  ∃ slices,
    concat slices = buckets
    ∧ Forall2 bar_shows bars slices
    ∧ Forall (λ s, (0 < length s)%nat) slices
    ∧ Z.of_nat (length bars) ≤ Z.max 1 capacity.
Proof.
  intros bars. unfold bars, mergeTimelineBuckets. destruct buckets as [|b l].
  { exists []. repeat split; [constructor..|simpl; lia]. }
  set (buckets := b :: l).
  destruct (timeline_step_bound (Z.of_nat (length buckets)) capacity) as [Hpos Hle];
    [simpl; lia|].
  destruct (merge_loop_slices (length buckets) (timeline_step (Z.of_nat (length buckets)) capacity)
    buckets 0 Hpos) as (slices & Hc & Hb & Hl & Hn); [lia|simpl; lia|].
  exists slices. split; [done|]. split; [done|]. split.
  - eapply Forall_impl; [exact Hl|]. by intros s [? _].
  - rewrite (Forall2_length _ _ _ Hb). change (drop (Z.to_nat 0) buckets) with buckets in Hn. nia.
Qed.

(** Buckets that follow each other without a gap. *)
Fixpoint contiguous buckets : Prop :=
  match buckets with
  | b1 :: ((b2 :: _) as rest) => bucket_ts b2 = bucket_ts b1 + bucketSeconds ∧ contiguous rest
  | _ => True
  end.

Fixpoint bars_tile (bars : list GroupMonitoringTimelineBar) : Prop :=
  match bars with
  | a :: ((b :: _) as rest) => bar_ts b = bar_end_ts a ∧ bars_tile rest
  | _ => True
  end.

Lemma contiguous_app slice b rest :
  contiguous (slice ++ b :: rest) →
  contiguous (b :: rest)
  ∧ match slice with
    | [] => True
    | a :: _ => bucket_ts b = bucket_ts a + Z.of_nat (length slice) * bucketSeconds
    end.
Proof.
  induction slice as [|a slice IH]; [done|]. destruct slice as [|a' slice].
  - simpl. intros [-> ?]. split; [done|lia].
  - intros [Ha Hc]. destruct (IH Hc) as [Hr Hb]. split; [done|].
    rewrite Hb, Ha. simpl length. lia.
Qed.

Lemma slices_tile bars slices :
  Forall2 bar_shows bars slices → Forall (λ s, (0 < length s)%nat) slices →
  contiguous (concat slices) → bars_tile bars.
Proof.
  induction 1 as [|bar slice bars slices Hbar Hbars IH]; [done|].
  intros [Hs Hss]%Forall_cons Hc. destruct Hbars as [|bar2 slice2 bars slices Hbar2 Hbars]; [done|].
  pose proof Hss as [Hs2 _]%Forall_cons.
  destruct slice as [|a slice]; [simpl in Hs; lia|]. destruct slice2 as [|b slice2]; [simpl in Hs2; lia|].
  change (concat ((a :: slice) :: (b :: slice2) :: slices))
    with ((a :: slice) ++ b :: (slice2 ++ concat slices)) in Hc.
  apply contiguous_app in Hc as [Hc Hb]. split; [|by apply IH].
  destruct Hbar as (Ht & _ & _ & Hsp & He & _), Hbar2 as (Ht2 & _).
  rewrite Ht2, He, Hsp, Ht. exact Hb.
Qed.

(** The bars tile the period.  When the returned buckets follow each other
    without a gap, every bar ends exactly where the next one begins. *)
Theorem timeline_bars_tile buckets capacity :
  contiguous buckets →
  bars_tile (mergeTimelineBuckets buckets capacity bucketSeconds thresholds).
Proof.
  intros Hc. unfold mergeTimelineBuckets. destruct buckets as [|b l]; [done|].
  set (buckets := b :: l) in *.
  destruct (timeline_step_bound (Z.of_nat (length buckets)) capacity) as [Hpos _]; [simpl; lia|].
  destruct (merge_loop_slices (length buckets) (timeline_step (Z.of_nat (length buckets)) capacity)
    buckets 0 Hpos) as (slices & Hcat & Hb & Hl & _); [lia|simpl; lia|].
  eapply slices_tile; [exact Hb| |].
  - eapply Forall_impl; [exact Hl|]. by intros s [? _].
  - by rewrite Hcat.
Qed.

End timeline.

Lemma timeline_bars_tile_witness :
  bars_tile (mergeTimelineBuckets
    [mkBucket 0 1 1 healthy; mkBucket 300 2 1 down; mkBucket 600 5 5 healthy] 2 300
    (mkThresholds (num_of_Z 99) (num_of_Z 95) 1)).
Proof. apply timeline_bars_tile. simpl. lia. Defined.
