(* ===== verification/AdvancedCustom.v ===== *)
(** * Advanced custom channels (features/channels/lib/advanced-custom.ts)

    The route table of an "advanced custom" channel: converters, templates,
    normalisation, the management routes and the validator that decides whether
    a table may be saved.

    Optional strings are [jsstr] with the empty string for an absent one (every
    use is [x || ''] or [x?.trim()]).  [new URL] belongs to the platform and is
    the parameter [parseURL], giving host and protocol, [None] when it throws.
    [parseAdvancedCustomConfig], [stringifyAdvancedCustomConfig] and
    [getAdvancedCustomStats] go through [JSON] and are in [AdvancedCustomText]. *)

From S2P Require Import Prelude JsString JsValue OrderedMap.

Local Open Scope js_scope.

Class UrlEnv := { parseURL : jsstr → option (jsstr * jsstr) }.

(** ** Data *)

Record AdvancedCustomRouteAuth := mkAuthRule { auth_type : jsstr; auth_name : jsstr; auth_value : jsstr }.

Record AdvancedCustomRoute := mkRoute {
  incoming_path : jsstr;
  upstream_path : jsstr;
  converter : jsstr;
  models : option (list jsstr);
  route_auth : option AdvancedCustomRouteAuth;
}.

Record AdvancedCustomConfig := mkConfig { advanced_routes : option (list AdvancedCustomRoute) }.

#[global] Instance auth_eq_dec : EqDecision AdvancedCustomRouteAuth.
Proof. solve_decision. Defined.
#[global] Instance route_eq_dec : EqDecision AdvancedCustomRoute.
Proof. solve_decision. Defined.

Record AdvancedCustomValidationError := mkError { message : jsstr; routeIndex : option Z }.

Definition ADVANCED_CUSTOM_MODEL_LIST_PATH : jsstr := $"/v1/models".
Definition ADVANCED_CUSTOM_MODEL_LIST_LABEL : jsstr := $"OpenAI Models".
Definition ADVANCED_CUSTOM_BALANCE_PATH : jsstr := $"/v1/dashboard/billing/credit_grants".
Definition ADVANCED_CUSTOM_BALANCE_LABEL : jsstr := $"Balance Query".

Definition openAIChatPath : jsstr := $"/v1/chat/completions".
Definition openAIResponsesPath : jsstr := $"/v1/responses".
Definition claudeMessagesPath : jsstr := $"/v1/messages".
Definition geminiGenerateContentPath : jsstr := $"/v1beta/models/{model}:generateContent".

(** Converters by value; the labels are [(label, triggerLabel)]. *)
Definition ADVANCED_CUSTOM_CONVERTER_OPTIONS : list (jsstr * (jsstr * jsstr)) := [
  ($"none", ($"Native forwarding", $"Native forwarding"));
  ($"anthropic_messages_to_openai_chat_completions",
     ($"Anthropic Messages to OpenAI Chat", $"To OpenAI Chat"));
  ($"openai_chat_completions_to_anthropic_messages",
     ($"OpenAI Chat to Anthropic Messages", $"To Anthropic Messages"));
  ($"openai_chat_completions_to_openai_responses",
     ($"OpenAI Chat to OpenAI Responses", $"To OpenAI Responses"));
  ($"openai_responses_to_openai_chat_completions",
     ($"OpenAI Responses to OpenAI Chat", $"To OpenAI Chat"));
  ($"openai_responses_to_gemini_generate_content",
     ($"OpenAI Responses to Gemini Generate Content", $"To Gemini Generate Content"));
  ($"gemini_generate_content_to_openai_chat_completions",
     ($"Gemini Generate Content to OpenAI Chat", $"To OpenAI Chat"));
  ($"openai_chat_completions_to_gemini_generate_content",
     ($"OpenAI Chat to Gemini Generate Content", $"To Gemini Generate Content")) ].

Definition ADVANCED_CUSTOM_INCOMING_PATH_OPTIONS : list (jsstr * jsstr) := [
  ($"/v1/chat/completions", $"OpenAI Chat");
  ($"/v1/responses", $"OpenAI Responses");
  ($"/v1/responses/compact", $"OpenAI Responses Compact");
  ($"/v1/alpha/search", $"Codex Alpha Search");
  ($"/v1/embeddings", $"OpenAI Embeddings");
  ($"/v1/images/generations", $"OpenAI Image Generations");
  ($"/v1/images/edits", $"OpenAI Image Edits");
  ($"/v1/completions", $"OpenAI Completions");
  ($"/v1/audio/speech", $"OpenAI Audio Speech");
  ($"/v1/audio/transcriptions", $"OpenAI Audio Transcriptions");
  ($"/v1/audio/translations", $"OpenAI Audio Translations");
  ($"/v1/rerank", $"Rerank");
  ($"/v1/realtime", $"OpenAI Realtime");
  ($"/v1/messages", $"Claude Messages");
  ($"/v1beta/models/{model}:generateContent", $"Gemini Generate Content");
  ($"/v1beta/models/{model}:embedContent", $"Gemini Embed Content");
  ($"/v1beta/models/{model}:batchEmbedContents", $"Gemini Batch Embed Contents") ].

Definition ADVANCED_CUSTOM_ROUTE_SUMMARY_LABELS : list (jsstr * jsstr) := [
  ($"/v1/chat/completions", $"OpenAI Chat");
  (ADVANCED_CUSTOM_MODEL_LIST_PATH, ADVANCED_CUSTOM_MODEL_LIST_LABEL);
  (ADVANCED_CUSTOM_BALANCE_PATH, ADVANCED_CUSTOM_BALANCE_LABEL) ].

(** ** Authentication rules and templates *)

Definition bearerHeaderAuth : AdvancedCustomRouteAuth :=
  mkAuthRule ($"header") ($"Authorization") ($"Bearer {api_key}").
Definition apiKeyHeaderAuth : AdvancedCustomRouteAuth :=
  mkAuthRule ($"header") ($"x-api-key") ($"{api_key}").
Definition geminiQueryAuth : AdvancedCustomRouteAuth :=
  mkAuthRule ($"query") ($"key") ($"{api_key}").

Definition native_route (a : AdvancedCustomRouteAuth) (path : jsstr) : AdvancedCustomRoute :=
  mkRoute path path ($"none") None (Some a).

Definition createOpenAINativeRoutes : list AdvancedCustomRoute :=
  native_route bearerHeaderAuth <$> [
    $"/v1/chat/completions"; $"/v1/completions"; $"/v1/responses"; $"/v1/responses/compact";
    $"/v1/embeddings"; $"/v1/images/generations"; $"/v1/images/edits"; $"/v1/audio/speech";
    $"/v1/audio/transcriptions"; $"/v1/audio/translations"; $"/v1/realtime" ].

Definition createClaudeNativeRoutes : list AdvancedCustomRoute :=
  [native_route apiKeyHeaderAuth ($"/v1/messages")].

Definition createGeminiNativeRoutes : list AdvancedCustomRoute :=
  native_route geminiQueryAuth <$> [
    $"/v1beta/models/{model}:generateContent"; $"/v1beta/models/{model}:embedContent";
    $"/v1beta/models/{model}:batchEmbedContents" ].

Definition createGatewayNativeRoutes : list AdvancedCustomRoute :=
  native_route bearerHeaderAuth <$> [$"/v1/alpha/search"; $"/v1/rerank"].

Definition ADVANCED_CUSTOM_TEMPLATE_OPTIONS : list (jsstr * AdvancedCustomConfig) := [
  ($"all_protocols", mkConfig (Some (createOpenAINativeRoutes ++ createClaudeNativeRoutes
                                     ++ createGeminiNativeRoutes ++ createGatewayNativeRoutes)));
  ($"openai_only", mkConfig (Some createOpenAINativeRoutes));
  ($"claude_only", mkConfig (Some createClaudeNativeRoutes));
  ($"gemini_only", mkConfig (Some createGeminiNativeRoutes)) ].

(** [structuredClone]: the same value, no aliasing *)
Definition cloneAdvancedCustomConfig (config : AdvancedCustomConfig) : AdvancedCustomConfig := config.

Definition getAdvancedCustomTemplateConfig (templateKey : jsstr) : AdvancedCustomConfig :=
  let template :=
    match List.find (λ o, bool_decide (o.1 = templateKey)) ADVANCED_CUSTOM_TEMPLATE_OPTIONS with
    | Some o => Some o
    | None => head ADVANCED_CUSTOM_TEMPLATE_OPTIONS
    end in
  cloneAdvancedCustomConfig (default (mkConfig None) (snd <$> template)).

(** ** Normalisation *)

Definition getAdvancedCustomRouteUpstreamPath (route : AdvancedCustomRoute) : jsstr :=
  trim (upstream_path route).

Definition normalizeAdvancedCustomRouteModels (models : option (list jsstr)) : list jsstr :=
  match models with
  | None => []
  | Some models => List.filter truthy (trim <$> models)
  end.

Definition normalizeAdvancedCustomRoute (route : AdvancedCustomRoute) : AdvancedCustomRoute :=
  let models := normalizeAdvancedCustomRouteModels (models route) in
  mkRoute (incoming_path route) (getAdvancedCustomRouteUpstreamPath route)
    (str_or (converter route) ($"none"))
    (match models with [] => None | _ => Some models end)
    ((λ a, mkAuthRule (auth_type a) (auth_name a) (auth_value a)) <$> route_auth route).

Definition normalizeAdvancedCustomConfig (config : AdvancedCustomConfig) : AdvancedCustomConfig :=
  mkConfig (Some (match advanced_routes config with
                  | Some routes => normalizeAdvancedCustomRoute <$> routes
                  | None => []
                  end)).

Definition parseAdvancedCustomRouteModels (v : jsstr) : list jsstr :=
  os_of_list (List.filter truthy (trim <$> split 44 v)).

Definition ADVANCED_CUSTOM_MODEL_REGEX_PREFIX : jsstr := $"re:".

Inductive AdvancedCustomModelRuleKind := exact | regex.

Definition getAdvancedCustomModelRuleKind (modelRule : jsstr) : AdvancedCustomModelRuleKind :=
  if starts_with ADVANCED_CUSTOM_MODEL_REGEX_PREFIX modelRule then regex else exact.

Definition getAdvancedCustomRegexModelPattern (modelRule : jsstr) : jsstr := drop 3 modelRule.

(** ** Converters and paths *)

Definition isConverterPathAllowed (incomingPath converter : jsstr) : bool :=
  if bool_decide (converter = $"none") then true
  else if bool_decide (incomingPath = $"/v1/alpha/search") then false
  else if bool_decide (converter = $"anthropic_messages_to_openai_chat_completions")
  then bool_decide (incomingPath = $"/v1/messages")
  else if bool_decide (converter = $"openai_chat_completions_to_anthropic_messages")
          || bool_decide (converter = $"openai_chat_completions_to_openai_responses")
          || bool_decide (converter = $"openai_chat_completions_to_gemini_generate_content")
  then bool_decide (incomingPath = $"/v1/chat/completions")
  else if bool_decide (converter = $"openai_responses_to_openai_chat_completions")
  then bool_decide (incomingPath = $"/v1/responses")
  else if bool_decide (converter = $"openai_responses_to_gemini_generate_content")
  then bool_decide (incomingPath = $"/v1/responses")
  else includes ($":generateContent") incomingPath || includes ($":streamGenerateContent") incomingPath.

Definition isAdvancedCustomConverter (v : jsstr) : bool :=
  existsb (λ o, bool_decide (o.1 = v)) ADVANCED_CUSTOM_CONVERTER_OPTIONS.

Definition getAdvancedCustomIncomingPathOptions (converter : jsstr) : list (jsstr * jsstr) :=
  List.filter (λ option, isConverterPathAllowed option.1 converter)
    ADVANCED_CUSTOM_INCOMING_PATH_OPTIONS.

Definition getDefaultAdvancedCustomIncomingPath (converter : jsstr) : jsstr :=
  str_or (default [] (fst <$> head (getAdvancedCustomIncomingPathOptions converter)))
    ($"/v1/chat/completions").

Definition isAdvancedCustomIncomingPathAllowed (incomingPath converter : jsstr) : bool :=
  isConverterPathAllowed incomingPath converter.

Definition getAdvancedCustomConverterOptions (incomingPath : jsstr)
    : list (jsstr * (jsstr * jsstr)) :=
  let normalizedIncomingPath := trim incomingPath in
  List.filter (λ option, bool_decide (option.1 = $"none")
                         || isConverterPathAllowed normalizedIncomingPath option.1)
    ADVANCED_CUSTOM_CONVERTER_OPTIONS.

Definition getAdvancedCustomIncomingPathLabel (v : jsstr) : jsstr :=
  str_or (default [] (om_get v ADVANCED_CUSTOM_INCOMING_PATH_OPTIONS)) v.

Definition getAdvancedCustomNativeAuth (incomingPath : jsstr) : AdvancedCustomRouteAuth :=
  if bool_decide (incomingPath = claudeMessagesPath) then apiKeyHeaderAuth
  else if includes ($":generateContent") incomingPath
          || includes ($":streamGenerateContent") incomingPath
          || includes ($":embedContent") incomingPath
          || includes ($":batchEmbedContents") incomingPath
  then geminiQueryAuth
  else bearerHeaderAuth.

(** [{ upstream_path, auth }] *)
Definition getAdvancedCustomConverterDefaults (converter incomingPath : jsstr)
    : jsstr * AdvancedCustomRouteAuth :=
  let normalizedIncomingPath :=
    str_or (trim incomingPath) (getDefaultAdvancedCustomIncomingPath converter) in
  if bool_decide (converter = $"none")
  then (normalizedIncomingPath, getAdvancedCustomNativeAuth normalizedIncomingPath)
  else if bool_decide (converter = $"anthropic_messages_to_openai_chat_completions")
          || bool_decide (converter = $"gemini_generate_content_to_openai_chat_completions")
          || bool_decide (converter = $"openai_responses_to_openai_chat_completions")
  then (openAIChatPath, bearerHeaderAuth)
  else if bool_decide (converter = $"openai_chat_completions_to_openai_responses")
  then (openAIResponsesPath, bearerHeaderAuth)
  else if bool_decide (converter = $"openai_chat_completions_to_anthropic_messages")
  then (claudeMessagesPath, apiKeyHeaderAuth)
  else if bool_decide (converter = $"openai_chat_completions_to_gemini_generate_content")
          || bool_decide (converter = $"openai_responses_to_gemini_generate_content")
  then (geminiGenerateContentPath, geminiQueryAuth)
  else (str_or normalizedIncomingPath openAIChatPath,
        getAdvancedCustomNativeAuth normalizedIncomingPath).

Definition getAdvancedCustomUpstreamPathPlaceholder (converter : jsstr)
    (incomingPath : option jsstr) : jsstr :=
  (getAdvancedCustomConverterDefaults converter
     (default (getDefaultAdvancedCustomIncomingPath converter) incomingPath)).1.

(** ** Management and forwarding routes *)

Definition isAdvancedCustomManagementPath (path : jsstr) : bool :=
  bool_decide (path = ADVANCED_CUSTOM_MODEL_LIST_PATH)
  || bool_decide (path = ADVANCED_CUSTOM_BALANCE_PATH).

Definition routes_of (config : AdvancedCustomConfig) : list AdvancedCustomRoute :=
  default [] (advanced_routes config).

Definition at_path (path : jsstr) (route : AdvancedCustomRoute) : bool :=
  bool_decide (trim (incoming_path route) = path).

Definition is_management (route : AdvancedCustomRoute) : bool :=
  isAdvancedCustomManagementPath (trim (incoming_path route)).

(** [findIndex] *)
Fixpoint find_index {A} (p : A → bool) (l : list A) : option nat :=
  match l with
  | [] => None
  | x :: l => if p x then Some 0%nat else S <$> find_index p l
  end.

Definition getAdvancedCustomManagementRoute (config : AdvancedCustomConfig) (path : jsstr)
    : option AdvancedCustomRoute :=
  List.find (at_path path) (routes_of (normalizeAdvancedCustomConfig config)).

Definition replaceAdvancedCustomManagementRoute (config : AdvancedCustomConfig) (path : jsstr)
    (route : option AdvancedCustomRoute) : AdvancedCustomConfig :=
  let routes := routes_of (normalizeAdvancedCustomConfig config) in
  let index := find_index (at_path path) routes in
  mkConfig (Some
    (match route with
     | None =>
       match index with
       | Some i => take i routes ++ drop (i + 1) routes
       | None => routes
       end
     | Some route =>
       let managementRoute := mkRoute path (upstream_path route) ($"none") (Some []) (route_auth route) in
       match index with
       | Some i => <[i := managementRoute]> routes
       | None => routes ++ [managementRoute]
       end
     end)).

Definition replaceAdvancedCustomForwardingRoutes (config : AdvancedCustomConfig)
    (forwardingRoutes : list AdvancedCustomRoute) : AdvancedCustomConfig :=
  let routes := routes_of (normalizeAdvancedCustomConfig config) in
  let managementRoutes := List.filter is_management routes in
  match find_index (λ r, negb (is_management r)) routes with
  | None => mkConfig (Some (managementRoutes ++ forwardingRoutes))
  | Some firstForwardingIndex =>
    let before := List.filter is_management (take firstForwardingIndex routes) in
    let after := List.filter is_management (drop firstForwardingIndex routes) in
    mkConfig (Some (before ++ forwardingRoutes ++ after))
  end.

Definition createAdvancedCustomRoute : AdvancedCustomRoute :=
  mkRoute openAIChatPath openAIChatPath ($"none") None None.

Definition createAdvancedCustomConfig : AdvancedCustomConfig :=
  mkConfig (Some [createAdvancedCustomRoute]).

Definition createAdvancedCustomManagementRoute (path : jsstr) : AdvancedCustomRoute :=
  mkRoute path path ($"none") (Some []) None.

(** ** Authentication modes *)

Definition getAdvancedCustomAuthMode (route : AdvancedCustomRoute) : jsstr :=
  str_or (default [] (auth_type <$> route_auth route)) ($"default").

Definition buildAdvancedCustomAuth (mode : jsstr) (previousAuth : option AdvancedCustomRouteAuth)
    : option AdvancedCustomRouteAuth :=
  let name := default [] (auth_name <$> previousAuth) in
  let val := default [] (auth_value <$> previousAuth) in
  if bool_decide (mode = $"default") then None
  else if bool_decide (mode = $"none") then Some (mkAuthRule ($"none") [] [])
  else if bool_decide (mode = $"header")
  then Some (mkAuthRule ($"header") (str_or name ($"Authorization")) (str_or val ($"Bearer {api_key}")))
  else Some (mkAuthRule ($"query") (str_or name ($"api_key")) (str_or val ($"{api_key}"))).

(** ** The validator *)

(** The rules seen for one incoming path. *)
Record PathModelState := mkPathState {
  catchAllIndex : option Z;
  path_models : list (jsstr * Z);
}.

(** The loop over the models of one route: the error, or the updated rules. *)
Fixpoint check_models (routeIndex : Z) (ms seenInRoute : list jsstr) (state_models : list (jsstr * Z))
    : AdvancedCustomValidationError + list (jsstr * Z) :=
  match ms with
  | [] => inr state_models
  | model :: ms =>
    if match getAdvancedCustomModelRuleKind model with
       | regex => bool_decide (getAdvancedCustomRegexModelPattern model = [])
       | exact => false
       end
    then inl (mkError ($"Model regex cannot be empty") (Some routeIndex))
    else if bool_decide (model ∈ seenInRoute)
    then inl (mkError ($"Duplicate model in route models") (Some routeIndex))
    else if bool_decide (is_Some (om_get model state_models))
    then inl (mkError ($"Route models must be unique for the same incoming path") (Some routeIndex))
    else check_models routeIndex ms (os_add seenInRoute model) (om_set model routeIndex state_models)
  end.

Definition validateAdvancedCustomRouteModels (routeIndex : Z) (incomingPath : jsstr)
    (ms : list jsstr) (routeModelsByPath : list (jsstr * PathModelState))
    : AdvancedCustomValidationError + list (jsstr * PathModelState) :=
  let state := default (mkPathState None []) (om_get incomingPath routeModelsByPath) in
  match ms with
  | [] =>
    match catchAllIndex state with
    | Some _ =>
      inl (mkError ($"Only one catch-all route is allowed for the same incoming path") (Some routeIndex))
    | None => inr (om_set incomingPath (mkPathState (Some routeIndex) (path_models state)) routeModelsByPath)
    end
  | _ =>
    match catchAllIndex state with
    | Some _ =>
      inl (mkError ($"Catch-all route must be last for the same incoming path") (Some routeIndex))
    | None =>
      match check_models routeIndex ms [] (path_models state) with
      | inl e => inl e
      | inr models' => inr (om_set incomingPath (mkPathState None models') routeModelsByPath)
      end
    end
  end.

(** The message of the first authentication error. *)
Definition validateRouteAuth (a : option AdvancedCustomRouteAuth) : option jsstr :=
  match a with
  | None => None
  | Some a =>
    if bool_decide (auth_type a = $"none") then None
    else if negb (bool_decide (auth_type a = $"header")) && negb (bool_decide (auth_type a = $"query"))
    then Some ($"Auth type is invalid")
    else if negb (truthy (trim (auth_name a))) then Some ($"Auth name is required")
    else if negb (truthy (trim (auth_value a))) then Some ($"Auth value is required")
    else None
  end.

Section validator.
Context {U : UrlEnv}.

Definition isFullHttpURLOrAbsolutePath (v : jsstr) : bool :=
  if starts_with ($"/") v then negb (starts_with ($"//") v)
  else match parseURL v with
       | Some (host, protocol) =>
         truthy host && (bool_decide (protocol = $"http:") || bool_decide (protocol = $"https:"))
       | None => false
       end.

(** The state of the loop over the routes. *)
Record LoopState := mkLoop {
  routeModelsByPath : list (jsstr * PathModelState);
  modelListRouteIndex : option Z;
  balanceRouteIndex : option Z;
}.

Definition route_label (isModelListRoute : bool) : jsstr :=
  if isModelListRoute then $"OpenAI Models" else $"Balance Query".

(** The checks of a management route. *)
Definition check_management (index : Z) (incomingPath upstreamPath converter : jsstr)
    (routeModels : list jsstr) (st : LoopState) : AdvancedCustomValidationError + LoopState :=
  if negb (isAdvancedCustomManagementPath incomingPath) then inr st
  else
    let isModelListRoute := bool_decide (incomingPath = ADVANCED_CUSTOM_MODEL_LIST_PATH) in
    let existingIndex := if isModelListRoute then modelListRouteIndex st else balanceRouteIndex st in
    let label := route_label isModelListRoute in
    match existingIndex with
    | Some _ => inl (mkError ($"Only one " ++ label ++ $" route is allowed") (Some index))
    | None =>
      let st := if isModelListRoute
                then mkLoop (routeModelsByPath st) (Some index) (balanceRouteIndex st)
                else mkLoop (routeModelsByPath st) (modelListRouteIndex st) (Some index) in
      match routeModels with
      | _ :: _ => inl (mkError (label ++ $" route does not support client model rules") (Some index))
      | [] =>
        if negb (bool_decide (converter = $"none"))
        then inl (mkError (label ++ $" route must use native forwarding") (Some index))
        else if includes ($"{model}") upstreamPath
        then inl (mkError (label ++ $" upstream path must not contain {model}") (Some index))
        else inr st
      end
    end.

(** The checks of the target, the converter and the authentication. *)
Definition check_target (index : Z) (incomingPath upstreamPath converter : jsstr)
    (a : option AdvancedCustomRouteAuth) : option AdvancedCustomValidationError :=
  if negb (truthy upstreamPath) then Some (mkError ($"Upstream path is required") (Some index))
  else if negb (isFullHttpURLOrAbsolutePath upstreamPath)
  then Some (mkError ($"Upstream path must be a full URL or a path starting with /") (Some index))
  else if negb (isAdvancedCustomConverter converter)
  then Some (mkError ($"Converter is not registered") (Some index))
  else if negb (isConverterPathAllowed incomingPath converter)
  then Some (mkError ($"Converter does not match incoming path") (Some index))
  else match validateRouteAuth a with
       | Some msg => Some (mkError msg (Some index))
       | None => None
       end.

Definition validate_route (index : Z) (route : AdvancedCustomRoute) (st : LoopState)
    : AdvancedCustomValidationError + LoopState :=
  let incomingPath := trim (incoming_path route) in
  let upstreamPath := getAdvancedCustomRouteUpstreamPath route in
  let converter := str_or (converter route) ($"none") in
  let routeModels := normalizeAdvancedCustomRouteModels (models route) in
  if negb (truthy incomingPath) then inl (mkError ($"Incoming path is required") (Some index))
  else if negb (starts_with ($"/") incomingPath)
  then inl (mkError ($"Incoming path must start with /") (Some index))
  else if includes ($"?") incomingPath
  then inl (mkError ($"Incoming path must not include query") (Some index))
  else
    match check_management index incomingPath upstreamPath converter routeModels st with
    | inl e => inl e
    | inr st =>
      match validateAdvancedCustomRouteModels index incomingPath routeModels (routeModelsByPath st) with
      | inl e => inl e
      | inr byPath =>
        match check_target index incomingPath upstreamPath converter (route_auth route) with
        | Some e => inl e
        | None => inr (mkLoop byPath (modelListRouteIndex st) (balanceRouteIndex st))
        end
      end
    end.

Fixpoint validate_routes (index : Z) (routes : list AdvancedCustomRoute) (st : LoopState)
    : option AdvancedCustomValidationError :=
  match routes with
  | [] => None
  | route :: routes =>
    match validate_route index route st with
    | inl e => Some e
    | inr st => validate_routes (index + 1) routes st
    end
  end.

Definition validateAdvancedCustomConfig (config : option AdvancedCustomConfig)
    : option AdvancedCustomValidationError :=
  match config with
  | None => Some (mkError ($"Advanced custom configuration is required") None)
  | Some config =>
    match routes_of (normalizeAdvancedCustomConfig config) with
    | [] => Some (mkError ($"Advanced custom configuration requires at least one route") None)
    | routes => validate_routes 0 routes (mkLoop [] None None)
    end
  end.

Definition hasValidAdvancedCustomModelListRoute (config : option AdvancedCustomConfig) : bool :=
  match config with
  | None => false
  | Some c =>
    match validateAdvancedCustomConfig config with
    | Some _ => false
    | None => existsb (at_path ADVANCED_CUSTOM_MODEL_LIST_PATH)
                (routes_of (normalizeAdvancedCustomConfig c))
    end
  end.

Definition advancedCustomConfigUsesRelativeUpstreamPath (config : option AdvancedCustomConfig) : bool :=
  match config with
  | None => false
  | Some c => existsb (λ route, starts_with ($"/") (getAdvancedCustomRouteUpstreamPath route))
                (routes_of (normalizeAdvancedCustomConfig c))
  end.

End validator.

Definition getAdvancedCustomRouteSummaryLabel (route : AdvancedCustomRoute) : option jsstr :=
  let incomingPath := trim (incoming_path route) in
  if negb (truthy incomingPath) then None
  else Some (str_or (default [] (om_get incomingPath ADVANCED_CUSTOM_ROUTE_SUMMARY_LABELS))
               (getAdvancedCustomIncomingPathLabel incomingPath)).
