(* ===== verification/AdvancedCustomFacts.v ===== *)
(** * Advanced custom channels: what a saved route table guarantees

    The specification of a valid table, the theorem that the validator decides
    it exactly, and the theorems about normalisation, the management and
    forwarding routes and the templates. *)

From S2P Require Import Prelude JsString JsValue OrderedMap AdvancedCustom.

Local Open Scope js_scope.

(** ** The specification *)

Definition route_path (r : AdvancedCustomRoute) : jsstr := trim (incoming_path r).
Definition route_models (r : AdvancedCustomRoute) : list jsstr :=
  normalizeAdvancedCustomRouteModels (models r).
Definition route_converter (r : AdvancedCustomRoute) : jsstr := str_or (converter r) ($"none").
Definition route_upstream (r : AdvancedCustomRoute) : jsstr := trim (upstream_path r).

(** An authentication rule that can be applied. *)
Definition auth_ok (a : option AdvancedCustomRouteAuth) : Prop :=
  match a with
  | None => True
  | Some a =>
    auth_type a = $"none"
    ∨ ((auth_type a = $"header" ∨ auth_type a = $"query")
       ∧ trim (auth_name a) ≠ [] ∧ trim (auth_value a) ≠ [])
  end.

Section spec.
Context {U : UrlEnv}.

Record route_ok (r : AdvancedCustomRoute) : Prop := {
  ok_path : route_path r ≠ [] ∧ starts_with ($"/") (route_path r) = true
            ∧ includes ($"?") (route_path r) = false;
  ok_management : isAdvancedCustomManagementPath (route_path r) = true →
    route_models r = [] ∧ route_converter r = $"none"
    ∧ includes ($"{model}") (route_upstream r) = false;
  ok_models : NoDup (route_models r) ∧ $"re:" ∉ route_models r;
  ok_upstream : route_upstream r ≠ [] ∧ isFullHttpURLOrAbsolutePath (route_upstream r) = true;
  ok_converter : route_converter r ∈ om_keys ADVANCED_CUSTOM_CONVERTER_OPTIONS
    ∧ isConverterPathAllowed (route_path r) (route_converter r) = true;
  ok_auth : auth_ok (route_auth r);
}.

(** An earlier and a later route: for the same path the earlier is not a
    catch-all and they share no model rule, so the order of the table decides
    every request. *)
Definition compatible (r1 r2 : AdvancedCustomRoute) : Prop :=
  route_path r1 = route_path r2 →
  route_models r1 ≠ [] ∧ ∀ m, m ∈ route_models r1 → m ∉ route_models r2.

Record table_ok (routes : list AdvancedCustomRoute) : Prop := {
  table_nonempty : routes ≠ [];
  table_routes : Forall route_ok routes;
  table_pairs : ForallOrdPairs compatible routes;
}.

(** ** The models of one route *)

Lemma empty_regex m :
  match getAdvancedCustomModelRuleKind m with
  | regex => bool_decide (getAdvancedCustomRegexModelPattern m = [])
  | exact => false
  end = bool_decide (m = $"re:").
Proof.
  unfold getAdvancedCustomModelRuleKind, getAdvancedCustomRegexModelPattern.
  change ($"re:") with [114; 101; 58].
  destruct (starts_with ADVANCED_CUSTOM_MODEL_REGEX_PREFIX m) eqn:Hs.
  - change ADVANCED_CUSTOM_MODEL_REGEX_PREFIX with [114; 101; 58] in Hs.
    destruct m as [|a [|b [|c m]]]; cbn [starts_with] in Hs; bool_hyps; try done.
    subst. apply bool_decide_ext. by destruct m.
  - symmetry. apply bool_decide_eq_false. intros ->. done.
Qed.

Definition fresh_models (ms seen : list jsstr) (sm : list (jsstr * Z)) : Prop :=
  NoDup ms ∧ $"re:" ∉ ms ∧ ∀ m, m ∈ ms → m ∉ seen ∧ om_get m sm = None.

Lemma is_Some_om_set (k m : jsstr) (v : Z) sm :
  is_Some (om_get m (om_set k v sm)) ↔ m = k ∨ is_Some (om_get m sm).
Proof.
  destruct (decide (m = k)) as [->|Hne].
  - rewrite om_get_set_eq. split; [by left|eauto].
  - rewrite om_get_set_ne by done. tauto.
Qed.

Lemma check_models_spec idx ms seen sm :
  match check_models idx ms seen sm with
  | inr sm' => fresh_models ms seen sm ∧ ∀ m, is_Some (om_get m sm') ↔ is_Some (om_get m sm) ∨ m ∈ ms
  | inl _ => ¬ fresh_models ms seen sm
  end.
Proof.
  unfold fresh_models. revert seen sm. induction ms as [|m ms IH]; intros seen sm; simpl.
  { split; [|intros m; rewrite elem_of_nil; tauto].
    split; [apply NoDup_nil_2|]. split; [apply not_elem_of_nil|]. intros m []%elem_of_nil. }
  rewrite empty_regex. case_bool_decide as Hre; [intros (_ & H & _); set_solver|].
  case_bool_decide as Hseen; [intros (_ & _ & H); destruct (H m) as [? _]; set_solver|].
  case_bool_decide as Hsm.
  { intros (_ & _ & H). destruct (H m) as [_ Hn]; [left|]. rewrite Hn in Hsm. by destruct Hsm. }
  specialize (IH (os_add seen m) (om_set m idx sm)).
  destruct (check_models idx ms (os_add seen m) (om_set m idx sm)) as [e|sm'].
  - intros (Hnd & Hr & Hf). apply IH. apply NoDup_cons in Hnd as [Hm Hnd].
    split; [done|]. split; [set_solver|]. intros x Hx. destruct (Hf x) as [H1 H2]; [by right|].
    rewrite elem_of_os_add. rewrite om_get_set_ne by (intros ->; done). split; [|done].
    intros [?| ->]; [by apply H1|done].
  - destruct IH as [(Hnd & Hr & Hf) Hget].
    assert (m ∉ ms) as Hm.
    { intros Hin. destruct (Hf m Hin) as [H _]. apply H. rewrite elem_of_os_add. by right. }
    split.
    + split; [by constructor|]. split; [set_solver|]. intros x [->|Hx]%elem_of_cons.
      * split; [done|]. destruct (om_get m sm) eqn:E; [|done]. by destruct Hsm.
      * destruct (Hf x Hx) as [H1 H2]. rewrite elem_of_os_add in H1.
        rewrite om_get_set_ne in H2 by (intros ->; done). tauto.
    + intros x. rewrite Hget, is_Some_om_set, elem_of_cons. tauto.
Qed.

(** ** The loop invariant *)

Definition path_state (st : LoopState) (p : jsstr) : PathModelState :=
  default (mkPathState None []) (om_get p (routeModelsByPath st)).

Record loop_inv (done_ : list AdvancedCustomRoute) (st : LoopState) : Prop := {
  inv_catch : ∀ p, is_Some (catchAllIndex (path_state st p)) ↔
    ∃ r, r ∈ done_ ∧ route_path r = p ∧ route_models r = [];
  inv_models : ∀ p m, is_Some (om_get m (path_models (path_state st p))) ↔
    ∃ r, r ∈ done_ ∧ route_path r = p ∧ m ∈ route_models r;
  inv_list : is_Some (modelListRouteIndex st) ↔
    ∃ r, r ∈ done_ ∧ route_path r = ADVANCED_CUSTOM_MODEL_LIST_PATH;
  inv_balance : is_Some (balanceRouteIndex st) ↔
    ∃ r, r ∈ done_ ∧ route_path r = ADVANCED_CUSTOM_BALANCE_PATH;
}.

Lemma exists_snoc {A} (P : A → Prop) (l : list A) x :
  (∃ r, r ∈ l ++ [x] ∧ P r) ↔ (∃ r, r ∈ l ∧ P r) ∨ P x.
Proof.
  split.
  - intros (r & [Hr|Hr%list_elem_of_singleton]%elem_of_app & HP); [eauto|subst; auto].
  - intros [(r & Hr & HP)|HP]; [exists r|exists x]; split; set_solver.
Qed.

Lemma auth_ok_spec a : auth_ok a ↔ validateRouteAuth a = None.
Proof.
  unfold auth_ok, validateRouteAuth. destruct a as [a|]; [|done].
  case_bool_decide as Hn; [tauto|].
  destruct (negb (bool_decide (auth_type a = $"header"))
            && negb (bool_decide (auth_type a = $"query"))) eqn:Ht.
  { bool_hyps. split; [tauto|done]. }
  assert (auth_type a = $"header" ∨ auth_type a = $"query") as Hty.
  { apply andb_false_iff in Ht as [Ht|Ht]; bool_hyps; auto. }
  destruct (truthy (trim (auth_name a))) eqn:E1; simpl.
  - destruct (truthy (trim (auth_value a))) eqn:E2; simpl.
    + apply truthy_ne in E1, E2. tauto.
    + split; [|done]. intros [?|(_ & _ & H)]; [done|]. apply truthy_ne in H. congruence.
  - split; [|done]. intros [?|(_ & H & _)]; [done|]. apply truthy_ne in H. congruence.
Qed.

Lemma isAdvancedCustomConverter_spec c :
  isAdvancedCustomConverter c = true ↔ c ∈ om_keys ADVANCED_CUSTOM_CONVERTER_OPTIONS.
Proof.
  unfold isAdvancedCustomConverter, om_keys. rewrite existsb_exists. split.
  - intros (o & Hin%list_elem_of_In & Heq). bool_hyps. subst c. by apply list_elem_of_fmap_2.
  - intros (o & -> & Hin)%list_elem_of_fmap. exists o. rewrite <- list_elem_of_In.
    split; [done|]. by apply bool_decide_eq_true.
Qed.

Lemma check_target_spec idx r :
  check_target idx (route_path r) (route_upstream r) (route_converter r) (route_auth r) = None ↔
  (route_upstream r ≠ [] ∧ isFullHttpURLOrAbsolutePath (route_upstream r) = true)
  ∧ (route_converter r ∈ om_keys ADVANCED_CUSTOM_CONVERTER_OPTIONS
     ∧ isConverterPathAllowed (route_path r) (route_converter r) = true)
  ∧ auth_ok (route_auth r).
Proof.
  unfold check_target. rewrite auth_ok_spec, <- isAdvancedCustomConverter_spec, <- truthy_ne.
  destruct (truthy (route_upstream r)); simpl; [|naive_solver].
  destruct (isFullHttpURLOrAbsolutePath (route_upstream r)); simpl; [|naive_solver].
  destruct (isAdvancedCustomConverter (route_converter r)); simpl; [|naive_solver].
  destruct (isConverterPathAllowed (route_path r) (route_converter r)); simpl; [|naive_solver].
  destruct (validateRouteAuth (route_auth r)); naive_solver.
Qed.

(** What the management checks decide. *)
Definition management_ok (done_ : list AdvancedCustomRoute) (r : AdvancedCustomRoute) : Prop :=
  isAdvancedCustomManagementPath (route_path r) = true →
  (route_models r = [] ∧ route_converter r = $"none" ∧ includes ($"{model}") (route_upstream r) = false)
  ∧ ¬ ∃ r', r' ∈ done_ ∧ route_path r' = route_path r.

Lemma check_management_spec idx done_ r st :
  loop_inv done_ st →
  match check_management idx (route_path r) (route_upstream r) (route_converter r) (route_models r) st with
  | inr st' => management_ok done_ r
      ∧ routeModelsByPath st' = routeModelsByPath st
      ∧ (is_Some (modelListRouteIndex st') ↔
         is_Some (modelListRouteIndex st) ∨ route_path r = ADVANCED_CUSTOM_MODEL_LIST_PATH)
      ∧ (is_Some (balanceRouteIndex st') ↔
         is_Some (balanceRouteIndex st) ∨ route_path r = ADVANCED_CUSTOM_BALANCE_PATH)
  | inl _ => ¬ management_ok done_ r
  end.
Proof.
  intros [_ _ Hlist Hbal]. unfold check_management, management_ok.
  destruct (isAdvancedCustomManagementPath (route_path r)) eqn:Em; simpl.
  2: { unfold isAdvancedCustomManagementPath in Em. bool_hyps. split; [done|]. tauto. }
  assert (ADVANCED_CUSTOM_MODEL_LIST_PATH ≠ ADVANCED_CUSTOM_BALANCE_PATH) as Hne by done.
  assert (route_path r = ADVANCED_CUSTOM_MODEL_LIST_PATH ∨ route_path r = ADVANCED_CUSTOM_BALANCE_PATH)
    as Hpath.
  { unfold isAdvancedCustomManagementPath in Em. apply orb_true_iff in Em as [?|?]; bool_hyps; auto. }
  set (existing := if bool_decide (route_path r = ADVANCED_CUSTOM_MODEL_LIST_PATH)
                   then modelListRouteIndex st else balanceRouteIndex st).
  assert (is_Some existing ↔ ∃ r', r' ∈ done_ ∧ route_path r' = route_path r) as Hex.
  { unfold existing. case_bool_decide as Hp; [by rewrite Hp|].
    destruct Hpath as [|Hp']; [done|]. by rewrite Hp'. }
  destruct existing as [i|]; [intros H; destruct H as [_ H]; [done|]; apply H, Hex; eauto|].
  assert (¬ ∃ r', r' ∈ done_ ∧ route_path r' = route_path r) as Hno.
  { rewrite <- Hex. by intros []. }
  destruct (route_models r) as [|m ms] eqn:Hm; [|intros H; by destruct H as [[? _] _]].
  case_bool_decide as Hc; simpl; [|intros H; by destruct H as [(_ & ? & _) _]].
  destruct (includes ($"{model}") (route_upstream r)); [intros H; by destruct H as [(_ & _ & ?) _]|].
  split; [done|]. case_bool_decide as Hp; simpl; (split; [done|]).
  - split; [split; [auto|eauto]|]. rewrite Hp. tauto.
  - destruct Hpath as [|Hp']; [done|]. split; [tauto|]. split; [auto|eauto].
Qed.

(** What the model rules decide, and the state they leave. *)
Definition models_fit (done_ : list AdvancedCustomRoute) (r : AdvancedCustomRoute) : Prop :=
  (NoDup (route_models r) ∧ $"re:" ∉ route_models r) ∧ ∀ r', r' ∈ done_ → compatible r' r.

Lemma path_state_set st byPath p ps p' :
  routeModelsByPath st = om_set p ps byPath →
  path_state st p' = if decide (p' = p) then ps
                     else default (mkPathState None []) (om_get p' byPath).
Proof.
  unfold path_state. intros ->. case_decide as H; [subst; by rewrite om_get_set_eq|].
  by rewrite om_get_set_ne.
Qed.

Lemma models_fit_catch done_ r :
  (∃ r', r' ∈ done_ ∧ route_path r' = route_path r ∧ route_models r' = []) → ¬ models_fit done_ r.
Proof. intros (r' & Hin & Hp & Hm) [_ H]. by destruct (H r' Hin Hp). Qed.

Lemma models_fit_fresh done_ r st :
  loop_inv done_ st → catchAllIndex (path_state st (route_path r)) = None →
  models_fit done_ r ↔ fresh_models (route_models r) [] (path_models (path_state st (route_path r))).
Proof.
  intros [Hcatch Hmod _ _] Hc. unfold models_fit, fresh_models.
  assert (∀ r', r' ∈ done_ → route_path r' = route_path r → route_models r' ≠ []) as Hnc.
  { intros r' Hin Hp Hm. assert (is_Some (catchAllIndex (path_state st (route_path r)))) as [? ?];
      [|congruence]. apply Hcatch. eauto. }
  split.
  - intros [[Hnd Hre] H]. split; [done|]. split; [done|]. intros m Hm. split; [apply not_elem_of_nil|].
    destruct (om_get m (path_models (path_state st (route_path r)))) eqn:E; [|done]. exfalso.
    assert (is_Some (om_get m (path_models (path_state st (route_path r))))) as Hs by eauto.
    apply Hmod in Hs as (r' & Hin & Hp & Hm'). by destruct (H r' Hin Hp) as [_ Hd]; apply (Hd m).
  - intros (Hnd & Hre & H). split; [done|]. intros r' Hin Hp. split; [by apply Hnc|].
    intros m Hm' Hm. destruct (H m Hm) as [_ Hn].
    assert (is_Some (om_get m (path_models (path_state st (route_path r))))) as [? ?];
      [|congruence]. apply Hmod. eauto.
Qed.

Lemma route_models_spec idx done_ r st :
  loop_inv done_ st →
  match validateAdvancedCustomRouteModels idx (route_path r) (route_models r) (routeModelsByPath st) with
  | inr byPath => models_fit done_ r
      ∧ ∀ st', routeModelsByPath st' = byPath →
        (∀ p, is_Some (catchAllIndex (path_state st' p)) ↔
           is_Some (catchAllIndex (path_state st p)) ∨ (route_path r = p ∧ route_models r = []))
        ∧ (∀ p m, is_Some (om_get m (path_models (path_state st' p))) ↔
           is_Some (om_get m (path_models (path_state st p))) ∨ (route_path r = p ∧ m ∈ route_models r))
  | inl _ => ¬ models_fit done_ r
  end.
Proof.
  intros Hinv. pose proof Hinv as [Hcatch Hmod _ _]. unfold validateAdvancedCustomRouteModels.
  fold (path_state st (route_path r)).
  assert (∀ p, default (mkPathState None []) (om_get p (routeModelsByPath st)) = path_state st p)
    as Hps by done.
  destruct (catchAllIndex (path_state st (route_path r))) as [i|] eqn:Hc.
  { assert (¬ models_fit done_ r) as Hno.
    { apply models_fit_catch, Hcatch. rewrite Hc. eauto. }
    by destruct (route_models r). }
  pose proof (models_fit_fresh done_ r st Hinv Hc) as Hfresh.
  destruct (route_models r) as [|m0 ms0] eqn:Hm.
  - split.
    { apply Hfresh. split; [apply NoDup_nil_2|]. split; [apply not_elem_of_nil|].
      intros m []%elem_of_nil. }
    intros st' Hst'. split; intros p; [|intros m]; rewrite (path_state_set _ _ _ _ _ Hst'), Hps;
      case_decide as Hp; simpl.
    + subst p. rewrite Hc. split; [auto|eauto].
    + split; [auto|]. intros [?|[? _]]; [done|congruence].
    + subst p. rewrite elem_of_nil. tauto.
    + rewrite elem_of_nil. tauto.
  - pose proof (check_models_spec idx (m0 :: ms0) [] (path_models (path_state st (route_path r))))
      as Hcheck.
    destruct (check_models idx (m0 :: ms0) [] _) as [e|sm']; [by rewrite Hfresh|].
    destruct Hcheck as [Hf Hget]. split; [by apply Hfresh|].
    intros st' Hst'. split; intros p; [|intros m]; rewrite (path_state_set _ _ _ _ _ Hst'), Hps;
      case_decide as Hp; simpl.
    + subst p. rewrite Hc. split; [by intros []|]. intros [[]|[_ ?]]; done.
    + split; [auto|]. intros [?|[? _]]; [done|congruence].
    + subst p. rewrite Hget. tauto.
    + split; [auto|]. intros [?|[? _]]; [done|congruence].
Qed.

(** ** The validator decides the specification *)

Definition path_ok (r : AdvancedCustomRoute) : Prop :=
  route_path r ≠ [] ∧ starts_with ($"/") (route_path r) = true ∧ includes ($"?") (route_path r) = false.

(** The checks of the loop are those of the specification. *)
Lemma route_checks done_ r :
  Forall route_ok done_ →
  (route_ok r ∧ ∀ r', r' ∈ done_ → compatible r' r) ↔
  path_ok r ∧ management_ok done_ r ∧ models_fit done_ r
  ∧ (route_upstream r ≠ [] ∧ isFullHttpURLOrAbsolutePath (route_upstream r) = true)
  ∧ (route_converter r ∈ om_keys ADVANCED_CUSTOM_CONVERTER_OPTIONS
     ∧ isConverterPathAllowed (route_path r) (route_converter r) = true)
  ∧ auth_ok (route_auth r).
Proof.
  intros Hdone. rewrite Forall_forall in Hdone. split.
  - intros [[Hp Hm Hms Hu Hc Ha] Hcompat]. split; [done|]. split; [|done].
    intros Hman. split; [auto|]. intros (r' & Hin & Heq).
    destruct (Hcompat r' Hin Heq) as [Hne _]. apply Hne.
    apply (ok_management r' (Hdone r' Hin)). by rewrite Heq.
  - intros (Hp & Hm & [Hms Hcompat] & Hu & Hc & Ha). split; [|done]. split; try done.
    intros Hman. by apply Hm.
Qed.

Lemma validate_route_spec idx done_ r st :
  Forall route_ok done_ → loop_inv done_ st →
  match validate_route idx r st with
  | inr st' => (route_ok r ∧ ∀ r', r' ∈ done_ → compatible r' r) ∧ loop_inv (done_ ++ [r]) st'
  | inl _ => ¬ (route_ok r ∧ ∀ r', r' ∈ done_ → compatible r' r)
  end.
Proof.
  intros Hdone Hinv. pose proof (route_checks done_ r Hdone) as Hspec.
  match type of Hspec with _ ↔ ?Q =>
    enough (match validate_route idx r st with
            | inr st' => Q ∧ loop_inv (done_ ++ [r]) st' | inl _ => ¬ Q end) as H
      by (destruct (validate_route idx r st); rewrite Hspec; exact H) end.
  clear Hspec. unfold validate_route.
  fold (route_path r) (route_converter r) (route_models r).
  change (getAdvancedCustomRouteUpstreamPath r) with (route_upstream r).
  destruct (truthy (route_path r)) eqn:Ht; cbn [negb].
  2: { intros [[Hp _] _]. apply truthy_ne in Hp. congruence. }
  destruct (starts_with ($"/") (route_path r)) eqn:Hsl; cbn [negb].
  2: { intros [(_ & ? & _) _]. congruence. }
  destruct (includes ($"?") (route_path r)) eqn:Hq.
  { intros [(_ & _ & ?) _]. congruence. }
  pose proof (check_management_spec idx done_ r st Hinv) as Hman.
  destruct (check_management _ _ _ _ _ _) as [e|st1]; [tauto|].
  destruct Hman as (Hman & Hby & Hlist & Hbal). rewrite Hby.
  pose proof (route_models_spec idx done_ r st Hinv) as Hmod.
  destruct (validateAdvancedCustomRouteModels _ _ _ _) as [e|byPath]; [tauto|].
  destruct Hmod as [Hmod Hst].
  destruct (check_target _ _ _ _ _) as [e|] eqn:Htar.
  { intros (_ & _ & _ & Hrest). apply (check_target_spec idx) in Hrest. congruence. }
  apply check_target_spec in Htar. split; [split; [|done]|].
  { unfold path_ok. rewrite <- truthy_ne. auto. }
  destruct Hinv as [Hc Hm Hl Hb].
  destruct (Hst (mkLoop byPath (modelListRouteIndex st1) (balanceRouteIndex st1)) eq_refl) as [Hc' Hm'].
  split; simpl.
  - intros p. rewrite Hc', Hc, exists_snoc. done.
  - intros p m. rewrite Hm', Hm, exists_snoc. done.
  - rewrite Hlist, Hl, exists_snoc. done.
  - rewrite Hbal, Hb, exists_snoc. done.
Qed.

Lemma validate_routes_spec idx done_ routes st :
  Forall route_ok done_ → loop_inv done_ st →
  validate_routes idx routes st = None ↔
  Forall route_ok routes ∧ ForallOrdPairs compatible routes
  ∧ ∀ r' r, r' ∈ done_ → r ∈ routes → compatible r' r.
Proof.
  revert idx done_ st. induction routes as [|r routes IH]; intros idx done_ st Hdone Hinv; simpl.
  { split; [|done]. intros _. split; [constructor|]. split; [constructor|].
    intros r' r _ []%elem_of_nil. }
  pose proof (validate_route_spec idx done_ r st Hdone Hinv) as Hr.
  destruct (validate_route idx r st) as [e|st'].
  - split; [done|]. intros (Hall & _ & Hcomp). exfalso. apply Hr.
    apply Forall_cons in Hall as [? _]. split; [done|]. intros r' Hin. apply Hcomp; [done|left].
  - destruct Hr as [[Hok Hcomp] Hinv'].
    rewrite (IH (idx + 1) (done_ ++ [r]) st'); [|by apply Forall_app; auto|done].
    rewrite Forall_cons. split.
    + intros (Hall & Hpairs & Hcross). split; [done|]. split.
      * constructor; [|done]. apply List.Forall_forall. intros x Hx%list_elem_of_In.
        apply Hcross; set_solver.
      * intros r' x Hr' [->|Hx]%elem_of_cons; [auto|]. apply Hcross; set_solver.
    + intros ([_ Hall] & Hpairs & Hcross). inversion Hpairs as [|? ? Hfst Hrest]; subst.
      split; [done|]. split; [done|]. intros r' x [Hr'|Hr'%list_elem_of_singleton]%elem_of_app Hx.
      * apply Hcross; set_solver.
      * subst r'. rewrite List.Forall_forall in Hfst. by apply Hfst, list_elem_of_In.
Qed.

Lemma initial_loop_inv : loop_inv [] (mkLoop [] None None).
Proof.
  split; simpl.
  - intros p. unfold path_state. simpl. split; [by intros []|by intros (r & []%elem_of_nil & _)].
  - intros p m. unfold path_state. simpl. split; [by intros []|by intros (r & []%elem_of_nil & _)].
  - split; [by intros []|by intros (r & []%elem_of_nil & _)].
  - split; [by intros []|by intros (r & []%elem_of_nil & _)].
Qed.

Lemma validator_spec c :
  validateAdvancedCustomConfig (Some c) = None ↔ table_ok (routes_of (normalizeAdvancedCustomConfig c)).
Proof.
  unfold validateAdvancedCustomConfig.
  destruct (routes_of (normalizeAdvancedCustomConfig c)) as [|r routes] eqn:Hr.
  { split; [done|]. by intros [? _ _]. }
  rewrite (validate_routes_spec 0 [] (r :: routes)); [|constructor|apply initial_loop_inv].
  split.
  - intros (? & ? & _). by split.
  - intros [_ ? ?]. split; [done|]. split; [done|]. intros r' x []%elem_of_nil.
Qed.

(** C2: the validator accepts exactly the route tables that work.  A
    configuration is saved without error exactly when its normalised table is
    not empty, every route has a path that can be matched, a usable target,
    converter and authentication, management routes are plain, and on every
    path the rules are disjoint and a catch-all comes last. *)
Theorem validator_exact (c : option AdvancedCustomConfig) :
  validateAdvancedCustomConfig c = None ↔
  ∃ config, c = Some config ∧ table_ok (routes_of (normalizeAdvancedCustomConfig config)).
Proof.
  destruct c as [c|].
  - rewrite validator_spec. split; [eauto|]. by intros (c' & [= <-] & H).
  - split; [done|]. by intros (c' & ? & _).
Qed.

End spec.

(** ** Normalisation *)

Lemma str_or_idem a b : b ≠ [] → str_or (str_or a b) b = str_or a b.
Proof. unfold str_or. destruct (truthy a) eqn:E; [by rewrite E|by destruct (truthy b)]. Qed.

Lemma normalize_models_idem l :
  normalizeAdvancedCustomRouteModels (Some (normalizeAdvancedCustomRouteModels l))
  = normalizeAdvancedCustomRouteModels l.
Proof.
  destruct l as [l|]; [|done]. simpl. induction l as [|m l IH]; [done|]. csimpl.
  destruct (truthy (trim m)) eqn:E; [|done]. csimpl. rewrite trim_idem, E. by f_equal.
Qed.

Lemma normalize_route_idem r :
  normalizeAdvancedCustomRoute (normalizeAdvancedCustomRoute r) = normalizeAdvancedCustomRoute r.
Proof.
  destruct r as [ip up cv ms a]. unfold normalizeAdvancedCustomRoute,
    getAdvancedCustomRouteUpstreamPath; cbn [incoming_path upstream_path converter models route_auth].
  rewrite trim_idem, str_or_idem by done.
  pose proof (normalize_models_idem ms) as Hm.
  f_equal; [|destruct a as [[]|]; done].
  destruct (normalizeAdvancedCustomRouteModels ms) as [|m l] eqn:E; [done|]. by rewrite Hm.
Qed.

Lemma normalize_config_routes c :
  routes_of (normalizeAdvancedCustomConfig c) = normalizeAdvancedCustomRoute <$> routes_of c.
Proof. unfold normalizeAdvancedCustomConfig, routes_of. by destruct (advanced_routes c). Qed.

Lemma normalize_routes_idem (routes : list AdvancedCustomRoute) :
  normalizeAdvancedCustomRoute <$> (normalizeAdvancedCustomRoute <$> routes)
  = normalizeAdvancedCustomRoute <$> routes.
Proof. rewrite <- list_fmap_compose. apply list_fmap_ext. intros. apply normalize_route_idem. Qed.

Lemma normalize_config_idem c :
  normalizeAdvancedCustomConfig (normalizeAdvancedCustomConfig c) = normalizeAdvancedCustomConfig c.
Proof.
  unfold normalizeAdvancedCustomConfig at 1. cbn [advanced_routes normalizeAdvancedCustomConfig].
  unfold normalizeAdvancedCustomConfig. do 2 f_equal.
  destruct (advanced_routes c); [apply normalize_routes_idem|done].
Qed.

Lemma normalize_config_verdict {U : UrlEnv} c :
  validateAdvancedCustomConfig (Some (normalizeAdvancedCustomConfig c)) = validateAdvancedCustomConfig (Some c).
Proof. unfold validateAdvancedCustomConfig. by rewrite normalize_config_idem. Qed.

(** Normalisation is a canonical form: normalising twice is normalising once, and
    it does not change the verdict of the validator. *)
Theorem normalize_canonical {U : UrlEnv} c :
  normalizeAdvancedCustomConfig (normalizeAdvancedCustomConfig c) = normalizeAdvancedCustomConfig c
  ∧ validateAdvancedCustomConfig (Some (normalizeAdvancedCustomConfig c))
    = validateAdvancedCustomConfig (Some c).
Proof. split; [apply normalize_config_idem|apply normalize_config_verdict]. Qed.

(** ** Management and forwarding routes *)

Lemma find_index_Some {A} (p : A → bool) l i :
  find_index p l = Some i →
  ∃ l1 x l2, l = l1 ++ x :: l2 ∧ length l1 = i ∧ p x = true ∧ forallb (λ y, negb (p y)) l1 = true.
Proof.
  revert i. induction l as [|y l IH]; intros i; simpl; [done|].
  destruct (p y) eqn:Hy; [intros [= <-]; by exists [], y, l|].
  intros (j & Hj & ->)%fmap_Some. destruct (IH j Hj) as (l1 & x & l2 & -> & <- & Hx & Hall).
  exists (y :: l1), x, l2. simpl. by rewrite Hy, Hall.
Qed.

Lemma find_index_None {A} (p : A → bool) l :
  find_index p l = None → forallb (λ y, negb (p y)) l = true.
Proof.
  induction l as [|y l IH]; simpl; [done|]. destruct (p y); [done|].
  intros H%fmap_None. by rewrite IH.
Qed.

Lemma find_skip {A} (p : A → bool) l1 l2 :
  forallb (λ y, negb (p y)) l1 = true → List.find p (l1 ++ l2) = List.find p l2.
Proof.
  induction l1 as [|y l1 IH]; simpl; [done|]. intros H. bool_hyps.
  destruct (p y); [done|auto].
Qed.

Lemma insert_middle {A} (l1 l2 : list A) x y : <[length l1 := y]> (l1 ++ x :: l2) = l1 ++ y :: l2.
Proof. rewrite insert_app_r_alt, Nat.sub_diag by done. done. Qed.

Lemma at_path_normalize p r : at_path p (normalizeAdvancedCustomRoute r) = at_path p r.
Proof. done. Qed.

Lemma forallb_fmap_norm p (routes : list AdvancedCustomRoute) :
  forallb (λ y, negb (at_path p y)) routes = true →
  forallb (λ y, negb (at_path p y)) (normalizeAdvancedCustomRoute <$> routes) = true.
Proof.
  induction routes as [|r l IH]; [done|]. intros [Hr Hl]%andb_true_iff.
  apply andb_true_iff. split; [exact Hr|auto].
Qed.

Definition management_route (path : jsstr) (route : AdvancedCustomRoute) : AdvancedCustomRoute :=
  mkRoute path (upstream_path route) ($"none") (Some []) (route_auth route).

(** Setting a management route sets that route and nothing else.  After
    storing a management route under a (trimmed) path, reading that path gives
    the stored route in normal form; and whether a route is stored or removed,
    the routes of all other paths are untouched and keep their order. *)
Theorem management_route_update c path route :
  trim path = path →
  getAdvancedCustomManagementRoute (replaceAdvancedCustomManagementRoute c path (Some route)) path
    = Some (normalizeAdvancedCustomRoute (management_route path route))
  ∧ ∀ new,
    List.filter (λ r, negb (at_path path r))
      (routes_of (replaceAdvancedCustomManagementRoute c path new))
    = List.filter (λ r, negb (at_path path r)) (routes_of (normalizeAdvancedCustomConfig c)).
Proof.
  intros Htrim. set (routes := routes_of (normalizeAdvancedCustomConfig c)).
  assert (∀ route, at_path path (management_route path route) = true) as Hmr.
  { intros r'. apply bool_decide_eq_true. exact Htrim. }
  split.
  - unfold getAdvancedCustomManagementRoute. rewrite normalize_config_routes.
    unfold replaceAdvancedCustomManagementRoute. fold routes. fold (management_route path route).
    destruct (find_index (at_path path) routes) as [i|] eqn:Hi; cbn [routes_of advanced_routes default from_option id].
    + apply find_index_Some in Hi as (l1 & x & l2 & -> & <- & Hx & Hall).
      rewrite insert_middle, fmap_app, fmap_cons.
      rewrite find_skip by by apply forallb_fmap_norm. simpl. rewrite at_path_normalize, Hmr. done.
    + apply find_index_None in Hi. rewrite fmap_app. rewrite find_skip by by apply forallb_fmap_norm.
      simpl. rewrite at_path_normalize, Hmr. done.
  - intros new. unfold replaceAdvancedCustomManagementRoute. fold routes.
    destruct new as [new|].
    + fold (management_route path new).
      destruct (find_index (at_path path) routes) as [i|] eqn:Hi; cbn [routes_of advanced_routes default from_option id].
      * apply find_index_Some in Hi as (l1 & x & l2 & -> & <- & Hx & Hall).
        rewrite insert_middle.
        rewrite !List.filter_app. simpl. by rewrite Hmr, Hx.
      * rewrite List.filter_app. simpl. rewrite Hmr. simpl. by rewrite app_nil_r.
    + destruct (find_index (at_path path) routes) as [i|] eqn:Hi; cbn [routes_of advanced_routes default from_option id];
        [|done].
      apply find_index_Some in Hi as (l1 & x & l2 & -> & <- & Hx & Hall).
      rewrite take_app_length, drop_app, (drop_ge l1) by lia.
      replace (length l1 + 1 - length l1)%nat with 1%nat by lia. simpl.
      rewrite !List.filter_app. simpl. by rewrite Hx.
Qed.

(** Editing the forwarding routes keeps the management routes.  When the new
    forwarding routes contain no management route, the table that results has
    exactly these forwarding routes, in order, and exactly the management
    routes it had, in order. *)
Theorem forwarding_routes_update c forwarding :
  forallb (λ r, negb (is_management r)) forwarding = true →
  let routes := routes_of (replaceAdvancedCustomForwardingRoutes c forwarding) in
  List.filter (λ r, negb (is_management r)) routes = forwarding
  ∧ List.filter is_management routes
    = List.filter is_management (routes_of (normalizeAdvancedCustomConfig c)).
Proof.
  intros Hf.
  assert (∀ l, forallb (λ r, negb (is_management r)) l = true →
    List.filter (λ r, negb (is_management r)) l = l ∧ List.filter is_management l = []) as Hfwd.
  { induction l as [|r l IH]; simpl; [done|]. intros H. bool_hyps.
    destruct (is_management r); [done|]. destruct IH as [-> ->]; done. }
  assert (∀ l, List.filter (λ r, negb (is_management r)) (List.filter is_management l) = []
               ∧ List.filter is_management (List.filter is_management l)
                 = List.filter is_management l) as Hman.
  { induction l as [|r l [IH1 IH2]]; simpl; [done|]. destruct (is_management r) eqn:E; [|done].
    simpl. rewrite E. simpl. by rewrite IH1, IH2. }
  destruct (Hfwd forwarding Hf) as [Hf1 Hf2].
  unfold replaceAdvancedCustomForwardingRoutes.
  set (routes := routes_of (normalizeAdvancedCustomConfig c)).
  destruct (find_index _ routes) as [i|]; cbn [routes_of advanced_routes default from_option id].
  - rewrite !List.filter_app, Hf1, Hf2.
    destruct (Hman (take i routes)) as [-> ->], (Hman (drop i routes)) as [-> ->]. simpl.
    rewrite app_nil_r. split; [done|]. by rewrite <- List.filter_app, take_drop.
  - rewrite !List.filter_app, Hf1, Hf2. destruct (Hman routes) as [-> ->]. by rewrite app_nil_r.
Qed.

(** ** What the editor offers is valid *)

(** The route the editor fills in for a converter. *)
Definition suggested_route (conv : jsstr) : AdvancedCustomRoute :=
  let path := getDefaultAdvancedCustomIncomingPath conv in
  let defaults := getAdvancedCustomConverterDefaults conv path in
  mkRoute path defaults.1 conv None (Some defaults.2).

(** Everything the editor offers passes the validator.  Each template, the
    initial configuration, the route suggested for each converter and the two
    management routes are accepted as they are. *)
Theorem offered_configs_valid {U : UrlEnv} :
  (∀ key, validateAdvancedCustomConfig (Some (getAdvancedCustomTemplateConfig key)) = None)
  ∧ validateAdvancedCustomConfig (Some createAdvancedCustomConfig) = None
  ∧ (∀ conv, conv ∈ om_keys ADVANCED_CUSTOM_CONVERTER_OPTIONS →
       validateAdvancedCustomConfig (Some (mkConfig (Some [suggested_route conv]))) = None)
  ∧ (∀ path, isAdvancedCustomManagementPath path = true →
       validateAdvancedCustomConfig
         (Some (mkConfig (Some [createAdvancedCustomManagementRoute path]))) = None).
Proof.
  split; [|split; [|split]].
  - intros key. unfold getAdvancedCustomTemplateConfig, cloneAdvancedCustomConfig.
    destruct (List.find _ ADVANCED_CUSTOM_TEMPLATE_OPTIONS) as [o|] eqn:Hf; [|vm_compute; reflexivity].
    apply find_some in Hf as [Hin _].
    repeat (destruct Hin as [<-|Hin]; [vm_compute; reflexivity|]). done.
  - vm_compute. reflexivity.
  - intros conv (o & -> & Hin%list_elem_of_In)%list_elem_of_fmap.
    repeat (destruct Hin as [<-|Hin]; [vm_compute; reflexivity|]). done.
  - intros path Hp. unfold isAdvancedCustomManagementPath in Hp.
    apply orb_true_iff in Hp as [Hp|Hp]; bool_hyps; subst path; vm_compute; reflexivity.
Qed.

(** ** The theorems at concrete inputs *)

Definition sample_config : AdvancedCustomConfig :=
  mkConfig (Some [
    createAdvancedCustomManagementRoute ($"/v1/models");
    mkRoute ($" /v1/messages ") ($"/v1/messages ") [] (Some [$" claude "; []]) None ]).

Lemma management_route_update_witness :
  getAdvancedCustomManagementRoute
    (replaceAdvancedCustomManagementRoute sample_config ($"/v1/models")
       (Some (mkRoute [] ($" /models ") [] None None))) ($"/v1/models")
  = Some (mkRoute ($"/v1/models") ($"/models") ($"none") None None).
Proof.
  exact (proj1 (management_route_update sample_config ($"/v1/models")
    (mkRoute [] ($" /models ") [] None None) eq_refl)).
Defined.

Lemma forwarding_routes_update_witness :
  List.filter is_management
    (routes_of (replaceAdvancedCustomForwardingRoutes sample_config [createAdvancedCustomRoute]))
  = [normalizeAdvancedCustomRoute (createAdvancedCustomManagementRoute ($"/v1/models"))].
Proof.
  exact (proj2 (forwarding_routes_update sample_config [createAdvancedCustomRoute] eq_refl)).
Defined.
