(* ===== verification/AdvancedCustomText.v ===== *)
(** * Advanced custom configurations as text

    The functions of [src/web/src/features/channels/lib/advanced-custom.ts] that
    go through JSON: a channel stores its route table as text, the drawer parses
    it, and the channel list shows statistics of it.

    [JSON.parse] yields data of any shape, which the code takes to be an
    [AdvancedCustomConfig].  Texts whose fields have the declared types are
    modelled; for others [parseAdvancedCustomConfig] is [Untyped]. *)

From S2P Require Import Prelude JsString JsNumber NumberText JsValue Json OrderedMap.
From S2P Require Import AdvancedCustom AdvancedCustomFacts.

(** ** Values of the declared types *)

(** An optional string; the empty string stands for an absent one. *)
Definition read_string (v : value) : option jsstr :=
  match v with VUndefined => Some [] | VStr s => Some s | _ => None end.

Fixpoint read_strings (l : list value) : option (list jsstr) :=
  match l with
  | [] => Some []
  | VStr s :: l' => ss ← read_strings l'; Some (s :: ss)
  | _ => None
  end.

Definition read_models (v : value) : option (option (list jsstr)) :=
  match v with
  | VUndefined => Some None
  | VArr l => ss ← read_strings l; Some (Some ss)
  | _ => None
  end.

Definition read_auth (v : value) : option (option AdvancedCustomRouteAuth) :=
  match v with
  | VUndefined => Some None
  | VObj _ =>
    t ← read_string (get v $"type");
    n ← read_string (get v $"name");
    x ← read_string (get v $"value");
    Some (Some (mkAuthRule t n x))
  | _ => None
  end.

Definition read_route (v : value) : option AdvancedCustomRoute :=
  match v with
  | VObj _ =>
    i ← read_string (get v $"incoming_path");
    u ← read_string (get v $"upstream_path");
    c ← read_string (get v $"converter");
    ms ← read_models (get v $"models");
    a ← read_auth (get v $"auth");
    Some (mkRoute i u c ms a)
  | _ => None
  end.

Fixpoint read_routes (l : list value) : option (list AdvancedCustomRoute) :=
  match l with
  | [] => Some []
  | v :: l' => r ← read_route v; rs ← read_routes l'; Some (r :: rs)
  end.

Definition read_config (v : value) : option AdvancedCustomConfig :=
  match get v $"advanced_routes" with
  | VUndefined => Some (mkConfig None)
  | VArr l => rs ← read_routes l; Some (mkConfig (Some rs))
  | _ => None
  end.

(** ** Parsing *)

Inductive ParsedConfig :=
| NoConfig
| Parsed (config : AdvancedCustomConfig)
| Untyped.

Definition parseAdvancedCustomConfig (text : option jsstr) : ParsedConfig :=
  match text with
  | None => NoConfig
  | Some s =>
    if negb (truthy (trim s)) then NoConfig
    else match json_parse s with
    | Some (VObj fields) =>
      match read_config (VObj fields) with
      | Some config => Parsed (normalizeAdvancedCustomConfig config)
      | None => Untyped
      end
    | _ => NoConfig
    end
  end.

(** ** Printing *)

(** A property whose value is [undefined] is not printed. *)
Definition opt_field (k : jsstr) (v : option value) : list (jsstr * value) :=
  match v with Some x => [(k, x)] | None => [] end.

Definition auth_value_of (a : AdvancedCustomRouteAuth) : value :=
  VObj (opt_field $"type" (if truthy (auth_type a) then Some (VStr (auth_type a)) else None)
        ++ [($"name", VStr (auth_name a)); ($"value", VStr (auth_value a))]).

(** The properties in the order in which the normalised route has them. *)
Definition route_value (r : AdvancedCustomRoute) : value :=
  VObj ([($"incoming_path", VStr (incoming_path r)); ($"upstream_path", VStr (upstream_path r));
         ($"converter", VStr (converter r))]
        ++ opt_field $"models" ((λ ms, VArr (VStr <$> ms)) <$> models r)
        ++ opt_field $"auth" (auth_value_of <$> route_auth r)).

Definition config_value (c : AdvancedCustomConfig) : value :=
  VObj [($"advanced_routes", VArr (route_value <$> default [] (advanced_routes c)))].

Definition stringifyAdvancedCustomConfig (config : AdvancedCustomConfig) : jsstr :=
  default [] (json_stringify $"  " (config_value (normalizeAdvancedCustomConfig config))).

(** ** Statistics *)

Record AdvancedCustomStats := { routeCount : nat; st_valid : bool; routeTypeLabels : list jsstr }.

(** [seenRouteTypeLabels] holds exactly the labels pushed so far. *)
Definition add_label (labels : list jsstr) (route : AdvancedCustomRoute) : list jsstr :=
  match getAdvancedCustomRouteSummaryLabel route with
  | Some l => if truthy l then os_add labels l else labels
  | None => labels
  end.

Definition getAdvancedCustomStats {U : UrlEnv} (text : option jsstr) : option AdvancedCustomStats :=
  match parseAdvancedCustomConfig text with
  | NoConfig => Some {| routeCount := 0; st_valid := false; routeTypeLabels := [] |}
  | Parsed config =>
    let normalized := normalizeAdvancedCustomConfig config in
    let routes := default [] (advanced_routes normalized) in
    Some {| routeCount := length routes;
            st_valid := match validateAdvancedCustomConfig (Some normalized) with None => true | Some _ => false end;
            routeTypeLabels := fold_left add_label routes [] |}
  | Untyped => None
  end.

(** ** A configuration survives its text *)

Definition auth_units (a : AdvancedCustomRouteAuth) : bool :=
  forallb code_unit (auth_type a) && forallb code_unit (auth_name a) && forallb code_unit (auth_value a).

Definition route_units (r : AdvancedCustomRoute) : bool :=
  forallb code_unit (incoming_path r) && forallb code_unit (upstream_path r)
  && forallb code_unit (converter r) && forallb (forallb code_unit) (default [] (models r))
  && from_option auth_units true (route_auth r).

Definition config_units (c : AdvancedCustomConfig) : bool :=
  forallb route_units (default [] (advanced_routes c)).

Lemma read_strings_of ss : read_strings (VStr <$> ss) = Some ss.
Proof. induction ss as [|s ss IH]; [done|]. cbn [fmap list_fmap read_strings]. fold (VStr <$> ss). by rewrite IH. Qed.

Lemma read_auth_of a : read_auth (auth_value_of a) = Some (Some a).
Proof.
  destruct a as [t n v]. unfold auth_value_of. cbn [auth_type auth_name auth_value].
  destruct t as [|c t]; reflexivity.
Qed.

Lemma read_route_of r : read_route (route_value r) = Some r.
Proof.
  destruct r as [i u c ms a]. unfold route_value, read_route. cbn [incoming_path upstream_path converter models route_auth].
  set (fields := _ ++ _ ++ _).
  assert (get (VObj fields) $"incoming_path" = VStr i ∧ get (VObj fields) $"upstream_path" = VStr u ∧
          get (VObj fields) $"converter" = VStr c) as (-> & -> & ->) by (split_and!; reflexivity).
  assert (get (VObj fields) $"models" = from_option (λ ms, VArr (VStr <$> ms)) VUndefined ms) as ->
    by (destruct ms, a; reflexivity).
  assert (get (VObj fields) $"auth" = from_option auth_value_of VUndefined a) as ->
    by (destruct ms, a; reflexivity).
  cbn [read_string mbind option_bind].
  assert (read_models (from_option (λ ms, VArr (VStr <$> ms)) VUndefined ms) = Some ms) as ->.
  { destruct ms as [ms|]; [|done]. cbn [from_option read_models]. by rewrite read_strings_of. }
  assert (read_auth (from_option auth_value_of VUndefined a) = Some a) as ->.
  { destruct a as [a|]; [|done]. cbn [from_option]. apply read_auth_of. }
  done.
Qed.

Lemma read_routes_of rs : read_routes (route_value <$> rs) = Some rs.
Proof.
  induction rs as [|r rs IH]; [done|]. cbn [fmap list_fmap read_routes]. fold (route_value <$> rs).
  by rewrite read_route_of, IH.
Qed.

Lemma auth_value_ok a : auth_units a = true → json_ok (auth_value_of a) = true.
Proof.
  destruct a as [t n v]. unfold auth_units, auth_value_of. cbn [auth_type auth_name auth_value].
  rewrite !andb_true_iff. intros [[Ht Hn] Hv].
  destruct (truthy t); cbn [opt_field app json_ok forallb fst snd]; rewrite ?Ht, Hn, Hv; vm_compute; reflexivity.
Qed.

Lemma strings_value_ok ms : forallb (forallb code_unit) ms = true → json_ok (VArr (VStr <$> ms)) = true.
Proof.
  intros H. cbn [json_ok]. rewrite forallb_forall in *. intros v Hv. apply list_elem_of_In in Hv.
  apply list_elem_of_fmap in Hv as (s & -> & Hs). apply H. by apply list_elem_of_In.
Qed.

Lemma route_value_ok r : route_units r = true → json_ok (route_value r) = true.
Proof.
  destruct r as [i u c ms a]. unfold route_units, route_value.
  cbn [incoming_path upstream_path converter models route_auth]. rewrite !andb_true_iff.
  intros [[[[Hi Hu] Hc] Hm] Ha].
  assert (∀ o : list (jsstr * value), forallb (λ kv, json_ok kv.2) o = true →
    forallb (λ kv, forallb code_unit kv.1) o = true →
    bool_decide (NoDup o.*1) = true →
    bool_decide (StronglySorted (λ k k', key_before k' k = false) o.*1) = true → json_ok (VObj o) = true) as Hobj.
  { intros o H1 H2 H3 H4. cbn [json_ok]. by rewrite H1, H2, H3, H4. }
  apply Hobj; [|destruct ms, a; vm_compute; reflexivity..].
  rewrite !forallb_app. cbn [forallb snd json_ok]. rewrite Hi, Hu, Hc. cbn [andb].
  apply andb_true_iff. split.
  - destruct ms as [ms|]; [|done]. cbn [fmap option_fmap option_map opt_field forallb snd].
    by rewrite strings_value_ok.
  - destruct a as [a|]; [|done]. cbn [fmap option_fmap option_map opt_field forallb snd].
    by rewrite auth_value_ok.
Qed.

Lemma config_value_ok c : config_units c = true → json_ok (config_value c) = true.
Proof.
  unfold config_units, config_value. intros H.
  assert (json_ok (VArr (route_value <$> default [] (advanced_routes c))) = true) as Ha.
  { cbn [json_ok]. rewrite forallb_forall in *. intros v Hv. apply list_elem_of_In in Hv.
    apply list_elem_of_fmap in Hv as (r & -> & Hr). apply route_value_ok, H. by apply list_elem_of_In. }
  cbn [json_ok] in *. cbn [forallb fst snd]. cbn [json_ok]. rewrite Ha. vm_compute. reflexivity.
Qed.

Lemma normalize_units c : config_units c = true → config_units (normalizeAdvancedCustomConfig c) = true.
Proof.
  unfold config_units, normalizeAdvancedCustomConfig. cbn [advanced_routes].
  destruct (advanced_routes c) as [rs|]; [|done]. change (default [] (Some ?x)) with x.
  rewrite !forallb_forall. intros H r Hr. apply list_elem_of_In, list_elem_of_fmap in Hr as (r' & -> & Hr').
  apply list_elem_of_In in Hr'. specialize (H r' Hr'). destruct r' as [i u cv ms a]. unfold route_units in *.
  unfold normalizeAdvancedCustomRoute, getAdvancedCustomRouteUpstreamPath, normalizeAdvancedCustomRouteModels.
  cbn [incoming_path upstream_path converter models route_auth] in *. rewrite !andb_true_iff in *.
  destruct H as [[[[Hi Hu] Hc] Hm] Ha]. split_and!.
  - done.
  - by apply forallb_trim.
  - unfold str_or. by case_match.
  - destruct ms as [ms|]; [|done]. change (default [] (Some ms)) with ms in Hm.
    assert (forallb (forallb code_unit) (List.filter truthy (trim <$> ms)) = true) as Hf.
    { rewrite forallb_forall in *. intros s [Hs _]%filter_In. apply list_elem_of_In, list_elem_of_fmap in Hs as (s' & -> & Hs').
      apply forallb_trim, Hm. by apply list_elem_of_In. }
    by destruct (List.filter truthy (trim <$> ms)).
  - by destruct a.
Qed.

Lemma config_text c : config_units c = true →
  ∃ t, stringifyAdvancedCustomConfig c = t ∧ truthy (trim t) = true ∧
       json_parse t = Some (config_value (normalizeAdvancedCustomConfig c)).
Proof.
  intros Hu%normalize_units%config_value_ok.
  destruct (parse_stringify $"  " ltac:(done) _ Hu) as (t & Et & Ep). exists t.
  unfold stringifyAdvancedCustomConfig. rewrite Et. split_and!; [done| |done].
  unfold json_stringify, config_value in Et. cbn [stringify_at] in Et. injection Et as <-.
  unfold bracket. assert (∀ s, truthy (trim (123 :: s)) = true) as Ht.
  { intros s. unfold trim. cbn [trim_start]. change (is_space 123) with false. cbn iota.
    by destruct (trim_end_cons 123 s eq_refl) as [s' ->]. }
  repeat case_match; apply Ht.
Qed.

Lemma labels_NoDup routes labels : NoDup labels → NoDup (fold_left add_label routes labels).
Proof.
  revert labels. induction routes as [|r routes IH]; intros labels Hn; [done|]. cbn [fold_left]. apply IH.
  unfold add_label. repeat case_match; [by apply os_add_NoDup|done..].
Qed.

(** A route table survives its text.  The text written for a configuration is
    parsed back as its normal form, whatever the optional fields of its routes;
    the statistics shown for the text count the routes of the configuration and
    call it valid exactly when the validator accepts it. *)
Theorem config_text_roundtrip {U : UrlEnv} (c : AdvancedCustomConfig) :
  config_units c = true →
  parseAdvancedCustomConfig (Some (stringifyAdvancedCustomConfig c)) =
    Parsed (normalizeAdvancedCustomConfig c) ∧
  ∃ stats, getAdvancedCustomStats (Some (stringifyAdvancedCustomConfig c)) = Some stats ∧
    routeCount stats = length (default [] (advanced_routes c)) ∧
    (st_valid stats = true ↔ validateAdvancedCustomConfig (Some c) = None) ∧
    NoDup (routeTypeLabels stats).
Proof.
  intros Hu. destruct (config_text c Hu) as (t & -> & Ht & Hp).
  assert (parseAdvancedCustomConfig (Some t) = Parsed (normalizeAdvancedCustomConfig c)) as E.
  { unfold parseAdvancedCustomConfig. rewrite Ht, Hp. cbn [negb]. unfold config_value, read_config.
    change (get _ $"advanced_routes") with
      (VArr (route_value <$> default [] (advanced_routes (normalizeAdvancedCustomConfig c)))).
    cbn iota. rewrite read_routes_of. cbn [mbind option_bind]. f_equal.
    etrans; [|apply normalize_config_idem]. done. }
  split; [done|]. unfold getAdvancedCustomStats. rewrite E. eexists. split; [done|].
  cbn [routeCount st_valid routeTypeLabels]. rewrite normalize_config_idem, normalize_config_verdict.
  split_and!.
  - unfold normalizeAdvancedCustomConfig. cbn [advanced_routes]. destruct (advanced_routes c); [|done].
    apply length_fmap.
  - by destruct (validateAdvancedCustomConfig (Some c)).
  - apply labels_NoDup, NoDup_nil_2.
Qed.

Definition no_urls : UrlEnv := {| parseURL := λ _, None |}.

Lemma config_text_roundtrip_witness :
  parseAdvancedCustomConfig (Some (stringifyAdvancedCustomConfig createAdvancedCustomConfig)) =
    Parsed (normalizeAdvancedCustomConfig createAdvancedCustomConfig).
Proof.
  apply (@config_text_roundtrip no_urls createAdvancedCustomConfig). vm_compute. reflexivity.
Defined.
