(* ===== verification/BillingExpr.v ===== *)
(** * Billing expressions

    [src/web/src/features/pricing/lib/billing-expr.ts]: the expressions that
    price a request.  A billing expression is a tiered price, possibly
    multiplied by request rules [(condition ? multiplier : 1)].  The editor
    builds the text of the rules from structured groups
    ([buildRequestRuleExpr]) and reads it back with regular expressions
    ([tryParseRequestRuleExpr]); [combineBillingExpr] and
    [splitBillingExprAndRequestRules] join and separate the two parts. *)

From S2P Require Import Prelude JsString JsNumber NumberText Regex JsValue Json OrderedMap.

(** ** Variable registry *)

Inductive BillingSide := SideInput | SideOutput | SideCondition.

Record BillingVar := {
  key : jsstr;
  bv_field : option jsstr;
  tierField : option jsstr;
  bv_label : jsstr;
  shortLabel : jsstr;
  side : BillingSide;
  isBase : bool;
  isConditionOnly : bool;
  bv_group : option jsstr
}.

Definition pricing_var (k f t l sl : jsstr) (sd : BillingSide) (base : bool)
    (g : option jsstr) : BillingVar :=
  {| key := k; bv_field := Some f; tierField := Some t; bv_label := l; shortLabel := sl;
     side := sd; isBase := base; isConditionOnly := false; bv_group := g |}.

Definition BILLING_VARS : list BillingVar :=
  [ pricing_var $"p" $"inputPrice" $"input_unit_cost" $"Input price" $"Input" SideInput true None;
    pricing_var $"c" $"outputPrice" $"output_unit_cost" $"Completion price" $"Output" SideOutput true None;
    {| key := $"len"; bv_field := None; tierField := None; bv_label := $"Input length";
       shortLabel := $"Length"; side := SideCondition; isBase := false;
       isConditionOnly := true; bv_group := None |};
    pricing_var $"cr" $"cacheReadPrice" $"cache_read_unit_cost" $"Cache read price"
      $"Cache Read" SideInput false (Some $"cache");
    pricing_var $"cc" $"cacheCreatePrice" $"cache_create_unit_cost" $"Cache create price"
      $"Cache Write" SideInput false (Some $"cache");
    pricing_var $"cc1h" $"cacheCreate1hPrice" $"cache_create_1h_unit_cost"
      $"Cache create (1h) price" $"Cache Write (1h)" SideInput false (Some $"cache");
    pricing_var $"img" $"imagePrice" $"image_unit_cost" $"Image input price" $"Image In"
      SideInput false (Some $"media");
    pricing_var $"img_o" $"imageOutputPrice" $"image_output_unit_cost" $"Image output price"
      $"Image Out" SideOutput false (Some $"media");
    pricing_var $"ai" $"audioInputPrice" $"audio_input_unit_cost" $"Audio input price"
      $"Audio In" SideInput false (Some $"media");
    pricing_var $"ao" $"audioOutputPrice" $"audio_output_unit_cost" $"Audio output price"
      $"Audio Out" SideOutput false (Some $"media") ].

Definition BILLING_PRICING_VARS : list BillingVar :=
  List.filter (λ v, negb (isConditionOnly v)) BILLING_VARS.

Definition BILLING_CONDITION_VARS : list jsstr :=
  key <$> List.filter (λ v, isBase v || isConditionOnly v) BILLING_VARS.

Definition BILLING_VAR_KEY_TO_FIELD : list (jsstr * jsstr) :=
  (λ v, (key v, default [] (bv_field v))) <$> BILLING_PRICING_VARS.

Definition BILLING_EXTRA_VARS : list BillingVar :=
  List.filter (λ v, negb (isBase v) && negb (isConditionOnly v)) BILLING_VARS.

(** The field of a tier and the variable of the expression it prices. *)
Definition BILLING_CACHE_VAR_MAP : list (jsstr * jsstr) :=
  (λ v, (default [] (tierField v), key v)) <$> BILLING_EXTRA_VARS.

(** ** The patterns *)

(** [([\d.eE+-]+)] as a group *)
Definition numeral_group (i : nat) : regex := RGroup i (RPlus (RSet numeral_char)).

(** [[\d.eE+]], the numerals of tier conditions *)
Definition unsigned_numeral_char (c : Z) : bool :=
  is_digit c || (c =? 46) || (c =? 101) || (c =? 69) || (c =? 43).

(** A quoted name as a group: one or more characters other than the quote. *)
Definition quoted_group (i : nat) : regex :=
  rseq [rlit (dq "'"); RGroup i (RPlus (RSet not_quote)); rlit (dq "'")].

Definition BILLING_VAR_REGEX : regex :=
  rseq [RWordB; RGroup 1 (ralt ((λ v, rlit (key v)) <$> BILLING_PRICING_VARS));
        rspaces; rlit $"*"; rspaces; numeral_group 2].

(** ** Request rules *)

Definition SOURCE_PARAM := $"param".
Definition SOURCE_HEADER := $"header".
Definition SOURCE_TIME := $"time".
Definition MATCH_EQ := $"eq".
Definition MATCH_CONTAINS := $"contains".
Definition MATCH_GT := $"gt".
Definition MATCH_GTE := $"gte".
Definition MATCH_LT := $"lt".
Definition MATCH_LTE := $"lte".
Definition MATCH_EXISTS := $"exists".
Definition MATCH_RANGE := $"range".

Definition TIME_FUNCS : list jsstr := [$"hour"; $"minute"; $"weekday"; $"month"; $"day"].

(** [/^-?(?:\d+\.?\d*|\.\d+)(?:[eE][+-]?\d+)?$/] *)
Definition NUMERIC_LITERAL_REGEX : regex :=
  let digits := RPlus (RSet is_digit) in
  rseq [ROpt (rlit $"-");
        RAlt (rseq [digits; ROpt (rlit $"."); RStar (RSet is_digit)]) (RSeq (rlit $".") digits);
        ROpt (rseq [RSet (λ c, (c =? 101) || (c =? 69));
                    ROpt (RSet (λ c, (c =? 43) || (c =? 45))); digits])].

Definition is_numeric_literal (s : jsstr) : bool :=
  match match_whole NUMERIC_LITERAL_REGEX s with Some _ => true | None => false end.

Inductive PlainSource := Param | Header.

Inductive RequestCondition :=
| ParamHeaderCondition (source : PlainSource) (path mode val : jsstr)
| TimeCondition (timeFunc timezone mode val rangeStart rangeEnd : jsstr).

Record RequestRuleGroup := {
  conditions : list RequestCondition;
  multiplier : jsstr;
  conditionText : option jsstr;
  matched : option bool
}.

Record RequestRuleTrace := {
  cond : jsstr;
  rt_multiplier : number;
  rt_matched : bool
}.

Inductive TierVar := VarP | VarC | VarLen.
Inductive TierOp := OpLt | OpLe | OpGt | OpGe.

Record TierCondition := { tc_var : TierVar; tc_op : TierOp; tc_value : number }.

Record ParsedTier := {
  pt_label : jsstr;
  pt_conditions : list TierCondition;
  pt_prices : list (jsstr * number)
}.

(** ** Tier parser *)

Definition stripExprVersion (exprStr : jsstr) : number * jsstr :=
  if negb (truthy exprStr) then (num_of_Z 1, [])
  else match match_whole (rseq [rlit $"v"; RGroup 1 (RPlus (RSet is_digit)); rlit $":";
                                RGroup 2 (RStar (RSet (λ _, true)))]) exprStr with
  | Some m => (number_of_string (default [] (capture m 1)), default [] (capture m 2))
  | None => (num_of_Z 1, exprStr)
  end.

(** The first coefficient of each variable. *)
Definition first_coeffs (ms : list mstate) : list (jsstr * number) :=
  fold_left (λ coeffs m,
    let v := default [] (capture m 1) in
    match om_get v coeffs with
    | Some _ => coeffs
    | None => om_set v (number_of_string (default [] (capture m 2))) coeffs
    end) ms [].

(** [x || 0] on a number that may be missing *)
Definition num_or_zero (x : option number) : number :=
  match x with
  | Some n => if num_truthy n then n else S754_zero false
  | None => S754_zero false
  end.

Definition parseTierBody (bodyStr : jsstr) : list (jsstr * number) :=
  let coeffs := first_coeffs (exec_all BILLING_VAR_REGEX bodyStr) in
  (λ vf, (vf.2, num_or_zero (om_get vf.1 coeffs))) <$> BILLING_VAR_KEY_TO_FIELD.

Definition var_pattern : regex := ralt [rlit $"p"; rlit $"c"; rlit $"len"].
Definition op_pattern : regex := ralt [rlit $"<"; rlit $"<="; rlit $">"; rlit $">="].

(** [(?:p|c|len)\s*(?:<|<=|>|>=)\s*[\d.eE+]+] *)
Definition single_condition : regex :=
  rseq [var_pattern; rspaces; op_pattern; rspaces; RPlus (RSet unsigned_numeral_char)].

Definition and_pattern : regex := rseq [rspaces; rlit $"&&"; rspaces].

Definition condGroup (i : nat) : regex :=
  RGroup i (RSeq single_condition (RStar (RSeq and_pattern single_condition))).

Definition tierVar_of (s : jsstr) : TierVar :=
  if bool_decide (s = $"p") then VarP else if bool_decide (s = $"c") then VarC else VarLen.
Definition tierOp_of (s : jsstr) : TierOp :=
  if bool_decide (s = $"<") then OpLt else if bool_decide (s = $"<=") then OpLe
  else if bool_decide (s = $">") then OpGt else OpGe.

Definition parse_tier_condition (cp : jsstr) : option TierCondition :=
  m ← match_whole (rseq [RGroup 1 var_pattern; rspaces; RGroup 2 op_pattern; rspaces;
                         RGroup 3 (RPlus (RSet unsigned_numeral_char))]) (trim cp);
  Some {| tc_var := tierVar_of (default [] (capture m 1));
          tc_op := tierOp_of (default [] (capture m 2));
          tc_value := number_of_string (default [] (capture m 3)) |}.

Definition parse_tier_conditions (condStr : jsstr) : list TierCondition :=
  if truthy condStr then omap parse_tier_condition (split_re and_pattern condStr) else [].

(** An optional condition and its question mark, then the head of a tier up to
    its price. *)
Definition tier_head : list regex :=
  [ROpt (rseq [condGroup 1; rspaces; rlit $"?"; rspaces]);
   rlit (dq "tier('"); RGroup 2 (RStar (RSet not_quote)); rlit (dq "',"); rspaces].

Definition parse_tier_pattern : regex :=
  rseq (tier_head ++ [RGroup 3 (RPlus (RSet (λ c, negb (c =? 41)))); rlit $")"]).

Definition parseTiersFromExpr (exprStr : jsstr) : list ParsedTier :=
  if negb (truthy exprStr) then []
  else
    (λ m, {| pt_label := default [] (capture m 2);
             pt_conditions := parse_tier_conditions (default [] (capture m 1));
             pt_prices := parseTierBody (default [] (capture m 3)) |})
    <$> exec_all parse_tier_pattern (stripExprVersion exprStr).2.

Example parse_tiers_example :
  (λ t, (pt_label t, length (pt_conditions t), om_get $"cacheReadPrice" (pt_prices t))) <$>
    parseTiersFromExpr (dq "v1:p < 200000 && len >= 5 ? tier('a', p * 1 + c * 2.5 + cr * 0.1) : tier('b', p * 3 + c*4)")
  = [($"a", 2%nat, Some (num_lit 1 1)); ($"b", 0%nat, Some (S754_zero false))].
Proof. vm_compute. reflexivity. Qed.

(** ** Request rule parser *)

(** The scan of [splitTopLevelMultiply] and [splitTopLevelAnd]: [piece] is what
    was read since the last separator (reversed), [skip] the characters of a
    separator still to pass. *)
Fixpoint split_top (sep : jsstr) (depth : Z) (skip : nat) (piece s : jsstr) : list jsstr :=
  match s with
  | [] => [trim (reverse piece)]
  | c :: s' =>
    match skip with
    | S skip' => split_top sep depth skip' piece s'
    | O =>
      let depth := if c =? 40 then depth + 1 else depth in
      let depth := if c =? 41 then depth - 1 else depth in
      if (depth =? 0) && starts_with sep s
      then trim (reverse piece) :: split_top sep depth (length sep - 1) [] s'
      else split_top sep depth O (c :: piece) s'
    end
  end.

Definition splitTopLevelMultiply (expr : jsstr) : list jsstr :=
  List.filter truthy (split_top $" * " 0 0 [] expr).

Definition splitTopLevelAnd (expr : jsstr) : list jsstr :=
  List.filter truthy (split_top $" && " 0 0 [] expr).

(** The literal as a value; [None] is null. *)
Definition parseExprLiteral (raw : jsstr) : option value :=
  let text := trim raw in
  if bool_decide (text = $"true") || bool_decide (text = $"false") then Some (VStr text)
  else if is_numeric_literal text then Some (VStr text)
  else match json_parse text with
  | Some VNull | None => None
  | Some v => Some v
  end.

Definition time_func_group : regex := RGroup 1 (ralt (rlit <$> TIME_FUNCS)).

(** [f(''tz'') >= a || f(''tz'') < b] *)
Definition time_range_pattern : list regex :=
  [time_func_group; rlit $"("; quoted_group 2; rlit $") >= "; numeral_group 3; rlit $" || ";
   RBack 1; rlit (dq "('"); RBack 2; rlit (dq "') < "); numeral_group 4].

Definition time_compare_pattern : list regex :=
  [time_func_group; rlit $"("; quoted_group 2; rlit $") ";
   RGroup 3 (ralt [rlit $"=="; rlit $">="; rlit $"<"]); rlit $" "; numeral_group 4].

Definition cap (m : mstate) (i : nat) : jsstr := default [] (capture m i).

Definition time_range_of (m : mstate) : RequestCondition :=
  TimeCondition (cap m 1) (cap m 2) MATCH_RANGE [] (cap m 3) (cap m 4).

Definition time_mode (op : jsstr) : jsstr :=
  if bool_decide (op = $"==") then MATCH_EQ
  else if bool_decide (op = $">=") then MATCH_GTE
  else if bool_decide (op = $"<") then MATCH_LT else MATCH_EQ.

Definition tryParseTimeCondition (expr : jsstr) : option RequestCondition :=
  match match_whole (rseq time_range_pattern) expr with
  | Some m => Some (time_range_of m)
  | None =>
    match match_whole (rseq ([rlit $"("] ++ time_range_pattern ++ [rlit $")"])) expr with
    | Some m => Some (time_range_of m)
    | None =>
      match match_whole (rseq time_compare_pattern) expr with
      | Some m =>
        Some (TimeCondition (cap m 1) (cap m 2) (time_mode (cap m 3)) (cap m 4) [] [])
      | None => None
      end
    end
  end.

(** A string literal with escapes, as a group: a quote, characters other than
    quote and backslash or a backslash and any character, a quote. *)
Definition string_literal_group (i : nat) : regex :=
  RGroup i (rseq [rlit (dq "'");
    RStar (RAlt (RSet (λ c, negb (c =? 34) && negb (c =? 92))) (RSeq (RSet (Z.eqb 92)) rdot));
    rlit (dq "'")]).

Definition header_exists_pattern : regex :=
  rseq [rlit $"header("; quoted_group 1; rlit (dq ") != ''")].
Definition param_exists_pattern : regex :=
  rseq [rlit $"param("; quoted_group 1; rlit $") != nil"].
Definition header_contains_pattern : regex :=
  rseq [rlit $"has(header("; quoted_group 1; rlit $"), "; string_literal_group 2; rlit $")"].
Definition param_contains_pattern : regex :=
  rseq [rlit $"param("; quoted_group 1; rlit $") != nil && has(param("; quoted_group 2;
        rlit $"), "; string_literal_group 3; rlit $")"].
Definition param_compare_pattern : regex :=
  rseq [rlit $"param("; quoted_group 1; rlit $") != nil && param("; quoted_group 2; rlit $") ";
        RGroup 3 (ralt [rlit $">"; rlit $">="; rlit $"<"; rlit $"<="]); rlit $" "; numeral_group 4].
Definition equals_pattern : regex :=
  rseq [RGroup 1 (ralt [rlit $"param"; rlit $"header"]); rlit $"("; quoted_group 2; rlit $") == ";
        RGroup 3 (RPlus rdot)].

Definition compare_mode (op : jsstr) : jsstr :=
  if bool_decide (op = $">") then MATCH_GT else if bool_decide (op = $">=") then MATCH_GTE
  else if bool_decide (op = $"<") then MATCH_LT else MATCH_LTE.

Definition source_of (s : jsstr) : PlainSource := if bool_decide (s = $"header") then Header else Param.

(** The value of a matched string literal: [JSON.parse(m[i]) as string], which
    throws on an escape JSON does not have. *)
Definition literal_value (m : mstate) (i : nat) : completion jsstr :=
  match json_parse (cap m i) with Some v => Normal (str_of v) | None => Throws end.

Definition tryParseRequestCondition (expr : jsstr) : completion (option RequestCondition) :=
  match tryParseTimeCondition expr with
  | Some tc => Normal (Some tc)
  | None =>
    match match_whole header_exists_pattern expr with
    | Some m => Normal (Some (ParamHeaderCondition Header (cap m 1) MATCH_EXISTS []))
    | None =>
      match match_whole param_exists_pattern expr with
      | Some m => Normal (Some (ParamHeaderCondition Param (cap m 1) MATCH_EXISTS []))
      | None =>
        match match_whole header_contains_pattern expr with
        | Some m =>
          let? v := literal_value m 2 in
          Normal (Some (ParamHeaderCondition Header (cap m 1) MATCH_CONTAINS v))
        | None =>
          let same m := bool_decide (cap m 1 = cap m 2) in
          let other (_ : unit) :=
            match match_whole equals_pattern expr with
            | Some m =>
              match parseExprLiteral (cap m 3) with
              | None => Normal None
              | Some v =>
                Normal (Some (ParamHeaderCondition (source_of (cap m 1)) (cap m 2) MATCH_EQ
                  (value_text v)))
              end
            | None => Normal None
            end in
          let compare (_ : unit) :=
            match match_whole param_compare_pattern expr with
            | Some m =>
              if same m then
                Normal (Some (ParamHeaderCondition Param (cap m 1) (compare_mode (cap m 3)) (cap m 4)))
              else other tt
            | None => other tt
            end in
          match match_whole param_contains_pattern expr with
          | Some m =>
            if same m then
              let? v := literal_value m 3 in
              Normal (Some (ParamHeaderCondition Param (cap m 1) MATCH_CONTAINS v))
            else compare tt
          | None => compare tt
          end
        end
      end
    end
  end.

Fixpoint parse_conditions (parts : list jsstr) : completion (option (list RequestCondition)) :=
  match parts with
  | [] => Normal (Some [])
  | part :: parts' =>
    let? condition := tryParseRequestCondition (trim part) in
    match condition with
    | None => Normal None
    | Some c =>
      let? others := parse_conditions parts' in
      Normal ((λ cs, c :: cs) <$> others)
    end
  end.

Definition tryParseRequestConditions (conditionStr : jsstr) : completion (option (list RequestCondition)) :=
  let? conditions := parse_conditions (splitTopLevelAnd conditionStr) in
  Normal (match conditions with Some (c :: cs) => Some (c :: cs) | _ => None end).

(** [/^\((.+) \? ([\d.eE+-]+) : 1\)$/s] *)
Definition factor_pattern : regex :=
  rseq [rlit $"("; RGroup 1 (RPlus (RSet (λ _, true))); rlit $" ? "; numeral_group 2; rlit $" : 1)"].

Definition plain_group (cs : list RequestCondition) (m : jsstr) : RequestRuleGroup :=
  {| conditions := cs; multiplier := m; conditionText := None; matched := None |}.

Definition tryParseRuleGroupFactor (part : jsstr) : completion (option RequestRuleGroup) :=
  match match_whole factor_pattern part with
  | None => Normal None
  | Some m =>
    let? conditions := tryParseRequestConditions (cap m 1) in
    Normal ((λ cs, plain_group cs (cap m 2)) <$> conditions)
  end.

Definition trace_group (rule : RequestRuleTrace) : completion RequestRuleGroup :=
  let text := trim (cond rule) in
  let? parsed := tryParseRequestConditions text in
  Normal {| conditions := default [] parsed; multiplier := number_text (rt_multiplier rule);
            conditionText := Some text; matched := Some (rt_matched rule) |}.

Fixpoint requestRuleGroupsFromTrace (requestRules : list RequestRuleTrace) : completion (list RequestRuleGroup) :=
  match requestRules with
  | [] => Normal []
  | rule :: rules =>
    let? g := trace_group rule in
    let? gs := requestRuleGroupsFromTrace rules in
    Normal (g :: gs)
  end.

Fixpoint parse_groups (parts : list jsstr) : completion (option (list RequestRuleGroup)) :=
  match parts with
  | [] => Normal (Some [])
  | part :: parts' =>
    let? group := tryParseRuleGroupFactor part in
    match group with
    | None => Normal None
    | Some g =>
      let? others := parse_groups parts' in
      Normal ((λ gs, g :: gs) <$> others)
    end
  end.

Definition tryParseRequestRuleExpr (expr : jsstr) : completion (option (list RequestRuleGroup)) :=
  let trimmed := trim expr in
  if negb (truthy trimmed) then Normal (Some [])
  else parse_groups (splitTopLevelMultiply trimmed).

(** ** Combining and splitting *)

(** Does the depth reach zero before the last character? *)
Fixpoint parens_close_at_end (depth : Z) (s : jsstr) : bool :=
  match s with
  | [] => depth =? 0
  | c :: s' =>
    let depth := if c =? 40 then depth + 1 else depth in
    let depth := if c =? 41 then depth - 1 else depth in
    if (depth =? 0) && truthy s' then false else parens_close_at_end depth s'
  end.

Definition hasFullOuterParens (expr : jsstr) : bool :=
  starts_with $"(" expr && ends_with $")" expr && parens_close_at_end 0 expr.

(** [s.slice(1, -1)] *)
Definition slice_inner (s : jsstr) : jsstr := removelast (tail s).

Fixpoint unwrap_loop (current : jsstr) (fuel : nat) : jsstr :=
  match fuel with
  | O => current
  | S fuel' =>
    if hasFullOuterParens current then unwrap_loop (trim (slice_inner current)) fuel' else current
  end.

(** Each round drops two characters, so the length bounds the rounds. *)
Definition unwrapOuterParens (expr : jsstr) : jsstr :=
  let current := trim expr in unwrap_loop current (length current).

Record SplitExpr := { billingExpr : jsstr; requestRuleExpr : jsstr }.

(** The rule parts and the other parts, in order. *)
Fixpoint partition_parts (parts : list jsstr) : completion (list jsstr * list jsstr) :=
  match parts with
  | [] => Normal ([], [])
  | part :: parts' =>
    let? parsed := tryParseRequestRuleExpr part in
    let? rest := partition_parts parts' in
    Normal (match parsed with
            | Some (_ :: _) => (part :: rest.1, rest.2)
            | _ => (rest.1, part :: rest.2)
            end)
  end.

Definition splitBillingExprAndRequestRules (expr : jsstr) : completion SplitExpr :=
  let trimmed := trim expr in
  if negb (truthy trimmed) then Normal {| billingExpr := []; requestRuleExpr := [] |}
  else
    let parts := splitTopLevelMultiply trimmed in
    if (length parts <=? 1)%nat then Normal {| billingExpr := trimmed; requestRuleExpr := [] |}
    else
      let? ps := partition_parts parts in
      Normal (match ps with
      | ((_ :: _) as ruleParts, [base]) =>
        {| billingExpr := unwrapOuterParens base; requestRuleExpr := join $" * " ruleParts |}
      | _ => {| billingExpr := trimmed; requestRuleExpr := [] |}
      end).

Definition combineBillingExpr (baseExpr ruleExpr : jsstr) : jsstr :=
  let base := trim baseExpr in
  let rules := trim ruleExpr in
  if negb (truthy base) then []
  else if negb (truthy rules) then base
  else $"(" ++ base ++ $") * " ++ rules.

(** ** Editor: empty constructors *)

Definition createEmptyCondition : RequestCondition := ParamHeaderCondition Param [] MATCH_EQ [].
Definition createEmptyTimeCondition : RequestCondition :=
  TimeCondition $"hour" $"Asia/Shanghai" MATCH_GTE [] [] [].
Definition createEmptyRuleGroup : RequestRuleGroup := plain_group [createEmptyCondition] [].
Definition createEmptyTimeRuleGroup : RequestRuleGroup := plain_group [createEmptyTimeCondition] [].

(** ** Editor: match options *)

Record MatchOption := { mo_value : jsstr; labelKey : jsstr }.

Definition opt (v l : jsstr) : MatchOption := {| mo_value := v; labelKey := l |}.

Definition getRequestRuleMatchOptions (source : jsstr) : list MatchOption :=
  if bool_decide (source = SOURCE_TIME) then
    [opt MATCH_EQ $"Equals"; opt MATCH_GTE $"Greater than or equal"; opt MATCH_LT $"Less than";
     opt MATCH_RANGE $"Overnight range"]
  else
    let base := [opt MATCH_EQ $"Equals"; opt MATCH_CONTAINS $"Contains"; opt MATCH_EXISTS $"Exists"] in
    if bool_decide (source = SOURCE_HEADER) then base
    else base ++ [opt MATCH_GT $"Greater than"; opt MATCH_GTE $"Greater than or equal";
                  opt MATCH_LT $"Less than"; opt MATCH_LTE $"Less than or equal"].

Definition offers_mode (source mode : jsstr) : bool :=
  existsb (λ o, bool_decide (mo_value o = mode)) (getRequestRuleMatchOptions source).

(** ** Editor: normalising a condition *)

(** [Partial<RequestCondition>]: any of the fields may be missing. *)
Record PartialCondition := {
  pc_source : option jsstr; pc_path : option jsstr; pc_mode : option jsstr;
  pc_value : option jsstr; pc_timeFunc : option jsstr; pc_timezone : option jsstr;
  pc_rangeStart : option jsstr; pc_rangeEnd : option jsstr
}.

Definition source_text (s : PlainSource) : jsstr :=
  match s with Param => SOURCE_PARAM | Header => SOURCE_HEADER end.

Definition partial_of (c : RequestCondition) : PartialCondition :=
  match c with
  | ParamHeaderCondition s p m v =>
    {| pc_source := Some (source_text s); pc_path := Some p; pc_mode := Some m; pc_value := Some v;
       pc_timeFunc := None; pc_timezone := None; pc_rangeStart := None; pc_rangeEnd := None |}
  | TimeCondition f tz m v rs re =>
    {| pc_source := Some SOURCE_TIME; pc_path := None; pc_mode := Some m; pc_value := Some v;
       pc_timeFunc := Some f; pc_timezone := Some tz; pc_rangeStart := Some rs; pc_rangeEnd := Some re |}
  end.

Definition isTimeFunc (v : option jsstr) : bool :=
  match v with Some s => existsb (λ f, bool_decide (f = s)) TIME_FUNCS | None => false end.

(** The mode when the options of the source offer it, else the fallback. *)
Definition valid_mode (source : jsstr) (mode : option jsstr) (fallback : jsstr) : jsstr :=
  match mode with Some m => if offers_mode source m then m else fallback | None => fallback end.

Definition normalizeCondition (cond : option PartialCondition) : RequestCondition :=
  let get (f : PartialCondition → option jsstr) : option jsstr := c ← cond; f c in
  if bool_decide (get pc_source = Some SOURCE_TIME) then
    TimeCondition
      (if isTimeFunc (get pc_timeFunc) then default [] (get pc_timeFunc) else $"hour")
      (str_or (default [] (get pc_timezone)) $"Asia/Shanghai")
      (valid_mode SOURCE_TIME (get pc_mode) MATCH_GTE)
      (default [] (get pc_value)) (default [] (get pc_rangeStart)) (default [] (get pc_rangeEnd))
  else
    let source := if bool_decide (get pc_source = Some SOURCE_HEADER) then Header else Param in
    ParamHeaderCondition source (default [] (get pc_path))
      (valid_mode (source_text source) (get pc_mode) MATCH_EQ) (default [] (get pc_value)).

(** ** Editor: building the text *)

Definition buildExprLiteral (mode val : jsstr) : jsstr :=
  let text := trim val in
  if bool_decide (mode = MATCH_CONTAINS) then quote text
  else if bool_decide (text = $"true") || bool_decide (text = $"false") then text
  else if is_numeric_literal text then text
  else quote text.

Definition time_op (mode : jsstr) : jsstr :=
  if bool_decide (mode = MATCH_EQ) then $"=="
  else if bool_decide (mode = MATCH_GTE) then $">="
  else if bool_decide (mode = MATCH_LT) then $"<" else $"==".

Definition time_condition_text (timeFunc timezone mode val rangeStart rangeEnd : jsstr) : jsstr :=
  let fn := timeFunc ++ $"(" ++ quote timezone ++ $")" in
  if bool_decide (mode = MATCH_RANGE) then
    let s := trim rangeStart in
    let e := trim rangeEnd in
    if negb (is_numeric_literal s) || negb (is_numeric_literal e) then []
    else fn ++ $" >= " ++ s ++ $" || " ++ fn ++ $" < " ++ e
  else
    let v := trim val in
    if negb (is_numeric_literal v) then []
    else fn ++ $" " ++ time_op mode ++ $" " ++ v.

Definition buildTimeConditionExpr (cond : RequestCondition) : jsstr :=
  match normalizeCondition (Some (partial_of cond)) with
  | TimeCondition f tz m v rs re => time_condition_text f tz m v rs re
  | ParamHeaderCondition _ _ _ _ => []
  end.

Definition compare_op (mode : jsstr) : jsstr :=
  if bool_decide (mode = MATCH_GT) then $">" else if bool_decide (mode = MATCH_GTE) then $">="
  else if bool_decide (mode = MATCH_LT) then $"<" else $"<=".

Definition is_compare_mode (mode : jsstr) : bool :=
  bool_decide (mode ∈ [MATCH_GT; MATCH_GTE; MATCH_LT; MATCH_LTE]).

Definition plain_condition_text (source : PlainSource) (path0 mode val : jsstr) : jsstr :=
  let path := trim path0 in
  if negb (truthy path) then []
  else
    let sourceExpr := source_text source ++ $"(" ++ quote path ++ $")" in
    if bool_decide (mode = MATCH_EXISTS) then
      sourceExpr ++ match source with Header => dq " != ''" | Param => $" != nil" end
    else if bool_decide (mode = MATCH_CONTAINS) then
      let has := $"has(" ++ sourceExpr ++ $", " ++ buildExprLiteral mode val ++ $")" in
      match source with Header => has | Param => sourceExpr ++ $" != nil && " ++ has end
    else if is_compare_mode mode then
      let numText := trim val in
      if negb (is_numeric_literal numText) then []
      else sourceExpr ++ $" != nil && " ++ sourceExpr ++ $" " ++ compare_op mode ++ $" " ++ numText
    else sourceExpr ++ $" == " ++ buildExprLiteral mode val.

Definition buildRequestConditionExpr (cond : RequestCondition) : jsstr :=
  match cond with
  | TimeCondition _ _ _ _ _ _ => buildTimeConditionExpr cond
  | ParamHeaderCondition _ _ _ _ =>
    match normalizeCondition (Some (partial_of cond)) with
    | ParamHeaderCondition s p m v => plain_condition_text s p m v
    | TimeCondition _ _ _ _ _ _ => []
    end
  end.

(** Conditions joined by [&&], an overnight range in parentheses. *)
Definition combine_conditions (condExprs : list jsstr) : jsstr :=
  match condExprs with
  | [e] => e
  | _ => join $" && " ((λ e, if includes $" || " e then $"(" ++ e ++ $")" else e) <$> condExprs)
  end.

Definition buildRuleGroupFactor (group : RequestRuleGroup) : jsstr :=
  let m := trim (multiplier group) in
  if negb (is_numeric_literal m) then []
  else
    let condExprs := List.filter truthy (buildRequestConditionExpr <$> conditions group) in
    if (length condExprs =? 0)%nat then []
    else $"(" ++ combine_conditions condExprs ++ $" ? " ++ m ++ $" : 1)".

Definition buildRequestRuleExpr (groups : list RequestRuleGroup) : jsstr :=
  join $" * " (List.filter truthy (buildRuleGroupFactor <$> groups)).

Definition sample_groups : list RequestRuleGroup :=
  [ plain_group [ParamHeaderCondition Header $"x-tier" MATCH_EQ $"gold";
                 TimeCondition $"hour" $"Asia/Shanghai" MATCH_RANGE [] $"22" $"6"] $"0.5";
    plain_group [ParamHeaderCondition Param $"stream" MATCH_EQ $"true"] $"2" ].

Example build_example :
  buildRequestRuleExpr sample_groups =
    dq "(header('x-tier') == 'gold' && (hour('Asia/Shanghai') >= 22 || hour('Asia/Shanghai') < 6) ? 0.5 : 1) * (param('stream') == true ? 2 : 1)".
Proof. vm_compute. reflexivity. Qed.

Example parse_example :
  tryParseRequestRuleExpr (buildRequestRuleExpr sample_groups) = Normal (Some sample_groups).
Proof. vm_compute. reflexivity. Qed.

Example split_example :
  splitBillingExprAndRequestRules
    (combineBillingExpr (dq "tier('base', p * 1 + c * 2)") (buildRequestRuleExpr sample_groups)) =
    Normal {| billingExpr := dq "tier('base', p * 1 + c * 2)";
              requestRuleExpr := buildRequestRuleExpr sample_groups |}.
Proof. vm_compute. reflexivity. Qed.
