(* ===== verification/BillingExprFacts.v ===== *)
(** * Billing expressions: what survives the text

    The editor keeps request rules as structured groups and stores them as
    text.  [request_rules_roundtrip]: groups whose conditions the grammar can
    express ([faithful_group]) come back unchanged.  [param_rules_lost]: rules with a
    condition that compares a request parameter or looks for a substring in it do
    not come back, because its own [&&] is taken for the separator of conditions.
    [split_combine_roundtrip]: a tiered price and its rules are separated as
    they were joined. *)

From S2P Require Import Prelude JsString JsNumber NumberText Regex JsValue Json BillingExpr.

(** ** Names and values the grammar can carry *)

(** Characters that are printed as they are inside quotes, do not count as
    parentheses and are not taken for the bars of an overnight range. *)
Definition name_char (c : Z) : bool :=
  plain_char c && negb (c =? 40) && negb (c =? 41) && negb (is_line_terminator c) && negb (c =? 124).

Definition name_ok (s : jsstr) : bool := truthy s && forallb name_char s && bool_decide (trim s = s).

Lemma name_char_plain c : name_char c = true → plain_char c = true.
Proof. unfold name_char. intros; bool_hyps; done. Qed.

Lemma name_chars_plain s : forallb name_char s = true → forallb plain_char s = true.
Proof. rewrite !forallb_forall. eauto using name_char_plain. Qed.

Lemma name_char_not_quote c : name_char c = true → not_quote c = true.
Proof. unfold name_char, plain_char, not_quote. rewrite !andb_true_iff. tauto. Qed.

Lemma quote_name s : forallb name_char s = true → quote s = 34 :: s ++ [34].
Proof. intros H. unfold quote. by rewrite escape_plain by by apply name_chars_plain. Qed.

(** ** Numerals *)

Lemma numeric_literal_numeral s :
  is_numeric_literal s = true → s ≠ [] ∧ forallb numeral_char s = true.
Proof.
  unfold is_numeric_literal. destruct (match_whole _ s) as [m|] eqn:E; [|done]. intros _.
  split; [intros ->; vm_compute in E; done|].
  apply (match_whole_within numeral_char) in E; [done|].
  unfold NUMERIC_LITERAL_REGEX, RPlus. change ($"-") with [45]. change ($".") with [46].
  cbn [within rseq fold_right rlit].
  repeat split; intros c Hc; unfold numeral_char; rewrite ?orb_true_iff, ?Z.eqb_eq in *; intuition.
Qed.

(** ** The text of a string literal *)

(** Text in which every quote and every backslash belongs to an escape. *)
Fixpoint closed_literal (s : jsstr) : bool :=
  match s with
  | [] => true
  | c :: r =>
    if c =? 92 then match r with d :: r' => negb (is_line_terminator d) && closed_literal r' | [] => false end
    else negb (c =? 34) && closed_literal r
  end.

Lemma closed_app a b : closed_literal a = true → closed_literal (a ++ b) = closed_literal b.
Proof.
  remember (length a) as n eqn:Hn. assert (length a ≤ n)%nat as Hle by lia. clear Hn. revert a Hle.
  induction n as [|n IH]; intros [|c a] Hle Ha; try done; cbn [length] in Hle; [lia|]. cbn [closed_literal app] in *.
  destruct (c =? 92).
  - destruct a as [|d a]; [done|]. cbn [length app] in *. apply andb_true_iff in Ha as [-> Ha]. apply IH; [lia|done].
  - apply andb_true_iff in Ha as [-> Ha]. apply IH; [lia|done].
Qed.

Lemma hex_digit_range d : 0 ≤ d < 16 → 48 ≤ hex_digit d ≤ 57 ∨ 97 ≤ hex_digit d ≤ 102.
Proof. intros Hd. unfold hex_digit. destruct (Z.ltb_spec d 10); lia. Qed.

(** The pieces an escaped string consists of: a unit as it is, a pair of
    surrogates, or an escape. *)
Lemma escape_pieces (P : jsstr → Prop) s :
  forallb code_unit s = true → P [] → (∀ a b, P a → P b → P (a ++ b)) →
  (∀ c, c ∈ s → 32 ≤ c → c ≠ 34 → c ≠ 92 → P [c]) →
  (∀ d, d ∈ [98; 116; 110; 102; 114; 34; 92] → P [92; d]) →
  (∀ a b c d, Forall (λ x, 48 ≤ x ≤ 57 ∨ 97 ≤ x ≤ 102) [a; b; c; d] → P [92; 117; a; b; c; d]) →
  P (escape_string s).
Proof.
  intros Hs Hnil Happ Hplain Hesc Huni. assert (∀ c, code_unit c = true → P (unicode_escape c)) as Hu.
  { intros c Hc. unfold code_unit in Hc. bool_hyps. apply Huni.
    repeat (apply Forall_cons_2; [apply hex_digit_range; split; [apply Z.div_pos || apply Z.mod_pos_bound; lia|]|]); [..|apply Forall_nil_2];
      first [apply Z.mod_pos_bound; lia|apply Z.div_lt_upper_bound; lia]. }
  remember (length s) as n eqn:Hn. assert (length s ≤ n)%nat as Hle by lia. clear Hn. revert s Hle Hs Hplain.
  induction n as [|n IH]; intros [|c s] Hle Hs Hplain; try done; cbn [length] in Hle; [lia|].
  cbn [forallb] in Hs. apply andb_true_iff in Hs as [Hc Hs].
  assert (P (escape_string s)) as Hrest by (apply IH; [lia|done|]; intros d Hd; apply Hplain; by right).
  assert (∀ d, d ∈ c :: s → is_lead d || is_trail d = true → P [d]) as Hsur.
  { intros d Hd Hl. unfold is_lead, is_trail in Hl. apply Hplain; [done|..]; apply orb_true_iff in Hl as [Hl|Hl]; bool_hyps; lia. }
  cbn [escape_string]. destruct (is_lead c) eqn:El.
  - destruct s as [|d s]; [by apply Hu|]. destruct (is_trail d) eqn:Et; [|by apply Happ; [apply Hu|]].
    cbn [forallb length] in *. apply andb_true_iff in Hs as [Hd Hs]. change (c :: d :: escape_string s) with ([c] ++ [d] ++ escape_string s).
    apply Happ; [apply Hsur; [left|by rewrite El]|]. apply Happ; [apply Hsur; [right; left|by rewrite Et, orb_true_r]|].
    apply IH; [lia|done|]. intros x Hx. apply Hplain. right. by right.
  - destruct (is_trail c) eqn:Et; (apply Happ; [|done]); [by apply Hu|]. unfold escape_char.
    repeat (match goal with |- context [c =? ?b] => destruct (Z.eqb_spec c b); [apply Hesc; set_solver|] end).
    destruct (Z.ltb_spec c 32); [by apply Hu|]. apply Hplain; [left|lia..].
Qed.

Lemma escape_closed s : forallb code_unit s = true → closed_literal (escape_string s) = true.
Proof.
  intros Hs. apply escape_pieces; [done|done| | | |].
  - intros a b Ha Hb. by rewrite closed_app.
  - intros c _ H1 H2 H3. cbn [closed_literal]. by rewrite !(proj2 (Z.eqb_neq c _)) by done.
  - intros d Hd. rewrite !elem_of_cons in Hd. by destruct Hd as [->|[->|[->|[->|[->|[->|[->|[]%elem_of_nil]]]]]]].
  - intros a b c d Hd. cbn [closed_literal]. change (92 =? 92) with true. cbn [is_line_terminator negb andb].
    rewrite !Forall_cons in Hd. destruct Hd as (H1 & H2 & H3 & H4 & _).
    assert (∀ x, 48 ≤ x ≤ 57 ∨ 97 ≤ x ≤ 102 → (x =? 92) = false ∧ (x =? 34) = false) as Hx by (intros; rewrite !Z.eqb_neq; lia).
    destruct (Hx a H1) as [-> ->], (Hx b H2) as [-> ->], (Hx c H3) as [-> ->], (Hx d H4) as [-> ->]. done.
Qed.

(** No line terminators but those the text itself has above the controls. *)
Definition no_separator (s : jsstr) : bool := forallb (λ c, negb (c =? 8232) && negb (c =? 8233)) s.

Definition no_line_terminator (s : jsstr) : bool := forallb (λ c, negb (is_line_terminator c)) s.

Lemma escape_one_line s : forallb code_unit s = true → no_separator s = true → no_line_terminator (escape_string s) = true.
Proof.
  intros Hs Hn. unfold no_separator in Hn. rewrite forallb_forall in Hn. apply (escape_pieces (λ w, no_line_terminator w = true)); [done|done| | | |].
  - intros a b Ha Hb. unfold no_line_terminator in *. by rewrite forallb_app, Ha, Hb.
  - intros c Hc H1 _ _. specialize (Hn c ltac:(by apply list_elem_of_In)). unfold no_line_terminator, is_line_terminator. cbn [forallb].
    bool_hyps. rewrite !(proj2 (Z.eqb_neq c _)) by lia. done.
  - intros d Hd. rewrite !elem_of_cons in Hd. by destruct Hd as [->|[->|[->|[->|[->|[->|[->|[]%elem_of_nil]]]]]]].
  - intros a b c d Hd. rewrite !Forall_cons in Hd. destruct Hd as (H1 & H2 & H3 & H4 & _). unfold no_line_terminator, is_line_terminator.
    cbn [forallb]. rewrite !(proj2 (Z.eqb_neq a _)), !(proj2 (Z.eqb_neq b _)), !(proj2 (Z.eqb_neq c _)), !(proj2 (Z.eqb_neq d _)) by lia. done.
Qed.

(** ** Steps of the patterns on printed text *)

Section PatternSteps.
Context {A : Type} (k : mstate → option A).

Lemma lit_rejects (p : Z → bool) d l r b c s cs :
  p d = false → p c = true → rmatch (RSeq (rlit (d :: l)) r) (MState b (c :: s) cs) k = None.
Proof using.
  intros Hd Hc. rewrite rmatch_seq. apply rmatch_lit_fail. cbn [rest starts_with].
  destruct (Z.eqb_spec d c) as [->|]; [congruence|done].
Qed.

Lemma quoted_step i s b t cs :
  s ≠ [] → forallb name_char s = true →
  rmatch (quoted_group i) (MState b (quote s ++ t) cs) k =
    k (MState (34 :: reverse s ++ 34 :: b) t ((i, s) :: cs)).
Proof using.
  intros Hne Hs. rewrite quote_name by done. unfold quoted_group. cbn [rseq fold_right].
  change (dq "'") with [34]. change (34 :: s ++ [34]) with ([34] ++ s ++ [34]).
  rewrite <- !app_assoc, rmatch_seq, rmatch_lit, rmatch_seq, group_plus_exact; try done.
  - rewrite forallb_forall in *. eauto using name_char_not_quote.
  - intros b' c s' cs' Hc. by apply (lit_rejects not_quote).
Qed.

Lemma numeral_step i w b s cs :
  w ≠ [] → forallb numeral_char w = true → stops_at numeral_char s →
  (∀ b' c s' cs', numeral_char c = true → k (MState b' (c :: s') cs') = None) →
  rmatch (numeral_group i) (MState b (w ++ s) cs) k = k (MState (reverse w ++ b) s ((i, w) :: cs)).
Proof using. intros. by apply group_plus_exact. Qed.

(** The characters of a string literal up to its closing quote. *)
Definition literal_body : regex :=
  RStar (RAlt (RSet (λ c, negb (c =? 34) && negb (c =? 92))) (RSeq (RSet (Z.eqb 92)) rdot)).

Lemma literal_body_step w b s cs :
  closed_literal w = true →
  (∀ b' c s' cs', c ≠ 34 → k (MState b' (c :: s') cs') = None) →
  rmatch literal_body (MState b (w ++ 34 :: s) cs) k = k (MState (reverse w ++ b) (34 :: s) cs).
Proof using.
  intros Hw Hk. unfold literal_body. cbn [rmatch rest].
  match goal with |- ?loop (length (w ++ _)) _ = _ => set (L := loop) end.
  assert (∀ n st, L (S n) st = match
    rmatch (RAlt (RSet (λ c, negb (c =? 34) && negb (c =? 92))) (RSeq (RSet (Z.eqb 92)) rdot)) st
      (λ st', if (length (rest st') <? length (rest st))%nat then L n st' else None)
    with Some x => Some x | None => k st end) as HL by reflexivity.
  clearbody L. assert (∀ n w b, (length w ≤ n)%nat → closed_literal w = true →
    L (S n) (MState b (w ++ 34 :: s) cs) = k (MState (reverse w ++ b) (34 :: s) cs)) as Hall.
  2:{ rewrite length_app. cbn [length]. replace (length w + S (length s))%nat with (S (length w + length s)) by lia.
      apply Hall; [lia|done]. }
  clear w b Hw. induction n as [|n IH]; intros w b Hn Hw; (destruct w as [|c w]; [rewrite HL; cbn; done|]); cbn [length] in Hn; [lia|].
  rewrite HL, rmatch_alt. cbn [app]. rewrite rmatch_set. cbn [closed_literal] in Hw.
  destruct (Z.eqb_spec c 92) as [->|Hc].
  - destruct w as [|d w]; [done|]. apply andb_true_iff in Hw as [Hd Hw]. change (92 =? 34) with false. cbn [negb andb].
    rewrite rmatch_seq, rmatch_set. change (92 =? 92) with true. cbn iota. cbn [app]. unfold rdot. rewrite rmatch_set, Hd.
    cbn [rest length] in *. rewrite (proj2 (Nat.ltb_lt _ _)) by lia. rewrite IH by (done || lia).
    rewrite !reverse_cons, <- !app_assoc. cbn [app]. destruct (k _) eqn:E; [done|]. by apply Hk.
  - apply andb_true_iff in Hw as [Hq Hw]. rewrite Hq. cbn [negb andb rest length]. rewrite (proj2 (Nat.ltb_lt _ _)) by lia.
    rewrite IH by (done || lia). rewrite reverse_cons, <- app_assoc. cbn [app]. destruct (k _) eqn:E; [done|].
    rewrite rmatch_seq, rmatch_set, (proj2 (Z.eqb_neq 92 c)) by done. apply Hk. by apply negb_true_iff, Z.eqb_neq in Hq.
Qed.
End PatternSteps.

Lemma literal_step {A} (k : mstate → option A) i w b s cs :
  forallb code_unit w = true →
  rmatch (string_literal_group i) (MState b (quote w ++ s) cs) k =
    k (MState (34 :: reverse (escape_string w) ++ 34 :: b) s ((i, quote w) :: cs)).
Proof.
  intros Hw. unfold quote. unfold string_literal_group. fold literal_body.
  change (dq "'") with [34]. rewrite rmatch_group. cbn [rseq fold_right rest].
  rewrite <- !app_assoc, rmatch_seq, rmatch_lit.
  cbn [app]. rewrite rmatch_seq, literal_body_step; [|by apply escape_closed|].
  - cbv beta. change (34 :: s) with ([34] ++ s). rewrite rmatch_seq, rmatch_lit, rmatch_eps.
    unfold set_capture. cbn [before rest caps app].
    replace (34 :: escape_string w ++ 34 :: s) with ((34 :: escape_string w ++ [34]) ++ s) by (cbn [app]; by rewrite <- app_assoc).
    by rewrite group_text.
  - intros b' c s' cs' Hc. apply (lit_rejects _ (λ x, negb (x =? 34))); [done|].
    by apply negb_true_iff, Z.eqb_neq.
Qed.

(** One of several literals, none of which starts another. *)
Lemma alt_lit_step {A} (k : mstate → option A) (ls : list jsstr) l b s cs :
  l ∈ ls → Forall (λ l', l' = l ∨ starts_with l' (l ++ s) = false) ls →
  rmatch (ralt (rlit <$> ls)) (MState b (l ++ s) cs) k = k (MState (reverse l ++ b) s cs).
Proof.
  intros Hin Hall. induction Hall as [|l' ls Hl' Hall IH]; [by apply elem_of_nil in Hin|].
  destruct ls as [|l2 ls].
  - apply list_elem_of_singleton in Hin as ->. by rewrite <- rmatch_lit.
  - change (ralt (rlit <$> l' :: l2 :: ls)) with (RAlt (rlit l') (ralt (rlit <$> l2 :: ls))).
    rewrite rmatch_alt. destruct Hl' as [-> |Hf].
    + rewrite rmatch_lit. destruct (k _) eqn:E; [done|].
      destruct (decide (l ∈ l2 :: ls)) as [Hl|Hl]; [by rewrite IH|].
      clear IH Hin. revert Hall Hl. generalize (l2 :: ls) as ms. intros ms Hall Hl.
      induction Hall as [|m ms [-> |Hm] Hall IHm]; [by cbn; destruct (l ++ s)|set_solver|].
      destruct ms as [|m2 ms]; [by apply rmatch_lit_fail|].
      change (ralt (rlit <$> m :: m2 :: ms)) with (RAlt (rlit m) (ralt (rlit <$> m2 :: ms))).
      rewrite rmatch_alt, rmatch_lit_fail by done. apply IHm. set_solver.
    + rewrite rmatch_lit_fail by done. apply IH. apply elem_of_cons in Hin as [E|]; [subst l'|done].
      exfalso. clear -Hf. induction l as [|c l IHl]; [done|]. cbn [app starts_with] in Hf.
      rewrite Z.eqb_refl in Hf. by apply IHl.
Qed.

Lemma func_step {A} (k : mstate → option A) f b s cs :
  f ∈ TIME_FUNCS →
  rmatch time_func_group (MState b (f ++ s) cs) k = k (MState (reverse f ++ b) s ((1%nat, f) :: cs)).
Proof.
  intros Hf. unfold time_func_group. rewrite rmatch_group, alt_lit_step; [|done|].
  - unfold set_capture. cbn [before rest caps]. by rewrite group_text.
  - unfold TIME_FUNCS in *. rewrite !elem_of_cons in Hf.
    destruct Hf as [->|[->|[->|[->|[->|[]%elem_of_nil]]]]];
      repeat (apply Forall_cons_2 || apply Forall_nil_2);
      first [right; vm_compute; reflexivity | left; reflexivity].
Qed.

(** Running a sequence on [before], [rest] and [caps]. *)
Ltac re_start := unfold match_whole, start_state; rewrite rmatch_seq; cbn [rseq fold_right app].
Ltac re_lit := rewrite rmatch_seq, rmatch_lit.
Ltac re_lit_fails := rewrite rmatch_seq, rmatch_lit_fail by (vm_compute; reflexivity).

Definition name_text (s : jsstr) : Prop := s ≠ [] ∧ forallb name_char s = true.
Definition numeral_text (s : jsstr) : Prop := s ≠ [] ∧ forallb numeral_char s = true.

Section TimeConditions.
Context (f tz : jsstr) (Hf : f ∈ TIME_FUNCS) (Htz : name_text tz).

Lemma func_head : ∃ c r, f = c :: r ∧ c ≠ 40.
Proof using Hf.
  unfold TIME_FUNCS in Hf. rewrite !elem_of_cons in Hf.
  destruct Hf as [->|[->|[->|[->|[->|[]%elem_of_nil]]]]]; eexists _, _; (split; [reflexivity|done]).
Qed.

Lemma paren_pattern_fails r s : match_whole (rseq (rlit $"(" :: r)) (f ++ s) = None.
Proof using Hf.
  destruct func_head as (c & t & -> & Hc). re_start. rewrite rmatch_seq, rmatch_lit_fail; [done|].
  cbn [rest app]. change ($"(") with [40]. cbn [starts_with].
  by rewrite (proj2 (Z.eqb_neq 40 c)) by congruence.
Qed.

Lemma time_compare_parse op v :
  op ∈ [$"=="; $">="; $"<"] → numeral_text v →
  tryParseTimeCondition (f ++ $"(" ++ quote tz ++ $") " ++ op ++ $" " ++ v) =
    Some (TimeCondition f tz (time_mode op) v [] []).
Proof using Hf Htz.
  intros Hop [Hv Hvn]. destruct Htz as [Hne Hn]. unfold tryParseTimeCondition.
  replace (match_whole (rseq time_range_pattern) _) with (@None mstate).
  2:{ symmetry. unfold time_range_pattern. re_start.
      rewrite rmatch_seq, func_step by done. re_lit. rewrite rmatch_seq, quoted_step by done.
      rewrite !elem_of_cons in Hop. destruct Hop as [->|[->|[->|[]%elem_of_nil]]];
        [by re_lit_fails| |by re_lit_fails].
      change ($") " ++ $">=" ++ $" " ++ v) with ($") >= " ++ v). re_lit.
      rewrite rmatch_seq. rewrite <- (app_nil_r v), numeral_step; [|done..|].
      - by re_lit_fails.
      - intros b' c s' cs' Hc. by apply (lit_rejects _ numeral_char). }
  rewrite (paren_pattern_fails (time_range_pattern ++ [rlit $")"])).
  replace (match_whole (rseq time_compare_pattern) _) with
    (Some (MState (reverse v ++ 32 :: reverse op ++ 32 :: 41 :: 34 :: reverse tz ++ 34 :: 40 :: reverse f) []
      [(4%nat, v); (3%nat, op); (2%nat, tz); (1%nat, f)])).
  2:{ symmetry. unfold time_compare_pattern. re_start.
      rewrite rmatch_seq, func_step by done. re_lit. rewrite rmatch_seq, quoted_step by done. re_lit.
      rewrite rmatch_seq, rmatch_group.
      change (ralt [rlit $"=="; rlit $">="; rlit $"<"]) with (ralt (rlit <$> [$"=="; $">="; $"<"])).
      rewrite alt_lit_step; [|done|].
      - unfold set_capture. cbn [before rest caps]. rewrite group_text. re_lit.
        rewrite rmatch_seq. rewrite <- (app_nil_r v) at 1. rewrite numeral_step; [|done..|done].
        rewrite rmatch_eps, rmatch_end. change (reverse $" ") with [32]. change (reverse $") ") with [32; 41].
        change (reverse $"(") with [40]. cbn [app]. by rewrite !app_nil_r.
      - rewrite !elem_of_cons in Hop. destruct Hop as [->|[->|[->|[]%elem_of_nil]]];
        repeat (apply Forall_cons_2 || apply Forall_nil_2);
        first [right; vm_compute; reflexivity | left; reflexivity]. }
  reflexivity.
Qed.

Definition range_text (s e : jsstr) : jsstr :=
  f ++ $"(" ++ quote tz ++ $") >= " ++ s ++ $" || " ++ f ++ $"(" ++ quote tz ++ $") < " ++ e.

Definition range_caps (s e : jsstr) : list (nat * jsstr) :=
  [(4%nat, e); (3%nat, s); (2%nat, tz); (1%nat, f)].

Lemma range_run {A} (k : mstate → option A) r s e b tail :
  numeral_text s → numeral_text e → stops_at numeral_char tail →
  (∀ b' c s' cs', numeral_char c = true → rmatch r (MState b' (c :: s') cs') k = None) →
  ∃ b', rmatch (fold_right RSeq r time_range_pattern) (MState b (range_text s e ++ tail) []) k =
        rmatch r (MState b' tail (range_caps s e)) k.
Proof using Hf Htz.
  intros [Hs Hsn] [He Hen] Ht Hr. destruct Htz as [Hne Hn]. unfold time_range_pattern, range_text.
  rewrite <- !app_assoc. cbn [fold_right].
  rewrite rmatch_seq, func_step by done. re_lit. rewrite rmatch_seq, quoted_step by done. re_lit.
  rewrite rmatch_seq, numeral_step; [|done..|].
  2:{ intros b' c s' cs' Hc. by apply (lit_rejects _ numeral_char). }
  re_lit. rewrite rmatch_seq, rmatch_back by done. rewrite quote_name by done.
  replace ($"(" ++ (34 :: tz ++ [34]) ++ $") < " ++ e ++ tail)
    with (dq "('" ++ tz ++ dq "') < " ++ e ++ tail)
    by (change (dq "('") with [40; 34]; change (dq "') < ") with ([34] ++ $") < ");
        change ($"(") with [40]; cbn [app]; by rewrite <- !app_assoc).
  re_lit. rewrite rmatch_seq, rmatch_back by done. re_lit.
  rewrite rmatch_seq, numeral_step; [|done..]. by eexists.
Qed.

Lemma time_range_parse s e :
  numeral_text s → numeral_text e →
  tryParseTimeCondition (range_text s e) = Some (TimeCondition f tz MATCH_RANGE [] s e).
Proof using Hf Htz.
  intros Hs He. unfold tryParseTimeCondition, match_whole, start_state. rewrite rmatch_seq.
  destruct (range_run (λ st, rmatch REnd st Some) REps s e [] [] Hs He I) as [b Hb]; [done|].
  rewrite app_nil_r in Hb. unfold rseq. rewrite Hb. reflexivity.
Qed.

Lemma time_range_parens_parse s e :
  numeral_text s → numeral_text e →
  tryParseTimeCondition ($"(" ++ range_text s e ++ $")") = Some (TimeCondition f tz MATCH_RANGE [] s e).
Proof using Hf Htz.
  intros Hs He. unfold tryParseTimeCondition.
  replace (match_whole (rseq time_range_pattern) _) with (@None mstate) by (vm_compute; reflexivity).
  unfold match_whole, start_state, rseq. rewrite fold_right_app, rmatch_seq.
  cbn [fold_right]. re_lit. rewrite fold_right_app.
  destruct (range_run (λ st, rmatch REnd st Some) (RSeq (rlit $")") REps) s e
    (reverse $"(" ++ []) $")" Hs He ltac:(done)) as [b Hb].
  { intros b' c s' cs' Hc. by apply (lit_rejects _ numeral_char). }
  cbn [fold_right]. rewrite Hb. reflexivity.
Qed.
End TimeConditions.

(** ** Conditions on parameters and headers *)

Lemma trim_ends c s d : is_space c = false → is_space d = false → trim (c :: s ++ [d]) = c :: s ++ [d].
Proof.
  intros Hc Hd. unfold trim, trim_end. cbn [trim_start]. rewrite Hc.
  replace (reverse (c :: s ++ [d])) with (d :: reverse s ++ [c])
    by by rewrite reverse_cons, reverse_app.
  cbn [trim_start]. rewrite Hd, reverse_cons, reverse_app. cbn. by rewrite reverse_involutive.
Qed.

Lemma trim_quote s : trim (quote s) = quote s.
Proof. by apply trim_ends. Qed.


Lemma json_parse_quote s : forallb code_unit s = true → json_parse (quote s) = Some (VStr s).
Proof.
  intros H. unfold json_parse, json_fuel.
  replace (2 * length (quote s) + 2)%nat with (S (2 * length (quote s) + 1)) by lia.
  unfold quote. cbn [app parse_value skip_ws]. change (is_json_space 34) with false. cbn iota.
  change (34 =? 34) with true. cbn iota. by rewrite parse_escape_string.
Qed.

Lemma not_time_header s : tryParseTimeCondition ($"header(" ++ s) = None.
Proof. vm_compute. reflexivity. Qed.
Lemma not_time_param s : tryParseTimeCondition ($"param(" ++ s) = None.
Proof. vm_compute. reflexivity. Qed.
Lemma not_time_has s : tryParseTimeCondition ($"has(" ++ s) = None.
Proof. vm_compute. reflexivity. Qed.

Section PlainConditions.
Context (p : jsstr) (Hp : name_text p).

Lemma header_exists_parse :
  tryParseRequestCondition ($"header(" ++ quote p ++ dq ") != ''") =
    Normal (Some (ParamHeaderCondition Header p MATCH_EXISTS [])).
Proof using Hp.
  destruct Hp as [Hne Hn]. unfold tryParseRequestCondition. rewrite not_time_header.
  unfold header_exists_pattern. re_start. re_lit. rewrite rmatch_seq, quoted_step by done.
  rewrite <- (app_nil_r (dq ") != ''")). re_lit. reflexivity.
Qed.

Lemma header_pattern_param (s : jsstr) : match_whole header_exists_pattern ($"param(" ++ s) = None.
Proof using. vm_compute. reflexivity. Qed.
Lemma header_pattern_has (s : jsstr) : match_whole header_exists_pattern ($"has(" ++ s) = None.
Proof using. vm_compute. reflexivity. Qed.
Lemma param_pattern_has (s : jsstr) : match_whole param_exists_pattern ($"has(" ++ s) = None.
Proof using. vm_compute. reflexivity. Qed.
Lemma param_pattern_header (s : jsstr) : match_whole param_exists_pattern ($"header(" ++ s) = None.
Proof using. vm_compute. reflexivity. Qed.

Lemma param_exists_parse :
  tryParseRequestCondition ($"param(" ++ quote p ++ $") != nil") =
    Normal (Some (ParamHeaderCondition Param p MATCH_EXISTS [])).
Proof using Hp.
  destruct Hp as [Hne Hn]. unfold tryParseRequestCondition. rewrite not_time_param, header_pattern_param.
  unfold param_exists_pattern. re_start. re_lit. rewrite rmatch_seq, quoted_step by done.
  rewrite <- (app_nil_r ($") != nil")). re_lit. reflexivity.
Qed.

Lemma header_contains_parse v :
  forallb code_unit v = true →
  tryParseRequestCondition ($"has(" ++ ($"header(" ++ quote p ++ $")") ++ $", " ++ quote v ++ $")") =
    Normal (Some (ParamHeaderCondition Header p MATCH_CONTAINS v)).
Proof using Hp.
  intros Hv. destruct Hp as [Hne Hn]. unfold tryParseRequestCondition.
  rewrite not_time_has, header_pattern_has, param_pattern_has.
  unfold header_contains_pattern. re_start.
  replace ($"has(" ++ ($"header(" ++ quote p ++ $")") ++ $", " ++ quote v ++ $")")
    with ($"has(header(" ++ quote p ++ $"), " ++ quote v ++ $")")
    by (rewrite <- !app_assoc; reflexivity).
  re_lit. rewrite rmatch_seq, quoted_step by done. re_lit. rewrite rmatch_seq, literal_step by done.
  rewrite <- (app_nil_r ($")")). re_lit. cbn [rmatch rest]. unfold literal_value.
  change (cap _ 2) with (quote v). rewrite json_parse_quote by done. reflexivity.
Qed.

(** Patterns that need [!= nil] after the name, on a comparison. *)
Lemma nil_pattern_fails {A} (k : mstate → option A) w r op s b :
  starts_with $") !" w = true → starts_with $") !" op = false → (2 < length op)%nat →
  rmatch (RSeq (rlit $"param(") (RSeq (quoted_group 1) (RSeq (rlit w) r)))
    (MState b ($"param(" ++ quote p ++ op ++ s) []) k = None.
Proof using Hp.
  intros Hw Hop Hlen. destruct Hp as [Hne Hn]. re_lit. rewrite rmatch_seq, quoted_step by done.
  rewrite rmatch_seq. apply rmatch_lit_fail. cbn [rest]. change ($") !") with [41; 32; 33] in *.
  destruct w as [|w1 [|w2 [|w3 w]]]; try done; cbn [starts_with] in Hw;
    rewrite ?andb_false_r in Hw; try done.
  destruct op as [|o1 [|o2 [|o3 op]]]; cbn [length] in Hlen; try lia. cbn [starts_with app] in *.
  rewrite !andb_true_iff, !Z.eqb_eq in Hw. destruct Hw as (<- & <- & <- & _).
  destruct (41 =? o1), (32 =? o2), (33 =? o3); done.
Qed.

Definition equals_result (src : PlainSource) (T : jsstr) : completion (option RequestCondition) :=
  match parseExprLiteral T with
  | None => Normal None
  | Some v => Normal (Some (ParamHeaderCondition src p MATCH_EQ (value_text v)))
  end.

(** The five patterns tried before the equality. *)
Lemma equality_patterns_fail src op T :
  starts_with $") !" op = false → (2 < length op)%nat →
  let text := source_text src ++ $"(" ++ quote p ++ op ++ T in
  tryParseTimeCondition text = None ∧ match_whole header_exists_pattern text = None ∧
  match_whole param_exists_pattern text = None ∧ match_whole header_contains_pattern text = None ∧
  match_whole param_contains_pattern text = None ∧ match_whole param_compare_pattern text = None.
Proof using Hp.
  intros Hop Hlen. destruct src; cbn zeta.
  - change (source_text Param ++ $"(" ++ quote p ++ op ++ T) with ($"param(" ++ quote p ++ op ++ T).
    split_and!; [apply not_time_param|apply header_pattern_param| |vm_compute; reflexivity| |];
      re_start; by apply nil_pattern_fails.
  - change (source_text Header ++ $"(" ++ quote p ++ op ++ T) with ($"header(" ++ quote p ++ op ++ T).
    split_and!; [apply not_time_header| |apply param_pattern_header|vm_compute; reflexivity..].
    destruct Hp as [Hne Hn]. unfold header_exists_pattern. re_start. re_lit. rewrite rmatch_seq, quoted_step by done.
    rewrite rmatch_seq, rmatch_lit_fail; [done|]. cbn [rest].
    change (dq ") != ''") with ([41; 32; 33] ++ dq "= ''"). change ($") !") with [41; 32; 33] in *.
    destruct op as [|o1 [|o2 [|o3 op]]]; cbn [length] in Hlen; try lia. cbn [starts_with app] in *.
    destruct (41 =? o1), (32 =? o2), (33 =? o3); done.
Qed.

Lemma equals_group_step {A} (k : mstate → option A) src b s :
  rmatch (RGroup 1 (ralt [rlit $"param"; rlit $"header"])) (MState b (source_text src ++ s) []) k =
    k (MState (reverse (source_text src) ++ b) s [(1%nat, source_text src)]).
Proof using.
  change (ralt [rlit $"param"; rlit $"header"]) with (ralt (rlit <$> [$"param"; $"header"])).
  rewrite rmatch_group, alt_lit_step.
  - unfold set_capture. cbn [before rest caps]. by rewrite group_text.
  - destruct src; [left|right; left].
  - destruct src; repeat (apply Forall_cons_2 || apply Forall_nil_2);
      first [right; vm_compute; reflexivity | left; reflexivity].
Qed.

Lemma equals_parse src T :
  T ≠ [] → no_line_terminator T = true →
  tryParseRequestCondition (source_text src ++ $"(" ++ quote p ++ $") == " ++ T) = equals_result src T.
Proof using Hp.
  intros HT HTn. unfold tryParseRequestCondition.
  destruct (equality_patterns_fail src $") == " T) as (-> & -> & -> & -> & -> & ->);
    [done|vm_compute; lia|].
  replace (match_whole equals_pattern _) with
    (Some (MState (reverse T ++ reverse $") == " ++ 34 :: reverse p ++ 34 :: 40 :: reverse (source_text src)) []
      [(3%nat, T); (2%nat, p); (1%nat, source_text src)])).
  2:{ symmetry. unfold equals_pattern. re_start. rewrite rmatch_seq, equals_group_step. re_lit.
      destruct Hp as [Hne Hn]. rewrite rmatch_seq, quoted_step by done. re_lit.
      rewrite rmatch_seq. rewrite <- (app_nil_r T) at 1. unfold rdot.
      rewrite group_plus_exact; [|done..|done]. rewrite rmatch_eps, rmatch_end.
      change (reverse $"(") with [40]. cbn [app]. by rewrite !app_nil_r. }
  unfold equals_result. change (cap _ 3) with T. change (cap _ 2) with p.
  change (cap _ 1) with (source_text src). by destruct src.
Qed.

(** A comparison without its [!= nil] is not a condition. *)
Lemma bare_compare_fails op s :
  starts_with $") !" op = false → starts_with $") =" op = false → (2 < length op)%nat →
  tryParseRequestCondition ($"param(" ++ quote p ++ op ++ s) = Normal None.
Proof using Hp.
  intros Hop Heq Hlen. unfold tryParseRequestCondition.
  change ($"param(" ++ quote p ++ op ++ s) with (source_text Param ++ $"(" ++ quote p ++ op ++ s).
  destruct (equality_patterns_fail Param op s) as (-> & -> & -> & -> & -> & ->); [done..|].
  replace (match_whole equals_pattern _) with (@None mstate); [done|].
  symmetry. unfold equals_pattern. re_start. rewrite rmatch_seq, equals_group_step. re_lit.
  destruct Hp as [Hne Hn]. rewrite rmatch_seq, quoted_step by done.
  rewrite rmatch_seq, rmatch_lit_fail; [done|]. cbn [rest].
  change ($") == ") with ([41; 32; 61] ++ $"= "). change ($") =") with [41; 32; 61] in *.
  destruct op as [|o1 [|o2 [|o3 op]]]; cbn [length] in Hlen; try lia. cbn [starts_with app] in *.
  destruct (41 =? o1), (32 =? o2), (61 =? o3); done.
Qed.

Lemma has_param_fails s : tryParseRequestCondition ($"has(param(" ++ s) = Normal None.
Proof using. vm_compute. reflexivity. Qed.
End PlainConditions.

(** A literal reads back as the text it was built from. *)
Lemma literal_roundtrip v :
  forallb code_unit v = true → trim v = v →
  parseExprLiteral (buildExprLiteral MATCH_EQ v) = Some (VStr v).
Proof.
  intros Hv Ht. unfold buildExprLiteral. rewrite Ht. change (bool_decide (MATCH_EQ = MATCH_CONTAINS)) with false.
  cbn iota. unfold parseExprLiteral. destruct (bool_decide (v = $"true") || bool_decide (v = $"false")) eqn:E.
  { by rewrite Ht, E. }
  destruct (is_numeric_literal v) eqn:En; [by rewrite Ht, E, En|].
  rewrite trim_quote.
  assert (∀ w, 34 ∉ w → quote v ≠ w) as Hq.
  { intros w Hw <-. apply Hw. unfold quote. by left. }
  rewrite !bool_decide_eq_false_2 by (apply Hq; vm_compute; set_solver). cbn [orb].
  destruct (is_numeric_literal (quote v)) eqn:Eq.
  { apply numeric_literal_numeral in Eq as [_ Eq]. by unfold quote in Eq. }
  by rewrite json_parse_quote.
Qed.

(** ** The separators at depth zero *)

Definition depth_step (d c : Z) : Z :=
  let d := if c =? 40 then d + 1 else d in if c =? 41 then d - 1 else d.

(** The scan for a separator that starts with a space and [x]: the depth, and
    whether the last character was a space at depth zero. *)
Definition scan_step (x : Z) (st : option (Z * bool)) (c : Z) : option (Z * bool) :=
  match st with
  | Some (d, sp) =>
    if sp && (c =? x) then None
    else Some (depth_step d c, (c =? 32) && (depth_step d c =? 0))
  | None => None
  end.

Definition scan (x : Z) (st : option (Z * bool)) (s : jsstr) : option (Z * bool) :=
  fold_left (scan_step x) s st.

Definition quiet_piece (x : Z) (s : jsstr) : Prop := scan x (Some (0, false)) s = Some (0, false).

Lemma scan_app x st a b : scan x st (a ++ b) = scan x (scan x st a) b.
Proof. apply fold_left_app. Qed.

Lemma scan_None x s : scan x None s = None.
Proof. induction s; [done|]. by cbn. Qed.

Lemma split_top_quiet x sep s d sp d' piece tail :
  scan x (Some (d, sp)) s = Some (d', false) → (tail = [] ∨ ∃ t, tail = 32 :: x :: sep ++ t) →
  split_top (32 :: x :: sep) d 0 piece (s ++ tail) = split_top (32 :: x :: sep) d' 0 (reverse s ++ piece) tail.
Proof.
  intros Hs Ht. revert d sp piece Hs. induction s as [|c s IH]; intros d sp piece Hs.
  - injection Hs as -> _. done.
  - unfold scan in Hs. cbn [fold_left scan_step] in Hs. destruct (sp && (c =? x)) eqn:Esp.
    { fold (scan x None s) in Hs. by rewrite scan_None in Hs. }
    rewrite reverse_cons, <- app_assoc. cbn [app split_top]. fold (depth_step d c).
    assert ((depth_step d c =? 0) && starts_with (32 :: x :: sep) (c :: s ++ tail) = false) as ->.
    { destruct (depth_step d c =? 0) eqn:Ed; [|done]. cbn [andb starts_with].
      rewrite Z.eqb_sym. destruct (c =? 32) eqn:Ec; [|done]. cbn [andb] in *.
      destruct s as [|c2 s]; [done|]. cbn [app fold_left scan_step] in *. cbn [andb] in Hs.
      rewrite (Z.eqb_sym x). destruct (c2 =? x); [|done].
      fold (scan x None s) in Hs. by rewrite scan_None in Hs. }
    by apply IH with (sp := (c =? 32) && (depth_step d c =? 0)).
Qed.

Lemma split_top_skip sep d piece w t :
  split_top sep d (length w) piece (w ++ t) = split_top sep d 0 piece t.
Proof. induction w as [|c w IH]; [done|]. cbn [length app split_top]. apply IH. Qed.

Lemma split_top_sep x sep piece t :
  split_top (32 :: x :: sep) 0 0 piece (32 :: x :: sep ++ t) =
    trim (reverse piece) :: split_top (32 :: x :: sep) 0 0 [] t.
Proof.
  cbn [split_top]. change (32 =? 40) with false. change (32 =? 41) with false. cbn iota.
  change (0 =? 0) with true. cbn [andb].
  rewrite (starts_with_app (32 :: x :: sep) t : starts_with _ (32 :: x :: sep ++ t) = true).
  f_equal. apply (split_top_skip _ _ _ (x :: sep)).
Qed.

Lemma split_top_join x sep ts :
  ts ≠ [] → Forall (λ t, quiet_piece x t ∧ trim t = t) ts →
  split_top (32 :: x :: sep) 0 0 [] (join (32 :: x :: sep) ts) = ts.
Proof.
  intros Hne Hts. induction Hts as [|t ts [Hq Ht] Hts IH]; [done|].
  destruct ts as [|t2 ts].
  - cbn [join]. rewrite <- (app_nil_r t) at 1. rewrite (split_top_quiet _ _ _ _ _ _ _ _ Hq) by by left.
    cbn [split_top]. by rewrite app_nil_r, reverse_involutive, Ht.
  - change (join (32 :: x :: sep) (t :: t2 :: ts))
      with (t ++ 32 :: x :: sep ++ join (32 :: x :: sep) (t2 :: ts)).
    rewrite (split_top_quiet _ _ _ _ _ _ _ _ Hq) by eauto.
    rewrite split_top_sep, app_nil_r, reverse_involutive, Ht, IH; done.
Qed.

Lemma filter_truthy ts : Forall (λ t : jsstr, t ≠ []) ts → List.filter truthy ts = ts.
Proof.
  induction 1 as [|t ts Ht _ IH]; [done|]. cbn [List.filter].
  rewrite (proj2 (truthy_ne t)) by done. by rewrite IH.
Qed.

(** *** Text inside parentheses *)

Fixpoint balanced_from (n : nat) (s : jsstr) : bool :=
  match s with
  | [] => (n =? 0)%nat
  | c :: s' =>
    if c =? 40 then balanced_from (S n) s'
    else if c =? 41 then match n with O => false | S n' => balanced_from n' s' end
    else balanced_from n s'
  end.

Definition no_parens (s : jsstr) : bool := forallb (λ c, negb (c =? 40) && negb (c =? 41)) s.

Lemma balanced_no_parens n a b : no_parens a = true → balanced_from n (a ++ b) = balanced_from n b.
Proof.
  induction a as [|c a IH]; [done|]. unfold no_parens. cbn [forallb app balanced_from].
  rewrite !andb_true_iff, !negb_true_iff. intros [[-> ->] Ha]. by apply IH.
Qed.

Lemma balanced_app k n a b :
  balanced_from k a = true → balanced_from (k + n) (a ++ b) = balanced_from n b.
Proof.
  revert k. induction a as [|c a IH]; intros k H; cbn [balanced_from app] in *.
  - by apply Nat.eqb_eq in H as ->.
  - destruct (c =? 40); [by apply (IH (S k))|]. destruct (c =? 41); [|by apply IH].
    destruct k as [|k]; [done|]. by apply IH.
Qed.

(** At depth one and deeper no separator is seen. *)
Lemma scan_nested x s n d :
  1 ≤ d → balanced_from n s = true → scan x (Some (d + Z.of_nat n, false)) s = Some (d, false).
Proof.
  intros Hd. revert n. induction s as [|c s IH]; intros n Hb; cbn [balanced_from] in Hb.
  - destruct n; [|done]. by rewrite Z.add_0_r.
  - unfold scan. cbn [fold_left scan_step andb]. unfold depth_step.
    destruct (Z.eqb_spec c 40) as [-> |Hc].
    + change (40 =? 41) with false. change (40 =? 32) with false. cbn [andb].
      replace (d + Z.of_nat n + 1) with (d + Z.of_nat (S n)) by lia. by apply IH.
    + destruct (Z.eqb_spec c 41) as [-> |Hc']; [destruct n as [|n]; [done|]|].
      * change (41 =? 32) with false. cbn [andb].
        replace (d + Z.of_nat (S n) - 1) with (d + Z.of_nat n) by lia. by apply IH.
      * rewrite (proj2 (Z.eqb_neq (d + Z.of_nat n) 0)) by lia. rewrite andb_false_r. by apply IH.
Qed.

Lemma scan_parens x s t :
  x ≠ 40 → balanced_from 0 s = true →
  scan x (Some (0, false)) ($"(" ++ s ++ $")" ++ t) = scan x (Some (0, false)) t.
Proof.
  intros Hx Hb. rewrite scan_app. change (scan x (Some (0, false)) $"(") with (Some (1, false)).
  rewrite scan_app. change 1 with (1 + Z.of_nat 0). rewrite scan_nested by done.
  rewrite scan_app. reflexivity.
Qed.

(** *** Text without white space at its ends *)

Lemma numeral_last_solid v : numeral_text v → last_solid v.
Proof.
  intros [Hne Hv%numeral_no_spaces]. unfold last_solid.
  rewrite <- no_spaces_reverse in Hv. destruct (reverse v) as [|c r] eqn:E.
  - apply (f_equal reverse) in E. rewrite reverse_involutive in E. done.
  - unfold no_spaces in Hv. cbn [forallb] in Hv. apply andb_true_iff in Hv as [Hc _].
    by apply negb_true_iff.
Qed.

Definition no_bar (s : jsstr) : bool := forallb (λ c, negb (c =? 124)) s.

Lemma no_bar_app a b : no_bar (a ++ b) = no_bar a && no_bar b.
Proof. apply forallb_app. Qed.

Lemma includes_no_bar s : no_bar s = true → includes $" || " s = false.
Proof.
  change ($" || ") with [32; 124; 124; 32].
  assert (∀ t, no_bar t = true → starts_with [32; 124; 124; 32] t = false) as Hs.
  { intros [|a [|b t]] Ht; try done; cbn [starts_with]; [by rewrite andb_false_r|].
    unfold no_bar in Ht. cbn [forallb] in Ht. rewrite !andb_true_iff, !negb_true_iff in Ht.
    destruct Ht as (_ & Hb & _). rewrite Z.eqb_sym in Hb. rewrite Hb. cbn [andb]. by rewrite andb_false_r. }
  induction s as [|c s IH]; [done|]. intros H. cbn [includes]. rewrite Hs by done. cbn [orb]. apply IH.
  unfold no_bar in H. cbn [forallb] in H. by apply andb_true_iff in H as [_ ?].
Qed.

(** Bars between spaces are found in a quoted text or not at all. *)
Lemma includes_quoted a v b :
  no_bar a = true → no_bar b = true → includes $" || " (quote v) = false → includes $" || " (a ++ quote v ++ b) = false.
Proof.
  change ($" || ") with [32; 124; 124; 32]. intros Ha Hb Hv.
  assert (∀ w, includes [32; 124; 124; 32] (w ++ [34]) = false → includes [32; 124; 124; 32] ((w ++ [34]) ++ b) = false) as Hq.
  { intros w. induction w as [|c w IH]; cbn [app includes].
    - intros _. cbn [starts_with]. change (32 =? 34) with false. cbn [andb orb].
      apply (includes_no_bar b Hb).
    - intros [Hs Hw]%orb_false_iff. rewrite IH by done. rewrite orb_false_r. revert Hs. clear.
      destruct w as [|c1 [|c2 [|c3 w]]]; cbn [app starts_with];
        try change (124 =? 34) with false; try change (32 =? 34) with false; rewrite ?andb_false_r; done. }
  induction a as [|c a IH]; cbn [app].
  - unfold quote in *. rewrite app_assoc in *. by apply Hq.
  - unfold no_bar in Ha. cbn [forallb] in Ha. apply andb_true_iff in Ha as [_ Ha]. cbn [includes]. rewrite (IH Ha), orb_false_r.
    destruct a as [|d a]; cbn [app starts_with].
    + unfold quote. cbn [app]. change (124 =? 34) with false. cbn [andb]. by rewrite andb_false_r.
    + unfold no_bar in Ha. cbn [forallb] in Ha. apply andb_true_iff in Ha as [Hd _]. apply negb_true_iff in Hd.
      rewrite (Z.eqb_sym 124 d), Hd. cbn [andb]. by rewrite andb_false_r.
Qed.

Lemma includes_app p a b : includes p (a ++ p ++ b) = true.
Proof.
  induction a as [|c a IH].
  - cbn [app]. destruct (p ++ b) as [|c s] eqn:E.
    + apply app_eq_nil in E as [-> ->]. done.
    + cbn [includes]. rewrite <- E, starts_with_app. done.
  - cbn [app includes]. rewrite IH. apply orb_true_r.
Qed.

Lemma name_no_bar s : forallb name_char s = true → no_bar s = true.
Proof.
  unfold no_bar. rewrite !forallb_forall. intros H c Hc. specialize (H c Hc).
  unfold name_char in H. rewrite !andb_true_iff in H. tauto.
Qed.

Lemma numeral_no_bar s : forallb numeral_char s = true → no_bar s = true.
Proof.
  unfold no_bar. rewrite !forallb_forall. intros H c Hc. specialize (H c Hc).
  by destruct (Z.eqb_spec c 124) as [-> |].
Qed.

Lemma name_no_parens s : forallb name_char s = true → no_parens s = true.
Proof.
  unfold no_parens. rewrite !forallb_forall. intros H c Hc. specialize (H c Hc).
  unfold name_char in H. rewrite !andb_true_iff in *. tauto.
Qed.

Lemma quote_no_parens s : forallb name_char s = true → no_parens (quote s) = true.
Proof.
  intros H. rewrite quote_name by done. unfold no_parens. cbn [forallb].
  rewrite forallb_app. fold (no_parens s). by rewrite name_no_parens.
Qed.

Lemma numeral_no_parens s : forallb numeral_char s = true → no_parens s = true.
Proof.
  unfold no_parens. rewrite !forallb_forall. intros H c Hc. specialize (H c Hc).
  destruct (Z.eqb_spec c 40) as [-> |]; [done|]. by destruct (Z.eqb_spec c 41) as [-> |].
Qed.

(** A text without spaces or parentheses changes nothing. *)
Lemma scan_solid x d s :
  no_parens s = true → no_spaces s = true → scan x (Some (d, false)) s = Some (d, false).
Proof.
  unfold no_parens, no_spaces. induction s as [|c s IH]; intros Hp Hs; [done|].
  cbn [forallb] in *. rewrite !andb_true_iff, !negb_true_iff in *.
  destruct Hp as [[H40 H41] Hp], Hs as [Hc Hs].
  unfold scan. cbn [fold_left scan_step andb]. unfold depth_step. rewrite H40, H41.
  destruct (Z.eqb_spec c 32) as [-> |]; [done|]. by apply IH.
Qed.

(** After a space, as long as it does not complete the separator. *)
Lemma scan_after_space x c s d sp :
  c ≠ x → scan x (Some (d, sp)) (c :: s) = scan x (Some (d, false)) (c :: s).
Proof.
  intros Hc. unfold scan. cbn [fold_left scan_step].
  by rewrite (proj2 (Z.eqb_neq c x)), andb_false_r by done.
Qed.

(** ** Conditions the grammar expresses *)

(** A value: any text without white space at its ends, whose parentheses match
    and which holds no bars between spaces. *)
Definition value_ok (v : jsstr) : bool :=
  forallb code_unit v && no_separator v && bool_decide (trim v = v) && balanced_from 0 (quote v)
  && negb (includes $" || " (quote v)).

Definition faithful (c : RequestCondition) : bool :=
  match c with
  | TimeCondition f tz m v rs re =>
    bool_decide (f ∈ TIME_FUNCS) && truthy tz && forallb name_char tz
    && (if bool_decide (m = MATCH_RANGE)
        then negb (truthy v) && is_numeric_literal rs && is_numeric_literal re
        else bool_decide (m ∈ [MATCH_EQ; MATCH_GTE; MATCH_LT]) && is_numeric_literal v
             && negb (truthy rs) && negb (truthy re))
  | ParamHeaderCondition src p m v =>
    name_ok p
    && (if bool_decide (m = MATCH_EXISTS) then negb (truthy v)
        else if bool_decide (m = MATCH_CONTAINS)
        then match src with Header => value_ok v | Param => false end
        else bool_decide (m = MATCH_EQ) && value_ok v
             && bool_decide (scan 38 (Some (0, false)) (quote v) = Some (0, false)))
  end.

Definition is_range (c : RequestCondition) : bool :=
  match c with TimeCondition _ _ m _ _ _ => bool_decide (m = MATCH_RANGE) | _ => false end.

(** What the printed text [e] of the condition [c] satisfies. *)
Record printed (c : RequestCondition) (e : jsstr) : Prop := {
  printed_ne : e ≠ [];
  printed_trim : trim e = e;
  printed_parse : tryParseRequestCondition e = Normal (Some c);
  printed_wrapped : is_range c = true → tryParseRequestCondition ($"(" ++ e ++ $")") = Normal (Some c);
  printed_quiet : quiet_piece 38 e;
  printed_bars : includes $" || " e = is_range c;
  printed_balanced : balanced_from 0 e = true
}.

Lemma no_parens_app a b : no_parens a = true → no_parens b = true → no_parens (a ++ b) = true.
Proof. intros Ha Hb. unfold no_parens in *. by rewrite forallb_app, Ha, Hb. Qed.

(** A call [w(quoted)] followed by a tail. *)
Lemma call_quiet w inner t :
  no_parens w = true → no_spaces w = true → balanced_from 0 inner = true →
  scan 38 (Some (0, false)) t = Some (0, false) → quiet_piece 38 (w ++ $"(" ++ inner ++ $")" ++ t).
Proof.
  intros Hw Hws Hi Ht. unfold quiet_piece. rewrite scan_app, scan_solid by done.
  by rewrite scan_parens.
Qed.

Lemma call_balanced w inner t n :
  no_parens w = true → no_parens inner = true →
  balanced_from n (w ++ $"(" ++ inner ++ $")" ++ t) = balanced_from n t.
Proof.
  intros Hw Hi. rewrite balanced_no_parens by done. change ($"(") with [40]. cbn [app balanced_from].
  change (40 =? 40) with true. cbn iota. rewrite balanced_no_parens by done. reflexivity.
Qed.

Lemma func_facts f : f ∈ TIME_FUNCS →
  no_parens f = true ∧ no_spaces f = true ∧ head_solid f ∧ no_bar f = true ∧ f ≠ [].
Proof.
  unfold TIME_FUNCS. rewrite !elem_of_cons.
  intros [->|[->|[->|[->|[->|[]%elem_of_nil]]]]]; (split_and!; done).
Qed.

Lemma numeral_scan v d sp :
  numeral_text v → scan 38 (Some (d, sp)) v = Some (d, false).
Proof.
  intros [Hne Hv]. destruct v as [|c v]; [done|].
  rewrite scan_after_space.
  - apply scan_solid; [by apply numeral_no_parens|by apply numeral_no_spaces].
  - intros ->. by cbn in Hv.
Qed.

(** Conditions in normal form are left alone. *)
Lemma normalize_time f tz m v rs re :
  f ∈ TIME_FUNCS → tz ≠ [] → offers_mode SOURCE_TIME m = true →
  normalizeCondition (Some (partial_of (TimeCondition f tz m v rs re))) = TimeCondition f tz m v rs re.
Proof.
  intros Hf Htz Hm. unfold normalizeCondition, partial_of. cbn [mbind option_bind pc_source pc_timeFunc
    pc_timezone pc_mode pc_value pc_rangeStart pc_rangeEnd default].
  rewrite bool_decide_eq_true_2 by done. unfold valid_mode. rewrite Hm. unfold isTimeFunc.
  assert (existsb (λ g, bool_decide (g = f)) TIME_FUNCS = true) as ->.
  { apply existsb_exists. exists f. split; [by apply list_elem_of_In|by apply bool_decide_eq_true]. }
  cbn [default from_option]. unfold id. by destruct tz.
Qed.

Lemma normalize_plain src p m v :
  offers_mode (source_text src) m = true →
  normalizeCondition (Some (partial_of (ParamHeaderCondition src p m v))) = ParamHeaderCondition src p m v.
Proof.
  intros Hm. unfold normalizeCondition, partial_of. cbn [mbind option_bind pc_source pc_path pc_mode pc_value default].
  rewrite bool_decide_eq_false_2 by by destruct src.
  replace (if bool_decide (Some (source_text src) = Some SOURCE_HEADER) then Header else Param) with src
    by by destruct src.
  unfold valid_mode. by rewrite Hm.
Qed.

Section Printed.
Context (f tz : jsstr) (Hf : f ∈ TIME_FUNCS) (Htz : name_text tz).

Lemma quote_no_bar s : forallb name_char s = true → no_bar (quote s) = true.
Proof using.
  intros H. rewrite quote_name by done. unfold no_bar. cbn [forallb].
  rewrite forallb_app. fold (no_bar s). by rewrite name_no_bar.
Qed.

Lemma time_compare_printed m v :
  m ∈ [MATCH_EQ; MATCH_GTE; MATCH_LT] → is_numeric_literal v = true →
  printed (TimeCondition f tz m v [] []) (f ++ $"(" ++ quote tz ++ $") " ++ time_op m ++ $" " ++ v).
Proof using Hf Htz.
  intros Hm Hv%numeric_literal_numeral. pose proof (func_facts f Hf) as (H1 & H2 & H3 & H4 & H5).
  pose proof Htz as [Hne Hn]. pose proof (quote_no_parens tz Hn) as Hq.
  assert (∃ op, time_op m = op ∧ op ∈ [$"=="; $">="; $"<"] ∧ time_mode op = m ∧ no_bar op = true
    ∧ no_parens op = true ∧ scan 38 (Some (0, false)) ($" " ++ op ++ $" ") = Some (0, true)
    ∧ m ≠ MATCH_RANGE) as (op & -> & Hop & Hmode & Hob & Hopp & Hosc & Hnr).
  { rewrite !elem_of_cons in Hm. destruct Hm as [->|[->|[->|[]%elem_of_nil]]]; eexists;
      (split; [vm_compute; reflexivity|]);
      (split_and!; [|vm_compute; reflexivity|done..]);
      [left|right; left|right; right; left]. }
  assert (f ++ $"(" ++ quote tz ++ $") " ++ op ++ $" " ++ v
    = f ++ $"(" ++ quote tz ++ $")" ++ ($" " ++ op ++ $" ") ++ v) as E
    by (rewrite <- !app_assoc; reflexivity).
  split; rewrite ?E.
  - by destruct f.
  - apply trim_solid; [by apply head_solid_app|].
    rewrite !app_assoc. apply last_solid_app. by apply numeral_last_solid.
  - rewrite <- E. unfold tryParseRequestCondition. rewrite time_compare_parse by done. by rewrite Hmode.
  - cbn [is_range]. by rewrite bool_decide_eq_false_2.
  - apply call_quiet; [done..| |].
    + rewrite <- (app_nil_r (quote tz)), balanced_no_parens; done.
    + rewrite scan_app, Hosc. by apply numeral_scan.
  - cbn [is_range]. rewrite bool_decide_eq_false_2 by done. apply includes_no_bar.
    destruct Hv as [_ Hv%numeral_no_bar]. by rewrite !no_bar_app, quote_no_bar, H4, Hob, Hv.
  - rewrite call_balanced by done. rewrite balanced_no_parens.
    + destruct Hv as [_ Hv%numeral_no_parens]. by rewrite <- (app_nil_r v), balanced_no_parens.
    + by repeat apply no_parens_app.
Qed.

Lemma time_range_printed s e :
  is_numeric_literal s = true → is_numeric_literal e = true →
  printed (TimeCondition f tz MATCH_RANGE [] s e) (range_text f tz s e).
Proof using Hf Htz.
  intros Hs%numeric_literal_numeral He%numeric_literal_numeral.
  pose proof (func_facts f Hf) as (H1 & H2 & H3 & H4 & H5).
  pose proof Htz as [Hne Hn]. pose proof (quote_no_parens tz Hn) as Hq.
  assert (range_text f tz s e = f ++ $"(" ++ quote tz ++ $")" ++ $" >= " ++ s ++ $" || " ++
    (f ++ $"(" ++ quote tz ++ $")" ++ $" < " ++ e)) as E by (unfold range_text; reflexivity).
  assert (balanced_from 0 (quote tz) = true) as Hbq
    by (rewrite <- (app_nil_r (quote tz)), balanced_no_parens; done).
  split.
  - rewrite E. by destruct f.
  - rewrite E. apply trim_solid; [by apply head_solid_app|].
    rewrite !app_assoc. apply last_solid_app. by apply numeral_last_solid.
  - unfold tryParseRequestCondition. by rewrite time_range_parse.
  - intros _. unfold tryParseRequestCondition. by rewrite time_range_parens_parse.
  - rewrite E. apply call_quiet; [done..|].
    rewrite scan_app. change (scan 38 (Some (0, false)) $" >= ") with (Some (0, true)).
    rewrite scan_app, numeral_scan by done.
    rewrite scan_app. change (scan 38 (Some (0, false)) $" || ") with (Some (0, true)).
    destruct f as [|c f']; [done|]. cbn [app]. rewrite scan_after_space.
    + change (c :: f' ++ ?t) with ((c :: f') ++ t). apply call_quiet; [done..|].
      rewrite scan_app. change (scan 38 (Some (0, false)) $" < ") with (Some (0, true)).
      by apply numeral_scan.
    + unfold TIME_FUNCS in Hf. rewrite !elem_of_cons in Hf.
      destruct Hf as [[= -> _]|[[= -> _]|[[= -> _]|[[= -> _]|[[= -> _]|[]%elem_of_nil]]]]]; done.
  - cbn [is_range]. rewrite bool_decide_eq_true_2 by done. rewrite E.
    rewrite !(app_assoc f), !(app_assoc _ $" >= "), !(app_assoc _ s).
    rewrite !app_assoc. rewrite <- (app_assoc _ _ e), <- (app_assoc _ $")"), <- (app_assoc _ (quote tz)),
      <- (app_assoc _ $"("), <- (app_assoc _ f).
    rewrite <- (app_assoc _ $" || "). apply includes_app.
  - rewrite E, call_balanced by done. rewrite balanced_no_parens by done.
    destruct Hs as [_ Hs%numeral_no_parens]. rewrite balanced_no_parens by done.
    rewrite balanced_no_parens by done. rewrite call_balanced by done.
    rewrite balanced_no_parens by done. destruct He as [_ He%numeral_no_parens].
    by rewrite <- (app_nil_r e), balanced_no_parens.
Qed.
End Printed.

Section PrintedPlain.
Context (p : jsstr) (Hp : name_text p).

Lemma source_facts src :
  no_parens (source_text src) = true ∧ no_spaces (source_text src) = true ∧
  head_solid (source_text src) ∧ no_bar (source_text src) = true.
Proof using. by destruct src. Qed.

Lemma quoted_balanced : balanced_from 0 (quote p) = true.
Proof using Hp.
  destruct Hp as [_ Hn]. rewrite <- (app_nil_r (quote p)), balanced_no_parens; [done|].
  by apply quote_no_parens.
Qed.

(** A call on the name and a tail with matching parentheses and no separator. *)
Lemma plain_printed c src t :
  is_range c = false →
  tryParseRequestCondition (source_text src ++ $"(" ++ quote p ++ $")" ++ t) = Normal (Some c) →
  last_solid t → scan 38 (Some (0, false)) t = Some (0, false) →
  includes $" || " (source_text src ++ $"(" ++ quote p ++ $")" ++ t) = false → balanced_from 0 t = true →
  printed c (source_text src ++ $"(" ++ quote p ++ $")" ++ t).
Proof using Hp.
  intros Hr Hparse Hl Hq Hb Hnp. destruct (source_facts src) as (S1 & S2 & S3 & S4).
  pose proof Hp as [Hne Hn]. split.
  - by destruct src.
  - apply trim_solid; [by apply head_solid_app|]. rewrite !app_assoc. by apply last_solid_app.
  - done.
  - by rewrite Hr.
  - by apply call_quiet; [..|apply quoted_balanced|].
  - by rewrite Hr.
  - by rewrite call_balanced by (try done; by apply quote_no_parens).
Qed.

Lemma call_bars src t : no_bar t = true → includes $" || " (source_text src ++ $"(" ++ quote p ++ $")" ++ t) = false.
Proof using Hp.
  intros Ht. destruct (source_facts src) as (_ & _ & _ & S4). destruct Hp as [_ Hn].
  apply includes_no_bar. by rewrite !no_bar_app, quote_no_bar, S4, Ht.
Qed.

Lemma exists_printed src :
  printed (ParamHeaderCondition src p MATCH_EXISTS [])
    (source_text src ++ $"(" ++ quote p ++ $")"
     ++ match src with Header => dq " != ''" | Param => $" != nil" end).
Proof using Hp.
  apply plain_printed; try (by destruct src); [|apply call_bars; by destruct src].
  destruct src; [exact (param_exists_parse p Hp)|exact (header_exists_parse p Hp)].
Qed.

(** The text of a search for a substring. *)
Lemma has_text_facts src v : value_ok v = true →
  let t := $"has(" ++ (source_text src ++ $"(" ++ quote p ++ $")") ++ $", " ++ quote v ++ $")" in
  quiet_piece 38 t ∧ balanced_from 0 t = true ∧ trim t = t ∧ includes $" || " t = false.
Proof using Hp.
  intros Hv t. unfold value_ok in Hv. rewrite !andb_true_iff, negb_true_iff in Hv. destruct Hv as [[[[Hu _] _] Hb] Hbars]. pose proof Hp as [Hne Hn].
  destruct (source_facts src) as (S1 & S2 & S3 & S4).
  assert (t = $"has" ++ $"(" ++ (source_text src ++ $"(" ++ quote p ++ $")" ++ $", " ++ quote v) ++ $")" ++ []) as E
    by (subst t; rewrite app_nil_r, <- !app_assoc; reflexivity).
  assert (balanced_from 0 (source_text src ++ $"(" ++ quote p ++ $")" ++ $", " ++ quote v) = true) as Hbal.
  { rewrite call_balanced by (try done; by apply quote_no_parens). by rewrite balanced_no_parens. }
  split_and!.
  - rewrite E. by apply call_quiet.
  - rewrite E, app_nil_r. rewrite balanced_no_parens by done. change ($"(") with [40] at 1. cbn [app balanced_from].
    change (40 =? 40) with true. cbn iota. rewrite (balanced_app 0 1) by done. reflexivity.
  - subst t. apply trim_solid; [done|]. rewrite !app_assoc. by apply last_solid_app.
  - replace t with (($"has(" ++ (source_text src ++ $"(" ++ quote p ++ $")") ++ $", ") ++ quote v ++ $")")
      by (subst t; rewrite <- !app_assoc; reflexivity).
    apply includes_quoted; [|done|done]. by rewrite !no_bar_app, S4, quote_no_bar.
Qed.

Lemma contains_printed v :
  value_ok v = true →
  printed (ParamHeaderCondition Header p MATCH_CONTAINS v)
    ($"has(" ++ ($"header(" ++ quote p ++ $")") ++ $", " ++ quote v ++ $")").
Proof using Hp.
  intros Hv. destruct (has_text_facts Header v Hv) as (Hq & Hb & Ht & Hi).
  unfold value_ok in Hv. rewrite !andb_true_iff in Hv. destruct Hv as [[[[Hu _] _] _] _].
  split; try done. by apply header_contains_parse.
Qed.
End PrintedPlain.

(** The literal of an equality. *)
Lemma eq_literal_facts v :
  value_ok v = true → scan 38 (Some (0, false)) (quote v) = Some (0, false) →
  let T := buildExprLiteral MATCH_EQ v in
  T ≠ [] ∧ no_line_terminator T = true ∧ last_solid T ∧ scan 38 (Some (0, true)) T = Some (0, false) ∧
  (T = quote v ∨ no_bar T = true) ∧ balanced_from 0 T = true.
Proof.
  unfold value_ok. rewrite !andb_true_iff, negb_true_iff, bool_decide_eq_true. intros [[[[Hu Hsep] Ht] Hb] Hbars] Hs. cbn zeta.
  unfold buildExprLiteral. change (bool_decide (MATCH_EQ = MATCH_CONTAINS)) with false. cbn iota.
  rewrite Ht. destruct (bool_decide (v = $"true") || bool_decide (v = $"false")) eqn:E.
  { apply orb_true_iff in E as [->%bool_decide_eq_true| ->%bool_decide_eq_true]; split_and!; try done; by right. }
  destruct (is_numeric_literal v) eqn:En.
  { apply numeric_literal_numeral in En. pose proof En as [Hne Hn]. split_and!; [done| | | | |].
    - unfold no_line_terminator. rewrite !forallb_forall in *. intros c Hc. specialize (Hn c Hc).
      unfold is_line_terminator. 
      repeat (match goal with |- context [c =? ?b] => destruct (Z.eqb_spec c b) as [->|]; [done|] end). done.
    - by apply numeral_last_solid.
    - by apply numeral_scan.
    - right. by apply numeral_no_bar.
    - by rewrite <- (app_nil_r v), balanced_no_parens by by apply numeral_no_parens. }
  split_and!.
  - done.
  - unfold quote, no_line_terminator. rewrite !forallb_app. cbn [forallb]. fold (no_line_terminator (escape_string v)).
    by rewrite escape_one_line.
  - unfold quote. rewrite app_assoc. by apply last_solid_app.
  - unfold quote in *. cbn [app] in *. by rewrite scan_after_space.
  - by left.
  - done.
Qed.

Lemma equals_printed src p v :
  name_text p → value_ok v = true → scan 38 (Some (0, false)) (quote v) = Some (0, false) →
  printed (ParamHeaderCondition src p MATCH_EQ v)
    (source_text src ++ $"(" ++ quote p ++ $")" ++ $" == " ++ buildExprLiteral MATCH_EQ v).
Proof.
  intros Hp Hv Hs. destruct (eq_literal_facts v Hv Hs) as (T1 & T2 & T3 & T4 & T5 & T6).
  assert (value_ok v = true) as Hv' by done. unfold value_ok in Hv'. rewrite !andb_true_iff, negb_true_iff, bool_decide_eq_true in Hv'.
  destruct Hv' as [[[[Hu _] Ht] _] Hbars]. apply plain_printed; [done|done| | | | |].
  - pose proof (equals_parse p Hp src _ T1 T2) as E. unfold equals_result in E.
    rewrite literal_roundtrip in E by done. exact E.
  - by apply last_solid_app.
  - rewrite scan_app. exact T4.
  - destruct T5 as [->|T5]; [|apply call_bars; [done|by rewrite no_bar_app, T5]].
    replace (source_text src ++ $"(" ++ quote p ++ $")" ++ $" == " ++ quote v)
      with ((source_text src ++ $"(" ++ quote p ++ $")" ++ $" == ") ++ quote v ++ []) by (rewrite app_nil_r, <- !app_assoc; reflexivity).
    destruct (source_facts src) as (_ & _ & _ & S4). destruct Hp as [_ Hn].
    apply includes_quoted; [|done|done]. by rewrite !no_bar_app, S4, quote_no_bar.
  - by rewrite balanced_no_parens.
Qed.

(** The text of every faithful condition. *)
Lemma faithful_printed c : faithful c = true → printed c (buildRequestConditionExpr c).
Proof.
  destruct c as [src p m v|f tz m v rs re]; cbn [faithful]; intros Hc.
  - apply andb_true_iff in Hc as [Hp Hc]. unfold name_ok in Hp. rewrite !andb_true_iff, bool_decide_eq_true in Hp.
    destruct Hp as [[Hne%truthy_ne Hn] Ht]. assert (name_text p) as Hp by done.
    assert (∀ m', offers_mode (source_text src) m' = true →
      buildRequestConditionExpr (ParamHeaderCondition src p m' v) = plain_condition_text src p m' v) as Hb
      by (intros m' Hm'; unfold buildRequestConditionExpr; by rewrite normalize_plain).
    assert (truthy p = true) as Htp by by apply truthy_ne.
    destruct (bool_decide (m = MATCH_EXISTS)) eqn:E1; [apply bool_decide_eq_true in E1 as ->
      |destruct (bool_decide (m = MATCH_CONTAINS)) eqn:E2; [apply bool_decide_eq_true in E2 as -> |]].
    + rewrite Hb by by destruct src. apply negb_true_iff in Hc. destruct v; [|done].
      unfold plain_condition_text. rewrite Ht, Htp. pose proof (exists_printed p Hp src) as E.
      rewrite <- !app_assoc. exact E.
    + destruct src; [done|]. rewrite Hb by done.
      assert (trim v = v) as Htv by (unfold value_ok in Hc; rewrite !andb_true_iff, bool_decide_eq_true in Hc; tauto).
      unfold plain_condition_text. rewrite Ht, Htp. unfold buildExprLiteral. rewrite Htv.
      exact (contains_printed p Hp v Hc).
    + rewrite !andb_true_iff, !bool_decide_eq_true in Hc. destruct Hc as [[-> Hv] Hs].
      rewrite Hb by by destruct src. unfold plain_condition_text. rewrite Ht, Htp. cbn [negb].
      change (bool_decide (MATCH_EQ = MATCH_EXISTS)) with false.
      change (bool_decide (MATCH_EQ = MATCH_CONTAINS)) with false.
      change (is_compare_mode MATCH_EQ) with false. cbn iota. rewrite <- !app_assoc.
      by apply equals_printed.
  - rewrite !andb_true_iff, bool_decide_eq_true in Hc. destruct Hc as [[[Hf Htz%truthy_ne] Hn] Hc].
    assert (name_text tz) as Hname by done.
    assert (∀ m', offers_mode SOURCE_TIME m' = true →
      buildRequestConditionExpr (TimeCondition f tz m' v rs re) = time_condition_text f tz m' v rs re) as Hb
      by (intros m' Hm'; unfold buildRequestConditionExpr, buildTimeConditionExpr; by rewrite normalize_time).
    case_bool_decide as Em.
    + subst m. rewrite !andb_true_iff, negb_true_iff in Hc. destruct Hc as [[Hv Hrs] Hre].
      destruct v; [|done]. rewrite Hb by done. unfold time_condition_text.
      pose proof (numeric_literal_numeral rs Hrs) as [_ Hrs'%numeral_no_spaces].
      pose proof (numeric_literal_numeral re Hre) as [_ Hre'%numeral_no_spaces].
      rewrite !trim_no_spaces, Hrs, Hre by done.
      change (bool_decide (MATCH_RANGE = MATCH_RANGE)) with true. cbn [negb orb].
      pose proof (time_range_printed f tz Hf Hname rs re Hrs Hre) as E.
      unfold range_text in E. rewrite <- !app_assoc. exact E.
    + rewrite !andb_true_iff, bool_decide_eq_true, !negb_true_iff in Hc.
      destruct Hc as [[[Hm Hv] Hrs] Hre]. destruct rs, re; try done.
      rewrite Hb; [|rewrite !elem_of_cons in Hm; by destruct Hm as [->|[->|[->|[]%elem_of_nil]]]].
      unfold time_condition_text. rewrite bool_decide_eq_false_2 by done.
      pose proof (numeric_literal_numeral v Hv) as [_ Hv'%numeral_no_spaces].
      rewrite trim_no_spaces, Hv by done. cbn [negb].
      pose proof (time_compare_printed f tz Hf Hname m v Hm Hv) as E. rewrite <- !app_assoc. exact E.
Qed.

(** *** Conditions that do not survive *)

Lemma compare_op_facts m :
  is_compare_mode m = true →
  ∃ op, compare_op m = op ∧ starts_with $") !" ($") " ++ op) = false ∧ starts_with $") =" ($") " ++ op) = false
    ∧ (2 < length ($") " ++ op))%nat ∧ scan 38 (Some (0, false)) ($" " ++ op ++ $" ") = Some (0, true)
    ∧ offers_mode SOURCE_PARAM m = true ∧ bool_decide (m = MATCH_EXISTS) = false
    ∧ bool_decide (m = MATCH_CONTAINS) = false ∧ no_parens op = true ∧ no_bar op = true.
Proof.
  unfold is_compare_mode. rewrite bool_decide_eq_true, !elem_of_cons.
  intros [->|[->|[->|[->|[]%elem_of_nil]]]]; eexists;
    (split; [vm_compute; reflexivity|]);
    (split_and!; [done|done|vm_compute; lia|done..]).
Qed.

(** A search or a comparison in a parameter. *)
Definition lost (c : RequestCondition) : bool :=
  match c with
  | ParamHeaderCondition Param p m v =>
    name_ok p && ((bool_decide (m = MATCH_CONTAINS) && value_ok v) || (is_compare_mode m && is_numeric_literal v))
  | _ => false
  end.

Lemma lost_not_faithful c : lost c = true → faithful c = false.
Proof.
  destruct c as [[] p m v|]; try done. unfold lost, is_compare_mode. cbn [faithful]. intros [_ H]%andb_true_iff.
  apply andb_false_iff. right. apply orb_true_iff in H as [[->%bool_decide_eq_true _]%andb_true_iff|[Hm%bool_decide_eq_true _]%andb_true_iff]; [done|].
  rewrite !elem_of_cons in Hm. by destruct Hm as [->|[->|[->|[->|[]%elem_of_nil]]]].
Qed.

(** A piece of the text of conditions between two separators. *)
Record piece (w : jsstr) : Prop := {
  piece_ne : w ≠ [];
  piece_trim : trim w = w;
  piece_quiet : quiet_piece 38 w;
  piece_balanced : balanced_from 0 w = true
}.

Lemma printed_piece c e : printed c e → piece e.
Proof. by intros []. Qed.

(** The second half of such a condition is a piece of its own, and no condition. *)
Lemma lost_halves p m v : lost (ParamHeaderCondition Param p m v) = true → name_text p ∧
  ∃ second, piece second ∧ tryParseRequestCondition second = Normal None ∧
    includes $" || " (buildRequestConditionExpr (ParamHeaderCondition Param p m v)) = false ∧
    buildRequestConditionExpr (ParamHeaderCondition Param p m v) =
      join $" && " [source_text Param ++ $"(" ++ quote p ++ $")" ++ $" != nil"; second].
Proof.
  unfold lost, name_ok. rewrite !andb_true_iff, bool_decide_eq_true.
  intros [[[Htp Hn] Ht] Hv]. assert (name_text p) as Hp by (split; [by apply truthy_ne|done]). split; [done|].
  apply orb_true_iff in Hv as [Hv|Hv]; apply andb_true_iff in Hv as [Hm Hv].
  - apply bool_decide_eq_true in Hm as ->. destruct (has_text_facts p Hp Param v Hv) as (Hq & Hb & Htr & Hi).
    exists ($"has(" ++ (source_text Param ++ $"(" ++ quote p ++ $")") ++ $", " ++ quote v ++ $")").
    split; [split; [done|exact Htr|exact Hq|exact Hb]|]. split; [apply has_param_fails|].
    unfold value_ok in Hv. rewrite !andb_true_iff, negb_true_iff, bool_decide_eq_true in Hv. destruct Hv as [[[_ Htv] _] Hbars].
    assert (buildRequestConditionExpr (ParamHeaderCondition Param p MATCH_CONTAINS v) =
      ($"param(" ++ quote p ++ $") != nil && has(param(" ++ quote p ++ $"), ") ++ quote v ++ $")") as E.
    { unfold buildRequestConditionExpr. rewrite normalize_plain by done. unfold plain_condition_text, buildExprLiteral.
      rewrite Ht, Htp, Htv. cbn [negb]. rewrite <- !app_assoc. reflexivity. }
    rewrite E. split; [apply includes_quoted; [by rewrite !no_bar_app, quote_no_bar|done|done]|].
    cbn [join]. rewrite <- !app_assoc. reflexivity.
  - destruct (compare_op_facts m Hm) as (op & Eop & O1 & O2 & O3 & O4 & O5 & O6 & O7 & O8 & O9).
    pose proof (numeric_literal_numeral v Hv) as Hvn. pose proof Hvn as [_ Hvs].
    exists (source_text Param ++ $"(" ++ quote p ++ $")" ++ $" " ++ op ++ $" " ++ v).
    pose proof (numeral_no_parens v Hvs) as Hvp. pose proof (numeral_no_bar v Hvs) as Hvb. split; [split|].
    + done.
    + apply trim_solid; [done|]. rewrite !app_assoc. apply last_solid_app. by apply numeral_last_solid.
    + apply call_quiet; [done..|by apply quoted_balanced|]. rewrite !app_assoc, scan_app, <- app_assoc, O4. by apply numeral_scan.
    + rewrite call_balanced by (try done; by apply quote_no_parens). rewrite !balanced_no_parens by done.
      by rewrite <- (app_nil_r v), balanced_no_parens.
    + assert (buildRequestConditionExpr (ParamHeaderCondition Param p m v) =
        $"param(" ++ quote p ++ $") != nil && param(" ++ quote p ++ $") " ++ op ++ $" " ++ v) as E.
      { unfold buildRequestConditionExpr. rewrite normalize_plain by done. unfold plain_condition_text.
        rewrite Ht, Htp, O6, O7, Hm, Eop. cbn [negb source_text]. rewrite trim_no_spaces, Hv by by apply numeral_no_spaces.
        cbn [negb]. rewrite <- !app_assoc. reflexivity. }
      rewrite E. split; [|split].
      * pose proof (bare_compare_fails p Hp ($") " ++ op) ($" " ++ v) O1 O2 O3) as Eb. rewrite <- !app_assoc in Eb. exact Eb.
      * apply includes_no_bar. by rewrite !no_bar_app, !quote_no_bar, O9, Hvb.
      * cbn [join]. rewrite <- !app_assoc. reflexivity.
Qed.

(** ** Groups *)

Lemma balanced_join sep ws n t :
  no_parens sep = true → Forall (λ w, balanced_from 0 w = true) ws →
  balanced_from n (join sep ws ++ t) = balanced_from n t.
Proof.
  intros Hsep Hws. induction Hws as [|w ws Hw Hws IH]; [done|]. destruct ws as [|w2 ws].
  - by apply (balanced_app 0 n).
  - change (join sep (w :: w2 :: ws)) with (w ++ sep ++ join sep (w2 :: ws)).
    rewrite <- !app_assoc. rewrite (balanced_app 0 n) by done. by rewrite balanced_no_parens.
Qed.

Definition written (c : RequestCondition) : bool := faithful c || lost c.

(** How the text of a condition is split, and what the parser makes of it. *)
Definition pieces (c : RequestCondition) (t : jsstr) (ws : list jsstr) : Prop :=
  t = join $" && " ws ∧ ws ≠ [] ∧ Forall piece ws ∧
  ∀ rest, parse_conditions (ws ++ rest) =
    if lost c then Normal None else let? others := parse_conditions rest in Normal ((λ cs, c :: cs) <$> others).

Lemma one_piece c w : lost c = false → piece w → tryParseRequestCondition w = Normal (Some c) → pieces c w [w].
Proof.
  intros Hl Hw Hp. split; [done|]. split; [done|]. split; [by apply Forall_singleton|]. intros rest. rewrite Hl. cbn [app parse_conditions].
  rewrite (piece_trim w Hw), Hp. done.
Qed.

(** The text of a condition, alone and between others. *)
Lemma written_pieces c : written c = true →
  let e := buildRequestConditionExpr c in
  e ≠ [] ∧ (∃ ws, pieces c e ws) ∧ ∃ ws, pieces c (if includes $" || " e then $"(" ++ e ++ $")" else e) ws.
Proof.
  unfold written. destruct (lost c) eqn:El.
  - intros _. destruct c as [[] p m v|]; try done. destruct (lost_halves p m v El) as (Hp & second & Hs & Hf & Hi & E).
    cbn zeta. rewrite Hi, E.
    pose proof (exists_printed p Hp Param) as Hfirst. set (first := source_text Param ++ $"(" ++ quote p ++ $")" ++ $" != nil") in *.
    assert (pieces (ParamHeaderCondition Param p m v) (join $" && " [first; second]) [first; second]) as Hw.
    { split; [done|]. split; [done|]. split; [repeat (apply Forall_cons_2 || apply Forall_nil_2); [by eapply printed_piece|done]|].
      intros rest. rewrite El. cbn [app parse_conditions]. destruct Hfirst as [_ F2 F3 _ _ _ _].
      rewrite F2, F3, (piece_trim _ Hs). cbn [bind_completion]. by rewrite Hf. }
    split; [by subst first|]. split; [by eexists|by eexists].
  - rewrite orb_false_r. intros Hf%faithful_printed. pose proof Hf as [H1 H2 H3 H4 H5 H6 H7]. cbn zeta. split; [done|].
    split; [exists [buildRequestConditionExpr c]; apply one_piece; [done|by eapply printed_piece|done]|].
    rewrite H6. destruct (is_range c) eqn:Er; [|exists [buildRequestConditionExpr c]; apply one_piece; [done|by eapply printed_piece|done]].
    exists [$"(" ++ buildRequestConditionExpr c ++ $")"]. apply one_piece; [done| |by apply H4]. split.
    + done.
    + apply trim_solid; [done|]. rewrite app_assoc. by apply last_solid_app.
    + unfold quiet_piece. rewrite <- (app_nil_r $")"). by rewrite scan_parens.
    + change ($"(") with [40]. change ($")") with [41]. cbn [app balanced_from].
      change (40 =? 40) with true. cbn iota. by rewrite (balanced_app 0 1).
Qed.

Lemma join_flat sep (a b : list jsstr) : a ≠ [] → b ≠ [] → join sep (a ++ b) = join sep a ++ sep ++ join sep b.
Proof.
  intros Ha Hb. induction a as [|w a IH]; [done|]. destruct a as [|w2 a].
  - by destruct b.
  - change (join sep ((w :: w2 :: a) ++ b)) with (w ++ sep ++ join sep ((w2 :: a) ++ b)). rewrite IH by done.
    change (join sep (w :: w2 :: a)) with (w ++ sep ++ join sep (w2 :: a)). by rewrite <- !app_assoc.
Qed.

Lemma pieces_conditions cs ts : cs ≠ [] → Forall2 (λ c t, ∃ ws, pieces c t ws) cs ts →
  ∃ ws, join $" && " ts = join $" && " ws ∧ ws ≠ [] ∧ Forall piece ws ∧
    parse_conditions ws = Normal (if existsb lost cs then None else Some cs).
Proof.
  intros Hne H. induction H as [|c t cs ts (ws & -> & Hn & Hp & Hparse) H IH]; [done|]. destruct cs as [|c2 cs].
  - apply Forall2_nil_inv_l in H as ->. exists ws. split; [done|]. split; [done|]. split; [done|].
    rewrite <- (app_nil_r ws), Hparse. cbn [existsb]. by destruct (lost c).
  - destruct IH as (ws' & E & Hn' & Hp' & Hparse'); [done|]. exists (ws ++ ws'). split_and!.
    + destruct ts as [|t2 ts]; [by apply Forall2_nil_inv_r in H|].
      change (join $" && " (?a :: t2 :: ts)) with (a ++ $" && " ++ join $" && " (t2 :: ts)). by rewrite E, join_flat.
    + by destruct ws.
    + by apply Forall_app.
    + rewrite Hparse, Hparse'. cbn [existsb]. destruct (lost c); [done|]. cbn [bind_completion orb]. by destruct (lost c2 || existsb lost cs).
Qed.

(** What the parser makes of the conditions of a group. *)
Lemma written_conditions cs :
  cs ≠ [] → forallb written cs = true →
  let es := List.filter truthy (buildRequestConditionExpr <$> cs) in
  es ≠ [] ∧ combine_conditions es ≠ [] ∧ balanced_from 0 (combine_conditions es) = true ∧
  tryParseRequestConditions (combine_conditions es) = Normal (if existsb lost cs then None else Some cs).
Proof.
  intros Hne Hw. rewrite forallb_forall in Hw. cbn zeta.
  assert (Forall (λ c, written c = true) cs) as Hall by (apply Forall_forall; intros c Hc; by apply Hw, list_elem_of_In).
  rewrite filter_truthy by (apply Forall_fmap; eapply Forall_impl; [exact Hall|]; intros c Hc; apply written_pieces, Hc).
  split; [by destruct cs|].
  assert (∃ ts, combine_conditions (buildRequestConditionExpr <$> cs) = join $" && " ts ∧ Forall2 (λ c t, ∃ ws, pieces c t ws) cs ts)
    as (ts & -> & Hts).
  { destruct cs as [|c1 [|c2 cs]]; [done| |].
    - exists [buildRequestConditionExpr c1]. split; [done|]. apply Forall_cons in Hall as [Hall _]. constructor; [exact (proj1 (proj2 (written_pieces c1 Hall)))|constructor].
    - eexists. split; [reflexivity|]. apply Forall2_fmap_r, Forall2_fmap_r, Forall_Forall2_diag.
      eapply Forall_impl; [exact Hall|]. intros c Hc. exact (proj2 (proj2 (written_pieces c Hc))). }
  destruct (pieces_conditions cs ts Hne Hts) as (ws & -> & Hwne & Hp & Hparse). split_and!.
  - destruct ws as [|w ws]; [done|]. apply Forall_cons in Hp as [Hp _]. apply (join_nonempty _ _ w); [by left|by apply piece_ne].
  - rewrite <- (app_nil_r (join _ _)), balanced_join; [done|done|]. eapply Forall_impl; [exact Hp|]. by intros w [].
  - unfold tryParseRequestConditions, splitTopLevelAnd. change ($" && ") with (32 :: 38 :: [38; 32]).
    rewrite split_top_join; [|done|eapply Forall_impl; [exact Hp|]; by intros w []].
    rewrite filter_truthy by (eapply Forall_impl; [exact Hp|]; by intros w []). rewrite Hparse. cbn [bind_completion].
    destruct (existsb lost cs); [done|]. by destruct cs.
Qed.

(** A group the editor writes out, and one it also reads back. *)
Definition written_group (g : RequestRuleGroup) : bool :=
  is_numeric_literal (multiplier g) && negb (bool_decide (conditions g = []))
  && forallb written (conditions g)
  && bool_decide (conditionText g = None) && bool_decide (matched g = None).

Definition faithful_group (g : RequestRuleGroup) : bool :=
  is_numeric_literal (multiplier g) && negb (bool_decide (conditions g = []))
  && forallb faithful (conditions g)
  && bool_decide (conditionText g = None) && bool_decide (matched g = None).

Lemma faithful_written g : faithful_group g = true → written_group g = true ∧ existsb lost (conditions g) = false.
Proof.
  unfold faithful_group, written_group. rewrite !andb_true_iff. intros [[[[H1 H2] Hf] H4] H5]. rewrite forallb_forall in *. split.
  - split_and!; try done. intros c Hc. unfold written. by rewrite Hf.
  - apply not_true_iff_false. intros (c & Hc & Hl)%existsb_exists. apply lost_not_faithful in Hl. rewrite Hf in Hl by done. done.
Qed.

(** The pattern of a factor takes the last question mark. *)
Lemma factor_match C m :
  C ≠ [] → numeral_text m →
  ∃ st, match_whole factor_pattern ($"(" ++ C ++ $" ? " ++ m ++ $" : 1)") = Some st ∧
        cap st 1 = C ∧ cap st 2 = m.
Proof.
  intros HC [Hm Hmn].
  eexists (MState _ [] [(2%nat, m); (1%nat, C)]). split; [|done].
  unfold factor_pattern. re_start. re_lit. rewrite rmatch_seq.
  rewrite <- (app_nil_r ($" ? " ++ m ++ $" : 1)")).
  apply group_plus_backtrack; [done| |done| |].
  - apply forallb_forall. done.
  - intros u1 u2 b' cs' Eu Hu1. rewrite rmatch_seq. apply rmatch_lit_fail. cbn [rest]. rewrite app_nil_r.
    destruct (starts_with $" ? " u2) eqn:E; [exfalso|done].
    change ($" ? ") with [32; 63; 32] in *.
    destruct u2 as [|a [|b u2]]; cbn [starts_with] in E; rewrite ?andb_false_r in E; try done.
    rewrite !andb_true_iff, !Z.eqb_eq in E. destruct E as (<- & <- & _).
    cbn [app] in Eu. destruct u1 as [|x u1]; [done|]. cbn [app] in Eu. injection Eu as <- Eu.
    destruct u1 as [|y u1]; [discriminate|]. cbn [app] in Eu. injection Eu as <- Eu.
    assert (63 ∈ 32 :: m ++ $" : 1)") as H63 by (rewrite Eu; rewrite !elem_of_app, !elem_of_cons; auto).
    rewrite elem_of_cons, elem_of_app in H63. destruct H63 as [H63|[H63|H63]]; [done| |].
    + rewrite forallb_forall in Hmn. apply list_elem_of_In in H63. by specialize (Hmn _ H63).
    + change ($" : 1)") with [32; 58; 32; 49; 41] in H63. rewrite !elem_of_cons in H63.
      destruct H63 as [|[|[|[|[|[]%elem_of_nil]]]]]; done.
  - rewrite !app_nil_r. re_lit. rewrite rmatch_seq, numeral_step; [|done..|].
    + rewrite <- (app_nil_r ($" : 1)")). re_lit. rewrite rmatch_eps, rmatch_end. reflexivity.
    + intros b' c s' cs' Hc. by apply (lit_rejects _ numeral_char).
Qed.

(** The text of a group, and what the parser makes of it. *)
Lemma written_factor g : written_group g = true →
  let t := buildRuleGroupFactor g in
  head_solid t ∧ last_solid t ∧ quiet_piece 42 t ∧
  tryParseRuleGroupFactor t = Normal (if existsb lost (conditions g) then None else Some g).
Proof.
  unfold written_group. rewrite !andb_true_iff, negb_true_iff, bool_decide_eq_false, !bool_decide_eq_true.
  intros [[[[Hm Hne] Hf] Hct] Hmt]. destruct (written_conditions _ Hne Hf) as (Hes & HC & Hb & Hparse).
  pose proof (numeric_literal_numeral _ Hm) as Hmn. pose proof Hmn as [_ Hmc]. cbn zeta.
  unfold buildRuleGroupFactor. rewrite trim_no_spaces, Hm by by apply numeral_no_spaces. cbn [negb].
  set (C := combine_conditions _) in *. destruct (List.filter truthy _) as [|e es]; [done|]. cbn [length Nat.eqb]. split_and!.
  - done.
  - rewrite !app_assoc. by apply last_solid_app.
  - unfold quiet_piece. replace ($"(" ++ C ++ $" ? " ++ multiplier g ++ $" : 1)")
      with ($"(" ++ (C ++ $" ? " ++ multiplier g ++ $" : 1") ++ $")" ++ []) by (rewrite app_nil_r, <- !app_assoc; reflexivity).
    rewrite scan_parens; [done..|]. rewrite (balanced_app 0 0) by done. by rewrite !balanced_no_parens by (done || by apply numeral_no_parens).
  - unfold tryParseRuleGroupFactor. destruct (factor_match C (multiplier g) HC Hmn) as (st & -> & -> & ->).
    rewrite Hparse. cbn [bind_completion]. destruct (existsb lost (conditions g)); [done|].
    destruct g as [cs m ct mt]. cbn in *. by subst.
Qed.

(** What the text [t] of the group [g] satisfies. *)
Record factor (g : RequestRuleGroup) (t : jsstr) : Prop := {
  factor_head : head_solid t;
  factor_last : last_solid t;
  factor_parse : tryParseRuleGroupFactor t = Normal (Some g);
  factor_quiet : quiet_piece 42 t
}.

Lemma factor_ne g t : factor g t → t ≠ [].
Proof. intros [H _ _ _] ->. done. Qed.

Lemma factor_trim g t : factor g t → trim t = t.
Proof. intros []. by apply trim_solid. Qed.

Lemma faithful_factor g : faithful_group g = true → factor g (buildRuleGroupFactor g).
Proof.
  intros [Hg Hl]%faithful_written. destruct (written_factor g Hg) as (H1 & H2 & H3 & H4). rewrite Hl in H4. by split.
Qed.

Lemma parse_groups_factors gs ts : Forall2 factor gs ts → parse_groups ts = Normal (Some gs).
Proof.
  induction 1 as [|g t gs ts [_ _ Hp _] _ IH]; [done|]. cbn [parse_groups].
  rewrite Hp. cbn [bind_completion]. by rewrite IH.
Qed.

(** The text of the factors is split where it was joined. *)
Lemma split_factors ts :
  ts ≠ [] → Forall (λ t, quiet_piece 42 t ∧ trim t = t ∧ t ≠ []) ts →
  splitTopLevelMultiply (join $" * " ts) = ts.
Proof.
  intros Hne Hts. unfold splitTopLevelMultiply. change ($" * ") with (32 :: 42 :: [32]).
  rewrite split_top_join; [|done|].
  - apply filter_truthy. eapply Forall_impl; [exact Hts|]. by intros t (_ & _ & ?).
  - eapply Forall_impl; [exact Hts|]. by intros t (? & ? & _).
Qed.

Lemma join_solid sep ts :
  ts ≠ [] → Forall (λ t, head_solid t ∧ last_solid t) ts → head_solid (join sep ts) ∧ last_solid (join sep ts).
Proof.
  intros Hne Hts. induction Hts as [|t ts [Hh Hl] Hts IH]; [done|]. destruct ts as [|t2 ts]; [done|].
  change (join sep (t :: t2 :: ts)) with (t ++ sep ++ join sep (t2 :: ts)).
  split; [by apply head_solid_app|]. rewrite app_assoc. apply last_solid_app. by apply IH.
Qed.

Lemma factors_text gs :
  forallb faithful_group gs = true →
  ∃ ts, Forall2 factor gs ts ∧ buildRequestRuleExpr gs = join $" * " ts.
Proof.
  intros Hg. rewrite forallb_forall in Hg. exists (buildRuleGroupFactor <$> gs).
  assert (Forall2 factor gs (buildRuleGroupFactor <$> gs)) as Hf.
  { apply Forall2_fmap_r, Forall_Forall2_diag, Forall_forall. intros g Hin.
    apply faithful_factor, Hg. by apply list_elem_of_In. }
  split; [done|]. unfold buildRequestRuleExpr. rewrite filter_truthy; [done|].
  clear -Hf. induction Hf as [|g t gs ts Ht _ IH]; constructor; [by eapply factor_ne|done].
Qed.

Lemma factors_facts gs ts :
  Forall2 factor gs ts →
  Forall (λ t, quiet_piece 42 t ∧ trim t = t ∧ t ≠ []) ts ∧ Forall (λ t, head_solid t ∧ last_solid t) ts.
Proof.
  induction 1 as [|g t gs ts Ht _ [IH1 IH2]]; [done|]. pose proof (factor_trim g t Ht).
  pose proof (factor_ne g t Ht). destruct Ht. by split; constructor.
Qed.

Lemma rules_parse (groups : list RequestRuleGroup) :
  forallb faithful_group groups = true →
  tryParseRequestRuleExpr (buildRequestRuleExpr groups) = Normal (Some groups).
Proof.
  intros Hg. destruct (factors_text groups Hg) as (ts & Hts & ->).
  destruct groups as [|g gs]; [by apply Forall2_nil_inv_l in Hts as ->|].
  assert (ts ≠ []) as Hne by (intros ->; by apply Forall2_nil_inv_r in Hts).
  destruct (factors_facts _ _ Hts) as [Hq Hs]. destruct (join_solid $" * " ts Hne Hs) as [Hh Hl].
  unfold tryParseRequestRuleExpr. rewrite trim_solid by done.
  rewrite (proj2 (truthy_ne (join $" * " ts))) by (intros E; by rewrite E in Hh).
  cbn [negb]. rewrite split_factors by done. by apply parse_groups_factors.
Qed.

(** C5: rules survive their text.  Groups with a numeric multiplier and at least
    one condition, where each condition is a time function in a named zone
    (compared with a numeral or an overnight range of numerals), the presence of a
    header or parameter, a substring of a header, or an equality, come back from
    [buildRequestRuleExpr] exactly as they were: conditions, modes, values and
    multipliers, in order.  Names and zones are free of quotes, backslashes,
    parentheses, bars and surrogates; a value is any trimmed text whose
    parentheses match, without bars between spaces, and for an equality without
    an ampersand after a space outside parentheses. *)
Theorem request_rules_roundtrip (groups : list RequestRuleGroup) :
  forallb faithful_group groups = true →
  tryParseRequestRuleExpr (buildRequestRuleExpr groups) = Normal (Some groups).
Proof. apply rules_parse. Qed.

(** Rules with parentheses, quotes, a backslash and a bar in their values. *)
Definition rich_groups : list RequestRuleGroup :=
  plain_group [ParamHeaderCondition Header $"x-model" MATCH_EQ $"gpt (beta)";
               ParamHeaderCondition Header $"x-mix" MATCH_CONTAINS (dq "a|b 'c' \ d")] $"1.5" :: sample_groups.

Lemma request_rules_roundtrip_witness :
  forallb faithful_group rich_groups = true ∧
  tryParseRequestRuleExpr (buildRequestRuleExpr rich_groups) = Normal (Some rich_groups).
Proof.
  split; [vm_compute; reflexivity|].
  apply (request_rules_roundtrip rich_groups). vm_compute. reflexivity.
Defined.

(** ** Rules that do not survive *)

Lemma parse_groups_written gs : forallb written_group gs = true →
  parse_groups (buildRuleGroupFactor <$> gs) = Normal (if existsb (λ g, existsb lost (conditions g)) gs then None else Some gs).
Proof.
  induction gs as [|g gs IH]; [done|]. cbn [forallb]. intros [Hg Hgs]%andb_true_iff.
  destruct (written_factor g Hg) as (_ & _ & _ & Hp). cbn [fmap list_fmap parse_groups existsb]. rewrite Hp. cbn [bind_completion].
  destruct (existsb lost (conditions g)); [done|]. change (list_fmap _ _ buildRuleGroupFactor gs) with (buildRuleGroupFactor <$> gs).
  rewrite IH by done. cbn [bind_completion orb]. by destruct (existsb _ gs).
Qed.

(** C38: rules on parameter values are lost.  Among rules whose conditions are
    those that survive, or comparisons with and searches for a substring in a request
    parameter (with a name free of quotes, backslashes, parentheses and bars),
    one condition of the second kind makes the text [buildRequestRuleExpr]
    writes unreadable, for all groups: the conjunction such a condition itself
    contains is split as if it separated two conditions, and the second half is
    no condition.  The patterns written for it are never reached. *)
Theorem param_rules_lost (groups : list RequestRuleGroup) :
  forallb written_group groups = true → existsb (λ g, existsb lost (conditions g)) groups = true →
  tryParseRequestRuleExpr (buildRequestRuleExpr groups) = Normal None.
Proof.
  intros Hg Hl. pose proof Hg as Hg'. rewrite forallb_forall in Hg'.
  assert (Forall (λ t, (quiet_piece 42 t ∧ trim t = t ∧ t ≠ []) ∧ head_solid t ∧ last_solid t) (buildRuleGroupFactor <$> groups)) as Hts.
  { apply Forall_fmap, Forall_forall. intros g Hin. destruct (written_factor g) as (H1 & H2 & H3 & _); [by apply Hg', list_elem_of_In|].
    cbn. split_and!; try done; [by apply trim_solid|]. intros E. by rewrite E in H1. }
  assert (buildRuleGroupFactor <$> groups ≠ []) as Hne by by destruct groups.
  assert (buildRequestRuleExpr groups = join $" * " (buildRuleGroupFactor <$> groups)) as ->.
  { unfold buildRequestRuleExpr. rewrite filter_truthy; [done|]. eapply Forall_impl; [exact Hts|]. by intros t [(_ & _ & ?) _]. }
  assert (Forall (λ t, head_solid t ∧ last_solid t) (buildRuleGroupFactor <$> groups)) as Hs by (eapply Forall_impl; [exact Hts|]; by intros t []).
  assert (Forall (λ t, quiet_piece 42 t ∧ trim t = t ∧ t ≠ []) (buildRuleGroupFactor <$> groups)) as Hq
    by (eapply Forall_impl; [exact Hts|]; by intros t []).
  destruct (join_solid $" * " _ Hne Hs) as [Hh Hls]. unfold tryParseRequestRuleExpr. rewrite trim_solid by done.
  rewrite (proj2 (truthy_ne (join $" * " _))) by (intros E; by rewrite E in Hh). cbn [negb].
  rewrite split_factors by done. rewrite parse_groups_written by done. by rewrite Hl.
Qed.

Lemma param_rules_lost_witness :
  buildRequestRuleExpr [plain_group [ParamHeaderCondition Param $"max_tokens" MATCH_GT $"4096"] $"2"]
    = dq "(param('max_tokens') != nil && param('max_tokens') > 4096 ? 2 : 1)" ∧
  tryParseRequestRuleExpr
    (buildRequestRuleExpr [plain_group [ParamHeaderCondition Param $"max_tokens" MATCH_GT $"4096"] $"2"])
    = Normal None.
Proof.
  split; [vm_compute; reflexivity|].
  apply (param_rules_lost [plain_group [ParamHeaderCondition Param $"max_tokens" MATCH_GT $"4096"] $"2"]); vm_compute; reflexivity.
Defined.

(** ** Separating the price from the rules *)

(** A pattern that ends with a literal matches only texts that do. *)
Lemma match_whole_ends r w s m :
  within (λ _, true) r → match_whole (RSeq r (RSeq (rlit w) REps)) s = Some m → ends_with w s = true.
Proof.
  intros Hr H. unfold match_whole in H. rewrite !rmatch_seq in H.
  apply (rmatch_within _ r Hr) in H as ([b t cs] & u & H & E & _). cbn [rest start_state] in E.
  destruct (starts_with w t) eqn:Es.
  2:{ by rewrite rmatch_seq, rmatch_lit_fail in H. }
  assert (∃ t', t = w ++ t') as [t' ->].
  { clear -Es. revert t Es. induction w as [|c w IH]; intros t Es; [by exists t|].
    destruct t as [|d t]; [done|]. cbn [starts_with] in Es. apply andb_true_iff in Es as [->%Z.eqb_eq Es].
    apply IH in Es as [t' ->]. by exists t'. }
  rewrite rmatch_seq, rmatch_lit, rmatch_eps, rmatch_end in H. destruct t'; [|done].
  rewrite E, app_nil_r. unfold ends_with. rewrite reverse_app. apply starts_with_app.
Qed.

Lemma factor_needs_suffix base :
  ends_with $" : 1" base = false → tryParseRuleGroupFactor ($"(" ++ base ++ $")") = Normal None.
Proof.
  intros Hb. unfold tryParseRuleGroupFactor. destruct (match_whole factor_pattern _) as [m|] eqn:E; [exfalso|done].
  pose proof (match_whole_ends
    (RSeq (rlit $"(") (RSeq (RGroup 1 (RPlus (RSet (λ _, true)))) (RSeq (rlit $" ? ") (numeral_group 2))))
    $" : 1)" ($"(" ++ base ++ $")") m) as H.
  assert (ends_with $" : 1)" ($"(" ++ base ++ $")") = true) as Hend.
  { apply H; [|exact E]. vm_compute. repeat split; done. }
  unfold ends_with in *. rewrite reverse_app in Hend.
  rewrite reverse_app in Hend. change (reverse $" : 1)") with (41 :: reverse $" : 1") in Hend.
  change (reverse $")") with [41] in Hend. cbn [app starts_with] in Hend. change (41 =? 41) with true in Hend.
  cbn [andb] in Hend. change (reverse $"(") with [40] in Hend.
  clear -Hb Hend. revert Hb Hend. generalize (reverse base) as r. change (reverse $" : 1") with [49; 32; 58; 32].
  intros r. destruct r as [|r1 [|r2 [|r3 [|r4 r]]]]; cbn [starts_with app];
    rewrite ?andb_true_iff, ?andb_false_iff, ?Z.eqb_eq, ?Z.eqb_neq; intuition congruence.
Qed.

Lemma close_at_end_inner s n d :
  1 ≤ d → balanced_from n s = true →
  parens_close_at_end (d + Z.of_nat n) (s ++ [41]) = (d =? 1).
Proof.
  intros Hd. revert n. induction s as [|c s IH]; intros n Hb; cbn [balanced_from] in Hb.
  - destruct n; [|done]. cbn [app parens_close_at_end]. change (41 =? 40) with false.
    change (41 =? 41) with true. cbn iota. rewrite Z.add_0_r, andb_false_r.
    destruct (Z.eqb_spec (d - 1) 0), (Z.eqb_spec d 1); try done; lia.
  - cbn [app parens_close_at_end]. destruct (Z.eqb_spec c 40) as [-> |].
    + change (40 =? 41) with false. rewrite (proj2 (Z.eqb_neq _ 0)) by lia. cbn [andb].
      replace (d + Z.of_nat n + 1) with (d + Z.of_nat (S n)) by lia. by apply IH.
    + destruct (Z.eqb_spec c 41) as [-> |]; [destruct n as [|n]; [done|]|];
        rewrite (proj2 (Z.eqb_neq _ 0)) by lia; cbn [andb]; [|by apply IH].
      replace (d + Z.of_nat (S n) - 1) with (d + Z.of_nat n) by lia. by apply IH.
Qed.

Lemma wrapped_full_parens base : balanced_from 0 base = true → hasFullOuterParens ($"(" ++ base ++ $")") = true.
Proof.
  intros Hb. unfold hasFullOuterParens. apply andb_true_iff. split.
  - apply andb_true_iff. split; [done|]. unfold ends_with. rewrite !reverse_app. done.
  - change ($"(") with [40]. change ($")") with [41]. cbn [app parens_close_at_end].
    change (40 =? 40) with true. change (40 =? 41) with false. cbn iota. change (0 + 1 =? 0) with false.
    cbn [andb]. exact (close_at_end_inner base 0 1 ltac:(lia) Hb).
Qed.

Lemma unwrap_wrapped base :
  balanced_from 0 base = true → trim base = base → hasFullOuterParens base = false →
  unwrapOuterParens ($"(" ++ base ++ $")") = base.
Proof.
  intros Hb Ht Hn. unfold unwrapOuterParens.
  rewrite trim_solid; [|done|rewrite app_assoc; by apply last_solid_app].
  rewrite !length_app. change (length $"(") with 1%nat. change (length $")") with 1%nat.
  replace (1 + (length base + 1))%nat with (S (S (length base))) by lia.
  cbn [unwrap_loop]. rewrite wrapped_full_parens by done.
  unfold slice_inner. change (tail ($"(" ++ base ++ $")")) with (base ++ [41]).
  rewrite removelast_last, Ht. destruct (length base); cbn [unwrap_loop]; by rewrite Hn.
Qed.

(** What a price expression must satisfy to be told from the rules. *)
Definition price_expr (base : jsstr) : bool :=
  truthy base && bool_decide (trim base = base) && balanced_from 0 base
  && negb (hasFullOuterParens base) && negb (ends_with $" : 1" base).

Lemma factor_alone g t : factor g t → tryParseRequestRuleExpr t = Normal (Some [g]).
Proof.
  intros Ht. pose proof (factor_trim g t Ht) as Htrim. pose proof (factor_ne g t Ht) as Hne.
  unfold tryParseRequestRuleExpr. rewrite Htrim, (proj2 (truthy_ne t)) by done. cbn [negb].
  pose proof (split_factors [t]) as E. cbn [join] in E. rewrite E by (try done; destruct Ht; by repeat constructor).
  apply parse_groups_factors. by constructor.
Qed.

Lemma partition_factors gs ts :
  Forall2 factor gs ts → partition_parts ts = Normal (ts, []).
Proof.
  induction 1 as [|g t gs ts Ht _ IH]; [done|]. cbn [partition_parts].
  rewrite (factor_alone g t Ht). cbn [bind_completion]. by rewrite IH.
Qed.

Lemma split_combined (base : jsstr) (groups : list RequestRuleGroup) :
  price_expr base = true → forallb faithful_group groups = true → groups ≠ [] →
  splitBillingExprAndRequestRules (combineBillingExpr base (buildRequestRuleExpr groups)) =
    Normal {| billingExpr := base; requestRuleExpr := buildRequestRuleExpr groups |}.
Proof.
  unfold price_expr. rewrite !andb_true_iff, !negb_true_iff, bool_decide_eq_true.
  intros [[[[Hne Ht] Hb] Hn] He] Hg Hgs. destruct (factors_text groups Hg) as (ts & Hts & ->).
  assert (ts ≠ []) as Htne by (intros ->; by apply Forall2_nil_inv_r in Hts).
  destruct (factors_facts _ _ Hts) as [Hq Hs]. destruct (join_solid $" * " ts Htne Hs) as [Hh Hl].
  set (B := $"(" ++ base ++ $")").
  assert (last_solid B) as HBl by (subst B; rewrite app_assoc; by apply last_solid_app).
  assert (quiet_piece 42 B) as HBq
    by (unfold quiet_piece; subst B; rewrite <- (app_nil_r $")"); by rewrite scan_parens).
  assert (trim B = B) as HBt by by apply trim_solid.
  assert (combineBillingExpr base (join $" * " ts) = join $" * " (B :: ts)) as ->.
  { unfold combineBillingExpr. rewrite Ht, (trim_solid (join _ _)), Hne by done. cbn [negb].
    rewrite (proj2 (truthy_ne (join $" * " ts))) by (intros E; by rewrite E in Hh). cbn [negb].
    subst B. destruct ts as [|t ts]; [done|].
    change (join $" * " (?b :: t :: ts)) with (b ++ $" * " ++ join $" * " (t :: ts)).
    rewrite <- !app_assoc. reflexivity. }
  assert (Forall (λ t, head_solid t ∧ last_solid t) (B :: ts)) as Hs' by by constructor.
  destruct (join_solid $" * " (B :: ts) ltac:(done) Hs') as [Hh' Hl'].
  unfold splitBillingExprAndRequestRules. rewrite (trim_solid _ Hh' Hl').
  rewrite (proj2 (truthy_ne (join $" * " (B :: ts)))) by (intros E; by rewrite E in Hh'). cbn [negb].
  rewrite split_factors by (try done; by constructor).
  destruct (length (B :: ts) <=? 1)%nat eqn:El; [apply Nat.leb_le in El; destruct ts; [done|simpl in El; lia]|].
  assert (tryParseRequestRuleExpr B = Normal None) as HB.
  { unfold tryParseRequestRuleExpr. rewrite HBt. change (truthy B) with true. cbn [negb].
    pose proof (split_factors [B]) as E. cbn [join] in E. rewrite E by (try done; by repeat constructor).
    cbn [parse_groups]. subst B. by rewrite factor_needs_suffix. }
  cbn [partition_parts]. rewrite HB. cbn [bind_completion]. rewrite (partition_factors _ _ Hts).
  cbn [bind_completion fst snd]. destruct ts as [|t ts]; [done|].
  subst B. by rewrite unwrap_wrapped.
Qed.

(** The price and the rules are separated as they were joined.  A price
    expression with balanced parentheses (not one big parenthesis, and not
    itself of the shape of a rule) combined with the text of rules is split
    back into exactly that price and that text. *)
Theorem split_combine_roundtrip (base : jsstr) (groups : list RequestRuleGroup) :
  price_expr base = true → forallb faithful_group groups = true → groups ≠ [] →
  splitBillingExprAndRequestRules (combineBillingExpr base (buildRequestRuleExpr groups)) =
    Normal {| billingExpr := base; requestRuleExpr := buildRequestRuleExpr groups |}.
Proof. apply split_combined. Qed.

Lemma split_combine_roundtrip_witness :
  price_expr (dq "tier('base', p * 2.5 + c * 15)") = true ∧
  splitBillingExprAndRequestRules
    (combineBillingExpr (dq "tier('base', p * 2.5 + c * 15)") (buildRequestRuleExpr sample_groups)) =
    Normal {| billingExpr := dq "tier('base', p * 2.5 + c * 15)";
              requestRuleExpr := buildRequestRuleExpr sample_groups |}.
Proof.
  split; [vm_compute; reflexivity|].
  apply (split_combine_roundtrip (dq "tier('base', p * 2.5 + c * 15)") sample_groups);
    [vm_compute; reflexivity..|discriminate].
Defined.

(** ** Normalised conditions *)

(** A condition the editor can show: a known function, a time zone, and a mode
    among the options of its source. *)
Definition well_formed (c : RequestCondition) : bool :=
  match c with
  | ParamHeaderCondition s _ m _ => offers_mode (source_text s) m
  | TimeCondition f tz m _ _ _ => isTimeFunc (Some f) && truthy tz && offers_mode SOURCE_TIME m
  end.

Lemma valid_mode_offered source mode fallback :
  offers_mode source fallback = true → offers_mode source (valid_mode source mode fallback) = true.
Proof. intros Hf. unfold valid_mode. destruct mode as [m|]; [|done]. by destruct (offers_mode source m) eqn:E. Qed.

Lemma normalize_fixes c : well_formed c = true → normalizeCondition (Some (partial_of c)) = c.
Proof.
  destruct c as [s p m v|f tz m v rs re]; cbn [well_formed]; intros Hw; unfold normalizeCondition.
  - destruct s; cbn [mbind option_bind partial_of pc_source pc_path pc_mode pc_value];
      cbn [source_text] in *.
    + change (bool_decide (Some SOURCE_PARAM = Some SOURCE_TIME)) with false.
      change (bool_decide (Some SOURCE_PARAM = Some SOURCE_HEADER)) with false. cbn iota zeta.
      unfold valid_mode. cbn [source_text]. by rewrite Hw.
    + change (bool_decide (Some SOURCE_HEADER = Some SOURCE_TIME)) with false.
      change (bool_decide (Some SOURCE_HEADER = Some SOURCE_HEADER)) with true. cbn iota zeta.
      unfold valid_mode. cbn [source_text]. by rewrite Hw.
  - rewrite !andb_true_iff in Hw. destruct Hw as [[Hf Ht] Hm].
    cbn [mbind option_bind partial_of pc_source pc_timeFunc pc_timezone pc_mode pc_value pc_rangeStart pc_rangeEnd].
    rewrite bool_decide_eq_true_2, Hf by done. unfold valid_mode, str_or. rewrite Hm.
    change (default [] (Some ?x)) with x. by rewrite Ht.
Qed.

(** C34: normalising always gives a condition the editor can show.  Whatever is
    passed to it (a missing condition, missing fields, unknown functions or
    modes), [normalizeCondition] returns a well-formed condition, and it leaves
    exactly the well-formed conditions unchanged. *)
Theorem normalized_condition_well_formed (cond : option PartialCondition) (c : RequestCondition) :
  well_formed (normalizeCondition cond) = true ∧
  (normalizeCondition (Some (partial_of c)) = c ↔ well_formed c = true).
Proof.
  assert (∀ cond, well_formed (normalizeCondition cond) = true) as Hn.
  { clear. intros cond. unfold normalizeCondition. case_bool_decide; cbn [well_formed].
    - rewrite !andb_true_iff. split_and!; [|by unfold str_or; case_match|by apply valid_mode_offered].
      generalize (c ← cond; pc_timeFunc c). intros [f|]; [|done].
      destruct (isTimeFunc (Some f)) eqn:E; [exact E|done].
    - case_bool_decide; by apply valid_mode_offered. }
  split; [done|]. split; [|apply normalize_fixes]. intros <-. done.
Qed.
