(* ===== verification/TierExpr.v ===== *)
(** * The visual tier editor

    [src/web/src/features/pricing/lib/tier-expr.ts]: the editor of tiered
    prices holds a [VisualConfig] and stores the billing expression
    [generateExprFromVisualConfig] writes; [tryParseVisualConfig] reads an
    expression back into the editor, and gives up ([None]) when the expression
    is not one the editor could have written. *)

From S2P Require Import Prelude JsString JsNumber NumberText Regex OrderedMap BillingExpr.

(** ** The configuration *)

Inductive CacheMode := CACHE_MODE_TIMED | CACHE_MODE_GENERIC.

(** The bound of a condition: a number, or the text of an input field. *)
Inductive ConditionValue := CNumber (n : number) | CText (s : jsstr).

Record TierConditionInput := { ci_var : TierVar; ci_op : TierOp; ci_value : ConditionValue }.

(** [prices] holds the optional unit costs by field name. *)
Record VisualTier := {
  label : jsstr;
  vt_conditions : list TierConditionInput;
  input_unit_cost : number;
  output_unit_cost : number;
  cache_mode : CacheMode;
  prices : list (jsstr * number)
}.

Record PartialTier := {
  p_label : option jsstr;
  p_conditions : option (list TierConditionInput);
  p_input : option number;
  p_output : option number;
  p_cache_mode : option CacheMode;
  p_prices : list (jsstr * number)
}.

Record VisualConfig := { tiers : list VisualTier }.

Definition getTierCacheMode (tier : PartialTier) : CacheMode :=
  match p_cache_mode tier with
  | Some m => m
  | None =>
    if num_ltb (S754_zero false) (default nan (om_get $"cache_create_1h_unit_cost" (p_prices tier)))
    then CACHE_MODE_TIMED else CACHE_MODE_GENERIC
  end.

Definition normalizeVisualTier (tier : PartialTier) : VisualTier :=
  {| label := default [] (p_label tier);
     vt_conditions := default [] (p_conditions tier);
     input_unit_cost := default (S754_zero false) (p_input tier);
     output_unit_cost := default (S754_zero false) (p_output tier);
     cache_mode := getTierCacheMode tier;
     prices := (λ cv, (cv.1, num_or_zero (om_get cv.1 (p_prices tier)))) <$> BILLING_CACHE_VAR_MAP |}.

Definition partial_of_tier (t : VisualTier) : PartialTier :=
  {| p_label := Some (label t); p_conditions := Some (vt_conditions t);
     p_input := Some (input_unit_cost t); p_output := Some (output_unit_cost t);
     p_cache_mode := Some (cache_mode t); p_prices := prices t |}.

Definition createDefaultVisualConfig : VisualConfig :=
  {| tiers := [normalizeVisualTier
       {| p_label := Some $"base"; p_conditions := Some []; p_input := Some (S754_zero false);
          p_output := Some (S754_zero false); p_cache_mode := Some CACHE_MODE_GENERIC;
          p_prices := [] |}] |}.

Definition normalizeVisualConfig (config : option VisualConfig) : VisualConfig :=
  match config with
  | Some c =>
    match tiers c with
    | [] => createDefaultVisualConfig
    | ts => {| tiers := (λ t, normalizeVisualTier (partial_of_tier t)) <$> ts |}
    end
  | None => createDefaultVisualConfig
  end.

(** ** Writing the expression *)

Definition tierVar_text (v : TierVar) : jsstr :=
  match v with VarP => $"p" | VarC => $"c" | VarLen => $"len" end.
Definition tierOp_text (o : TierOp) : jsstr :=
  match o with OpLt => $"<" | OpLe => $"<=" | OpGt => $">" | OpGe => $">=" end.
Definition value_text_of (v : ConditionValue) : jsstr :=
  match v with CNumber n => number_text n | CText s => s end.

Definition has_value (c : TierConditionInput) : bool :=
  match ci_value c with CNumber _ => true | CText s => truthy s end.

Definition condition_text (c : TierConditionInput) : jsstr :=
  tierVar_text (ci_var c) ++ $" " ++ tierOp_text (ci_op c) ++ $" " ++ value_text_of (ci_value c).

Definition buildConditionStr (conditions : list TierConditionInput) : jsstr :=
  join $" && " (condition_text <$> List.filter has_value conditions).

Definition cost (n : number) : number := num_or_zero (Some n).

Definition extra_parts (t : VisualTier) : list jsstr :=
  omap (λ cv,
    let v := num_or_zero (om_get cv.1 (prices t)) in
    if num_truthy v then Some (cv.2 ++ $" * " ++ number_text v) else None) BILLING_CACHE_VAR_MAP.

Definition buildTierBodyExpr (t : VisualTier) : jsstr :=
  join $" + " ([$"p * " ++ number_text (cost (input_unit_cost t));
                $"c * " ++ number_text (cost (output_unit_cost t))] ++ extra_parts t).

Definition tier_text (lbl : jsstr) (t : VisualTier) : jsstr :=
  dq "tier('" ++ lbl ++ dq "', " ++ buildTierBodyExpr t ++ $")".

(** The parts of a configuration with several tiers; [i] is the index of the
    first of [ts]. *)
Fixpoint tier_parts (i : Z) (ts : list VisualTier) : list jsstr :=
  match ts with
  | [] => []
  | t :: ts' =>
    let body := tier_text (str_or (label t) ($"tier_" ++ string_of_Z (i + 1))) t in
    let cond := buildConditionStr (vt_conditions t) in
    (match ts' with
     | _ :: _ => if truthy cond then cond ++ $" ? " ++ body else body
     | [] => body
     end) :: tier_parts (i + 1) ts'
  end.

Definition generateExprFromVisualConfig (config : option VisualConfig) : jsstr :=
  match config with
  | None => $"p * 0 + c * 0"
  | Some c =>
    match tiers c with
    | [] => $"p * 0 + c * 0"
    | [t] =>
      let body := tier_text (str_or (label t) $"default") t in
      let cond := buildConditionStr (vt_conditions t) in
      if truthy cond then cond ++ $" ? " ++ body ++ $" : p * 0 + c * 0" else body
    | ts => join $" : " (tier_parts 0 ts)
    end
  end.

(** ** Reading an expression *)

(** The optional term of an extra variable, its coefficient group [i]. *)
Definition extra_pattern (i : nat) (v : jsstr) : regex :=
  ROpt (rseq [rspaces; rlit $"+"; rspaces; rlit v; rspaces; rlit $"*"; rspaces; numeral_group i]).

Fixpoint extra_patterns (i : nat) (vars : list jsstr) : list regex :=
  match vars with
  | [] => []
  | v :: vars' => extra_pattern i v :: extra_patterns (S i) vars'
  end.

Definition cacheVarNames : list jsstr := snd <$> BILLING_CACHE_VAR_MAP.

(** The price of a tier; its groups are numbered from [i]. *)
Definition bodyPat (i : nat) : list regex :=
  [rlit $"p"; rspaces; rlit $"*"; rspaces; numeral_group i; rspaces; rlit $"+"; rspaces;
   rlit $"c"; rspaces; rlit $"*"; rspaces; numeral_group (i + 1)]
  ++ extra_patterns (i + 2) cacheVarNames.

Definition singleRe : regex :=
  rseq ([rlit (dq "tier('"); RGroup 1 (RStar (RSet not_quote)); rlit (dq "',"); rspaces]
        ++ bodyPat 2 ++ [rlit $")"]).

Definition tierRe : regex := rseq (tier_head ++ bodyPat 3 ++ [rlit $")"]).

(** The coefficients that are there, by field; their groups start at [i]. *)
Fixpoint captured_prices (m : mstate) (i : nat) (vars : list (jsstr * jsstr)) : list (jsstr * number) :=
  match vars with
  | [] => []
  | cv :: vars' =>
    match capture m i with
    | Some w => (cv.1, number_of_string w) :: captured_prices m (S i) vars'
    | None => captured_prices m (S i) vars'
    end
  end.

(** The tier a match describes; the price groups start at [i]. *)
Definition matched_tier (m : mstate) (lbl : jsstr) (conditions : list TierConditionInput) (i : nat)
    : VisualTier :=
  normalizeVisualTier
    {| p_label := Some lbl; p_conditions := Some conditions;
       p_input := Some (number_of_string (cap m i));
       p_output := Some (number_of_string (cap m (i + 1)));
       p_cache_mode := None;
       p_prices := captured_prices m (i + 2) BILLING_CACHE_VAR_MAP |}.

Definition input_of_condition (c : TierCondition) : TierConditionInput :=
  {| ci_var := tc_var c; ci_op := tc_op c; ci_value := CNumber (tc_value c) |}.

Definition parsed_tier (m : mstate) : VisualTier :=
  matched_tier m (cap m 2) (input_of_condition <$> parse_tier_conditions (cap m 1)) 3.

Definition strip_version (exprStr : jsstr) : jsstr :=
  match match_whole (rseq [rlit $"v"; RPlus (RSet is_digit); rlit $":";
                           RGroup 1 (RStar (RSet (λ _, true)))]) exprStr with
  | Some m => cap m 1
  | None => exprStr
  end.

(** [a.replace(/\s+/g, '') === b.replace(/\s+/g, '')] *)
Definition same_text (a b : jsstr) : bool := bool_decide (remove_spaces a = remove_spaces b).

Definition tryParseVisualConfig (exprStr : jsstr) : option VisualConfig :=
  if negb (truthy exprStr) then None
  else
    let body := strip_version exprStr in
    match match_whole singleRe body with
    | Some m =>
      Some (normalizeVisualConfig (Some {| tiers := [matched_tier m (cap m 1) [] 2] |}))
    | None =>
      match parsed_tier <$> exec_all tierRe body with
      | [] => None
      | ts =>
        let cfg := normalizeVisualConfig (Some {| tiers := ts |}) in
        if same_text (generateExprFromVisualConfig (Some cfg)) body then Some cfg else None
      end
    end.

(** ** The estimator *)

(** Each variable with the key of its token count. *)
Definition ESTIMATOR_VARS : list (jsstr * jsstr) :=
  [($"cr", $"cacheReadTokens"); ($"cc", $"cacheCreateTokens"); ($"cc1h", $"cacheCreate1hTokens");
   ($"img", $"imageTokens"); ($"img_o", $"imageOutputTokens"); ($"ai", $"audioInputTokens");
   ($"ao", $"audioOutputTokens")].

Definition exprUsesExtraVars (exprStr : jsstr) : bool :=
  truthy exprStr
  && test (rseq [RWordB; ralt (rlit <$> ESTIMATOR_VARS.*1); RWordB]) exprStr.

Definition sample_tier (l : jsstr) (conds : list TierConditionInput) (i o cr : number) : VisualTier :=
  normalizeVisualTier
    {| p_label := Some l; p_conditions := Some conds; p_input := Some i; p_output := Some o;
       p_cache_mode := None; p_prices := [($"cache_read_unit_cost", cr)] |}.

Definition sample_config : VisualConfig :=
  {| tiers := [ sample_tier $"small" [{| ci_var := VarLen; ci_op := OpLe; ci_value := CNumber (num_of_Z 200000) |};
                                      {| ci_var := VarC; ci_op := OpLt; ci_value := CNumber (num_of_Z 10) |}]
                  (num_lit 125 2) (num_of_Z 10) (num_lit 3125 4);
                sample_tier $"large" [] (num_lit 25 1) (num_of_Z 15) (S754_zero false) ] |}.

Example generate_example :
  generateExprFromVisualConfig (Some sample_config) =
    dq "len <= 200000 && c < 10 ? tier('small', p * 1.25 + c * 10 + cr * 0.3125) : tier('large', p * 2.5 + c * 15)".
Proof. vm_compute. reflexivity. Qed.

Example parse_config_example :
  tryParseVisualConfig (generateExprFromVisualConfig (Some sample_config)) = Some sample_config.
Proof. vm_compute. reflexivity. Qed.

Example single_example :
  tryParseVisualConfig (dq "tier('x', p * 1-2 + c * 3)") =
    Some {| tiers := [sample_tier $"x" [] nan (num_of_Z 3) (S754_zero false)] |}.
Proof. vm_compute. reflexivity. Qed.
