(* ===== verification/TierExprFacts.v ===== *)
(** * The visual tier editor: its expressions read back

    [visual_config_roundtrip]: the expression written for a configuration is
    read back as the same tiers, prices and conditions (the cache mode is
    inferred from the prices).  [malformed_price_becomes_zero]: a coefficient that
    is no numeral is read as zero. *)

From S2P Require Import Prelude JsString JsNumber NumberText Regex JsValue Json OrderedMap BillingExpr BillingExprFacts TierExpr.

(** ** Numbers that a price can print *)

Definition price_ok (x : number) : bool :=
  is_finite x && valid_binary 53 1024 x && bool_decide (x ≠ S754_zero true).

Lemma price_text x : price_ok x = true →
  number_text x ≠ [] ∧ forallb numeral_char (number_text x) = true ∧ number_of_string (number_text x) = x.
Proof.
  unfold price_ok. rewrite !andb_true_iff, bool_decide_eq_true. intros [[Hf Hv] Hz].
  destruct (number_text_json x Hf Hv) as [Hj Hn]. rewrite number_text_roundtrip by done.
  split_and!; [by intros E; rewrite E in Hj|done|]. by destruct x as [[]| | |].
Qed.

Lemma cost_ok x : price_ok x = true → cost x = x.
Proof.
  unfold price_ok. rewrite !andb_true_iff, bool_decide_eq_true. intros [[Hf _] Hz].
  destruct x as [[]| | |]; done.
Qed.

Lemma space_not_numeral_char s : stops_at numeral_char (32 :: s).
Proof. done. Qed.

(** ** The price of a tier *)

Section ExtraTerms.

Definition term_text (v : jsstr) (x : number) : jsstr := $" + " ++ v ++ $" * " ++ number_text x.

(** The terms of the variables whose price is not zero. *)
Fixpoint terms_text (l : list (jsstr * number)) : jsstr :=
  match l with
  | [] => []
  | (v, x) :: l' => (if num_truthy x then term_text v x else []) ++ terms_text l'
  end.

Fixpoint terms_caps (i : nat) (l : list (jsstr * number)) (cs : list (nat * jsstr)) : list (nat * jsstr) :=
  match l with
  | [] => cs
  | (v, x) :: l' => terms_caps (S i) l' (if num_truthy x then (i, number_text x) :: cs else cs)
  end.

Definition word (v : jsstr) : Prop := v ≠ [] ∧ forallb is_word v = true.

Lemma word_char_solid c : is_word c = true → is_space c = false ∧ c ≠ 42 ∧ c ≠ 43.
Proof using.
  intros H. split_and!; [|by intros ->..].
  destruct (is_space c) eqn:E; [exfalso|done]. unfold is_space, is_word, is_digit in *.
  rewrite !orb_true_iff, !andb_true_iff, ?Z.eqb_eq, ?Z.leb_le in *. lia.
Qed.

(** A variable that another one begins with is followed by a word character. *)
Lemma longer_word v v' s :
  forallb is_word v = true → forallb is_word v' = true → v ≠ v' → starts_with v (v' ++ 32 :: s) = true →
  ∃ c t, v' ++ 32 :: s = v ++ c :: t ∧ is_word c = true.
Proof using.
  revert v'. induction v as [|c v IH]; intros v' Hw Hw' Hne E.
  - destruct v' as [|d v']; [done|]. cbn [forallb] in Hw'. apply andb_true_iff in Hw' as [Hd _].
    by exists d, (v' ++ 32 :: s).
  - destruct v' as [|d v']; cbn [app starts_with] in E; apply andb_true_iff in E as [->%Z.eqb_eq E].
    + cbn [forallb] in Hw. by apply andb_true_iff in Hw as [Hw _].
    + cbn [forallb] in Hw, Hw'. apply andb_true_iff in Hw as [_ Hw], Hw' as [_ Hw'].
      destruct (IH v' Hw Hw' ltac:(congruence) E) as (c & t & E' & Hc).
      exists c, t. cbn [app]. by rewrite E'.
Qed.

(** A different variable is not read as this one. *)
Lemma other_var_fails v v' r s cs :
  word v → word v' → v ≠ v' → fails (RSeq (rlit v) (RSeq rspaces (RSeq (rlit $"*") r))) (v' ++ 32 :: s) cs.
Proof using.
  intros [Hv Hw] [Hv' Hw'] Hne. destruct (starts_with v (v' ++ 32 :: s)) eqn:E.
  2:{ by apply fails_seq, fails_lit. }
  destruct (longer_word v v' s Hw Hw' Hne E) as (c & t & -> & Hc).
  destruct (word_char_solid c Hc) as (Hsp & Hst & _).
  intros A b k. rewrite rmatch_seq, rmatch_lit.
  apply (fails_spaces [] (RSeq (rlit $"*") r) (c :: t)); [done|done| |].
  - apply fails_seq, fails_lit. change ($"*") with [42]. cbn [starts_with].
    by rewrite (proj2 (Z.eqb_neq 42 c)) by congruence.
  - intros c' s' Hc'. by apply fails_lit_space.
Qed.

(** What follows a term: the end of the tier or another term. *)
Definition after_term (s : jsstr) : Prop := ∃ t, s = 41 :: t ∨ s = 32 :: t.

Lemma runs_term i v x s cs :
  word v → price_ok x = true → after_term s →
  runs (extra_pattern i v) (term_text v x ++ s) cs s ((i, number_text x) :: cs).
Proof using.
  intros [Hv Hw] Hx [t Hs]. destruct (price_text x Hx) as (Hne & Hn & _).
  assert (stops_at is_space (v ++ $" * " ++ number_text x ++ s)) as Hvs.
  { destruct v as [|c v]; [done|]. cbn [forallb] in Hw. apply andb_true_iff in Hw as [Hc _].
    by apply word_char_solid. }
  assert (stops_at is_space (number_text x ++ s)) as Hns.
  { apply numeral_no_spaces in Hn. destruct (number_text x) as [|c w]; [done|].
    unfold no_spaces in Hn. cbn [forallb] in Hn. apply andb_true_iff in Hn as [Hc _]. by apply negb_true_iff. }
  apply runs_opt_some. unfold term_text. cbn [rseq fold_right]. rewrite <- !app_assoc.
  change ($" + ") with (32 :: $"+" ++ [32]). change ($" * ") with (32 :: $"*" ++ [32]).
  cbn [app]. rewrite <- !app_assoc. cbn [app].
  eapply runs_seq; [by apply runs_space|]. eapply runs_seq; [apply (runs_lit $"+")|].
  eapply runs_seq; [by apply runs_space|]. eapply runs_seq; [apply runs_lit|].
  eapply runs_seq; [by apply runs_space|]. eapply runs_seq; [apply (runs_lit $"*")|].
  eapply runs_seq; [by apply runs_space|].
  eapply runs_seq; [apply runs_group_plus; [done..|]|apply runs_eps].
  destruct Hs as [-> | ->]; done.
Qed.

Lemma terms_shape l s :
  terms_text l ++ 41 :: s = 41 :: s ∨
  ∃ v t, v ∈ l.*1 ∧ terms_text l ++ 41 :: s = $" + " ++ v ++ 32 :: t.
Proof using.
  induction l as [|[v x] l IH]; [by left|]. cbn [terms_text]. destruct (num_truthy x).
  - right. exists v. eexists. split; [by left|]. unfold term_text. rewrite <- !app_assoc. reflexivity.
  - cbn [app]. destruct IH as [IH|(v' & t & Hv & IH)]; [by left|right]. exists v', t. split; [by right|done].
Qed.

Lemma terms_after l s : after_term (terms_text l ++ 41 :: s).
Proof using.
  destruct (terms_shape l s) as [-> |(v & t & _ & ->)]; [by exists s; left|]. eexists. right. reflexivity.
Qed.

(** The term of a variable that is not there is skipped. *)
Lemma missing_term_fails i v l s cs :
  word v → Forall word l.*1 → v ∉ l.*1 →
  fails (rseq [rspaces; rlit $"+"; rspaces; rlit v; rspaces; rlit $"*"; rspaces; numeral_group i])
    (terms_text l ++ 41 :: s) cs.
Proof using.
  intros Hv Hl Hn. cbn [rseq fold_right].
  assert (∀ r c s' cs', is_space c = true → fails (RSeq (rlit $"+") r) (c :: s') cs') as Hplus
    by (intros r c s' cs' Hc; by apply fails_lit_space).
  destruct (terms_shape l s) as [-> |(v' & t & Hin & ->)].
  - apply (fails_spaces []); [done..| |by intros; apply Hplus]. by apply fails_seq, fails_lit.
  - change ($" + " ++ v' ++ 32 :: t) with ([32] ++ ($"+" ++ [32] ++ v' ++ 32 :: t)).
    rewrite Forall_forall in Hl. pose proof (Hl v' Hin) as Hv'.
    apply fails_spaces; [done..| |by intros; apply Hplus].
    intros A b k. rewrite rmatch_seq, rmatch_lit.
    apply (fails_spaces [32]); [done| | |].
    + destruct Hv' as [Hne Hw]. destruct v' as [|c v']; [done|]. cbn [forallb] in Hw.
      apply andb_true_iff in Hw as [Hc _]. by apply word_char_solid.
    + apply other_var_fails; [done..|]. by intros ->.
    + intros c s' Hc. destruct Hv as [Hne Hw]. destruct v as [|d v]; [done|]. cbn [forallb] in Hw.
      apply andb_true_iff in Hw as [Hd _]. apply fails_lit_space; [by apply word_char_solid|done].
Qed.

Lemma runs_terms i l r s cs s2 cs2 :
  NoDup l.*1 → Forall word l.*1 → Forall (λ vx, price_ok vx.2 = true) l →
  runs r (41 :: s) (terms_caps i l cs) s2 cs2 →
  runs (fold_right RSeq r (extra_patterns i l.*1)) (terms_text l ++ 41 :: s) cs s2 cs2.
Proof using.
  revert i cs. induction l as [|[v x] l IH]; intros i cs Hnd Hw Hp Hr; [done|].
  cbn [fmap list_fmap fst] in *. apply NoDup_cons in Hnd as [Hv Hnd]. apply Forall_cons in Hw as [Hwv Hw], Hp as [Hpx Hp].
  cbn [snd] in Hpx. cbn [extra_patterns fold_right terms_text terms_caps] in *.
  destruct (num_truthy x).
  - rewrite <- app_assoc. eapply runs_seq; [by apply runs_term; [..|apply terms_after]|]. by apply IH.
  - cbn [app]. eapply runs_seq; [by apply runs_opt_none, missing_term_fails|]. by apply IH.
Qed.

Lemma terms_caps_lookup i l cs n :
  cap_lookup (terms_caps i l cs) n =
    if decide (i ≤ n < i + length l)%nat
    then match l !! (n - i)%nat with
         | Some (_, x) => if num_truthy x then Some (number_text x) else cap_lookup cs n
         | None => cap_lookup cs n
         end
    else cap_lookup cs n.
Proof using.
  revert i cs. induction l as [|[v x] l IH]; intros i cs; cbn [terms_caps length].
  - by case_decide; [lia|].
  - rewrite IH. assert (∀ m, m ≠ i → cap_lookup (if num_truthy x then (i, number_text x) :: cs else cs) m = cap_lookup cs m) as Hm.
    { intros m Hm. destruct (num_truthy x); [|done]. unfold cap_lookup. cbn [List.find fst].
      by rewrite (proj2 (Nat.eqb_neq i m)) by congruence. }
    repeat case_decide; try lia.
    + replace (n - i)%nat with (S (n - S i)) by lia. cbn [lookup list_lookup].
      by rewrite Hm by lia.
    + replace (n - i)%nat with O by lia. cbn [lookup list_lookup].
      destruct (num_truthy x); [|done]. unfold cap_lookup. cbn [List.find fst].
      by rewrite (proj2 (Nat.eqb_eq i n)) by lia.
    + by rewrite Hm by lia.
Qed.
End ExtraTerms.

(** ** A tier and its price *)

Definition tier_ok (t : VisualTier) : bool :=
  truthy (label t) && forallb not_quote (label t)
  && price_ok (input_unit_cost t) && price_ok (output_unit_cost t)
  && bool_decide ((prices t).*1 = fst <$> BILLING_CACHE_VAR_MAP)
  && forallb (λ fx, price_ok fx.2) (prices t).

(** The extra variables with their prices. *)
Definition priced (t : VisualTier) : list (jsstr * number) :=
  (λ cv, (cv.2, num_or_zero (om_get cv.1 (prices t)))) <$> BILLING_CACHE_VAR_MAP.

Lemma priced_vars t : (priced t).*1 = cacheVarNames.
Proof. reflexivity. Qed.

Lemma vars_words : Forall word cacheVarNames ∧ NoDup cacheVarNames.
Proof.
  split.
  - vm_compute. repeat constructor; done.
  - apply (bool_decide_unpack (NoDup cacheVarNames)). vm_compute. exact I.
Qed.

Lemma zero_ok : price_ok (S754_zero false) = true.
Proof. reflexivity. Qed.

Lemma num_or_zero_ok o : (∀ x, o = Some x → price_ok x = true) → price_ok (num_or_zero o) = true.
Proof. destruct o as [x|]; [|done]. intros H. cbn. destruct (num_truthy x); [by apply H|done]. Qed.

Lemma priced_ok t : tier_ok t = true → Forall (λ vx, price_ok vx.2 = true) (priced t).
Proof.
  unfold tier_ok. rewrite !andb_true_iff. intros [_ Hp]. rewrite forallb_forall in Hp.
  apply Forall_fmap, Forall_forall. intros cv _. cbn [compose snd]. apply num_or_zero_ok.
  intros x Hx%om_get_elem. apply list_elem_of_In in Hx. by apply Hp in Hx.
Qed.

Lemma join_concat sep a l : join sep (a :: l) = a ++ concat ((λ w, sep ++ w) <$> l).
Proof.
  revert a. induction l as [|b l IH]; intros a; [cbn; by rewrite app_nil_r|].
  change (join sep (a :: b :: l)) with (a ++ sep ++ join sep (b :: l)).
  rewrite IH. cbn [fmap list_fmap concat]. by rewrite <- !app_assoc.
Qed.

Lemma join_parts sep a b l : join sep (a :: b :: l) = a ++ sep ++ b ++ concat ((λ w, sep ++ w) <$> l).
Proof.
  rewrite join_concat. cbn [fmap list_fmap concat]. by rewrite <- !app_assoc.
Qed.

Lemma extra_parts_text t : concat ((λ w, $" + " ++ w) <$> extra_parts t) = terms_text (priced t).
Proof.
  unfold extra_parts, priced. induction BILLING_CACHE_VAR_MAP as [|cv l IH]; [done|].
  cbn [omap list_omap fmap list_fmap terms_text]. destruct (num_truthy _); [|done].
  cbn [fmap list_fmap concat]. by rewrite IH.
Qed.

Lemma body_text t : tier_ok t = true →
  buildTierBodyExpr t = $"p * " ++ number_text (input_unit_cost t) ++ $" + c * "
    ++ number_text (output_unit_cost t) ++ terms_text (priced t).
Proof.
  unfold tier_ok. rewrite !andb_true_iff. intros [[[[_ Hi] Ho] _] _].
  unfold buildTierBodyExpr. rewrite !cost_ok by done. cbn [app]. rewrite join_parts, extra_parts_text.
  rewrite <- !app_assoc. reflexivity.
Qed.

Definition body_caps (i : nat) (t : VisualTier) (cs : list (nat * jsstr)) : list (nat * jsstr) :=
  terms_caps (i + 2) (priced t)
    (((i + 1)%nat, number_text (output_unit_cost t)) :: (i, number_text (input_unit_cost t)) :: cs).

Lemma price_stops x s : price_ok x = true → stops_at is_space (number_text x ++ s).
Proof.
  intros Hx. destruct (price_text x Hx) as (Hne & Hn%numeral_no_spaces & _).
  destruct (number_text x) as [|c w]; [done|]. unfold no_spaces in Hn. cbn [forallb] in Hn.
  apply andb_true_iff in Hn as [Hc _]. by apply negb_true_iff.
Qed.

Lemma runs_body i t r s cs s2 cs2 :
  tier_ok t = true → runs r (41 :: s) (body_caps i t cs) s2 cs2 →
  runs (fold_right RSeq r (bodyPat i)) (buildTierBodyExpr t ++ 41 :: s) cs s2 cs2.
Proof.
  intros Ht Hr. rewrite body_text by done. pose proof (priced_ok t Ht) as Hp.
  unfold tier_ok in Ht. rewrite !andb_true_iff in Ht. destruct Ht as [[[[_ Hi] Ho] _] _].
  destruct (price_text _ Hi) as (Ni & Ci & _). destruct (price_text _ Ho) as (No & Co & _).
  unfold bodyPat. rewrite fold_right_app. cbn [fold_right app]. rewrite <- !app_assoc.
  change ($"p * ") with ($"p" ++ 32 :: $"*" ++ [32]).
  change ($" + c * ") with (32 :: $"+" ++ 32 :: $"c" ++ 32 :: $"*" ++ [32]).
  repeat (rewrite <- app_assoc || cbn [app]).
  eapply runs_seq; [apply runs_lit|]. eapply runs_seq; [by apply runs_space|].
  eapply runs_seq; [apply (runs_lit $"*")|]. eapply runs_seq; [by apply runs_space, price_stops|].
  eapply runs_seq; [by apply runs_group_plus|].
  eapply runs_seq; [by apply runs_space|]. eapply runs_seq; [apply (runs_lit $"+")|].
  eapply runs_seq; [by apply runs_space|]. eapply runs_seq; [apply (runs_lit $"c")|].
  eapply runs_seq; [by apply runs_space|]. eapply runs_seq; [apply (runs_lit $"*")|].
  eapply runs_seq; [by apply runs_space, price_stops|].
  eapply runs_seq.
  - apply runs_group_plus; [done..|].
    destruct (terms_after (priced t) s) as [u [-> | ->]]; done.
  - rewrite <- (priced_vars t). apply runs_terms; [apply vars_words..|done|done].
Qed.

(** The tier as it comes back: the cache mode is not part of the expression and
    is inferred from the one-hour price. *)
Definition inferred_mode (t : VisualTier) : CacheMode :=
  if num_ltb (S754_zero false) (num_or_zero (om_get $"cache_create_1h_unit_cost" (prices t)))
  then CACHE_MODE_TIMED else CACHE_MODE_GENERIC.

Definition reparsed (t : VisualTier) : VisualTier :=
  {| label := label t; vt_conditions := vt_conditions t; input_unit_cost := input_unit_cost t;
     output_unit_cost := output_unit_cost t; cache_mode := inferred_mode t; prices := prices t |}.

Lemma fields_NoDup : NoDup BILLING_CACHE_VAR_MAP.*1.
Proof. apply (bool_decide_unpack (NoDup _)). vm_compute. exact I. Qed.

(** A map with the expected keys is determined by its lookups. *)
Lemma om_by_keys {V} (ks : list jsstr) (m : list (jsstr * V)) (f : jsstr → V) :
  NoDup ks → m.*1 = ks → (∀ k v, om_get k m = Some v → f k = v) → m = (λ k, (k, f k)) <$> ks.
Proof.
  revert m. induction ks as [|k ks IH]; intros [|[k' v] m] Hnd Hk Hf; try done.
  cbn [fmap list_fmap fst] in *. injection Hk as -> Hk. apply NoDup_cons in Hnd as [Hn Hnd].
  f_equal.
  - f_equal. symmetry. apply Hf. cbn. by rewrite decide_True.
  - apply IH; [done..|]. intros k' v' Hk'. apply Hf. cbn [om_get]. rewrite decide_False; [done|].
    intros ->. apply om_get_elem in Hk'. apply Hn. rewrite <- Hk. by apply (list_elem_of_fmap_2' fst _ (k, v')).
Qed.

Lemma num_or_zero_some x : price_ok x = true → num_or_zero (Some x) = x.
Proof. apply cost_ok. Qed.

Lemma prices_by_field t : tier_ok t = true →
  prices t = (λ cv, (cv.1, num_or_zero (om_get cv.1 (prices t)))) <$> BILLING_CACHE_VAR_MAP.
Proof.
  unfold tier_ok. rewrite !andb_true_iff, bool_decide_eq_true. intros [[_ Hk] Hp]. rewrite forallb_forall in Hp.
  assert (prices t = (λ k, (k, num_or_zero (om_get k (prices t)))) <$> BILLING_CACHE_VAR_MAP.*1) as E.
  { apply om_by_keys; [apply fields_NoDup|done|]. intros k v Hv. rewrite Hv. apply num_or_zero_some.
    apply om_get_elem in Hv. apply list_elem_of_In in Hv. by apply Hp in Hv. }
  rewrite E at 1. by rewrite <- list_fmap_compose.
Qed.

(** The captured coefficients, one per price that is not zero. *)
Lemma captured_prices_spec m (x : jsstr * jsstr → number) vars i :
  (∀ j cv, vars !! j = Some cv →
     capture m (i + j) = (if num_truthy (x cv) then Some (number_text (x cv)) else None)
     ∧ price_ok (x cv) = true) →
  captured_prices m i vars =
    omap (λ cv, if num_truthy (x cv) then Some (cv.1, x cv) else None) vars.
Proof.
  revert i. induction vars as [|cv vars IH]; intros i H; [done|]. cbn [captured_prices omap list_omap].
  destruct (H O cv eq_refl) as [Hc Hx]. rewrite Nat.add_0_r in Hc. rewrite Hc.
  assert (captured_prices m (S i) vars = omap (λ cv, if num_truthy (x cv) then Some (cv.1, x cv) else None) vars) as E.
  { apply IH. intros j cv' Hj. rewrite Nat.add_succ_l, <- Nat.add_succ_r. by apply H. }
  destruct (num_truthy (x cv)); rewrite E; [|done].
  by destruct (price_text (x cv) Hx) as (_ & _ & ->).
Qed.

Lemma om_get_captured (x : jsstr * jsstr → number) vars cv :
  NoDup vars.*1 → cv ∈ vars →
  om_get cv.1 (omap (λ cv, if num_truthy (x cv) then Some (cv.1, x cv) else None) vars) =
    (if num_truthy (x cv) then Some (x cv) else None).
Proof.
  induction vars as [|cv' vars IH]; intros Hnd Hin; [by apply elem_of_nil in Hin|].
  cbn [fmap list_fmap] in Hnd. apply NoDup_cons in Hnd as [Hn Hnd].
  assert (∀ k, k ∉ vars.*1 →
    om_get k (omap (λ cv, if num_truthy (x cv) then Some (cv.1, x cv) else None) vars) = None) as Hnone.
  { intros k Hk. apply om_get_None. intros Hin'. apply Hk. unfold om_keys in Hin'.
    apply list_elem_of_fmap in Hin' as ([k' v'] & -> & Hin'). apply list_elem_of_omap in Hin' as (c & Hc & E).
    destruct (num_truthy (x c)); [|done]. injection E as <- <-. exact (list_elem_of_fmap_2 fst _ c Hc). }
  cbn [omap list_omap]. apply elem_of_cons in Hin as [-> |Hin].
  - destruct (num_truthy (x cv')) eqn:Et; [cbn [om_get]; by rewrite decide_True|by apply Hnone].
  - destruct (num_truthy (x cv')); [|by apply IH]. cbn [om_get]. rewrite decide_False; [by apply IH|].
    intros E. apply Hn. rewrite <- E. exact (list_elem_of_fmap_2 fst _ cv Hin).
Qed.

Lemma om_get_captured_pair (x : jsstr * jsstr → number) k v :
  (k, v) ∈ BILLING_CACHE_VAR_MAP →
  om_get k (omap (λ cv, if num_truthy (x cv) then Some (cv.1, x cv) else None) BILLING_CACHE_VAR_MAP) =
  (if num_truthy (x (k, v)) then Some (x (k, v)) else None).
Proof. intros Hin. exact (om_get_captured x _ (k, v) fields_NoDup Hin). Qed.

Lemma one_hour_field : ($"cache_create_1h_unit_cost", $"cc1h") ∈ BILLING_CACHE_VAR_MAP.
Proof. apply (bool_decide_unpack (_ ∈ _)). vm_compute. exact I. Qed.

Lemma ltb_optional x :
  num_ltb (S754_zero false) (default nan (if num_truthy x then Some x else None)) = num_ltb (S754_zero false) x.
Proof. by destruct x as [[]| | |]. Qed.

(** Lookups below the extra terms. *)
Lemma body_caps_low i t cs n :
  (n < i + 2)%nat →
  cap_lookup (body_caps i t cs) n =
    cap_lookup (((i + 1)%nat, number_text (output_unit_cost t)) :: (i, number_text (input_unit_cost t)) :: cs) n.
Proof. intros Hn. unfold body_caps. rewrite terms_caps_lookup. by rewrite decide_False by lia. Qed.

(** The tier a match of its own text describes. *)
Lemma matched_tier_spec b s t i cs :
  tier_ok t = true → (∀ n, (i ≤ n)%nat → cap_lookup cs n = None) →
  matched_tier (MState b s (body_caps i t cs)) (label t) (vt_conditions t) i = reparsed t.
Proof.
  intros Ht Hcs. pose proof (priced_ok t Ht) as Hpr. pose proof (prices_by_field t Ht) as Hpf.
  set (x := λ cv : jsstr * jsstr, num_or_zero (om_get cv.1 (prices t))).
  assert (captured_prices (MState b s (body_caps i t cs)) (i + 2) BILLING_CACHE_VAR_MAP =
    omap (λ cv, if num_truthy (x cv) then Some (cv.1, x cv) else None) BILLING_CACHE_VAR_MAP) as Hcap.
  { apply captured_prices_spec. intros j cv Hj. unfold capture. cbn [caps].
    assert (priced t !! j = Some (cv.2, x cv)) as Hpj by (unfold priced; by rewrite list_lookup_fmap, Hj).
    split; [|by rewrite Forall_lookup in Hpr; apply (Hpr j (cv.2, x cv))].
    pose proof (lookup_lt_Some _ _ _ Hpj). unfold body_caps. rewrite terms_caps_lookup, decide_True by lia.
    replace (i + 2 + j - (i + 2))%nat with j by lia. rewrite Hpj. destruct (num_truthy (x cv)); [done|].
    unfold cap_lookup. cbn [List.find fst]. rewrite !(proj2 (Nat.eqb_neq _ _)) by lia. apply Hcs. lia. }
  unfold matched_tier, normalizeVisualTier, reparsed. cbn [p_label p_conditions p_input p_output p_prices default].
  rewrite Hcap. unfold cap, capture. cbn [caps]. rewrite !body_caps_low by lia.
  unfold cap_lookup. cbn [List.find fst snd]. rewrite !Nat.eqb_refl.
  rewrite (proj2 (Nat.eqb_neq (i + 1) i)) by lia. cbn [fmap option_fmap option_map snd default from_option id].
  unfold tier_ok in Ht. rewrite !andb_true_iff in Ht. destruct Ht as [[[[_ Hi] Ho] _] _].
  destruct (price_text _ Hi) as (_ & _ & Ei). destruct (price_text _ Ho) as (_ & _ & Eo).
  unfold id. rewrite Ei, Eo. f_equal.
  - unfold getTierCacheMode, inferred_mode. cbn [p_cache_mode p_prices].
    rewrite (om_get_captured_pair x _ _ one_hour_field), ltb_optional. reflexivity.
  - etransitivity; [|symmetry; exact Hpf]. apply list_fmap_ext. intros j cv Hj.
    rewrite om_get_captured; [|apply fields_NoDup|by eapply list_elem_of_lookup_2].
    f_equal. fold (x cv).
    assert (price_ok (x cv) = true) as Hx.
    { rewrite Forall_lookup in Hpr. apply (Hpr j (cv.2, x cv)). unfold priced. by rewrite list_lookup_fmap, Hj. }
    destruct (num_truthy (x cv)) eqn:Et; cbn [num_or_zero]; [by rewrite Et|].
    clearbody x. destruct (x cv) as [[]| | |]; done.
Qed.

(** ** Conditions *)

Definition cond_ok (c : TierConditionInput) : bool :=
  match ci_value c with
  | CNumber x => price_ok x && forallb unsigned_numeral_char (number_text x)
  | CText _ => false
  end.

Lemma cond_bound c : cond_ok c = true →
  ∃ x, ci_value c = CNumber x ∧ value_text_of (ci_value c) = number_text x ∧ number_text x ≠ [] ∧
    forallb unsigned_numeral_char (number_text x) = true ∧ number_of_string (number_text x) = x.
Proof.
  unfold cond_ok. destruct (ci_value c) as [x|]; [|done]. intros [Hx Hu]%andb_true_iff.
  destruct (price_text x Hx) as (Hne & _ & E). by exists x.
Qed.

Lemma unsigned_not_space c : unsigned_numeral_char c = true → is_space c = false.
Proof.
  unfold unsigned_numeral_char. rewrite !orb_true_iff, !Z.eqb_eq.
  intros [[[[H| ->]| ->]| ->]| ->]; [by apply digit_not_space|done..].
Qed.

Lemma unsigned_stops w s : w ≠ [] → forallb unsigned_numeral_char w = true → stops_at is_space (w ++ s).
Proof.
  destruct w as [|c w]; [done|]. cbn [forallb app stops_at]. intros _ [H _]%andb_true_iff.
  by apply unsigned_not_space.
Qed.

(** The comparison.  The pattern tries [<] before [<=]; what follows does not
    begin with an equals sign. *)
Lemma op_step {A} (K : mstate → option A) o b t cs :
  (∀ b' s', K (MState b' (61 :: s') cs) = None) →
  is_Some (K (MState (reverse (tierOp_text o) ++ b) (32 :: t) cs)) →
  rmatch op_pattern (MState b (tierOp_text o ++ 32 :: t) cs) K =
    K (MState (reverse (tierOp_text o) ++ b) (32 :: t) cs).
Proof.
  intros He [x Hx]. rewrite Hx. unfold op_pattern. cbn [ralt]. destruct o; cbn [tierOp_text] in *.
  - by rewrite rmatch_alt, rmatch_lit, Hx.
  - rewrite rmatch_alt. change ($"<=" ++ 32 :: t) with ($"<" ++ 61 :: 32 :: t).
    rewrite rmatch_lit, He, rmatch_alt. change ($"<" ++ 61 :: 32 :: t) with ($"<=" ++ 32 :: t).
    by rewrite rmatch_lit, Hx.
  - rewrite rmatch_alt, rmatch_lit_fail by done. rewrite rmatch_alt, rmatch_lit_fail by done.
    by rewrite rmatch_alt, rmatch_lit, Hx.
  - rewrite rmatch_alt, rmatch_lit_fail by done. rewrite rmatch_alt, rmatch_lit_fail by done.
    rewrite rmatch_alt. change ($">=" ++ 32 :: t) with ($">" ++ 61 :: 32 :: t).
    rewrite rmatch_lit, He. change ($">" ++ 61 :: 32 :: t) with ($">=" ++ 32 :: t). by rewrite rmatch_lit.
Qed.

Definition op_bound : regex := RSeq op_pattern (RSeq rspaces (RSeq (RPlus (RSet unsigned_numeral_char)) REps)).

Lemma bound_runs w s cs :
  w ≠ [] → forallb unsigned_numeral_char w = true → stops_at unsigned_numeral_char s →
  runs (RSeq rspaces (RSeq (RPlus (RSet unsigned_numeral_char)) REps)) (32 :: w ++ s) cs s cs.
Proof.
  intros Hne Hw Hs. eapply runs_seq; [by apply runs_space, unsigned_stops|].
  eapply runs_seq; [by apply runs_plus|apply runs_eps].
Qed.

Lemma bound_fails_equals s cs :
  fails (RSeq rspaces (RSeq (RPlus (RSet unsigned_numeral_char)) REps)) (61 :: s) cs.
Proof.
  apply (fails_spaces []); [done|done|by intros A b k|].
  intros c s' Hc A b k. rewrite rmatch_seq. unfold RPlus. rewrite rmatch_seq, rmatch_set.
  destruct (unsigned_numeral_char c) eqn:E; [|done]. apply unsigned_not_space in E. congruence.
Qed.

Lemma op_runs o w s cs :
  w ≠ [] → forallb unsigned_numeral_char w = true → stops_at unsigned_numeral_char s →
  runs op_bound (tierOp_text o ++ 32 :: w ++ s) cs s cs.
Proof.
  intros Hne Hw Hs A b.
  destruct (bound_runs w s cs Hne Hw Hs A (reverse (tierOp_text o) ++ b)) as [b' E]. exists b'. intros k Hk.
  unfold op_bound. rewrite rmatch_seq, op_step; [by apply E| |by rewrite E].
  intros b'' s'. apply bound_fails_equals.
Qed.

Lemma var_runs v s cs : runs var_pattern (tierVar_text v ++ 32 :: s) cs (32 :: s) cs.
Proof.
  intros A b. unfold var_pattern. cbn [ralt]. destruct v; cbn [tierVar_text].
  - exists (reverse $"p" ++ b). intros k [x Hk]. by rewrite rmatch_alt, rmatch_lit, Hk.
  - exists (reverse $"c" ++ b). intros k [x Hk]. rewrite rmatch_alt, rmatch_lit_fail by done.
    by rewrite rmatch_alt, rmatch_lit, Hk.
  - exists (reverse $"len" ++ b). intros k [x Hk]. rewrite rmatch_alt, rmatch_lit_fail by done.
    by rewrite rmatch_alt, rmatch_lit_fail, rmatch_lit by done.
Qed.

Lemma condition_layout c : condition_text c =
  tierVar_text (ci_var c) ++ 32 :: tierOp_text (ci_op c) ++ 32 :: value_text_of (ci_value c).
Proof. reflexivity. Qed.

Lemma op_stops o s : stops_at is_space (tierOp_text o ++ s).
Proof. by destruct o. Qed.

Lemma condition_runs c s cs :
  cond_ok c = true → stops_at unsigned_numeral_char s →
  runs single_condition (condition_text c ++ s) cs s cs.
Proof.
  intros Hc Hs. destruct (cond_bound c Hc) as (x & _ & Ev & Hne & Hu & _).
  rewrite condition_layout, Ev. unfold single_condition. cbn [rseq fold_right].
  rewrite <- !app_assoc. cbn [app]. rewrite <- !app_assoc. cbn [app].
  eapply runs_seq; [apply var_runs|]. eapply runs_seq; [apply runs_space, op_stops|].
  by apply op_runs.
Qed.

Lemma var_head v : ∃ c r, tierVar_text v = c :: r ∧ is_space c = false ∧ c ≠ 38 ∧ c ≠ 116 ∧ c ≠ 118.
Proof. destruct v; eexists _, _; (split; [reflexivity|done]). Qed.

Lemma condition_stops c s : stops_at is_space (condition_text c ++ s).
Proof. by destruct c as [[] o v]. Qed.

Lemma and_runs s cs : stops_at is_space s → runs and_pattern ($" && " ++ s) cs s cs.
Proof.
  intros Hs. unfold and_pattern. cbn [rseq fold_right].
  change ($" && " ++ s) with (32 :: $"&&" ++ 32 :: s).
  eapply runs_seq; [by apply runs_space|]. eapply runs_seq; [apply runs_lit|].
  eapply runs_seq; [by apply runs_space|apply runs_eps].
Qed.

Lemma and_fails_question r s cs : fails (RSeq and_pattern r) (32 :: 63 :: s) cs.
Proof.
  unfold and_pattern. cbn [rseq fold_right]. apply fails_seq.
  apply (fails_spaces [32]); [done|done| |].
  - by apply fails_seq, fails_lit.
  - intros c s' Hc. by apply fails_lit_space.
Qed.

Lemma more_conditions_run cs s caps0 :
  forallb cond_ok cs = true →
  runs (RStar (RSeq and_pattern single_condition))
    (concat ((λ w, $" && " ++ w) <$> (condition_text <$> cs)) ++ 32 :: 63 :: s) caps0 (32 :: 63 :: s) caps0.
Proof.
  induction cs as [|c cs IH]; intros Hcs; [apply runs_star_stop, and_fails_question|].
  cbn [forallb] in Hcs. apply andb_true_iff in Hcs as [Hc Hcs]. cbn [fmap list_fmap concat].
  rewrite <- !app_assoc. eapply runs_star_step; [| |by apply IH].
  - eapply runs_seq; [apply and_runs, condition_stops|]. apply condition_runs; [done|].
    by destruct cs.
  - rewrite !length_app. change (length $" && ") with 4%nat. lia.
Qed.

(** A conjunction, up to the question mark. *)
Lemma conjunction_runs c cs s caps0 :
  cond_ok c = true → forallb cond_ok cs = true →
  runs (RSeq single_condition (RStar (RSeq and_pattern single_condition)))
    (join $" && " (condition_text <$> c :: cs) ++ 32 :: 63 :: s) caps0 (32 :: 63 :: s) caps0.
Proof.
  intros Hc Hcs. cbn [fmap list_fmap]. rewrite join_concat, <- app_assoc.
  eapply runs_seq; [apply condition_runs; [done|by destruct cs]|]. by apply more_conditions_run.
Qed.

Lemma conditions_text cs : forallb cond_ok cs = true → buildConditionStr cs = join $" && " (condition_text <$> cs).
Proof.
  intros H. unfold buildConditionStr. assert (List.filter has_value cs = cs) as ->; [|done].
  induction cs as [|c cs IH]; [done|].
  cbn [forallb] in H. apply andb_true_iff in H as [Hc H]. cbn [List.filter].
  destruct (cond_bound c Hc) as (x & E & _). unfold has_value at 1. by rewrite E, IH.
Qed.

(** ** Reading the conditions of a match *)

(** The separator is not found inside a condition. *)
Definition amp_free (s : jsstr) : bool := forallb (λ c, negb (c =? 38)) s.

Lemma and_fails_inside c s t :
  amp_free (c :: s) = true → is_space (List.last (c :: s) 0) = false →
  fails (whole and_pattern) (c :: s ++ t) [].
Proof.
  intros Ha Hl A b k. unfold whole. rewrite rmatch_group. unfold and_pattern. cbn [rseq fold_right].
  (* the leading white space and the first other character *)
  assert (∃ w d u, c :: s = w ++ d :: u ∧ forallb is_space w = true ∧ is_space d = false ∧ d ≠ 38)
    as (w & d & u & E & Hw & Hd & Hd').
  { clear -Ha Hl. revert c Ha Hl. induction s as [|c2 s IH]; intros c Ha Hl.
    - cbn [List.last] in Hl. exists [], c, []. unfold amp_free in Ha. cbn [forallb] in Ha.
      rewrite andb_true_r in Ha. apply negb_true_iff, Z.eqb_neq in Ha. done.
    - unfold amp_free in Ha. cbn [forallb] in Ha. apply andb_true_iff in Ha as [Hc Ha].
      destruct (is_space c) eqn:Ec.
      + destruct (IH c2 Ha Hl) as (w & d & u & E & Hw & Hd & Hd'). exists (c :: w), d, u.
        cbn [app forallb]. by rewrite E, Ec.
      + exists [], c, (c2 :: s). by apply negb_true_iff, Z.eqb_neq in Hc. }
  change (c :: s ++ t) with ((c :: s) ++ t). rewrite E, <- app_assoc. cbn [app].
  apply (fails_spaces w); [done|done| |].
  - apply fails_seq, fails_lit. change ($"&&") with [38; 38]. cbn [starts_with].
    by rewrite (proj2 (Z.eqb_neq 38 d)) by congruence.
  - intros c' s' Hc'. by apply fails_lit_space.
Qed.

Lemma last_app_ne {A} (a b : list A) d : b ≠ [] → List.last (a ++ b) d = List.last b d.
Proof.
  intros Hb. induction a as [|x a IH]; [done|]. cbn [app]. destruct (a ++ b) as [|y l] eqn:E.
  - by apply app_eq_nil in E as [_ ->].
  - cbn [List.last] in *. exact IH.
Qed.

Lemma condition_amp_free c : cond_ok c = true →
  amp_free (condition_text c) = true ∧ is_space (List.last (condition_text c) 0) = false ∧ condition_text c ≠ [].
Proof.
  intros Hc. destruct (cond_bound c Hc) as (x & _ & Ev & Hne & Hu & _). rewrite condition_layout, Ev.
  assert (∀ w, forallb unsigned_numeral_char w = true → amp_free w = true) as Hamp.
  { intros w. unfold amp_free. rewrite !forallb_forall. intros H d Hd. specialize (H d Hd).
    by destruct (Z.eqb_spec d 38) as [-> |]. }
  split_and!.
  - assert (∀ a b, amp_free a = true → amp_free b = true → amp_free (a ++ b) = true) as Happ
      by (intros a b Ha Hb; unfold amp_free in *; by rewrite forallb_app, Ha, Hb).
    apply Happ; [by destruct (ci_var c)|]. apply (Happ [32]); [done|].
    apply Happ; [by destruct (ci_op c)|]. apply (Happ [32]); [done|by apply Hamp].
  - rewrite last_app_ne by done. change (32 :: ?a ++ ?b) with ((32 :: a) ++ b).
    rewrite last_app_ne by done. change (32 :: number_text x) with ([32] ++ number_text x).
    rewrite last_app_ne by done. destruct (number_text x) as [|d w] using rev_ind; [done|].
    rewrite List.last_last. rewrite forallb_app in Hu. apply andb_true_iff in Hu as [_ Hu].
    cbn [forallb] in Hu. rewrite andb_true_r in Hu. by apply unsigned_not_space.
  - by destruct (ci_var c).
Qed.

Lemma search_inside a t bef :
  amp_free a = true → (a ≠ [] → is_space (List.last a 0) = false) →
  search (whole and_pattern) bef (a ++ t) = search (whole and_pattern) (reverse a ++ bef) t.
Proof.
  revert bef. induction a as [|c a IH]; intros bef Ha Hl; [done|]. cbn [app].
  rewrite search_skip by (apply and_fails_inside; [done|by apply Hl]).
  rewrite reverse_cons, <- app_assoc. cbn [app].
  unfold amp_free in Ha. cbn [forallb] in Ha. apply andb_true_iff in Ha as [_ Ha]. apply IH; [done|].
  intros Hne. specialize (Hl ltac:(done)). by destruct a.
Qed.

Lemma split_conditions ts n :
  ts ≠ [] → Forall (λ t, amp_free t = true ∧ is_space (List.last t 0) = false ∧ t ≠ [] ∧ stops_at is_space t) ts →
  (length (join $" && " ts) ≤ n)%nat → split_re_from and_pattern (join $" && " ts) n = ts.
Proof.
  intros Hne Hts. revert n. induction Hts as [|t ts (Ha & Hl & Htne & Hst) Hts IH]; intros n Hn; [done|].
  destruct ts as [|t2 ts].
  - cbn [join] in *. destruct n as [|n]; [by destruct t|]. cbn [split_re_from].
    rewrite <- (app_nil_r t) at 1. rewrite search_inside by done. reflexivity.
  - change (join $" && " (t :: t2 :: ts)) with (t ++ $" && " ++ join $" && " (t2 :: ts)) in *.
    rewrite !length_app in Hn. change (length $" && ") with 4%nat in Hn.
    destruct n as [|n]; [lia|]. cbn [split_re_from]. rewrite search_inside by done.
    set (J := join $" && " (t2 :: ts)) in *.
    assert (stops_at is_space J) as HJ.
    { apply Forall_cons in Hts as [(_ & _ & Hne2 & Hst2) _]. subst J. destruct t2 as [|c t2]; [done|].
      by destruct ts. }
    assert (runs (whole and_pattern) ($" && " ++ J) [] J [(0%nat, $" && ")]) as Hrun
      by (apply runs_group, and_runs, HJ).
    destruct (search_here _ (reverse t ++ []) _ _ _ Hrun) as [b ->]. cbn [rest]. unfold capture. cbn [caps].
    change (length (default [] (cap_lookup [(0%nat, $" && ")] 0))) with 4%nat.
    rewrite IH by (try done; lia). f_equal. rewrite !length_app. change (length $" && ") with 4%nat.
    replace (length t + (4 + length J) - length J - 4)%nat with (length t) by lia.
    by rewrite take_app_length.
Qed.

Definition condition_pattern : regex :=
  rseq [RGroup 1 var_pattern; rspaces; RGroup 2 op_pattern; rspaces;
        RGroup 3 (RPlus (RSet unsigned_numeral_char))].

Lemma grouped_bound_runs w cs :
  w ≠ [] → forallb unsigned_numeral_char w = true →
  runs (RSeq rspaces (RSeq (RGroup 3 (RPlus (RSet unsigned_numeral_char))) REps)) (32 :: w) cs
    [] ((3%nat, w) :: cs).
Proof.
  intros Hne Hw. rewrite <- (app_nil_r w) at 1. eapply runs_seq; [by apply runs_space, unsigned_stops|].
  eapply runs_seq; [by apply runs_group_plus|apply runs_eps].
Qed.

Lemma grouped_bound_fails s cs :
  fails (RSeq rspaces (RSeq (RGroup 3 (RPlus (RSet unsigned_numeral_char))) REps)) (61 :: s) cs.
Proof.
  apply (fails_spaces []); [done|done|by intros A b k|].
  intros c s' Hc A b k. rewrite rmatch_seq, rmatch_group. unfold RPlus. rewrite rmatch_seq, rmatch_set.
  destruct (unsigned_numeral_char c) eqn:E; [|done]. apply unsigned_not_space in E. congruence.
Qed.

Lemma condition_pattern_runs v o w :
  w ≠ [] → forallb unsigned_numeral_char w = true →
  runs condition_pattern (tierVar_text v ++ 32 :: tierOp_text o ++ 32 :: w) []
    [] [(3%nat, w); (2%nat, tierOp_text o); (1%nat, tierVar_text v)].
Proof.
  intros Hne Hw. unfold condition_pattern. cbn [rseq fold_right].
  eapply runs_seq; [apply runs_group, var_runs|]. eapply runs_seq; [apply runs_space, op_stops|].
  intros A b.
  destruct (grouped_bound_runs w [(2%nat, tierOp_text o); (1%nat, tierVar_text v)] Hne Hw A
    (reverse (tierOp_text o) ++ b)) as [b' E]. exists b'. intros k Hk.
  rewrite rmatch_seq, rmatch_group. rewrite op_step; unfold set_capture; cbn [before rest caps].
  - rewrite group_text. by apply E.
  - intros b'' s'. apply grouped_bound_fails.
  - rewrite group_text. by rewrite E.
Qed.

Lemma condition_parses c : cond_ok c = true →
  input_of_condition <$> parse_tier_condition (condition_text c) = Some c.
Proof.
  intros Hc. destruct (cond_bound c Hc) as (x & Ex & Ev & Hne & Hu & En).
  assert (trim (condition_text c) = condition_text c) as Ht.
  { rewrite condition_layout, Ev. apply trim_solid; [by destruct (ci_var c)|].
    apply last_solid_app. apply (last_solid_app [32]). apply last_solid_app. apply (last_solid_app [32]).
    apply numeral_last_solid. split; [done|]. rewrite forallb_forall in *. intros d Hd. specialize (Hu d Hd).
    unfold unsigned_numeral_char, numeral_char in *. rewrite !orb_true_iff in *. tauto. }
  unfold parse_tier_condition. rewrite Ht, condition_layout, Ev.
  destruct (runs_match_whole _ _ _ (condition_pattern_runs (ci_var c) (ci_op c) (number_text x) Hne Hu)) as [b E].
  unfold condition_pattern in E. rewrite E. cbn [mbind option_bind fmap option_fmap option_map].
  unfold input_of_condition. cbn [tc_var tc_op tc_value]. unfold capture, cap_lookup. cbn [caps List.find fst snd Nat.eqb].
  cbn [fmap option_fmap option_map snd default from_option]. unfold id. rewrite En.
  destruct c as [v o [n|]]; cbn in Ex; simplify_eq. by destruct v, o.
Qed.

Lemma conditions_parse cs : forallb cond_ok cs = true →
  input_of_condition <$> parse_tier_conditions (buildConditionStr cs) = cs.
Proof.
  intros H. rewrite conditions_text by done. unfold parse_tier_conditions.
  destruct cs as [|c cs]; [done|]. set (ts := condition_text <$> c :: cs).
  assert (Forall (λ t, amp_free t = true ∧ is_space (List.last t 0) = false ∧ t ≠ [] ∧ stops_at is_space t) ts) as Hts.
  { subst ts. apply Forall_fmap, Forall_forall. intros d Hd. cbn [compose]. rewrite forallb_forall in H.
    apply list_elem_of_In in Hd. destruct (condition_amp_free d (H d Hd)) as (? & ? & ?).
    split_and!; [done..|]. pose proof (condition_stops d []) as Hs. by rewrite app_nil_r in Hs. }
  assert (truthy (join $" && " ts) = true) as ->.
  { apply truthy_ne. apply (join_nonempty _ _ (condition_text c)); [subst ts; by left|].
    apply Forall_cons in Hts as [(_ & _ & Hne & _) _]. done. }
  unfold split_re. rewrite split_conditions by done. subst ts. clear Hts.
  revert H. generalize (c :: cs) as l. induction l as [|d l IH]; [done|]. cbn [forallb].
  intros [Hd H]%andb_true_iff. cbn [fmap list_fmap omap list_omap].
  pose proof (condition_parses d Hd) as E. destruct (parse_tier_condition (condition_text d)); [|done].
  cbn [fmap option_fmap option_map] in E. injection E as E. cbn [fmap list_fmap]. by rewrite E, IH.
Qed.

(** ** A whole tier *)

Lemma tier_fields t : tier_ok t = true → label t ≠ [] ∧ forallb not_quote (label t) = true.
Proof. unfold tier_ok. rewrite !andb_true_iff, truthy_ne. tauto. Qed.

Lemma body_head t s : ∃ r, buildTierBodyExpr t ++ s = 112 :: r.
Proof. unfold buildTierBodyExpr. cbn [app]. rewrite join_parts. rewrite <- !app_assoc. eexists. reflexivity. Qed.

(** From the quoted label to the closing parenthesis. *)
Lemma runs_named i t s cs :
  tier_ok t = true →
  runs (rseq ([rlit (dq "tier('"); RGroup i (RStar (RSet not_quote)); rlit (dq "',"); rspaces]
              ++ bodyPat (S i) ++ [rlit $")"]))
    (tier_text (label t) t ++ s) cs s (body_caps (S i) t ((i, label t) :: cs)).
Proof.
  intros Ht. destruct (tier_fields t Ht) as [_ Hq]. unfold rseq, tier_text.
  rewrite !fold_right_app. cbn [fold_right]. rewrite <- !app_assoc.
  change (dq "', ") with (dq "'," ++ [32]). rewrite <- !app_assoc. change ([32] ++ ?x) with (32 :: x).
  eapply runs_seq; [apply runs_lit|]. eapply runs_seq; [by apply runs_group_star|].
  eapply runs_seq; [apply runs_lit|].
  eapply runs_seq; [apply runs_space; destruct (body_head t ($")" ++ s)) as [r ->]; done|].
  change ($")" ++ s) with (41 :: s). apply runs_body; [done|].
  eapply runs_seq; [apply (runs_lit $")")|apply runs_eps].
Qed.

Lemma tier_plain_runs t s :
  tier_ok t = true → runs tierRe (tier_text (label t) t ++ s) [] s (body_caps 3 t [(2%nat, label t)]).
Proof.
  intros Ht. unfold tierRe, tier_head.
  change (runs (RSeq (ROpt (rseq [condGroup 1; rspaces; rlit $"?"; rspaces]))
    (rseq ([rlit (dq "tier('"); RGroup 2 (RStar (RSet not_quote)); rlit (dq "',"); rspaces]
              ++ bodyPat 3 ++ [rlit $")"]))) (tier_text (label t) t ++ s) [] s (body_caps 3 t [(2%nat, label t)])).
  eapply runs_seq; [apply runs_opt_none|by apply runs_named].
  unfold tier_text. rewrite <- !app_assoc. intros A b k. reflexivity.
Qed.

Lemma tier_cond_runs t s :
  tier_ok t = true → forallb cond_ok (vt_conditions t) = true → vt_conditions t ≠ [] →
  runs tierRe (buildConditionStr (vt_conditions t) ++ $" ? " ++ tier_text (label t) t ++ s) [] s
    (body_caps 3 t [(2%nat, label t); (1%nat, buildConditionStr (vt_conditions t))]).
Proof.
  intros Ht Hc Hne. unfold tierRe, tier_head.
  change (runs (RSeq (ROpt (rseq [condGroup 1; rspaces; rlit $"?"; rspaces]))
    (rseq ([rlit (dq "tier('"); RGroup 2 (RStar (RSet not_quote)); rlit (dq "',"); rspaces]
              ++ bodyPat 3 ++ [rlit $")"])))
    (buildConditionStr (vt_conditions t) ++ $" ? " ++ tier_text (label t) t ++ s) [] s
    (body_caps 3 t [(2%nat, label t); (1%nat, buildConditionStr (vt_conditions t))])).
  eapply runs_seq; [apply runs_opt_some|by apply runs_named].
  rewrite conditions_text by done. cbn [rseq fold_right].
  destruct (vt_conditions t) as [|c cs]; [done|]. cbn [forallb] in Hc. apply andb_true_iff in Hc as [Hc Hcs].
  change ($" ? " ++ tier_text (label t) t ++ s) with (32 :: 63 :: 32 :: tier_text (label t) t ++ s).
  eapply runs_seq; [apply runs_group; by apply conjunction_runs|].
  eapply runs_seq; [by apply runs_space|].
  eapply runs_seq; [apply (runs_lit $"?")|]. eapply runs_seq; [by apply runs_space|apply runs_eps].
Qed.

Lemma low_caps (cs : list (nat * jsstr)) i :
  Forall (λ c, (c.1 < i)%nat) cs → ∀ n, (i ≤ n)%nat → cap_lookup cs n = None.
Proof.
  intros H n Hn. unfold cap_lookup. induction H as [|[m w] cs Hm H IH]; [done|]. cbn [List.find fst] in *.
  by rewrite (proj2 (Nat.eqb_neq m n)) by lia.
Qed.

Lemma parsed_cond_tier b s t :
  tier_ok t = true → forallb cond_ok (vt_conditions t) = true →
  parsed_tier (MState b s (body_caps 3 t [(2%nat, label t); (1%nat, buildConditionStr (vt_conditions t))])) = reparsed t.
Proof.
  intros Ht Hc. unfold parsed_tier, cap, capture. cbn [caps]. rewrite !body_caps_low by lia.
  unfold cap_lookup. cbn [List.find fst snd Nat.eqb Nat.add].
  cbn [fmap option_fmap option_map default from_option snd]. unfold id.
  pose proof (conditions_parse _ Hc) as E. cbn [fmap] in E. rewrite E.
  apply matched_tier_spec; [done|]. apply low_caps. repeat constructor; cbn; lia.
Qed.

Lemma parsed_plain_tier b s t :
  tier_ok t = true → vt_conditions t = [] →
  parsed_tier (MState b s (body_caps 3 t [(2%nat, label t)])) = reparsed t.
Proof.
  intros Ht Hc. unfold parsed_tier, cap, capture. cbn [caps]. rewrite !body_caps_low by lia.
  unfold cap_lookup. cbn [List.find fst snd Nat.eqb Nat.add].
  cbn [fmap option_fmap option_map default from_option snd]. unfold id.
  change (matched_tier (MState b s (body_caps 3 t [(2%nat, label t)])) (label t) [] 3 = reparsed t).
  rewrite <- Hc. apply matched_tier_spec; [done|]. apply low_caps. repeat constructor; cbn; lia.
Qed.

(** ** Configurations *)

Definition segment (t : VisualTier) : jsstr :=
  let cond := buildConditionStr (vt_conditions t) in
  if truthy cond then cond ++ $" ? " ++ tier_text (label t) t else tier_text (label t) t.

Definition full_tier_ok (t : VisualTier) : bool := tier_ok t && forallb cond_ok (vt_conditions t).

(** The tiers the editor can tell apart again: the first of several has a
    condition, the last has none. *)
Definition config_ok (c : VisualConfig) : bool :=
  forallb full_tier_ok (tiers c)
  && match tiers c with
     | [] => false
     | [_] => true
     | t :: ts => negb (bool_decide (vt_conditions t = []))
                  && match last ts with Some l => bool_decide (vt_conditions l = []) | None => false end
     end.

Lemma cond_truthy cs : forallb cond_ok cs = true → truthy (buildConditionStr cs) = negb (bool_decide (cs = [])).
Proof.
  intros H. rewrite conditions_text by done. destruct cs as [|c cs]; [done|].
  cbn [forallb] in H. apply andb_true_iff in H as [Hc _]. cbn [fmap list_fmap]. rewrite join_concat.
  destruct (condition_amp_free c Hc) as (_ & _ & Hne). by destruct (condition_text c).
Qed.

Lemma segment_runs t s :
  full_tier_ok t = true →
  ∃ caps0, runs tierRe (segment t ++ s) [] s caps0 ∧ (∀ b s', parsed_tier (MState b s' caps0) = reparsed t).
Proof.
  unfold full_tier_ok. intros [Ht Hc]%andb_true_iff. unfold segment.
  rewrite cond_truthy by done. destruct (bool_decide (vt_conditions t = [])) eqn:E; cbn [negb].
  - apply bool_decide_eq_true in E. eexists. split; [by apply tier_plain_runs|].
    intros b s'. by apply parsed_plain_tier.
  - apply bool_decide_eq_false in E. eexists. rewrite <- !app_assoc. split; [by apply tier_cond_runs|].
    intros b s'. by apply parsed_cond_tier.
Qed.

Lemma sep_fails_space s : fails tierRe (32 :: s) [].
Proof. intros A b k. reflexivity. Qed.
Lemma sep_fails_colon s : fails tierRe (58 :: s) [].
Proof. intros A b k. reflexivity. Qed.

(** Any pattern that reads segments finds them one after the other. *)
Lemma exec_segments_with {B} (R : regex) (f : mstate → B) (g : VisualTier → B) ts bef tail fuel :
  (∀ t s, full_tier_ok t = true →
     ∃ caps0, runs R (segment t ++ s) [] s caps0 ∧ (∀ b s', f (MState b s' caps0) = g t)) →
  (∀ s, fails R (32 :: s) []) → (∀ s, fails R (58 :: s) []) →
  forallb full_tier_ok ts = true → (∀ b, search R b tail = None) → (length ts < fuel)%nat → ts ≠ [] →
  f <$> exec_all_from R bef (join $" : " (segment <$> ts) ++ tail) fuel = g <$> ts.
Proof.
  intros Hruns Hsp Hco Hok Htail. revert bef fuel. induction ts as [|t ts IH]; intros bef fuel Hf Hne; [done|].
  cbn [forallb] in Hok. apply andb_true_iff in Hok as [Ht Hok]. cbn [length] in Hf.
  destruct fuel as [|fuel]; [lia|]. cbn [exec_all_from].
  destruct ts as [|t2 ts].
  - cbn [fmap list_fmap join]. destruct (Hruns t tail Ht) as (cs & Hr & Hp).
    destruct (search_here _ bef _ _ _ Hr) as [b ->]. cbn [before rest fmap list_fmap]. rewrite Hp.
    destruct fuel as [|fuel]; cbn [exec_all_from]; by rewrite ?Htail.
  - change (join $" : " (segment <$> t :: t2 :: ts))
      with (segment t ++ $" : " ++ join $" : " (segment <$> t2 :: ts)).
    rewrite <- !app_assoc.
    destruct (Hruns t ($" : " ++ join $" : " (segment <$> t2 :: ts) ++ tail) Ht) as (cs & Hr & Hp).
    destruct (search_here _ bef _ _ _ Hr) as [b ->]. cbn [before rest]. rewrite fmap_cons, Hp.
    destruct fuel as [|fuel]; [cbn [length] in Hf; lia|].
    assert (∀ s, exec_all_from R b ($" : " ++ s) (S fuel) =
      exec_all_from R (32 :: 58 :: 32 :: b) s (S fuel)) as ->.
    { intros s. change ($" : " ++ s) with (32 :: 58 :: 32 :: s). cbn [exec_all_from].
      by rewrite search_skip, search_skip, search_skip by (apply Hsp || apply Hco). }
    rewrite IH; [done|done| |done]. cbn [length] in *. lia.
Qed.

Lemma exec_segments ts bef tail fuel :
  forallb full_tier_ok ts = true → (∀ b, search tierRe b tail = None) → (length ts < fuel)%nat → ts ≠ [] →
  parsed_tier <$> exec_all_from tierRe bef (join $" : " (segment <$> ts) ++ tail) fuel = reparsed <$> ts.
Proof.
  apply exec_segments_with; [apply segment_runs|apply sep_fails_space|apply sep_fails_colon].
Qed.

Lemma parts_segments i ts :
  forallb full_tier_ok ts = true →
  match last ts with Some l => vt_conditions l = [] | None => False end →
  tier_parts i ts = segment <$> ts.
Proof.
  revert i. induction ts as [|t ts IH]; intros i Hok Hl; [done|].
  cbn [forallb] in Hok. apply andb_true_iff in Hok as [Ht Hok]. unfold full_tier_ok in Ht.
  apply andb_true_iff in Ht as [Ht Hc]. destruct (tier_fields t Ht) as [Hlb _].
  cbn [tier_parts]. unfold str_or. rewrite (proj2 (truthy_ne (label t))) by done.
  destruct ts as [|t2 ts].
  - cbn [last] in Hl. cbn [fmap list_fmap tier_parts]. unfold segment. by rewrite Hl.
  - rewrite IH by done. done.
Qed.

Lemma generated_text c :
  config_ok c = true →
  generateExprFromVisualConfig (Some c) =
    join $" : " (segment <$> tiers c)
    ++ match tiers c with
       | [t] => if truthy (buildConditionStr (vt_conditions t)) then $" : p * 0 + c * 0" else []
       | _ => []
       end.
Proof.
  unfold config_ok. intros [Hok Hs]%andb_true_iff. unfold generateExprFromVisualConfig.
  destruct (tiers c) as [|t [|t2 ts]] eqn:E; [done| |].
  - cbn [forallb fmap list_fmap join] in *. rewrite andb_true_r in Hok. unfold full_tier_ok in Hok.
    apply andb_true_iff in Hok as [Ht Hc]. destruct (tier_fields t Ht) as [Hlb _].
    unfold str_or, segment. rewrite (proj2 (truthy_ne (label t))) by done.
    destruct (truthy _); [|by rewrite app_nil_r]. by rewrite <- !app_assoc.
  - rewrite app_nil_r. f_equal. apply andb_true_iff in Hs as [_ Hs]. apply parts_segments; [done|].
    change (last (t :: t2 :: ts)) with (last (t2 :: ts)).
    destruct (last (t2 :: ts)); [|done]. by apply bool_decide_eq_true in Hs.
Qed.

Lemma tier_text_reparsed l t : tier_text l (reparsed t) = tier_text l t.
Proof. reflexivity. Qed.

Lemma generate_reparsed ts :
  generateExprFromVisualConfig (Some {| tiers := reparsed <$> ts |}) =
  generateExprFromVisualConfig (Some {| tiers := ts |}).
Proof.
  assert (∀ i ts, tier_parts i (reparsed <$> ts) = tier_parts i ts) as H.
  { intros i us. revert i. induction us as [|u us IH]; intros i; [done|].
    cbn [fmap list_fmap tier_parts]. rewrite <- IH. by destruct us. }
  unfold generateExprFromVisualConfig. cbn [tiers]. destruct ts as [|t [|t2 ts]]; [done|done|].
  cbn [fmap list_fmap]. f_equal. exact (H 0 (t :: t2 :: ts)).
Qed.

Lemma normalize_reparsed ts :
  forallb tier_ok ts = true → ts ≠ [] →
  normalizeVisualConfig (Some {| tiers := reparsed <$> ts |}) = {| tiers := reparsed <$> ts |}.
Proof.
  intros Hok Hne. unfold normalizeVisualConfig. cbn [tiers].
  assert ((λ t, normalizeVisualTier (partial_of_tier t)) <$> (reparsed <$> ts) = reparsed <$> ts) as E.
  { rewrite <- list_fmap_compose. apply list_fmap_ext. intros i t Hi. cbn [compose].
    rewrite forallb_forall in Hok. specialize (Hok t). rewrite <- list_elem_of_In in Hok.
    specialize (Hok (list_elem_of_lookup_2 _ _ _ Hi)).
    unfold normalizeVisualTier, partial_of_tier, reparsed. cbn [p_label p_conditions p_input p_output p_prices
      label vt_conditions input_unit_cost output_unit_cost cache_mode prices default].
    f_equal. symmetry. by apply prices_by_field. }
  destruct ts as [|t ts]; [done|]. exact (f_equal Build_VisualConfig E).
Qed.

(** The configuration as it comes back. *)
Definition reparsed_config (c : VisualConfig) : VisualConfig := {| tiers := reparsed <$> tiers c |}.

Lemma strip_version_other c s : c ≠ 118 → strip_version (c :: s) = c :: s.
Proof.
  intros Hc. unfold strip_version. replace (match_whole _ (c :: s)) with (@None mstate); [done|].
  symmetry. unfold match_whole, start_state. rewrite rmatch_seq. cbn [rseq fold_right].
  rewrite rmatch_seq, rmatch_lit_fail; [done|]. cbn [rest]. change ($"v") with [118]. cbn [starts_with].
  by rewrite (proj2 (Z.eqb_neq 118 c)) by congruence.
Qed.

(** A generated expression starts with a variable or with a tier. *)
Lemma segment_head t s :
  full_tier_ok t = true →
  (vt_conditions t = [] ∧ ∃ r, segment t ++ s = 116 :: r) ∨
  (vt_conditions t ≠ [] ∧ ∃ c r, segment t ++ s = c :: r ∧ c ≠ 118 ∧ c ≠ 116).
Proof.
  unfold full_tier_ok. intros [Ht Hc]%andb_true_iff. unfold segment. rewrite cond_truthy by done.
  destruct (bool_decide (vt_conditions t = [])) eqn:E; cbn [negb].
  - left. apply bool_decide_eq_true in E. split; [done|]. unfold tier_text. rewrite <- !app_assoc.
    eexists. reflexivity.
  - right. apply bool_decide_eq_false in E. split; [done|]. rewrite conditions_text by done.
    destruct (vt_conditions t) as [|c cs]; [done|]. cbn [fmap list_fmap]. rewrite join_concat, <- !app_assoc.
    rewrite condition_layout, <- app_assoc. destruct (var_head (ci_var c)) as (d & r & -> & _ & _ & H1 & H2).
    eexists _, _. split; [reflexivity|done].
Qed.

Lemma single_fails c s : c ≠ 116 → match_whole singleRe (c :: s) = None.
Proof.
  intros Hc. unfold match_whole, start_state, singleRe. rewrite rmatch_seq. cbn [rseq fold_right app].
  rewrite rmatch_seq, rmatch_lit_fail; [done|]. cbn [rest].
  change (dq "tier('") with (116 :: dq "ier('"). cbn [starts_with].
  by rewrite (proj2 (Z.eqb_neq 116 c)) by congruence.
Qed.

(** What the reader returns once the single pattern has failed. *)
Lemma segments_length ts :
  forallb full_tier_ok ts = true → (length ts ≤ length (join $" : " (segment <$> ts)))%nat.
Proof.
  induction ts as [|t ts IH]; [done|]. cbn [forallb]. intros [Ht Hok]%andb_true_iff. specialize (IH Hok).
  assert (1 ≤ length (segment t))%nat as H1.
  { pose proof (segment_head t [] Ht) as Hh. rewrite app_nil_r in Hh.
    destruct Hh as [(_ & r & ->)|(_ & d & r & -> & _)]; cbn [length]; lia. }
  cbn [fmap list_fmap]. rewrite join_concat, length_app.
  destruct ts as [|t2 ts]; cbn [length fmap list_fmap concat] in *; [lia|].
  rewrite join_concat in IH. rewrite !length_app in *. change (length $" : ") with 3%nat. lia.
Qed.

Lemma several_tiers c tail :
  forallb full_tier_ok (tiers c) = true → tiers c ≠ [] → (∀ b, search tierRe b tail = None) →
  generateExprFromVisualConfig (Some c) = join $" : " (segment <$> tiers c) ++ tail →
  (∃ d r, generateExprFromVisualConfig (Some c) = d :: r ∧ d ≠ 118 ∧ d ≠ 116) →
  tryParseVisualConfig (generateExprFromVisualConfig (Some c)) = Some (reparsed_config c).
Proof.
  intros Hok Hne Htail Hg (d & r & Ed & Hv & Ht). unfold tryParseVisualConfig.
  set (g := generateExprFromVisualConfig (Some c)) in *.
  assert (truthy g = true) as -> by by rewrite Ed.
  assert (strip_version g = g) as -> by (rewrite Ed; by apply strip_version_other).
  assert (match_whole singleRe g = None) as -> by (rewrite Ed; by apply single_fails).
  cbn [negb]. cbn zeta. unfold exec_all.
  assert (parsed_tier <$> exec_all_from tierRe [] g (S (length g)) = reparsed <$> tiers c) as ->.
  { rewrite Hg. apply exec_segments; [done..| |done]. rewrite length_app.
    pose proof (segments_length (tiers c) Hok). lia. }
  assert (forallb tier_ok (tiers c) = true) as Hok'.
  { rewrite forallb_forall in *. intros t Hin. specialize (Hok t Hin). unfold full_tier_ok in Hok.
    by apply andb_true_iff in Hok as [? _]. }
  pose proof (normalize_reparsed (tiers c) Hok' Hne) as En.
  destruct (reparsed <$> tiers c) as [|u us] eqn:Eu; [by destruct (tiers c)|].
  rewrite En, <- Eu, generate_reparsed. unfold same_text, reparsed_config. subst g. destruct c as [ts]. cbn [tiers].
  by rewrite bool_decide_eq_true_2.
Qed.

Lemma config_parse (c : VisualConfig) :
  config_ok c = true →
  tryParseVisualConfig (generateExprFromVisualConfig (Some c)) = Some (reparsed_config c).
Proof.
  intros Hc. pose proof (generated_text c Hc) as Hg. pose proof Hc as Hc'. unfold config_ok in Hc'.
  apply andb_true_iff in Hc' as [Hok Hshape].
  destruct (tiers c) as [|t [|t2 ts]] eqn:E; [done| |].
  - cbn [forallb] in Hok. rewrite andb_true_r in Hok. pose proof Hok as Hfull.
    unfold full_tier_ok in Hok. apply andb_true_iff in Hok as [Ht Hcs].
    rewrite cond_truthy in Hg by done. cbn [fmap list_fmap join] in Hg.
    destruct (segment_head t [] Hfull) as [[Hnil _]|[Hne (d & r & Hr & Hv & Htt)]].
    + rewrite Hg, bool_decide_eq_true_2, app_nil_r by done. cbn [negb].
      assert (segment t = tier_text (label t) t) as -> by (unfold segment; by rewrite Hnil).
      unfold tryParseVisualConfig.
      destruct (runs_match_whole singleRe (tier_text (label t) t) (body_caps 2 t [(1%nat, label t)])) as [b Hm].
      { rewrite <- (app_nil_r (tier_text (label t) t)). by apply (runs_named 1). }
      assert (strip_version (tier_text (label t) t) = tier_text (label t) t) as -> by by apply strip_version_other.
      change (truthy (tier_text (label t) t)) with true. cbn [negb]. cbn zeta. rewrite Hm.
      assert (matched_tier (MState b [] (body_caps 2 t [(1%nat, label t)]))
        (cap (MState b [] (body_caps 2 t [(1%nat, label t)])) 1) [] 2 = reparsed t) as ->.
      { unfold cap at 1. unfold capture. cbn [caps]. rewrite body_caps_low by lia. rewrite <- Hnil.
        apply matched_tier_spec; [done|]. apply low_caps. repeat constructor; cbn; lia. }
      pose proof (normalize_reparsed [t]) as En. cbn [forallb fmap list_fmap] in En.
      rewrite Ht in En. rewrite En by done. unfold reparsed_config. by rewrite E.
    + rewrite bool_decide_eq_false_2 in Hg by done. cbn [negb] in Hg.
      apply (several_tiers c $" : p * 0 + c * 0"); rewrite ?E; [by cbn [forallb]; rewrite Hfull|done| | |].
      * intros b. vm_compute. reflexivity.
      * exact Hg.
      * rewrite Hg. destruct (segment t) as [|x y] eqn:Es; rewrite ?app_nil_r in Hr; [done|].
        injection Hr as -> ->. by eexists _, _.
  - apply (several_tiers c []); rewrite ?E; [done|done|intros b; reflexivity|exact Hg|].
    apply andb_true_iff in Hshape as [Hfirst _]. apply negb_true_iff, bool_decide_eq_false in Hfirst.
    cbn [forallb] in Hok. apply andb_true_iff in Hok as [Hfull _]. rewrite Hg, app_nil_r.
    cbn [fmap list_fmap]. rewrite join_concat.
    destruct (segment_head t (concat ((λ w, $" : " ++ w) <$> (segment t2 :: list_fmap _ _ segment ts))) Hfull)
      as [[Hnil _]|[_ (d & r & Hr & Hv & Htt)]]; [done|]. exists d, r. split; [exact Hr|done].
Qed.

(** What is written of a configuration: the last of several tiers is the fallback,
    and its conditions are not written. *)
Definition without_conditions (t : VisualTier) : VisualTier :=
  {| label := label t; vt_conditions := []; input_unit_cost := input_unit_cost t; output_unit_cost := output_unit_cost t;
     cache_mode := cache_mode t; prices := prices t |}.

Fixpoint last_unconditional (ts : list VisualTier) : list VisualTier :=
  match ts with
  | [] => []
  | [t] => [without_conditions t]
  | t :: ts' => t :: last_unconditional ts'
  end.

Definition written_config (c : VisualConfig) : VisualConfig :=
  {| tiers := match tiers c with [t] => [t] | ts => last_unconditional ts end |}.

Lemma generate_written c :
  generateExprFromVisualConfig (Some (written_config c)) = generateExprFromVisualConfig (Some c).
Proof.
  assert (∀ ts i, tier_parts i (last_unconditional ts) = tier_parts i ts) as H.
  { intros ts. induction ts as [|t ts IH]; intros i; [done|]. destruct ts as [|t2 ts]; [done|].
    change (last_unconditional (t :: t2 :: ts)) with (t :: last_unconditional (t2 :: ts)).
    cbn [tier_parts]. rewrite IH. by destruct ts. }
  unfold written_config, generateExprFromVisualConfig. cbn [tiers]. destruct (tiers c) as [|t [|t2 ts]]; [done|done|].
  rewrite <- (H (t :: t2 :: ts) 0). by destruct ts.
Qed.

(** C7: the editor reads back what it wrote.  For a configuration whose tiers
    have a label without a quotation mark and finite prices, whose bounds are
    numbers printed without a sign, and whose first tier (of several) has a
    condition, [tryParseVisualConfig] of the generated expression gives the tiers
    that were written: the same labels, conditions and prices in order, except
    that the conditions of the last of several tiers are not written (it is the
    fallback) and the cache mode is inferred from the prices. *)
Theorem visual_config_roundtrip (c : VisualConfig) :
  config_ok (written_config c) = true →
  tryParseVisualConfig (generateExprFromVisualConfig (Some c)) = Some (reparsed_config (written_config c)).
Proof. rewrite <- generate_written. apply config_parse. Qed.

Lemma visual_config_roundtrip_witness :
  written_config sample_config = sample_config ∧
  tryParseVisualConfig (generateExprFromVisualConfig (Some sample_config)) = Some (reparsed_config (written_config sample_config)).
Proof.
  split; [vm_compute; reflexivity|]. apply (visual_config_roundtrip sample_config). vm_compute. reflexivity.
Defined.

(** ** A coefficient that is no number *)

Definition no_extras : list (jsstr * number) := (λ v, (v, S754_zero false)) <$> cacheVarNames.

Lemma no_extras_text : terms_text no_extras = [].
Proof. vm_compute. reflexivity. Qed.

(** The text of one tier with the coefficients [w] and [u]. *)
Definition two_prices (l w u : jsstr) : jsstr :=
  dq "tier('" ++ l ++ dq "', p * " ++ w ++ $" + c * " ++ u ++ $")".

Lemma two_prices_runs l w u :
  forallb not_quote l = true → numeral_text w → numeral_text u →
  runs singleRe (two_prices l w u) [] [] [(3%nat, u); (2%nat, w); (1%nat, l)].
Proof.
  intros Hl [Hw Hwn] [Hu Hun]. unfold singleRe, rseq, two_prices, bodyPat.
  assert (∀ v s, numeral_text v → stops_at is_space (v ++ s)) as Hst.
  { intros v s [Hv Hvn%numeral_no_spaces]. destruct v as [|c v]; [done|]. unfold no_spaces in Hvn.
    cbn [forallb] in Hvn. apply andb_true_iff in Hvn as [Hc _]. by apply negb_true_iff. }
  rewrite !fold_right_app. cbn [fold_right].
  change (dq "', p * ") with (dq "'," ++ 32 :: $"p" ++ 32 :: $"*" ++ [32]).
  change ($" + c * ") with (32 :: $"+" ++ 32 :: $"c" ++ 32 :: $"*" ++ [32]).
  repeat (rewrite <- app_assoc || cbn [app]).
  eapply runs_seq; [apply runs_lit|]. eapply runs_seq; [by apply runs_group_star|].
  eapply runs_seq; [apply runs_lit|]. eapply runs_seq; [by apply runs_space|].
  eapply runs_seq; [apply (runs_lit $"p")|]. eapply runs_seq; [by apply runs_space|].
  eapply runs_seq; [apply (runs_lit $"*")|]. eapply runs_seq; [by apply runs_space, Hst|].
  eapply runs_seq; [by apply runs_group_plus|].
  eapply runs_seq; [by apply runs_space|]. eapply runs_seq; [apply (runs_lit $"+")|].
  eapply runs_seq; [by apply runs_space|]. eapply runs_seq; [apply (runs_lit $"c")|].
  eapply runs_seq; [by apply runs_space|]. eapply runs_seq; [apply (runs_lit $"*")|].
  eapply runs_seq; [by apply runs_space, Hst|].
  eapply runs_seq; [by apply runs_group_plus|].
  change (extra_patterns (2 + 2) cacheVarNames) with (extra_patterns 4 no_extras.*1).
  change ($")") with ([] ++ [41]). rewrite <- no_extras_text at 2.
  apply runs_terms; [apply vars_words..| |].
  - vm_compute. by repeat constructor.
  - change (terms_caps 4 no_extras ?cs) with cs. eapply runs_seq; [apply (runs_lit $")")|apply runs_eps].
Qed.

(** C39: a coefficient that is no numeral is silently priced at zero.  The
    single-tier pattern takes any run of digits, points, exponents and signs as a
    coefficient and, unlike the several-tier reader, never compares the result
    with the expression: when [Number] of the run is NaN (as for [2-1]) the
    editor opens the expression all the same, and writes it back with the input
    price zero. *)
Theorem malformed_price_becomes_zero (l w : jsstr) (x : number) :
  truthy l = true → forallb not_quote l = true → w ≠ [] → forallb numeral_char w = true →
  number_of_string w = nan → price_ok x = true →
  ∃ cfg, tryParseVisualConfig (two_prices l w (number_text x)) = Some cfg ∧
         generateExprFromVisualConfig (Some cfg) = two_prices l $"0" (number_text x).
Proof.
  intros Htl Hl Hw Hwn Hnan Hx. destruct (price_text x Hx) as (Hne & Hxn & Ex).
  destruct (runs_match_whole singleRe (two_prices l w (number_text x))
    [(3%nat, number_text x); (2%nat, w); (1%nat, l)]) as [b Hm]; [by apply two_prices_runs|].
  unfold tryParseVisualConfig.
  assert (strip_version (two_prices l w (number_text x)) = two_prices l w (number_text x)) as ->
    by by apply strip_version_other.
  change (truthy (two_prices l w (number_text x))) with true. cbn [negb]. cbn zeta. rewrite Hm.
  eexists. split; [reflexivity|].
  set (m := MState b [] _). change (cap m 1) with l.
  unfold normalizeVisualConfig. cbn [tiers fmap list_fmap]. unfold generateExprFromVisualConfig. cbn [tiers].
  set (t := normalizeVisualTier _).
  assert (label t = l ∧ vt_conditions t = [] ∧ input_unit_cost t = nan ∧ output_unit_cost t = x) as (H1 & H2 & H3 & H4).
  { subst t m. unfold matched_tier, normalizeVisualTier, partial_of_tier. cbn.
    change (cap _ 2) with w. change (cap _ 3) with (number_text x). by rewrite Hnan, Ex. }
  assert (extra_parts t = []) as H5 by (subst t m; vm_compute; reflexivity).
  rewrite H1, H2. unfold str_or. rewrite Htl. cbn [buildConditionStr].
  unfold tier_text, buildTierBodyExpr. rewrite H3, H4, H5, (cost_ok x Hx).
  unfold two_prices. change (cost nan) with (S754_zero false). change (number_text (S754_zero false)) with ($"0").
  cbn [app join]. change (truthy (buildConditionStr [])) with false. cbn iota.
  rewrite <- !app_assoc. reflexivity.
Qed.

Lemma malformed_price_becomes_zero_witness :
  ∃ cfg, tryParseVisualConfig (dq "tier('base', p * 2-1 + c * 3)") = Some cfg ∧
         generateExprFromVisualConfig (Some cfg) = dq "tier('base', p * 0 + c * 3)".
Proof.
  exact (malformed_price_becomes_zero $"base" $"2-1" (num_of_Z 3) ltac:(vm_compute; reflexivity)
    ltac:(vm_compute; reflexivity) ltac:(discriminate) ltac:(vm_compute; reflexivity)
    ltac:(vm_compute; reflexivity) ltac:(vm_compute; reflexivity)).
Defined.
