(* ===== verification/Redirects.v ===== *)
(** * Model redirects and status code redirects

    [src/web/src/features/channels/lib]: the redirect rules of a channel
    ([model-redirect-rules.ts], [model-mapping-validation.ts]) and the guard on
    status code mappings ([status-code-risk-guard.ts]).  Both are edited as JSON
    text.  A pattern a user types is compiled by the language; [compile_regex]
    stands for that compilation ([None] where it throws). *)

From S2P Require Import Prelude JsString JsNumber NumberText JsValue Json OrderedMap.

(** ** Redirect rules *)

Inductive MatchType := Exact | Prefix | Suffix | Contains | RegexMatch.

#[global] Instance match_type_eq_dec : EqDecision MatchType.
Proof. solve_decision. Defined.

Definition MODEL_REDIRECT_MATCH_TYPES : list MatchType := [Exact; Prefix; Suffix; Contains; RegexMatch].

Definition match_type_text (t : MatchType) : jsstr :=
  match t with
  | Exact => $"exact" | Prefix => $"prefix" | Suffix => $"suffix"
  | Contains => $"contains" | RegexMatch => $"regex"
  end.

Definition MAX_MODEL_REDIRECT_RULES : Z := 100.
Definition MAX_MODEL_REDIRECT_SOURCE_LENGTH : Z := 512.
Definition MAX_MODEL_REDIRECT_TARGET_LENGTH : Z := 255.

Record ModelRedirectRule := { match_type : MatchType; source : jsstr; target : jsstr }.

#[global] Instance rule_eq_dec : EqDecision ModelRedirectRule.
Proof. solve_decision. Defined.

Definition isRecord (v : value) : bool := match v with VObj _ => true | _ => false end.

(** [isMatchType], with the type it narrows to *)
Definition isMatchType (v : value) : option MatchType :=
  match v with
  | VStr s => List.find (λ t, bool_decide (match_type_text t = s)) MODEL_REDIRECT_MATCH_TYPES
  | _ => None
  end.

Definition compare_keys (a b : jsstr * value) : Z := code_unit_compare a.1 b.1.

Definition rule_of_item (item : value) : ModelRedirectRule :=
  if negb (isRecord item) then {| match_type := Exact; source := []; target := [] |}
  else {| match_type := default Exact (isMatchType (get item $"match_type"));
          source := str_of (get item $"source");
          target := str_of (get item $"target") |}.

Definition normalizeModelRedirectRules (v : value) : list ModelRedirectRule :=
  match v with
  | VObj fields =>
    (λ kv, {| match_type := Exact; source := kv.1; target := str_of kv.2 |})
      <$> js_sort compare_keys fields
  | VArr items => rule_of_item <$> items
  | _ => []
  end.

(** [None] is the SyntaxError of [JSON.parse]. *)
Definition parseModelRedirectRules (v : jsstr) : option (list ModelRedirectRule) :=
  if negb (truthy (trim v)) then Some [] else normalizeModelRedirectRules <$> json_parse v.

Definition rule_value (r : ModelRedirectRule) : value :=
  VObj [($"match_type", VStr (match_type_text (match_type r)));
        ($"source", VStr (source r)); ($"target", VStr (target r))].

Definition stringifyModelRedirectRules (rules : list ModelRedirectRule) : jsstr :=
  match rules with
  | [] => []
  | _ => default [] (json_stringify $"  " (VArr (rule_value <$> rules)))
  end.

(** The argument may be null or undefined. *)
Definition normalizeModelRedirectJson (v : option jsstr) : jsstr :=
  let text := default [] v in
  if negb (truthy (trim text)) then []
  else match parseModelRedirectRules text with
  | Some rules => stringifyModelRedirectRules rules
  | None => text
  end.

Section Matching.
Context (compile_regex : jsstr → option (jsstr → bool)).

Definition ruleMatches (model : jsstr) (rule : ModelRedirectRule) : bool :=
  match match_type rule with
  | Exact => bool_decide (model = source rule)
  | Prefix => starts_with (source rule) model
  | Suffix => ends_with (source rule) model
  | Contains => includes (source rule) model
  | RegexMatch =>
    match compile_regex (source rule) with Some matches => matches model | None => false end
  end.

Definition usable (model : jsstr) (rule : ModelRedirectRule) : bool :=
  truthy (source rule) && truthy (target rule) && ruleMatches model rule.

Fixpoint first_redirect (model : jsstr) (index : nat) (rules : list ModelRedirectRule)
    : option (nat * ModelRedirectRule) :=
  match rules with
  | [] => None
  | rule :: rules' =>
    if usable model rule then Some (index, rule) else first_redirect model (S index) rules'
  end.

Definition findFirstModelRedirect (model : jsstr) (rules : list ModelRedirectRule)
    : option (nat * ModelRedirectRule) :=
  first_redirect model 0 rules.

(** ** Validation: [None] is valid, otherwise the message. *)

Definition too_long (s : jsstr) (n : Z) : bool := n <? Z.of_nat (length s).

Definition item_error (item : value) : option jsstr :=
  if negb (isRecord item) then Some $"Each model redirect rule must be an object"
  else match isMatchType (get item $"match_type") with
  | None => Some $"Invalid model redirect match type"
  | Some t =>
    let s := get item $"source" in
    let d := get item $"target" in
    if negb (is_string s) || negb (truthy (trim (str_of s))) || negb (is_string d)
       || negb (truthy (trim (str_of d)))
    then Some $"Model redirect source and target are required"
    else if too_long (str_of s) MAX_MODEL_REDIRECT_SOURCE_LENGTH
            || too_long (str_of d) MAX_MODEL_REDIRECT_TARGET_LENGTH
    then Some $"Model redirect rule is too long"
    else match t with
    | RegexMatch =>
      match compile_regex (str_of s) with
      | Some _ => None
      | None => Some $"Model redirect regex is invalid"
      end
    | _ => None
    end
  end.

Definition identity (item : value) : jsstr :=
  str_of (get item $"match_type") ++ [0] ++ str_of (get item $"source").

Fixpoint items_error (seen : list jsstr) (items : list value) : option jsstr :=
  match items with
  | [] => None
  | item :: items' =>
    match item_error item with
    | Some e => Some e
    | None =>
      if bool_decide (identity item ∈ seen)
      then Some $"Duplicate model redirect rules are not allowed"
      else items_error (os_add seen (identity item)) items'
    end
  end.

Definition validateModelRedirectRules (v : jsstr) : option jsstr :=
  if negb (truthy (trim v)) then None
  else match json_parse v with
  | None => Some $"Model redirect rules must be valid JSON"
  | Some (VObj fields) =>
    if existsb (λ kv, negb (is_string kv.2)) fields
    then Some $"Legacy model mapping values must be strings" else None
  | Some (VArr items) =>
    if MAX_MODEL_REDIRECT_RULES <? Z.of_nat (length items)
    then Some $"Too many model redirect rules"
    else items_error [] items
  | Some _ => Some $"Model redirect rules must be a JSON array"
  end.

Definition validateModelMappingJson (modelMapping : jsstr) : option jsstr :=
  if negb (truthy modelMapping) || negb (truthy (trim modelMapping)) then None
  else validateModelRedirectRules modelMapping.
End Matching.

(** ** The models a mapping names *)

Definition parseModelsString (modelsStr : jsstr) : list jsstr :=
  if truthy modelsStr then List.filter truthy (trim <$> split 44 modelsStr) else [].

Definition formatModelsArray (models : list jsstr) : jsstr := join [44] (os_of_list models).

Definition normalizeModelName (model : jsstr) : jsstr := trim model.

Definition extractMappingSourceModels (modelMapping : jsstr) : list jsstr :=
  let trimmed := trim modelMapping in
  if negb (truthy trimmed) then []
  else match parseModelRedirectRules trimmed with
  | Some rules =>
    os_of_list (List.filter truthy
      ((λ r, trim (source r)) <$> List.filter (λ r, bool_decide (match_type r = Exact)) rules))
  | None => []
  end.

Definition extractRedirectModels (modelMapping : jsstr) : list jsstr :=
  let trimmed := trim modelMapping in
  if negb (truthy trimmed) then []
  else match parseModelRedirectRules trimmed with
  | Some rules => os_of_list (List.filter truthy ((λ r, trim (target r)) <$> rules))
  | None => []
  end.

Definition findExposedTargetModels (modelMapping : jsstr) (currentModels : list jsstr) : list jsstr :=
  let redirectModels := extractRedirectModels modelMapping in
  let modelSet := os_of_list (normalizeModelName <$> currentModels) in
  List.filter (λ m, bool_decide (normalizeModelName m ∈ modelSet)) redirectModels.

Record ModelSets := {
  normalizedCurrentModels : list jsstr;
  normalizedRedirectModels : list jsstr;
  classificationSet : list jsstr;
  redirectOnlySet : list jsstr
}.

Definition categorizeModelsWithRedirect (currentModels redirectModels : list jsstr) : ModelSets :=
  let current := os_of_list (List.filter truthy (normalizeModelName <$> currentModels)) in
  let redirect := os_of_list (List.filter truthy (normalizeModelName <$> redirectModels)) in
  {| normalizedCurrentModels := current;
     normalizedRedirectModels := redirect;
     classificationSet := os_of_list (current ++ redirect);
     redirectOnlySet := os_of_list (List.filter (λ m, negb (bool_decide (m ∈ current))) redirect) |}.

(** ** Status code redirects *)

Definition NON_REDIRECTABLE_STATUS_CODES : list Z := [504; 524].

(** [/^[1-5]\d{2}$/] *)
Definition is_status_code (s : jsstr) : bool :=
  match s with
  | [a; b; c] => (49 <=? a) && (a <=? 53) && is_digit b && is_digit c
  | _ => false
  end.

Definition parseStatusCodeKey (rawKey : jsstr) : option Z :=
  let normalized := trim rawKey in
  if negb (is_status_code normalized) then None else Some (parse_digits normalized).

Definition parseStatusCodeMappingTarget (rawValue : value) : option Z :=
  match rawValue with
  | VNum n =>
    match Z_of_num n with
    | Some code => if (100 <=? code) && (code <=? 599) then Some code else None
    | None => None
    end
  | VStr s =>
    let normalized := trim s in
    if negb (is_status_code normalized) then None
    else
      let code := parse_digits normalized in
      if (100 <=? code) && (code <=? 599) then Some code else None
  | _ => None
  end.

(** The entries of the mapping; none when it is blank, malformed or no object. *)
Definition mapping_entries (str : jsstr) : list (jsstr * value) :=
  if negb (truthy (trim str)) then []
  else match json_parse str with Some (VObj fields) => fields | _ => [] end.

Definition collectInvalidStatusCodeEntries (str : jsstr) : list jsstr :=
  omap (λ kv,
    match parseStatusCodeKey kv.1, parseStatusCodeMappingTarget kv.2 with
    | Some _, Some _ => None
    | _, _ => Some (kv.1 ++ $" → " ++ value_text kv.2)
    end) (mapping_entries str).

Definition risky_entry (kv : jsstr * value) : option (Z * Z) :=
  fromCode ← parseStatusCodeKey kv.1;
  toCode ← parseStatusCodeMappingTarget kv.2;
  if negb (bool_decide (fromCode ∈ NON_REDIRECTABLE_STATUS_CODES)) then None
  else if fromCode =? toCode then None
  else Some (fromCode, toCode).

Definition redirect_text (r : Z * Z) : jsstr := string_of_Z r.1 ++ $" -> " ++ string_of_Z r.2.

Definition collectDisallowedStatusCodeRedirects (str : jsstr) : list jsstr :=
  js_sort code_unit_compare (os_of_list (redirect_text <$> omap risky_entry (mapping_entries str))).

Definition collectNewDisallowedStatusCodeRedirects (originalStr currentStr : jsstr) : list jsstr :=
  let currentRisky := collectDisallowedStatusCodeRedirects currentStr in
  let originalRisky := os_of_list (collectDisallowedStatusCodeRedirects originalStr) in
  List.filter (λ m, negb (bool_decide (m ∈ originalRisky))) currentRisky.

Example disallowed_example :
  collectNewDisallowedStatusCodeRedirects (dq "{'504': 200}")
    (dq "{'524': '502', '504': 200, '429': 200, '504 ': 503}") = [$"504 -> 503"; $"524 -> 502"].
Proof. vm_compute. reflexivity. Qed.

Example redirect_example :
  normalizeModelRedirectJson (Some (dq "{'b': 'y', 'a': 'x'}")) =
    stringifyModelRedirectRules [{| match_type := Exact; source := $"a"; target := $"x" |};
                                 {| match_type := Exact; source := $"b"; target := $"y" |}].
Proof. vm_compute. reflexivity. Qed.

(** ** Rules survive their text *)

Definition rule_units (r : ModelRedirectRule) : bool :=
  forallb code_unit (source r) && forallb code_unit (target r).

Lemma match_type_inv t : isMatchType (VStr (match_type_text t)) = Some t.
Proof. by destruct t. Qed.

Lemma rule_of_value r : rule_of_item (rule_value r) = r.
Proof.
  destruct r as [t s d]. unfold rule_of_item, rule_value. cbn [isRecord negb].
  change (get _ $"match_type") with (VStr (match_type_text t)).
  change (get _ $"source") with (VStr s). change (get _ $"target") with (VStr d).
  by rewrite match_type_inv.
Qed.

Lemma rule_value_ok r : rule_units r = true → json_ok (rule_value r) = true.
Proof.
  unfold rule_units. intros [Hs Hd]%andb_true_iff. unfold rule_value. cbn [json_ok forallb fst snd].
  rewrite Hs, Hd. assert (forallb code_unit (match_type_text (match_type r)) = true) as ->
    by by destruct (match_type r).
  vm_compute. reflexivity.
Qed.

Lemma rules_value_ok rules :
  forallb rule_units rules = true → json_ok (VArr (rule_value <$> rules)) = true.
Proof.
  intros H. cbn [json_ok]. rewrite forallb_forall in *. intros v Hv. apply list_elem_of_In in Hv.
  apply list_elem_of_fmap in Hv as (r & -> & Hr). apply rule_value_ok, H. by apply list_elem_of_In.
Qed.

Lemma trim_ne c s : is_space c = false → truthy (trim (c :: s)) = true.
Proof.
  intros Hc. unfold trim. cbn [trim_start]. rewrite Hc.
  destruct (trim_end_cons c s Hc) as [s' ->]. done.
Qed.

(** What the text of some rules parses to. *)
Lemma stringified_rules rules :
  forallb rule_units rules = true → rules ≠ [] →
  truthy (trim (stringifyModelRedirectRules rules)) = true ∧
  json_parse (stringifyModelRedirectRules rules) = Some (VArr (rule_value <$> rules)).
Proof.
  intros Hu Hne. destruct (parse_stringify $"  " ltac:(done) _ (rules_value_ok rules Hu)) as (t & Et & Ep).
  assert (stringifyModelRedirectRules rules = t) as ->.
  { unfold stringifyModelRedirectRules. destruct rules; [done|]. by rewrite Et. }
  split; [|done]. unfold json_stringify in Et. cbn [stringify_at] in Et. injection Et as <-.
  unfold bracket. destruct rules as [|r rules]; [done|]. by apply trim_ne.
Qed.

Lemma stringified_parse rules :
  forallb rule_units rules = true →
  parseModelRedirectRules (stringifyModelRedirectRules rules) = Some rules.
Proof.
  intros Hu. destruct rules as [|r rules]; [done|].
  destruct (stringified_rules (r :: rules) Hu ltac:(done)) as [Ht Hp].
  unfold parseModelRedirectRules. rewrite Ht, Hp. cbn [negb fmap option_fmap option_map normalizeModelRedirectRules].
  f_equal. change (rule_of_item <$> (rule_value <$> r :: rules) = r :: rules).
  rewrite <- list_fmap_compose. rewrite <- (list_fmap_id (r :: rules)) at 2.
  apply list_fmap_ext. intros i x _. apply rule_of_value.
Qed.

(** Redirect rules survive their text.  Rules written out by
    [stringifyModelRedirectRules] are read back by [parseModelRedirectRules]
    unchanged and in order. *)
Theorem redirect_rules_roundtrip (rules : list ModelRedirectRule) :
  forallb rule_units rules = true →
  parseModelRedirectRules (stringifyModelRedirectRules rules) = Some rules.
Proof. apply stringified_parse. Qed.

Definition sample_rules : list ModelRedirectRule :=
  [{| match_type := Prefix; source := $"gpt-"; target := $"gpt-4o" |};
   {| match_type := Exact; source := $"claude"; target := $"claude-sonnet" |}].

Lemma redirect_rules_roundtrip_witness :
  parseModelRedirectRules (stringifyModelRedirectRules sample_rules) = Some sample_rules.
Proof. apply (redirect_rules_roundtrip sample_rules). vm_compute. reflexivity. Defined.

(** ** Which rules are accepted *)

Section Accepted.
Context (compile_regex : jsstr → option (jsstr → bool)).

(** A rule an administrator may save. *)
Definition acceptable (r : ModelRedirectRule) : Prop :=
  trim (source r) ≠ [] ∧ trim (target r) ≠ [] ∧
  Z.of_nat (length (source r)) ≤ 512 ∧ Z.of_nat (length (target r)) ≤ 255 ∧
  (match_type r = RegexMatch → is_Some (compile_regex (source r))).

Lemma item_error_rule r : item_error compile_regex (rule_value r) = None ↔ acceptable r.
Proof.
  destruct r as [t s d]. unfold item_error, acceptable, rule_value. cbn [isRecord negb].
  change (get _ $"match_type") with (VStr (match_type_text t)).
  change (get _ $"source") with (VStr s). change (get _ $"target") with (VStr d).
  rewrite match_type_inv. cbn [is_string negb orb str_of source target match_type].
  unfold too_long, MAX_MODEL_REDIRECT_SOURCE_LENGTH, MAX_MODEL_REDIRECT_TARGET_LENGTH.
  rewrite orb_false_r.
  destruct (truthy (trim s)) eqn:Es; cbn [negb orb]; [|destruct (trim s); naive_solver].
  destruct (truthy (trim d)) eqn:Ed; cbn [negb orb]; [|destruct (trim d); naive_solver].
  assert (trim s ≠ []) by by destruct (trim s). assert (trim d ≠ []) by by destruct (trim d).
  destruct (512 <? _) eqn:E1; cbn [orb]; [bool_hyps; split; [done|intros (_&_&?&_); lia]|].
  destruct (255 <? _) eqn:E2; cbn [orb]; [bool_hyps; split; [done|intros (_&_&_&?&_); lia]|].
  bool_hyps. destruct t; try (split; [intros _; split_and!; [done..|lia|lia|done]|done]).
  destruct (compile_regex s) as [f|] eqn:Ef.
  - split; [intros _; split_and!; [done..|lia|lia|by exists f]|done].
  - split; [done|]. intros (_&_&_&_&H1). by destruct (H1 eq_refl).
Qed.

Definition rule_key (r : ModelRedirectRule) : MatchType * jsstr := (match_type r, source r).

Lemma match_type_text_sep t : 0 ∉ match_type_text t.
Proof. rewrite list_elem_of_In. destruct t; vm_compute; naive_solver lia. Qed.

Lemma identity_inj r1 r2 : identity (rule_value r1) = identity (rule_value r2) ↔ rule_key r1 = rule_key r2.
Proof.
  destruct r1 as [t1 s1 d1], r2 as [t2 s2 d2]. unfold identity, rule_value, rule_key.
  change (str_of (get _ $"match_type")) with (match_type_text t1) at 1.
  change (str_of (get _ $"source")) with s1 at 1.
  change (str_of (get _ $"match_type")) with (match_type_text t2).
  change (str_of (get _ $"source")) with s2. cbn [app match_type source]. split; [|by intros [= -> ->]].
  intros [Ht ->]%sep_inj; [|apply match_type_text_sep..].
  f_equal. by destruct t1, t2.
Qed.

Lemma items_error_rules seen rules :
  items_error compile_regex seen (rule_value <$> rules) = None ↔
  Forall acceptable rules ∧ NoDup (rule_key <$> rules) ∧
  Forall (λ r, identity (rule_value r) ∉ seen) rules.
Proof.
  revert seen. induction rules as [|r rules IH]; intros seen; cbn [items_error fmap list_fmap].
  { split; [intros _; repeat split; constructor|done]. }
  rewrite !Forall_cons, NoDup_cons. pose proof (item_error_rule r) as Hr.
  destruct (item_error compile_regex (rule_value r)); [naive_solver|].
  destruct (bool_decide _) eqn:Es; bool_hyps; [naive_solver|].
  unfold fmap in IH. rewrite IH. setoid_rewrite elem_of_os_add.
  split.
  - intros (Ha & Hn & Hs). split_and!; [naive_solver|done| |done|done|].
    + intros (r' & He & Hin)%list_elem_of_fmap. rewrite Forall_forall in Hs.
      apply (Hs r' Hin). right. by apply identity_inj.
    + eapply Forall_impl; [exact Hs|]. naive_solver.
  - intros ([_ Ha] & [Hk Hn] & [_ Hs]). split_and!; [done..|].
    rewrite Forall_forall in *. intros r' Hin [?|He]; [by eapply Hs|].
    apply Hk, list_elem_of_fmap. exists r'. split; [symmetry; by apply identity_inj|done].
Qed.

Lemma validation_of_text rules :
  forallb rule_units rules = true →
  validateModelRedirectRules compile_regex (stringifyModelRedirectRules rules) = None ↔
  (length rules <= 100)%nat ∧ Forall acceptable rules ∧ NoDup (rule_key <$> rules).
Proof.
  intros Hu. destruct rules as [|r rules].
  { split; [intros _; split_and!; [simpl; lia|constructor..]|done]. }
  destruct (stringified_rules (r :: rules) Hu ltac:(done)) as [Ht Hp].
  unfold validateModelRedirectRules. rewrite Ht, Hp. cbn [negb].
  rewrite length_fmap. unfold MAX_MODEL_REDIRECT_RULES.
  destruct (100 <? _) eqn:E; bool_hyps; [split; [done|lia]|].
  rewrite items_error_rules. setoid_rewrite elem_of_nil.
  split; [intros (?&?&_); split_and!; [lia|done..]|intros (?&?&?); split_and!; [done..|]].
  apply Forall_true. naive_solver.
Qed.

(** C24: the validation of redirect rules is exact.  The text of a list of rules
    is accepted exactly when there are at most 100 rules, every rule has a
    non-blank source of at most 512 and a non-blank target of at most 255 code
    units, a regular expression compiles, and no two rules have both the same
    match type and the same source. *)
Theorem redirect_validation_exact (rules : list ModelRedirectRule) :
  forallb rule_units rules = true →
  validateModelRedirectRules compile_regex (stringifyModelRedirectRules rules) = None ↔
  (length rules <= 100)%nat ∧ Forall acceptable rules ∧ NoDup (rule_key <$> rules).
Proof. apply validation_of_text. Qed.

(** ** The rule that applies *)

Lemma first_redirect_spec model rules n i r :
  first_redirect compile_regex model n rules = Some (i, r) ↔
  ∃ k, i = (n + k)%nat ∧ rules !! k = Some r ∧ usable compile_regex model r = true ∧
       ∀ j r', (j < k)%nat → rules !! j = Some r' → usable compile_regex model r' = false.
Proof.
  revert n. induction rules as [|x rules IH]; intros n; cbn [first_redirect].
  { split; [done|]. by intros (k & _ & H & _). }
  destruct (usable compile_regex model x) eqn:Eu.
  - split.
    + intros [= <- <-]. exists 0%nat. split_and!; [lia|done|done|intros; lia].
    + intros ([|k] & -> & Hk & Hr & Hj); [simplify_list_eq; f_equal; f_equal; lia|].
      by rewrite (Hj 0%nat x) in Eu by (done || lia).
  - rewrite IH. split.
    + intros (k & -> & Hk & Hr & Hj). exists (S k). split_and!; [lia|done|done|].
      intros [|j] r' Hlt Hl; [by simplify_list_eq|]. apply (Hj j); [lia|done].
    + intros ([|k] & -> & Hk & Hr & Hj); [simplify_list_eq; congruence|].
      exists k. split_and!; [lia|done|done|]. intros j r' Hlt Hl. apply (Hj (S j)); [lia|done].
Qed.

Lemma first_redirect_none model rules n :
  first_redirect compile_regex model n rules = None ↔
  Forall (λ r, usable compile_regex model r = false) rules.
Proof.
  revert n. induction rules as [|x rules IH]; intros n; cbn [first_redirect].
  { split; [constructor|done]. }
  rewrite Forall_cons. destruct (usable compile_regex model x); [naive_solver|]. rewrite IH. naive_solver.
Qed.

Lemma usable_acceptable model r : acceptable r → usable compile_regex model r = ruleMatches compile_regex model r.
Proof.
  intros (Hs & Hd & _). unfold usable.
  destruct (source r) eqn:E1, (target r) eqn:E2; try done.
Qed.

(** Saved rules redirect as written.  When the validation accepts the text
    of a list of rules, reading the text back and looking a model up finds the
    first rule that matches the model, whatever its position, and finds none
    only when no rule matches. *)
Theorem accepted_redirects (rules : list ModelRedirectRule) (model : jsstr) :
  forallb rule_units rules = true →
  validateModelRedirectRules compile_regex (stringifyModelRedirectRules rules) = None →
  ∃ stored, parseModelRedirectRules (stringifyModelRedirectRules rules) = Some stored ∧
    (∀ i r, findFirstModelRedirect compile_regex model stored = Some (i, r) ↔
      rules !! i = Some r ∧ ruleMatches compile_regex model r = true ∧
      ∀ j r', (j < i)%nat → rules !! j = Some r' → ruleMatches compile_regex model r' = false) ∧
    (findFirstModelRedirect compile_regex model stored = None ↔
      ∀ r, r ∈ rules → ruleMatches compile_regex model r = false).
Proof.
  intros Hu Hv. exists rules. split; [by apply stringified_parse|].
  apply validation_of_text in Hv as (_ & Ha & _); [|done]. rewrite Forall_forall in Ha.
  assert (∀ j r, rules !! j = Some r → usable compile_regex model r = ruleMatches compile_regex model r)
    as Hm by (intros j r Hr; apply usable_acceptable, Ha; by eapply list_elem_of_lookup_2).
  unfold findFirstModelRedirect. split.
  - intros i r. rewrite first_redirect_spec. cbn [Nat.add]. split.
    + intros (k & <- & Hk & Hr & Hj). rewrite <- (Hm _ _ Hk). split_and!; [done..|].
      intros j r' Hlt Hl. rewrite <- (Hm _ _ Hl). eauto.
    + intros (Hk & Hr & Hj). exists i. rewrite (Hm _ _ Hk). split_and!; [done..|].
      intros j r' Hlt Hl. rewrite (Hm _ _ Hl). eauto.
  - rewrite first_redirect_none, Forall_forall. split; intros H r Hin; specialize (H r Hin);
      [rewrite <- usable_acceptable by auto|rewrite usable_acceptable by auto]; done.
Qed.
End Accepted.

(** Patterns taken literally: a concrete compilation. *)
Definition literal_regex (pattern : jsstr) : option (jsstr → bool) :=
  if includes $"(" pattern then None else Some (includes pattern).

Lemma redirect_validation_exact_witness :
  NoDup (rule_key <$> sample_rules) ∧ Forall (acceptable literal_regex) sample_rules.
Proof.
  assert (validateModelRedirectRules literal_regex (stringifyModelRedirectRules sample_rules) = None)
    as H by (vm_compute; reflexivity).
  assert (forallb rule_units sample_rules = true) as Hu by (vm_compute; reflexivity).
  split; apply (redirect_validation_exact literal_regex sample_rules Hu) in H; tauto.
Defined.

Lemma accepted_redirects_witness :
  ∃ stored, parseModelRedirectRules (stringifyModelRedirectRules sample_rules) = Some stored ∧
    findFirstModelRedirect literal_regex $"gpt-5" stored = Some (0%nat, {| match_type := Prefix; source := $"gpt-"; target := $"gpt-4o" |}).
Proof.
  destruct (accepted_redirects literal_regex sample_rules $"gpt-5") as (stored & Hp & Hf & _);
    [vm_compute; reflexivity..|].
  exists stored. split; [done|]. apply Hf. split_and!; [done|vm_compute; reflexivity|lia].
Defined.

(** ** Status code redirects that are refused *)

(** The mapping redirects [fromCode], one of the codes that may not be
    redirected, to another code. *)
Definition redirects (str : jsstr) (fromCode toCode : Z) : Prop :=
  (fromCode = 504 ∨ fromCode = 524) ∧ fromCode ≠ toCode ∧
  ∃ key v, (key, v) ∈ mapping_entries str ∧
    parseStatusCodeKey key = Some fromCode ∧ parseStatusCodeMappingTarget v = Some toCode.

Lemma risky_entries str r :
  r ∈ omap risky_entry (mapping_entries str) ↔ redirects str r.1 r.2.
Proof.
  rewrite list_elem_of_omap. unfold redirects, risky_entry. destruct r as [a b]. cbn [fst snd]. split.
  - intros ([k v] & Hin & H). cbn [fst snd] in H.
    destruct (parseStatusCodeKey k) as [f|] eqn:Ek; [|done]. cbn [mbind option_bind] in H.
    destruct (parseStatusCodeMappingTarget v) as [t|] eqn:Ev; [|done]. cbn [mbind option_bind] in H.
    destruct (bool_decide _) eqn:Eb; bool_hyps; cbn [negb] in H; [|done].
    destruct (f =? t) eqn:Ef; bool_hyps; [done|]. injection H as <- <-.
    split_and!; [|done|eauto]. unfold NON_REDIRECTABLE_STATUS_CODES in Eb.
    rewrite !elem_of_cons, elem_of_nil in Eb. tauto.
  - intros (Hf & Hne & k & v & Hin & Hk & Hv). exists (k, v). split; [done|]. cbn [fst snd].
    rewrite Hk, Hv. cbn [mbind option_bind].
    rewrite bool_decide_true by (unfold NON_REDIRECTABLE_STATUS_CODES; rewrite !elem_of_cons; tauto).
    cbn [negb]. by destruct (Z.eqb_spec a b).
Qed.

Lemma target_range v t : parseStatusCodeMappingTarget v = Some t → 100 ≤ t ≤ 599.
Proof. unfold parseStatusCodeMappingTarget. destruct v; repeat case_match; naive_solver (bool_hyps; lia). Qed.

Lemma redirect_text_inj str1 str2 a b c d :
  redirects str1 a b → redirects str2 c d → redirect_text (a, b) = redirect_text (c, d) → a = c ∧ b = d.
Proof.
  intros (Ha & _ & _ & v & _ & _ & Hb%target_range) (Hc & _ & _ & w & _ & _ & Hd%target_range) H.
  unfold redirect_text in H. cbn [fst snd] in H.
  apply app_inj_1 in H as [H1 H2]; [|by destruct Ha as [->| ->], Hc as [->| ->]].
  apply app_inj_1 in H2 as [_ H2]; [|done].
  split; apply string_of_Z_inj; [lia..|done|lia|lia|done].
Qed.

Lemma disallowed_spec str m :
  m ∈ collectDisallowedStatusCodeRedirects str ↔ ∃ f t, redirects str f t ∧ m = redirect_text (f, t).
Proof.
  unfold collectDisallowedStatusCodeRedirects.
  rewrite elem_of_js_sort, elem_of_os_of_list, list_elem_of_fmap. split.
  - intros ([f t] & -> & H%risky_entries). eauto.
  - intros (f & t & H & ->). exists (f, t). split; [done|]. by apply risky_entries.
Qed.

Lemma disallowed_NoDup str : NoDup (collectDisallowedStatusCodeRedirects str).
Proof. unfold collectDisallowedStatusCodeRedirects. rewrite js_sort_perm. apply os_of_list_NoDup. Qed.

(** The guard on status code mappings is exact.  Comparing the mapping
    before and after an edit reports each redirect of 504 or 524 to another code
    that the edited mapping has and the original does not, once, in the order of
    the code units, and nothing else. *)
Theorem new_redirects_exact (originalStr currentStr : jsstr) :
  let reported := collectNewDisallowedStatusCodeRedirects originalStr currentStr in
  (∀ f t, redirects currentStr f t →
     redirect_text (f, t) ∈ reported ↔ ¬ redirects originalStr f t) ∧
  (∀ m, m ∈ reported → ∃ f t, redirects currentStr f t ∧ m = redirect_text (f, t)) ∧
  NoDup reported ∧ StronglySorted (λ a b, code_unit_compare a b ≤ 0) reported.
Proof.
  cbv zeta. unfold collectNewDisallowedStatusCodeRedirects. split_and!.
  - intros f t Hc. rewrite elem_of_js_filter, negb_true_iff, bool_decide_eq_false, elem_of_os_of_list, !disallowed_spec.
    split.
    + intros [_ Hn] Ho. apply Hn. eauto.
    + intros Hn. split; [eauto|]. intros (f' & t' & Ho & E).
      destruct (redirect_text_inj _ _ _ _ _ _ Hc Ho E) as [-> ->]. done.
  - intros m [Hm _]%elem_of_js_filter. by apply disallowed_spec.
  - apply NoDup_js_filter, disallowed_NoDup.
  - apply sorted_js_filter. unfold collectDisallowedStatusCodeRedirects. apply js_sort_sorted. apply _.
Qed.

Definition sample_mapping : jsstr := dq "{'524': '502', '504': 200, '429': 200}".

Lemma new_redirects_exact_witness :
  redirect_text (504, 200) ∈ collectNewDisallowedStatusCodeRedirects [] sample_mapping.
Proof.
  apply (new_redirects_exact [] sample_mapping).
  - split_and!; [lia|lia|]. exists $"504", (VNum (num_lit 200 0)).
    split_and!; [|vm_compute; reflexivity..].
    apply (list_elem_of_lookup_2 _ 1). vm_compute. reflexivity.
  - by intros (_ & _ & k & v & H%not_elem_of_nil & _).
Defined.

(** ** The legacy format *)

Definition legacy_rule (kv : jsstr * value) : ModelRedirectRule :=
  {| match_type := Exact; source := kv.1; target := str_of kv.2 |}.

Lemma legacy_rules fields :
  normalizeModelRedirectRules (VObj fields) = legacy_rule <$> js_sort compare_keys fields.
Proof. done. Qed.

Lemma usable_legacy cr model kv :
  usable cr model (legacy_rule kv) = true ↔
  model ≠ [] ∧ ∃ t, t ≠ [] ∧ kv = (model, VStr t).
Proof.
  destruct kv as [k v]. unfold usable, ruleMatches, legacy_rule. cbn [match_type source target fst snd].
  rewrite !andb_true_iff, bool_decide_eq_true. split.
  - intros [[Hk Hv] ->]. destruct v; try done. split; [by destruct k|]. exists s. split; [by destruct s|done].
  - intros (Hm & t & Ht & [= -> ->]). split_and!; [by destruct model|by destruct t|done].
Qed.

Lemma NoDup_fst_inj {A B} (l : list (A * B)) a x y :
  NoDup l.*1 → (a, x) ∈ l → (a, y) ∈ l → x = y.
Proof.
  intros Hl Hx%list_elem_of_lookup_1 Hy%list_elem_of_lookup_1. destruct Hx as [i Hi], Hy as [j Hj].
  assert (i = j) as -> by
    (eapply (NoDup_lookup l.*1); [done|..]; rewrite list_lookup_fmap, ?Hi, ?Hj; done).
  by simplify_eq.
Qed.

(** A legacy mapping keeps its meaning as rules.  A mapping object read as
    redirect rules redirects a model to [t] exactly when the object maps the
    model to the non-empty string [t], whatever the order of its keys. *)
Theorem legacy_mapping_meaning (compile_regex : jsstr → option (jsstr → bool))
    (fields : list (jsstr * value)) (model t : jsstr) :
  NoDup fields.*1 →
  (target ∘ snd) <$> findFirstModelRedirect compile_regex model (normalizeModelRedirectRules (VObj fields)) = Some t
  ↔ model ≠ [] ∧ t ≠ [] ∧ (model, VStr t) ∈ fields.
Proof.
  intros Hnd. rewrite legacy_rules. unfold findFirstModelRedirect.
  set (rules := legacy_rule <$> _).
  assert (∀ r, r ∈ rules ↔ ∃ kv, kv ∈ fields ∧ r = legacy_rule kv) as Hr.
  { intros r. unfold rules. rewrite list_elem_of_fmap. setoid_rewrite elem_of_js_sort. naive_solver. }
  destruct (first_redirect compile_regex model 0 rules) as [[i r]|] eqn:E.
  - apply first_redirect_spec in E as (k & _ & Hk%list_elem_of_lookup_2 & Hu & _).
    apply Hr in Hk as (kv & Hin & ->). apply usable_legacy in Hu as (Hm & t' & Ht' & ->).
    cbn [fmap option_fmap option_map compose snd target legacy_rule str_of fst]. split; [naive_solver|].
    intros (_ & Ht & Hin'). f_equal. by pose proof (NoDup_fst_inj fields model _ _ Hnd Hin Hin') as [= ->].
  - split; [done|]. intros (Hm & Ht & Hin). apply first_redirect_none in E. rewrite Forall_forall in E.
    assert (usable compile_regex model (legacy_rule (model, VStr t)) = true) as Hu
      by (apply usable_legacy; eauto).
    rewrite E in Hu; [done|]. apply Hr. eauto.
Qed.

Lemma legacy_mapping_meaning_witness :
  (target ∘ snd) <$> findFirstModelRedirect literal_regex $"b"
    (normalizeModelRedirectRules (VObj [($"b", VStr $"y"); ($"a", VStr $"x")])) = Some $"y".
Proof.
  apply (legacy_mapping_meaning literal_regex [($"b", VStr $"y"); ($"a", VStr $"x")] $"b" $"y").
  - apply (bool_decide_eq_true_1 (NoDup _)). vm_compute. reflexivity.
  - split_and!; [done|done|left].
Defined.
