(* ===== verification/JsonEditor.v ===== *)
(** * The JSON text editor

    [src/web/src/components/json-code-editor/json-code-editor-utils.ts]: the
    status and the formatting of a draft, the caret's position, the new line an
    Enter inserts, and the synchronisation of the highlighted layers with the
    scrolled text area. *)

From S2P Require Import Prelude JsString JsNumber NumberText JsValue Json OrderedMap JsObject.

(** ** Drafts *)

Record JsonValidationState := { isValid : bool; messageKey : jsstr }.

Definition getJsonValidationState (v : jsstr) : JsonValidationState :=
  let trimmed := trim v in
  if negb (truthy trimmed) then {| isValid := true; messageKey := $"JSON" |}
  else match json_parse trimmed with
  | Some _ => {| isValid := true; messageKey := $"JSON" |}
  | None => {| isValid := false; messageKey := $"Invalid JSON" |}
  end.

Record JsonFormatResult := { didFormat : bool; fr_value : jsstr }.

Definition formatJsonDraft (v : jsstr) : JsonFormatResult :=
  let trimmed := trim v in
  if negb (truthy trimmed) then {| didFormat := false; fr_value := v |}
  else match json_parse trimmed with
  | Some x => {| didFormat := true; fr_value := default [] (json_stringify $"  " x) |}
  | None => {| didFormat := false; fr_value := v |}
  end.

(** ** The caret *)

Record CursorLocation := { cl_line : nat; cl_column : nat }.

Definition getCursorLocation (v : jsstr) (selectionStart : Z) : CursorLocation :=
  let bounded := Z.min (Z.max selectionStart 0) (Z.of_nat (length v)) in
  let linesBeforeCursor := split 10 (take (Z.to_nat bounded) v) in
  let currentLine := default [] (last linesBeforeCursor) in
  {| cl_line := length linesBeforeCursor; cl_column := length currentLine + 1 |}.

(** ** Enter *)

(** [s.lastIndexOf(c, i)] *)
Fixpoint last_index_of (c : Z) (s : jsstr) (i : nat) : option nat :=
  if bool_decide (s !! i = Some c) then Some i
  else match i with O => None | S j => last_index_of c s j end.

(** [s.match(/^\s*/)[0]] *)
Fixpoint leading_spaces (s : jsstr) : jsstr :=
  match s with
  | c :: s' => if is_space c then c :: leading_spaces s' else []
  | [] => []
  end.

(** [cursor - 1] is below zero only for the cursor 0, which [lastIndexOf] clamps
    to 0. *)
Definition getLineIndent (v : jsstr) (cursor : nat) : jsstr :=
  let lineStart := match last_index_of 10 v (cursor - 1) with Some i => S i | None => 0%nat end in
  leading_spaces (take (cursor - lineStart) (drop lineStart v)).

Record TextareaProps := { ta_value : jsstr; ta_selectionStart : nat; ta_selectionEnd : nat }.

Definition applyJsonSmartEnter (v : jsstr) (selectionStart selectionEnd : nat) : option TextareaProps :=
  let before := take selectionStart v in
  let after := drop selectionEnd v in
  let indent := getLineIndent v selectionStart in
  let previousChar := last (trim_end before) in
  let nextChar := head (trim_start after) in
  let opens c := bool_decide (previousChar = Some c) in
  let closes c := bool_decide (nextChar = Some c) in
  let shouldNest := opens 123 || opens 91 in
  let shouldClose := (opens 123 && closes 125) || (opens 91 && closes 93) in
  if shouldNest && shouldClose then
    let innerIndent := indent ++ $"  " in
    let insert := [10] ++ innerIndent ++ [10] ++ indent in
    let nextSelection := (selectionStart + 1 + length innerIndent)%nat in
    Some {| ta_value := before ++ insert ++ after;
            ta_selectionStart := nextSelection; ta_selectionEnd := nextSelection |}
  else if negb (truthy indent) && negb shouldNest then None
  else
    let nextIndent := if shouldNest then indent ++ $"  " else indent in
    let insert := [10] ++ nextIndent in
    let nextSelection := (selectionStart + length insert)%nat in
    Some {| ta_value := before ++ insert ++ after;
            ta_selectionStart := nextSelection; ta_selectionEnd := nextSelection |}.

(** The plugin: the new properties, if the key event is an Enter it handles. *)
Definition jsonSmartEnter (props : TextareaProps) (event_type key : jsstr) : option TextareaProps :=
  if negb (bool_decide (event_type = $"keydown")) then None
  else if negb (bool_decide (key = $"Enter")) then None
  else applyJsonSmartEnter (ta_value props) (ta_selectionStart props) (ta_selectionEnd props).

(** ** Scrolling

    The state is the scroll position of the source, the transforms of the two
    layers, the flag of the closure and how many frames are requested. *)

Record Scroll := {
  scrollLeft : number;
  scrollTop : number;
  contentTransform : jsstr;
  lineNumberTransform : jsstr;
  hasPendingFrame : bool;
  frames : nat
}.

Definition content_transform (left top : number) : jsstr :=
  $"translate3d(-" ++ number_text left ++ $"px, -" ++ number_text top ++ $"px, 0)".
Definition line_transform (top : number) : jsstr :=
  $"translate3d(0, -" ++ number_text top ++ $"px, 0)".

(** [sync()] *)
Definition sync (s : Scroll) : Scroll :=
  if hasPendingFrame s then s
  else {| scrollLeft := scrollLeft s; scrollTop := scrollTop s;
          contentTransform := contentTransform s; lineNumberTransform := lineNumberTransform s;
          hasPendingFrame := true; frames := S (frames s) |}.

(** The callback handed to [requestFrame]. *)
Definition run_frame (s : Scroll) : Scroll :=
  {| scrollLeft := scrollLeft s; scrollTop := scrollTop s;
     contentTransform := content_transform (scrollLeft s) (scrollTop s);
     lineNumberTransform := line_transform (scrollTop s);
     hasPendingFrame := false; frames := pred (frames s) |}.

(** The browser moves the source, then delivers its scroll event, to which the
    editor answers with [sync]. *)
Definition scroll_to (left top : number) (s : Scroll) : Scroll :=
  sync {| scrollLeft := left; scrollTop := top;
          contentTransform := contentTransform s; lineNumberTransform := lineNumberTransform s;
          hasPendingFrame := hasPendingFrame s; frames := frames s |}.

Inductive scroll_step : Scroll → Scroll → Prop :=
| StepScroll left top s : scroll_step s (scroll_to left top s)
| StepSync s : scroll_step s (sync s)
| StepFrame s : (0 < frames s)%nat → scroll_step s (run_frame s).

(** ** Formatting *)

(** Formatting keeps the document.  Formatting a draft that is JSON yields a
    valid draft that parses to the same value, and formatting it again changes
    nothing. *)
Theorem format_keeps_document (v : jsstr) (x : value) :
  json_parse (trim v) = Some x → json_ok x = true →
  let formatted := fr_value (formatJsonDraft v) in
  didFormat (formatJsonDraft v) = true ∧
  isValid (getJsonValidationState formatted) = true ∧
  json_parse formatted = Some x ∧
  formatJsonDraft formatted = {| didFormat := true; fr_value := formatted |}.
Proof.
  intros Hp Hx. destruct (parse_stringify $"  " ltac:(done) x Hx) as (t & Et & Ep).
  destruct (stringify_solid _ _ _ Hx Et) as [Hh Hl].
  assert (truthy t = true) as Ht by by destruct t.
  assert (truthy (trim v) = true) as Hv by (by destruct (trim v)).
  assert (formatJsonDraft v = {| didFormat := true; fr_value := t |}) as ->.
  { unfold formatJsonDraft. by rewrite Hv, Hp, Et. }
  cbn [fr_value didFormat]. unfold getJsonValidationState, formatJsonDraft.
  by rewrite (trim_solid t Hh Hl), Ht, Ep, Et.
Qed.

(** A draft that is not JSON is left alone.  Formatting changes nothing
    exactly when the editor marks the draft as invalid or the draft is blank. *)
Theorem format_refuses (v : jsstr) :
  (didFormat (formatJsonDraft v) = false ↔
    isValid (getJsonValidationState v) = false ∨ trim v = []) ∧
  (didFormat (formatJsonDraft v) = false → fr_value (formatJsonDraft v) = v).
Proof.
  unfold formatJsonDraft, getJsonValidationState. destruct (trim v) as [|c s] eqn:E; cbn [truthy negb].
  - split; [|done]. cbn. tauto.
  - destruct (json_parse (c :: s)); cbn; split; naive_solver.
Qed.

(** ** Lines *)

Lemma split_app c a w : split c (a ++ c :: w) = split c a ++ split c w.
Proof.
  induction a as [|d a IH]; cbn [app split].
  - by rewrite Z.eqb_refl.
  - rewrite IH. destruct (d =? c); [done|]. pose proof (split_ne c a). by destruct (split c a).
Qed.

Lemma last_index_none c s i : last_index_of c s i = None → ∀ j, (j <= i)%nat → s !! j ≠ Some c.
Proof.
  induction i as [|i IH]; cbn [last_index_of]; case_bool_decide as E; try done; intros Hn j Hj.
  - by assert (j = 0%nat) as -> by lia.
  - destruct (decide (j = S i)) as [->|]; [done|]. apply IH; [done|lia].
Qed.

Lemma last_index_some c s i k :
  last_index_of c s i = Some k →
  (k <= i)%nat ∧ s !! k = Some c ∧ ∀ j, (k < j <= i)%nat → s !! j ≠ Some c.
Proof.
  induction i as [|i IH]; cbn [last_index_of]; case_bool_decide as E; try done.
  - intros [= <-]. split_and!; [lia|done|lia].
  - intros [= <-]. split_and!; [lia|done|lia].
  - intros H. destruct (IH H) as (H1 & H2 & H3). split_and!; [lia|done|].
    intros j Hj. destruct (decide (j = S i)) as [->|]; [done|]. apply H3. lia.
Qed.

Lemma leading_spaces_sub s c : c ∈ leading_spaces s → c ∈ s ∧ is_space c = true.
Proof.
  induction s as [|d s IH]; cbn [leading_spaces]; [by intros ?%elem_of_nil|].
  destruct (is_space d) eqn:E; [|by intros ?%elem_of_nil].
  intros [->|Hc]%elem_of_cons; [split; [left|done]|]. destruct (IH Hc). split; [by right|done].
Qed.

(** The indentation is white space of the caret's line. *)
Lemma indent_line v cursor : 10 ∉ getLineIndent v cursor ∧ forallb is_space (getLineIndent v cursor) = true.
Proof.
  unfold getLineIndent. split.
  - intros [Hc _]%leading_spaces_sub. apply elem_of_take in Hc as (i & Hi & Hlt).
    rewrite lookup_drop in Hi. destruct (last_index_of 10 v (cursor - 1)) as [k|] eqn:E.
    + apply last_index_some in E as (H1 & _ & H2). by apply (H2 (S k + i)%nat); [lia|].
    + by apply (last_index_none _ _ _ E (0 + i)%nat); [lia|].
  - apply forallb_forall. intros c Hc. by apply list_elem_of_In, leading_spaces_sub in Hc as [_ ?].
Qed.

Lemma cursor_at v n : (n <= length v)%nat →
  getCursorLocation v (Z.of_nat n) =
    {| cl_line := length (split 10 (take n v));
       cl_column := length (default [] (last (split 10 (take n v)))) + 1 |}.
Proof. intros Hn. unfold getCursorLocation. by replace (Z.to_nat _) with n by lia. Qed.

(** The caret after a line break and an indentation. *)
Lemma cursor_next_line v' n before w :
  (n <= length v')%nat → take n v' = before ++ 10 :: w → 10 ∉ w →
  getCursorLocation v' (Z.of_nat n) =
    {| cl_line := S (length (split 10 before)); cl_column := length w + 1 |}.
Proof.
  intros Hn Ht Hw. rewrite cursor_at by done. rewrite Ht, split_app, (split_word 10 w Hw).
  rewrite length_app, last_snoc. cbn [length]. f_equal. lia.
Qed.

Lemma enter_result v a b ins w :
  (a <= b <= length v)%nat → 10 ∉ w → (∃ rest, ins = 10 :: w ++ rest) →
  let v' := take a v ++ ins ++ drop b v in
  let n := (a + 1 + length w)%nat in
  take n v' = take a v ++ 10 :: w ∧
  getCursorLocation v' (Z.of_nat n) =
    {| cl_line := S (cl_line (getCursorLocation v (Z.of_nat a))); cl_column := length w + 1 |}.
Proof.
  intros Hab Hw [rest ->]. cbv zeta.
  assert (length (take a v) = a) as Hla by (rewrite length_take; lia).
  set (v' := take a v ++ _ ++ _).
  assert (v' = (take a v ++ 10 :: w) ++ rest ++ drop b v) as Ev
    by (unfold v'; rewrite <- !app_assoc; cbn [app]; by rewrite <- !app_assoc).
  assert (take (a + 1 + length w) v' = take a v ++ 10 :: w) as Ht.
  { rewrite Ev, take_app_length'; [done|]. rewrite length_app. cbn [length]. lia. }
  split; [done|]. rewrite (cursor_next_line v' _ (take a v) w); [|..|done|done].
  - by rewrite cursor_at by lia.
  - rewrite Ev, !length_app. cbn [length]. lia.
Qed.

(** A smart Enter opens an indented line.  When the editor handles an Enter,
    the selection is replaced by white space and nothing else; the caret is on
    the next line, after the indentation of the line it came from, two columns
    deeper after an opening bracket. *)
Theorem smart_enter_spec (v : jsstr) (a b : nat) (r : TextareaProps) :
  (a <= b <= length v)%nat → applyJsonSmartEnter v a b = Some r →
  ∃ ins indent,
    ta_value r = take a v ++ ins ++ drop b v ∧ forallb is_space ins = true ∧
    ta_selectionStart r = ta_selectionEnd r ∧
    take (ta_selectionStart r) (ta_value r) = take a v ++ 10 :: indent ∧
    indent = (if bool_decide (last (trim_end (take a v)) = Some 123)
                 || bool_decide (last (trim_end (take a v)) = Some 91)
              then getLineIndent v a ++ $"  " else getLineIndent v a) ∧
    getCursorLocation (ta_value r) (Z.of_nat (ta_selectionStart r)) =
      {| cl_line := S (cl_line (getCursorLocation v (Z.of_nat a))); cl_column := length indent + 1 |}.
Proof.
  intros Hab Hr. destruct (indent_line v a) as [Hn Hs].
  unfold applyJsonSmartEnter in Hr. set (indent := getLineIndent v a) in *.
  destruct (_ || _) eqn:Enest in Hr |- *; cbn [andb negb] in Hr.
  - assert (10 ∉ indent ++ $"  ") as Hn2.
    { rewrite elem_of_app. intros [?|Hin]; [done|]. 
      change ($"  ") with [32; 32] in Hin. rewrite !elem_of_cons, elem_of_nil in Hin. lia. }
    destruct (_ || _) in Hr; [|rewrite andb_false_r in Hr]; injection Hr as <-; cbn [ta_value ta_selectionStart ta_selectionEnd].
    + destruct (enter_result v a b ([10] ++ (indent ++ $"  ") ++ [10] ++ indent) (indent ++ $"  ") Hab Hn2) as [H1 H2];
        [by eexists|].
      exists ([10] ++ (indent ++ $"  ") ++ [10] ++ indent), (indent ++ $"  "). split_and!; [reflexivity| |done|exact H1|done|exact H2].
      rewrite !forallb_app, Hs. done.
    + destruct (enter_result v a b ([10] ++ indent ++ $"  ") (indent ++ $"  ") Hab Hn2) as [H1 H2];
        [exists []; by rewrite app_nil_r|].
      replace (a + S (length (indent ++ $"  ")))%nat with (a + 1 + length (indent ++ $"  "))%nat by lia.
      exists ([10] ++ indent ++ $"  "), (indent ++ $"  "). split_and!; [reflexivity| |done|exact H1|done|exact H2].
      rewrite !forallb_app, Hs. done.
  - destruct (truthy indent) eqn:Ei; [|done]. cbn [negb andb] in Hr. injection Hr as <-.
    cbn [ta_value ta_selectionStart ta_selectionEnd].
    destruct (enter_result v a b ([10] ++ indent) indent Hab Hn) as [H1 H2];
      [exists []; by rewrite app_nil_r|].
    replace (a + S (length indent))%nat with (a + 1 + length indent)%nat by lia.
    exists ([10] ++ indent), indent. split_and!; [reflexivity| |done|exact H1|done|exact H2]. cbn [forallb app]. by rewrite Hs.
Qed.

(** ** The layers follow the text area *)

Record scroll_inv (s : Scroll) : Prop := {
  one_frame : frames s = if hasPendingFrame s then 1%nat else 0%nat;
  layers_current : hasPendingFrame s = false →
    contentTransform s = content_transform (scrollLeft s) (scrollTop s) ∧
    lineNumberTransform s = line_transform (scrollTop s)
}.

Lemma sync_inv s :
  frames s = (if hasPendingFrame s then 1 else 0)%nat → scroll_inv (sync s).
Proof. intros Hf. unfold sync. destruct (hasPendingFrame s) eqn:E; split; cbn; rewrite ?Hf, ?E; done. Qed.

Lemma scroll_step_inv s s' : scroll_step s s' → scroll_inv s → scroll_inv s'.
Proof.
  intros Hs [Hf Hl]. destruct Hs as [left top s|s|s Hfr]; [by apply sync_inv|by apply sync_inv|].
  split; [|done]. cbn. destruct (hasPendingFrame s); rewrite Hf; done.
Qed.

(** The layers follow the text area.  From a state in which they agree, after
    any scrolling, calls of [sync] and animation frames, at most one frame is
    requested; when none is, both layers show the current scroll position; and
    when one is, it brings them there. *)
Theorem scroll_layers_follow (s0 s : Scroll) :
  scroll_inv s0 → rtc scroll_step s0 s →
  (frames s <= 1)%nat ∧
  (frames s = 0%nat → contentTransform s = content_transform (scrollLeft s) (scrollTop s) ∧
                      lineNumberTransform s = line_transform (scrollTop s)) ∧
  (frames s = 1%nat → scroll_step s (run_frame s) ∧ frames (run_frame s) = 0%nat ∧
     contentTransform (run_frame s) = content_transform (scrollLeft s) (scrollTop s) ∧
     lineNumberTransform (run_frame s) = line_transform (scrollTop s)).
Proof.
  intros Hi Hr. assert (scroll_inv s) as [Hf Hl] by (induction Hr; eauto using scroll_step_inv).
  split_and!.
  - rewrite Hf. destruct (hasPendingFrame s); lia.
  - intros H0. apply Hl. rewrite Hf in H0. by destruct (hasPendingFrame s).
  - intros H1. split_and!; [constructor; lia|cbn; by rewrite H1|done|done].
Qed.

Definition sample_draft : jsstr := dq "  {}".

Lemma format_keeps_document_witness :
  json_parse (fr_value (formatJsonDraft (dq " {'b':[1,true]} "))) = Some (VObj [($"b", VArr [VNum (num_of_Z 1); VBool true])]).
Proof.
  apply (format_keeps_document (dq " {'b':[1,true]} ") (VObj [($"b", VArr [VNum (num_of_Z 1); VBool true])]));
    vm_compute; reflexivity.
Defined.

Lemma smart_enter_spec_witness :
  ∃ r, applyJsonSmartEnter sample_draft 3 3 = Some r ∧ ta_selectionStart r = ta_selectionEnd r.
Proof.
  destruct (applyJsonSmartEnter sample_draft 3 3) as [r|] eqn:E; [|by vm_compute in E].
  destruct (smart_enter_spec sample_draft 3 3 r) as (ins & indent & _ & _ & H & _);
    [split; [lia|vm_compute; lia]|done|]. eauto.
Defined.

Definition at_rest : Scroll :=
  {| scrollLeft := num_of_Z 0; scrollTop := num_of_Z 0;
     contentTransform := content_transform (num_of_Z 0) (num_of_Z 0);
     lineNumberTransform := line_transform (num_of_Z 0); hasPendingFrame := false; frames := 0 |}.

Lemma scroll_layers_follow_witness :
  (frames (scroll_to (num_of_Z 5) (num_of_Z 7) at_rest) <= 1)%nat.
Proof.
  apply (scroll_layers_follow at_rest); [by split|]. eapply rtc_l; [apply StepScroll|apply rtc_refl].
Defined.
