(* ===== verification/PricingFormat.v ===== *)
(** * Prices as text

    [src/web/src/features/system-settings/models/pricing-format.ts]: how the
    pricing editor prints a computed price or ratio, with the drift of binary
    arithmetic rounded away. *)

From S2P Require Import Prelude JsString JsNumber NumberText JsValue Json JsMath.

Definition DISPLAY_DECIMALS : nat := 12.
Definition SNAP_DECIMALS : nat := 8.
Definition SNAP_EPSILON : number := num_lit 1 12.
Definition EPSILON : number := S754_finite false 4503599627370496 (-104).

Definition toNumberOrNull (v : value) : option number :=
  match v with
  | VStr [] | VNull | VUndefined | VBool false => None
  | _ => let num := to_number v in if is_finite num then Some num else None
  end.

Definition roundToDecimals (x : number) (decimals : nat) : number :=
  let factor := num_of_Z (10 ^ Z.of_nat decimals) in
  num_div (num_round (num_mul x factor)) factor.

Fixpoint snap_from (x tolerance : number) (decimals : list nat) : number :=
  match decimals with
  | [] => x
  | d :: decimals' =>
    let rounded := roundToDecimals x d in
    if num_leb (num_abs (num_sub x rounded)) tolerance then rounded
    else snap_from x tolerance decimals'
  end.

Definition snapFloatDrift (x : number) : number :=
  let tolerance :=
    num_max SNAP_EPSILON (num_mul (num_mul (num_abs x) EPSILON) (num_of_Z 8)) in
  snap_from x tolerance (seq 0 (S SNAP_DECIMALS)).

Definition formatPricingNumber (v : value) : jsstr :=
  match toNumberOrNull v with
  | None => []
  | Some num => number_text (parse_float (toFixed DISPLAY_DECIMALS (snapFloatDrift num)))
  end.

Example format_drift :
  formatPricingNumber (VNum (num_mul (num_lit 1 1) (num_of_Z 3))) = $"0.3" ∧
  formatPricingNumber (VStr $"2.50") = $"2.5" ∧
  formatPricingNumber (VNum (num_of_decimal false 1 22)) = $"1e+22".
Proof. vm_compute. done. Qed.
