(* ===== verification/PricingEditor.v ===== *)
(** * The model pricing editor

    [src/web/src/features/system-settings/models]: the panel in which the price
    of a model is edited ([model-pricing-core.ts], [model-pricing-sheet.tsx]) and
    the editor that keeps the prices of all models as ten JSON texts
    ([model-ratio-visual-editor.tsx], [model-pricing-snapshots.ts]).

    The eight numeric settings of a model (price, ratio, ...) are indexed by
    [PriceField].  The panel shows a price per lane and keeps the ratios derived
    from the prices in its form.  The translation function [t] and
    [localeCompare] are parameters. *)

From stdpp Require Import functions.
From S2P Require Import Prelude JsString JsNumber NumberText Regex JsValue Json OrderedMap.
From S2P Require Import JsMath BillingExpr PricingFormat.

(** ** Data *)

Inductive PricingMode := PerToken | PerRequest | TieredExpr.

#[global] Instance PricingMode_eq_dec : EqDecision PricingMode.
Proof. solve_decision. Defined.

Definition mode_text (m : PricingMode) : jsstr :=
  match m with
  | PerToken => $"per-token" | PerRequest => $"per-request" | TieredExpr => $"tiered_expr"
  end.

Inductive LaneKey := Completion | Cache | CreateCache | Image | AudioInput | AudioOutput.

#[global] Instance LaneKey_eq_dec : EqDecision LaneKey.
Proof. solve_decision. Defined.

(** The fields [price], [ratio], ..., [audioCompletionRatio]. *)
Inductive PriceField :=
| FPrice | FRatio | FCacheRatio | FCreateCacheRatio | FCompletionRatio | FImageRatio
| FAudioRatio | FAudioCompletionRatio.

#[global] Instance PriceField_eq_dec : EqDecision PriceField.
Proof. solve_decision. Defined.

Definition PRICE_FIELDS : list PriceField :=
  [FPrice; FRatio; FCacheRatio; FCreateCacheRatio; FCompletionRatio; FImageRatio; FAudioRatio;
   FAudioCompletionRatio].

Record ModelRatioData := {
  rd_name : jsstr;
  rd_values : PriceField → option jsstr;
  rd_billingMode : option PricingMode;
  rd_billingExpr : option jsstr;
  rd_requestRuleExpr : option jsstr
}.

(** [numericDraftRegex]: digits, optionally a point, then digits. *)
Definition numericDraft (s : jsstr) : bool :=
  let '(ip, r) := span_digits s in
  match r with
  | [] => true
  | 46 :: fp => forallb is_digit fp
  | _ => false
  end.

Definition EMPTY_LANE_PRICES : LaneKey → jsstr := λ _, [].
Definition EMPTY_LANE_ENABLED : LaneKey → bool := λ _, false.

Definition ratioFieldByLane (lane : LaneKey) : PriceField :=
  match lane with
  | Completion => FCompletionRatio
  | Cache => FCacheRatio
  | CreateCache => FCreateCacheRatio
  | Image => FImageRatio
  | AudioInput => FAudioRatio
  | AudioOutput => FAudioCompletionRatio
  end.

Record LaneConfig := { lc_key : LaneKey; titleKey : jsstr; descriptionKey : jsstr; placeholder : jsstr }.

Definition laneConfigs : list LaneConfig :=
  let lane k ti d pl := {| lc_key := k; titleKey := ti; descriptionKey := d; placeholder := pl |} in
  [ lane Completion $"Completion price" $"Output token price for generated tokens." $"15";
    lane Cache $"Cache read price" $"Token price for cache reads." $"0.3";
    lane CreateCache $"Cache write price" $"Token price for creating cache entries." $"3.75";
    lane Image $"Image input price" $"Token price for image input." $"2.5";
    lane AudioInput $"Audio input price" $"Token price for audio input." $"3.81";
    lane AudioOutput $"Audio output price" $"Token price for audio output." $"15.11" ].

Definition lane_keys : list LaneKey := lc_key <$> laneConfigs.

(** ** Prices and ratios *)

Definition opt_value (s : option jsstr) : value := from_option VStr VUndefined s.

Definition hasValue (v : value) : bool :=
  match v with VStr [] | VNull | VUndefined | VBool false => false | _ => true end.

(** The second operand of the source's test, [value !== 0], never matters: 0 has
    a value. *)
Definition toNumberOrNull (v : value) : option number :=
  if negb (hasValue v) then None
  else let num := to_number v in if is_finite num then Some num else None.

Definition ratioToBasePrice (ratio : value) : jsstr :=
  match toNumberOrNull ratio with
  | None => []
  | Some num => formatPricingNumber (VNum (num_mul num (num_of_Z 2)))
  end.

(** Every call leaves [fallback] at its default, the empty string. *)
Definition deriveLanePrice (ratio denominator : value) : jsstr :=
  match toNumberOrNull ratio, toNumberOrNull denominator with
  | Some ratioNumber, Some denominatorNumber =>
    formatPricingNumber (VNum (num_mul ratioNumber denominatorNumber))
  | _, _ => []
  end.

Record LaneState := {
  ls_promptPrice : jsstr;
  ls_prices : LaneKey → jsstr;
  ls_enabled : LaneKey → bool
}.

Definition createInitialLaneState (data : option ModelRatioData) : LaneState :=
  match data with
  | None =>
    {| ls_promptPrice := []; ls_prices := EMPTY_LANE_PRICES; ls_enabled := EMPTY_LANE_ENABLED |}
  | Some d =>
    let field f := opt_value (rd_values d f) in
    let promptPrice := ratioToBasePrice (field FRatio) in
    let audioInputPrice := deriveLanePrice (field FAudioRatio) (VStr promptPrice) in
    {| ls_promptPrice := promptPrice;
       ls_prices lane :=
         match lane with
         | Completion => deriveLanePrice (field FCompletionRatio) (VStr promptPrice)
         | Cache => deriveLanePrice (field FCacheRatio) (VStr promptPrice)
         | CreateCache => deriveLanePrice (field FCreateCacheRatio) (VStr promptPrice)
         | Image => deriveLanePrice (field FImageRatio) (VStr promptPrice)
         | AudioInput => audioInputPrice
         | AudioOutput => deriveLanePrice (field FAudioCompletionRatio) (VStr audioInputPrice)
         end;
       ls_enabled lane := hasValue (field (ratioFieldByLane lane)) |}
  end.

Record PreviewRow := { pr_key : jsstr; pr_label : jsstr; pr_value : jsstr; pr_multiline : bool }.

Section Preview.
Context (t : jsstr → jsstr).

Definition or_empty (s : jsstr) : jsstr := if truthy s then s else t $"Empty".

(** An enabled lane with a price, printed in dollars. *)
Definition lane_row (k l : jsstr) (enabled : bool) (price : jsstr) : PreviewRow :=
  {| pr_key := k; pr_label := t l;
     pr_value := if enabled && truthy price then [36] ++ price else t $"Empty";
     pr_multiline := false |}.

Definition buildPreviewRows (price : jsstr) (mode : PricingMode)
    (billingExpr requestRuleExpr promptPrice : jsstr)
    (lanePrices : LaneKey → jsstr) (laneEnabled : LaneKey → bool) : list PreviewRow :=
  let lane k l key := lane_row k l (laneEnabled key) (lanePrices key) in
  match mode with
  | TieredExpr =>
    [{| pr_key := $"mode"; pr_label := $"BillingMode"; pr_value := $"tiered_expr"; pr_multiline := false |};
     {| pr_key := $"expr"; pr_label := t $"Expression";
        pr_value := or_empty (combineBillingExpr billingExpr requestRuleExpr); pr_multiline := true |}]
  | PerRequest =>
    [{| pr_key := $"price"; pr_label := $"ModelPrice"; pr_value := or_empty price; pr_multiline := false |}]
  | PerToken =>
    [lane_row $"inputPrice" $"Input price" true promptPrice;
     lane $"completion" $"Completion price" Completion;
     lane $"cache" $"Cache read price" Cache;
     lane $"createCache" $"Cache write price" CreateCache;
     lane $"image" $"Image input price" Image;
     lane $"audio" $"Audio input price" AudioInput;
     lane $"audioCompletion" $"Audio output price" AudioOutput]
  end.
End Preview.

(** ** The panel *)

(** The state of [ModelPricingEditorPanel]: its hooks, its [editData] and the
    values of its form. *)
Record Panel := {
  p_editData : option ModelRatioData;
  p_mode : PricingMode;
  p_promptPrice : jsstr;
  p_prices : LaneKey → jsstr;
  p_enabled : LaneKey → bool;
  p_billingExpr : jsstr;
  p_requestRuleExpr : jsstr;
  p_name : jsstr;
  p_form : PriceField → jsstr
}.

Definition with_mode (m : PricingMode) (p : Panel) : Panel :=
  {| p_editData := p_editData p; p_mode := m; p_promptPrice := p_promptPrice p; p_prices := p_prices p;
     p_enabled := p_enabled p; p_billingExpr := p_billingExpr p;
     p_requestRuleExpr := p_requestRuleExpr p; p_name := p_name p; p_form := p_form p |}.
Definition with_promptPrice (s : jsstr) (p : Panel) : Panel :=
  {| p_editData := p_editData p; p_mode := p_mode p; p_promptPrice := s; p_prices := p_prices p;
     p_enabled := p_enabled p; p_billingExpr := p_billingExpr p;
     p_requestRuleExpr := p_requestRuleExpr p; p_name := p_name p; p_form := p_form p |}.
Definition with_lanes (prices : LaneKey → jsstr) (enabled : LaneKey → bool) (p : Panel) : Panel :=
  {| p_editData := p_editData p; p_mode := p_mode p; p_promptPrice := p_promptPrice p; p_prices := prices;
     p_enabled := enabled; p_billingExpr := p_billingExpr p;
     p_requestRuleExpr := p_requestRuleExpr p; p_name := p_name p; p_form := p_form p |}.
Definition with_exprs (billing rules : jsstr) (p : Panel) : Panel :=
  {| p_editData := p_editData p; p_mode := p_mode p; p_promptPrice := p_promptPrice p; p_prices := p_prices p;
     p_enabled := p_enabled p; p_billingExpr := billing;
     p_requestRuleExpr := rules; p_name := p_name p; p_form := p_form p |}.
Definition with_name (s : jsstr) (p : Panel) : Panel :=
  {| p_editData := p_editData p; p_mode := p_mode p; p_promptPrice := p_promptPrice p; p_prices := p_prices p;
     p_enabled := p_enabled p; p_billingExpr := p_billingExpr p;
     p_requestRuleExpr := p_requestRuleExpr p; p_name := s; p_form := p_form p |}.
Definition setFormValue (field : PriceField) (s : jsstr) (p : Panel) : Panel :=
  {| p_editData := p_editData p; p_mode := p_mode p; p_promptPrice := p_promptPrice p; p_prices := p_prices p;
     p_enabled := p_enabled p; p_billingExpr := p_billingExpr p;
     p_requestRuleExpr := p_requestRuleExpr p; p_name := p_name p;
     p_form := <[field := s]> (p_form p) |}.

(** The effect that runs when another model is opened. *)
Definition load (editData : option ModelRatioData) : Panel :=
  let lanes := createInitialLaneState editData in
  let base := {|
    p_editData := editData; p_mode := PerToken; p_promptPrice := ls_promptPrice lanes;
    p_prices := ls_prices lanes; p_enabled := ls_enabled lanes;
    p_billingExpr := []; p_requestRuleExpr := []; p_name := []; p_form := λ _, [] |} in
  match editData with
  | None => base
  | Some d =>
    {| p_editData := editData;
       p_mode :=
         if bool_decide (rd_billingMode d = Some TieredExpr) then TieredExpr
         else if truthy (default [] (rd_values d FPrice)) then PerRequest
         else PerToken;
       p_promptPrice := ls_promptPrice lanes; p_prices := ls_prices lanes;
       p_enabled := ls_enabled lanes;
       p_billingExpr := default [] (rd_billingExpr d);
       p_requestRuleExpr := default [] (rd_requestRuleExpr d);
       p_name := rd_name d;
       p_form f := default [] (rd_values d f) |}
  end.

Definition deriveLaneRatio (lane : LaneKey) (price promptPrice : jsstr)
    (lanePrices : LaneKey → jsstr) : jsstr :=
  match toNumberOrNull (VStr price) with
  | None => []
  | Some priceNumber =>
    let base := match lane with AudioOutput => lanePrices AudioInput | _ => promptPrice end in
    match toNumberOrNull (VStr base) with
    | None => []
    | Some basePrice =>
      if num_eqb basePrice (S754_zero false) then []
      else formatPricingNumber (VNum (num_div priceNumber basePrice))
    end
  end.

Definition syncLaneRatios (promptPrice : jsstr) (lanePrices : LaneKey → jsstr)
    (laneEnabled : LaneKey → bool) (p : Panel) : Panel :=
  let p := setFormValue FRatio
    (match toNumberOrNull (VStr promptPrice) with
     | Some inputPrice => formatPricingNumber (VNum (num_div inputPrice (num_of_Z 2)))
     | None => []
     end) p in
  fold_left (λ p key,
    if negb (laneEnabled key) then setFormValue (ratioFieldByLane key) [] p
    else setFormValue (ratioFieldByLane key)
           (deriveLaneRatio key (lanePrices key) promptPrice lanePrices) p)
    lane_keys p.

Definition handlePromptPriceChange (v : jsstr) (p : Panel) : Panel :=
  if negb (numericDraft v) then p
  else syncLaneRatios v (p_prices p) (p_enabled p) (with_promptPrice v p).

Definition handleLanePriceChange (lane : LaneKey) (v : jsstr) (p : Panel) : Panel :=
  if negb (numericDraft v) then p
  else
    let nextLanePrices := <[lane := v]> (p_prices p) in
    let p1 := with_lanes nextLanePrices (p_enabled p) p in
    let p2 :=
      if p_enabled p lane
      then setFormValue (ratioFieldByLane lane)
             (deriveLaneRatio lane v (p_promptPrice p) nextLanePrices) p1
      else p1 in
    if bool_decide (lane = AudioInput) && p_enabled p AudioOutput
    then setFormValue FAudioCompletionRatio
           (deriveLaneRatio AudioOutput (nextLanePrices AudioOutput) (p_promptPrice p) nextLanePrices) p2
    else p2.

Definition handleLaneToggle (lane : LaneKey) (checked : bool) (p : Panel) : Panel :=
  let nextEnabled := <[lane := checked]> (p_enabled p) in
  if negb checked then
    let nextPrices := <[lane := []]> (p_prices p) in
    let p1 := setFormValue (ratioFieldByLane lane) [] p in
    if bool_decide (lane = AudioInput) then
      with_lanes (<[AudioOutput := []]> nextPrices) (<[AudioOutput := false]> nextEnabled)
        (setFormValue FAudioCompletionRatio [] p1)
    else with_lanes nextPrices nextEnabled p1
  else
    setFormValue (ratioFieldByLane lane)
      (deriveLaneRatio lane (p_prices p lane) (p_promptPrice p) (p_prices p))
      (with_lanes (p_prices p) nextEnabled p).

Definition handleModeChange (nextMode : PricingMode) (p : Panel) : Panel :=
  let p' := with_mode nextMode p in
  if bool_decide (nextMode = TieredExpr) && negb (truthy (p_billingExpr p))
  then with_exprs (dq "tier('base', p * 0 + c * 0)") (p_requestRuleExpr p) p'
  else p'.

(** The inputs of the form that write a field directly: the name (disabled when a
    model is edited) and the fixed price. *)
Definition handleNameChange (v : jsstr) (p : Panel) : Panel :=
  if p_editData p is Some _ then p else with_name v p.

Definition handlePriceChange (v : jsstr) (p : Panel) : Panel :=
  if numericDraft v then setFormValue FPrice v p else p.

(** The callbacks of the tier editor. *)
Definition handleBillingExpr (v : jsstr) (p : Panel) : Panel := with_exprs v (p_requestRuleExpr p) p.
Definition handleRequestRuleExpr (v : jsstr) (p : Panel) : Panel := with_exprs (p_billingExpr p) v p.

(** *** Warnings, validation, submission *)

Definition missing_input_price (p : Panel) : bool :=
  bool_decide (p_mode p = PerToken) && bool_decide (toNumberOrNull (VStr (p_promptPrice p)) = None)
  && existsb (λ key, p_enabled p key && hasValue (VStr (p_prices p key))) lane_keys.

Definition missing_audio_price (p : Panel) : bool :=
  bool_decide (p_mode p = PerToken) && p_enabled p AudioOutput
  && negb (hasValue (VStr (p_prices p AudioInput))).

Definition CONFLICT_WARNING : jsstr :=
  $"This model has both fixed-price and token-price settings. Saving the current mode will rewrite the conflicting fields.".
Definition INPUT_PRICE_REQUIRED : jsstr := $"Input price is required before saving dependent prices.".
Definition AUDIO_PRICE_REQUIRED : jsstr := $"Audio output price requires an audio input price.".

Definition data_conflict (d : ModelRatioData) : bool :=
  truthy (default [] (rd_values d FPrice)) &&
  existsb (λ f, hasValue (opt_value (rd_values d f)))
    [FRatio; FCompletionRatio; FCacheRatio; FCreateCacheRatio; FImageRatio; FAudioRatio;
     FAudioCompletionRatio].

Definition warnings (t : jsstr → jsstr) (p : Panel) : list jsstr :=
  (if from_option data_conflict false (p_editData p) then [t CONFLICT_WARNING] else [])
  ++ (if missing_input_price p then [t INPUT_PRICE_REQUIRED] else [])
  ++ (if missing_audio_price p then [t AUDIO_PRICE_REQUIRED] else []).

(** [None] when the values may be saved, otherwise the field and the error. *)
Definition validatePricingValues (p : Panel) : option (PriceField * jsstr) :=
  if missing_input_price p then Some (FRatio, INPUT_PRICE_REQUIRED)
  else if missing_audio_price p then Some (FAudioRatio, AUDIO_PRICE_REQUIRED)
  else None.

Definition buildSubmitData (p : Panel) : ModelRatioData :=
  {| rd_name := trim (p_name p);
     rd_values f := Some (p_form p f);
     rd_billingMode := Some (p_mode p);
     rd_billingExpr := if bool_decide (p_mode p = TieredExpr) then Some (p_billingExpr p) else None;
     rd_requestRuleExpr :=
       if bool_decide (p_mode p = TieredExpr) then Some (p_requestRuleExpr p) else None |}.

(** The schema asks for a non-empty name. *)
Definition commitDraft (p : Panel) : option ModelRatioData :=
  if negb (truthy (p_name p)) then None
  else match validatePricingValues p with
  | Some _ => None
  | None => Some (buildSubmitData p)
  end.

(** *** Editing: the events of the panel *)

Inductive Edit :=
| EditPromptPrice (v : jsstr)
| EditLanePrice (lane : LaneKey) (v : jsstr)
| ToggleLane (lane : LaneKey) (checked : bool)
| EditMode (m : PricingMode)
| EditName (v : jsstr)
| EditPrice (v : jsstr)
| EditBillingExpr (v : jsstr)
| EditRequestRuleExpr (v : jsstr).

Definition apply_edit (p : Panel) (e : Edit) : Panel :=
  match e with
  | EditPromptPrice v => handlePromptPriceChange v p
  | EditLanePrice lane v => handleLanePriceChange lane v p
  | ToggleLane lane checked => handleLaneToggle lane checked p
  | EditMode m => handleModeChange m p
  | EditName v => handleNameChange v p
  | EditPrice v => handlePriceChange v p
  | EditBillingExpr v => handleBillingExpr v p
  | EditRequestRuleExpr v => handleRequestRuleExpr v p
  end.

Definition apply_edits (edits : list Edit) (p : Panel) : Panel := fold_left apply_edit edits p.

(** The ratios the form holds follow from the prices of the panel. *)
Definition lane_ratio (p : Panel) (lane : LaneKey) : jsstr :=
  if p_enabled p lane
  then deriveLaneRatio lane (p_prices p lane) (p_promptPrice p) (p_prices p) else [].

Definition base_ratio (promptPrice : jsstr) : jsstr :=
  match toNumberOrNull (VStr promptPrice) with
  | Some inputPrice => formatPricingNumber (VNum (num_div inputPrice (num_of_Z 2)))
  | None => []
  end.
