(* ===== verification/PricingStore.v ===== *)
(** * The prices of all models

    [src/web/src/features/system-settings/models/model-ratio-visual-editor.tsx]
    and [model-pricing-snapshots.ts]: the prices are ten JSON texts, one per
    setting, each an object from model names to values.  Saving or deleting a
    model rewrites the ten texts; the table shows a snapshot per model.

    A text that is JSON but not an object (an array, [null]) is outside the model:
    the operations return [None] there. *)

From stdpp Require Import functions.
From S2P Require Import Prelude JsString JsNumber NumberText Regex JsValue Json OrderedMap JsObject.
From S2P Require Import JsMath BillingExpr PricingFormat PricingEditor.

Local Open Scope js_scope.

(** ** The ten texts *)

Record Settings := {
  s_numeric : PriceField → jsstr;
  s_billingMode : jsstr;
  s_billingExpr : jsstr
}.

Record Maps := {
  m_numeric : PriceField → object;
  m_billingMode : object;
  m_billingExpr : object
}.

(** A value per setting, computed once. *)
Definition by_field {A : Type} (g : PriceField → A) : PriceField → A :=
  let price := g FPrice in let ratio := g FRatio in let cache := g FCacheRatio in
  let createCache := g FCreateCacheRatio in let completion := g FCompletionRatio in
  let image := g FImageRatio in let audio := g FAudioRatio in
  let audioCompletion := g FAudioCompletionRatio in
  λ f, match f with
       | FPrice => price | FRatio => ratio | FCacheRatio => cache
       | FCreateCacheRatio => createCache | FCompletionRatio => completion
       | FImageRatio => image | FAudioRatio => audio
       | FAudioCompletionRatio => audioCompletion
       end.

Lemma by_field_eq {A : Type} (g : PriceField → A) f : by_field g f = g f.
Proof. by destruct f. Qed.

(** [safeJsonParse(text, { fallback })] of [utils/json-parser.ts] *)
Definition safeJsonParse (text : jsstr) (fallback : value) : value :=
  if negb (truthy text) || bool_decide (trim text = []) then fallback
  else default fallback (json_parse (trim text)).

Definition parse_map (text : jsstr) : option object :=
  match safeJsonParse text (VObj []) with VObj fields => Some fields | _ => None end.

Definition read_maps (s : Settings) : option Maps :=
  if forallb (λ f, bool_decide (is_Some (parse_map (s_numeric s f)))) PRICE_FIELDS then
    modes ← parse_map (s_billingMode s);
    exprs ← parse_map (s_billingExpr s);
    Some {| m_numeric := by_field (λ f, default [] (parse_map (s_numeric s f)));
            m_billingMode := modes; m_billingExpr := exprs |}
  else None.

Definition map_text (o : object) : jsstr := default [] (json_stringify $"  " (VObj o)).

(** The ten [onChange] calls. *)
Definition write_maps (m : Maps) : Settings :=
  {| s_numeric := by_field (λ f, map_text (m_numeric m f));
     s_billingMode := map_text (m_billingMode m);
     s_billingExpr := map_text (m_billingExpr m) |}.

(** ** Saving and deleting *)

(** [delete o[name]] *)
Definition setIfPresent (target : object) (name : jsstr) (v : option jsstr) : object :=
  let s := default [] v in
  if negb (truthy s) then target
  else
    let parsed := parse_float s in
    if is_finite parsed then obj_assign target (name, VNum parsed) else target.

(** The ten [delete] statements. *)
Definition delete_model (name : jsstr) (m : Maps) : Maps :=
  {| m_numeric f := obj_delete name (m_numeric m f);
     m_billingMode := obj_delete name (m_billingMode m);
     m_billingExpr := obj_delete name (m_billingExpr m) |}.

Definition set_fields (data : ModelRatioData) (name : jsstr) (fields : list PriceField) (m : Maps) : Maps :=
  {| m_numeric f :=
       if bool_decide (f ∈ fields) then setIfPresent (m_numeric m f) name (rd_values data f)
       else m_numeric m f;
     m_billingMode := m_billingMode m;
     m_billingExpr := m_billingExpr m |}.

Definition RATIO_FIELDS : list PriceField :=
  [FRatio; FCacheRatio; FCreateCacheRatio; FCompletionRatio; FImageRatio; FAudioRatio;
   FAudioCompletionRatio].

(** The body of [targetNames.forEach]. *)
Definition persist_one (data : ModelRatioData) (m : Maps) (name : jsstr) : Maps :=
  let m := delete_model name m in
  if bool_decide (rd_billingMode data = Some TieredExpr) then
    let combined :=
      combineBillingExpr (default [] (rd_billingExpr data)) (default [] (rd_requestRuleExpr data)) in
    let m :=
      if truthy combined then
        {| m_numeric := m_numeric m;
           m_billingMode := obj_assign (m_billingMode m) (name, VStr $"tiered_expr");
           m_billingExpr := obj_assign (m_billingExpr m) (name, VStr combined) |}
      else m in
    set_fields data name PRICE_FIELDS m
  else if truthy (default [] (rd_values data FPrice)) then set_fields data name [FPrice] m
  else set_fields data name RATIO_FIELDS m.

Definition persistPricingData (s : Settings) (data : ModelRatioData) (targetNames : list jsstr)
    : option Settings :=
  m ← read_maps s;
  Some (write_maps (fold_left (persist_one data) targetNames m)).

(** The editor: the ten texts, the model being edited, and whether the panel and
    (on a small screen) its sheet are open. *)
Record Editor := {
  ed_settings : Settings;
  ed_data : option ModelRatioData;
  ed_open : bool;
  ed_sheet : bool
}.

Definition closed (s : Settings) : Editor :=
  {| ed_settings := s; ed_data := None; ed_open := false; ed_sheet := false |}.

Definition with_settings (s : Settings) (data : option ModelRatioData) (e : Editor) : Editor :=
  {| ed_settings := s; ed_data := data; ed_open := ed_open e; ed_sheet := ed_sheet e |}.

Definition handleDelete (e : Editor) (name : jsstr) : option Editor :=
  m ← read_maps (ed_settings e);
  let s := write_maps (delete_model name m) in
  Some (if bool_decide (rd_name <$> ed_data e = Some name) then closed s
        else with_settings s (ed_data e) e).

(** The result of the call, and the editor after it. *)
Definition commitOpenEditor (e : Editor) (p : Panel) : option (bool * Editor) :=
  if negb (ed_open e) then Some (true, e)
  else match commitDraft p with
  | None => Some (false, e)
  | Some data =>
    s' ← persistPricingData (ed_settings e) data [rd_name data];
    Some (true, with_settings s' (Some data) e)
  end.

(** Nothing is saved without a source model, with an invalid draft and without a
    target. *)
Definition handleBatchCopy (e : Editor) (p : Panel) (targetNames : list jsstr) : option Editor :=
  match ed_data e with
  | None => Some e
  | Some d =>
    match (if ed_open e then commitDraft p else Some d) with
    | None => Some e
    | Some sourceData =>
      let e' := with_settings (ed_settings e) (Some sourceData) e in
      if (length targetNames =? 0)%nat then Some e'
      else
        s' ← persistPricingData (ed_settings e) sourceData (os_of_list (rd_name sourceData :: targetNames));
        Some (with_settings s' (Some sourceData) e)
    end
  end.

Definition handleAdd (isMobile : bool) (e : Editor) : Editor :=
  {| ed_settings := ed_settings e; ed_data := None; ed_open := true; ed_sheet := ed_sheet e || isMobile |}.

Definition handleGlobalFilterChange (previous next : jsstr) (e : Editor) : Editor :=
  if bool_decide (next = previous) then e else closed (ed_settings e).

(** ** Snapshots *)

Record ModelPricingSnapshot := {
  sn_name : jsstr;
  sn_values : PriceField → option jsstr;
  sn_billingMode : option jsstr;
  sn_billingExpr : option jsstr;
  sn_requestRuleExpr : option jsstr;
  sn_hasConflict : bool
}.

Definition hasPricingValue (v : option jsstr) : bool := truthy (default [] v).

Definition isBasePricingUnset (snapshot : option ModelPricingSnapshot) : bool :=
  match snapshot with
  | None => true
  | Some s =>
    negb (bool_decide (sn_billingMode s = Some $"tiered_expr"))
    && negb (hasPricingValue (sn_values s FPrice)) && negb (hasPricingValue (sn_values s FRatio))
  end.

Definition snapshot_number (v : option jsstr) : option number :=
  if negb (hasPricingValue v) then None
  else let num := to_number (opt_value v) in if is_finite num then Some num else None.

Definition ratioToPrice (ratio : option jsstr) (denominator : option jsstr) : jsstr :=
  let denominatorNumber :=
    if truthy (default [] denominator) then snapshot_number denominator else Some (num_of_Z 2) in
  match snapshot_number ratio, denominatorNumber with
  | Some r, Some d => formatPricingNumber (VNum (num_mul r d))
  | _, _ => []
  end.

Definition getModeLabel (mode : option jsstr) : jsstr :=
  if bool_decide (mode = Some $"per-request") then $"Per-request"
  else if bool_decide (mode = Some $"tiered_expr") then $"Expression"
  else $"Per-token".

Definition getModeVariant (mode : option jsstr) : jsstr :=
  if bool_decide (mode = Some $"per-request") then $"warning"
  else if bool_decide (mode = Some $"tiered_expr") then $"info"
  else $"success".

(** How often [tier(] occurs. *)
Fixpoint count_tiers (s : jsstr) : nat :=
  match s with
  | [] => 0
  | _ :: s' => (if starts_with $"tier(" s then 1 else 0) + count_tiers s'
  end.

Section Summaries.
Context (t : jsstr → jsstr).

Definition getExpressionSummary (row : ModelPricingSnapshot) : jsstr :=
  let tierCount := count_tiers (default [] (sn_billingExpr row)) in
  if (0 <? tierCount)%nat
  then t $"Tiered pricing" ++ $" · " ++ string_of_Z (Z.of_nat tierCount) ++ [32] ++ t $"tiers"
  else t $"Expression pricing".

Definition getPriceSummary (row : ModelPricingSnapshot) : jsstr :=
  if bool_decide (sn_billingMode row = Some $"tiered_expr") then getExpressionSummary row
  else if bool_decide (sn_billingMode row = Some $"per-request") then
    let price := default [] (sn_values row FPrice) in
    if truthy price then [36] ++ price ++ $" / " ++ t $"request" else t $"Unset price"
  else
    let inputPrice := ratioToPrice (sn_values row FRatio) None in
    if negb (truthy inputPrice) then t $"Unset price"
    else
      let extraCount := length (List.filter (λ f, hasPricingValue (sn_values row f))
        [FCompletionRatio; FCacheRatio; FCreateCacheRatio; FImageRatio; FAudioRatio;
         FAudioCompletionRatio]) in
      let input := t $"Input" ++ $" $" ++ inputPrice in
      if (0 <? extraCount)%nat
      then input ++ $" · " ++ string_of_Z (Z.of_nat extraCount) ++ [32] ++ t $"extras"
      else input.

Definition getPriceDetail (row : ModelPricingSnapshot) : jsstr :=
  if bool_decide (sn_billingMode row = Some $"tiered_expr") then
    if truthy (default [] (sn_requestRuleExpr row)) then t $"Includes request rules"
    else t $"Expression based"
  else if bool_decide (sn_billingMode row = Some $"per-request") then t $"Fixed request price"
  else
    let inputPrice := ratioToPrice (sn_values row FRatio) None in
    if negb (truthy inputPrice) then t $"No base input price"
    else
      let detail l f :=
        if truthy (default [] (sn_values row f))
        then [t l ++ $" $" ++ ratioToPrice (sn_values row f) (Some inputPrice)] else [] in
      let details := take 2 (detail $"Output" FCompletionRatio ++ detail $"Cache" FCacheRatio
                             ++ detail $"Cache write" FCreateCacheRatio) in
      if (0 <? length details)%nat then join $" · " details else t $"Base input price only".
End Summaries.

(** [map[name]?.toString() || ''] *)
Definition field_text (o : object) (name : jsstr) : jsstr :=
  match get (VObj o) name with VUndefined | VNull => [] | v => value_text v end.

(** The names in the order of the [Set]. *)
Definition model_names (m : Maps) : list jsstr :=
  os_of_list (mjoin ((λ f, (m_numeric m f).*1) <$> PRICE_FIELDS)
              ++ (m_billingMode m).*1 ++ (m_billingExpr m).*1).

(** The function mapped over the names.  An expression that is not a string makes
    [splitBillingExprAndRequestRules] throw. *)
Definition snapshot_of (m : Maps) (name : jsstr) : completion ModelPricingSnapshot :=
  let text := by_field (λ f, field_text (m_numeric m f) name) in
  if eq_str (get (VObj (m_billingMode m)) name) $"tiered_expr" then
    let stored := get (VObj (m_billingExpr m)) name in
    let? parts :=
      (if negb (to_boolean stored) then splitBillingExprAndRequestRules []
       else match stored with VStr fullExpr => splitBillingExprAndRequestRules fullExpr | _ => Throws end) in
    Normal {| sn_name := name; sn_values f := Some (text f);
              sn_billingMode := Some $"tiered_expr";
              sn_billingExpr := Some (BillingExpr.billingExpr parts);
              sn_requestRuleExpr := Some (BillingExpr.requestRuleExpr parts);
              sn_hasConflict := false |}
  else
    Normal {| sn_name := name; sn_values f := Some (text f);
              sn_billingMode := Some (if truthy (text FPrice) then $"per-request" else $"per-token");
              sn_billingExpr := None; sn_requestRuleExpr := None;
              sn_hasConflict := truthy (text FPrice) && existsb (λ f, truthy (text f)) RATIO_FIELDS |}.

Fixpoint map_completion {A B : Type} (f : A → completion B) (l : list A) : completion (list B) :=
  match l with
  | [] => Normal []
  | x :: l' => let? y := f x in let? ys := map_completion f l' in Normal (y :: ys)
  end.

Definition buildModelSnapshots (s : Settings) : option (completion (list ModelPricingSnapshot)) :=
  m ← read_maps s; Some (map_completion (snapshot_of m) (model_names m)).

(** The object whose JSON text is the signature. *)
Definition signature_value (s : ModelPricingSnapshot) : value :=
  let field k v := ($k, VStr (default [] v)) in
  VObj [field "price" (sn_values s FPrice); field "ratio" (sn_values s FRatio);
        field "cacheRatio" (sn_values s FCacheRatio);
        field "createCacheRatio" (sn_values s FCreateCacheRatio);
        field "completionRatio" (sn_values s FCompletionRatio);
        field "imageRatio" (sn_values s FImageRatio);
        field "audioRatio" (sn_values s FAudioRatio);
        field "audioCompletionRatio" (sn_values s FAudioCompletionRatio);
        ($"billingMode", VStr (if hasPricingValue (sn_billingMode s)
                               then default [] (sn_billingMode s) else $"per-token"));
        field "billingExpr" (sn_billingExpr s);
        field "requestRuleExpr" (sn_requestRuleExpr s)].

Definition getSnapshotSignature (snapshot : option ModelPricingSnapshot) : jsstr :=
  match snapshot with
  | None => []
  | Some s => default [] (json_stringify [] (signature_value s))
  end.

(** ** The rows of the table *)

Record ModelRow := {
  mr_displayed : ModelPricingSnapshot;
  mr_saved : option ModelPricingSnapshot;
  mr_draft : option ModelPricingSnapshot;
  isDraftChanged : bool;
  isDraftDeleted : bool;
  isDraftNew : bool
}.

Definition by_name (rows : list ModelPricingSnapshot) : list (jsstr * ModelPricingSnapshot) :=
  fold_left (λ m row, om_set (sn_name row) row m) rows [].

Definition unpriced (name : jsstr) : ModelPricingSnapshot :=
  {| sn_name := name; sn_values _ := None; sn_billingMode := Some $"per-token";
     sn_billingExpr := None; sn_requestRuleExpr := None; sn_hasConflict := false |}.

Definition model_row (saved draft : option ModelPricingSnapshot) (name : jsstr) : ModelRow :=
  {| mr_displayed :=
       match saved, draft with Some s, _ => s | None, Some d => d | None, None => unpriced name end;
     mr_saved := saved; mr_draft := draft;
     isDraftChanged := negb (bool_decide (getSnapshotSignature saved = getSnapshotSignature draft));
     isDraftDeleted := bool_decide (is_Some saved) && bool_decide (draft = None);
     isDraftNew := bool_decide (saved = None) && bool_decide (is_Some draft) |}.

Section Rows.
Context (localeCompare : jsstr → jsstr → Z).

(** [unset] is [filterMode === 'unset']. *)
Definition model_rows (unset : bool) (candidateModelNames : list jsstr)
    (savedRows draftRows : list ModelPricingSnapshot) : list ModelRow :=
  let savedByName := by_name savedRows in
  let draftByName := by_name draftRows in
  let modelNames :=
    if unset then os_of_list candidateModelNames
    else os_of_list (om_keys savedByName ++ om_keys draftByName) in
  js_sort (λ a b, localeCompare (sn_name (mr_displayed a)) (sn_name (mr_displayed b)))
    (List.filter (λ row, negb unset || isBasePricingUnset (mr_saved row))
      (List.filter (λ row, negb (isDraftDeleted row))
        ((λ name, model_row (om_get name savedByName) (om_get name draftByName) name) <$> modelNames))).
End Rows.

(** The counts shown at the filter: per-token, per-request, tiered. *)
Definition row_mode (row : ModelRow) : PricingMode :=
  let mode := sn_billingMode (mr_displayed row) in
  if bool_decide (mode = Some $"per-request") then PerRequest
  else if bool_decide (mode = Some $"tiered_expr") then TieredExpr
  else PerToken.

Definition modeCounts (rows : list ModelRow) : PricingMode → nat :=
  fold_left (λ acc row, <[row_mode row := S (acc (row_mode row))]> acc) rows (λ _, 0%nat).

(** What the panel is opened with. *)
Definition edit_data (row : ModelRow) : ModelRatioData :=
  let m := match mr_draft row, mr_saved row with
           | Some d, _ => d | None, Some s => s | None, None => mr_displayed row end in
  {| rd_name := sn_name m;
     rd_values := sn_values m;
     rd_billingMode := Some (
       if bool_decide (sn_billingMode m = Some $"tiered_expr") then TieredExpr
       else if hasPricingValue (sn_values m FPrice) then PerRequest
       else PerToken);
     rd_billingExpr := sn_billingExpr m;
     rd_requestRuleExpr := sn_requestRuleExpr m |}.

Definition handleEdit (isMobile : bool) (row : ModelRow) (e : Editor) : Editor :=
  {| ed_settings := ed_settings e; ed_data := Some (edit_data row); ed_open := true;
     ed_sheet := ed_sheet e || isMobile |}.
