(* ===== verification/PricingFacts.v ===== *)
(** * The pricing editor: what is saved is what was edited

    [saved_prices_read_back], [saved_expression_reads_back]: the settings written
    for a model are shown again as they were entered, and every other model keeps
    its settings.  [per_token_edit_lost]: a model with a fixed price cannot be
    switched to token prices.  [lanes_in_sync]: the ratios of the form follow the
    prices of the panel.  [signature_exact]: a row is marked as changed exactly
    when one of its settings differs. *)

From stdpp Require Import functions.
From S2P Require Import Prelude JsString JsNumber NumberText Regex JsValue Json OrderedMap JsObject.
From S2P Require Import JsMath BillingExpr BillingExprFacts PricingFormat PricingEditor PricingStore.

(** ** The texts of the settings *)

Lemma parse_map_text o : obj_ok o → parse_map (map_text o) = Some o.
Proof.
  intros Ho. destruct (parse_stringify $"  " ltac:(done) _ Ho) as (t & Et & Ep).
  unfold map_text. rewrite Et. change (default [] (Some t)) with t.
  assert (head_solid t ∧ last_solid t) as [Hh Hl].
  { unfold json_stringify in Et. cbn [stringify_at] in Et. injection Et as <-. unfold bracket.
    case_match; [done|]. split; [done|]. rewrite !app_assoc. by apply last_solid_app. }
  unfold parse_map, safeJsonParse. rewrite (trim_solid t Hh Hl), Ep.
  by destruct t.
Qed.

(** ** What saving stores *)

Definition maps_ok (m : Maps) : Prop :=
  (∀ f, obj_ok (m_numeric m f)) ∧ obj_ok (m_billingMode m) ∧ obj_ok (m_billingExpr m).

(** What the objects hold for a model. *)
Record Stored := {
  st_numeric : PriceField → option value;
  st_mode : option value;
  st_expr : option value
}.

Definition stored (m : Maps) (name : jsstr) : Stored :=
  {| st_numeric f := assoc name (m_numeric m f);
     st_mode := assoc name (m_billingMode m);
     st_expr := assoc name (m_billingExpr m) |}.

(** The same contents, field by field. *)
#[global] Instance stored_equiv : Equiv Stored := λ a b,
  (∀ f, st_numeric a f = st_numeric b f) ∧ st_mode a = st_mode b ∧ st_expr a = st_expr b.

#[global] Instance stored_equivalence : Equivalence (≡@{Stored}).
Proof.
  split.
  - done.
  - intros a b (H1 & H2 & H3). split_and!; [intros f; by rewrite H1|done..].
  - intros a b c (H1 & H2 & H3) (G1 & G2 & G3).
    split_and!; [intros f; by rewrite H1|congruence..].
Qed.

(** The number a text stands for, when there is one to store. *)
Definition entered (v : option jsstr) : option value :=
  let s := default [] v in
  if truthy s && is_finite (parse_float s) then Some (VNum (parse_float s)) else None.

(** The settings saved for some data. *)
Definition saved (data : ModelRatioData) : Stored :=
  let combined :=
    combineBillingExpr (default [] (rd_billingExpr data)) (default [] (rd_requestRuleExpr data)) in
  let tiered := bool_decide (rd_billingMode data = Some TieredExpr) in
  {| st_numeric f :=
       if tiered || eqb (bool_decide (f = FPrice)) (truthy (default [] (rd_values data FPrice)))
       then entered (rd_values data f) else None;
     st_mode := if tiered && truthy combined then Some (VStr $"tiered_expr") else None;
     st_expr := if tiered && truthy combined then Some (VStr combined) else None |}.

Definition data_ok (data : ModelRatioData) : bool :=
  forallb (λ f, from_option json_ok true (entered (rd_values data f))) PRICE_FIELDS
  && forallb code_unit (default [] (rd_billingExpr data))
  && forallb code_unit (default [] (rd_requestRuleExpr data)).

Lemma setIfPresent_entered o name v :
  setIfPresent (obj_delete name o) name v =
    match entered v with
    | Some x => obj_assign (obj_delete name o) (name, x)
    | None => obj_delete name o
    end.
Proof.
  unfold setIfPresent, entered. destruct (truthy _); [|done]. cbn [negb andb]. by destruct (is_finite _).
Qed.

Lemma assoc_setIfPresent k o name v :
  assoc k (setIfPresent (obj_delete name o) name v) =
    if bool_decide (k = name) then entered v else assoc k o.
Proof.
  rewrite setIfPresent_entered. destruct (entered v); [apply assoc_assign_delete|apply assoc_delete].
Qed.

Lemma ratio_fields f : f ∈ RATIO_FIELDS ↔ f ≠ FPrice.
Proof. unfold RATIO_FIELDS. rewrite list_elem_of_In. destruct f; naive_solver. Qed.

Lemma persist_one_stored data m name k :
  stored (persist_one data m name) k ≡ if bool_decide (k = name) then saved data else stored m k.
Proof.
  unfold persist_one, saved. destruct (bool_decide (rd_billingMode data = _)); cbn [orb andb];
    [|destruct (truthy (default [] (rd_values data FPrice)))].
  - destruct (truthy (combineBillingExpr _ _)); split_and!;
      try (intros f; cbn [stored st_numeric set_fields delete_model m_numeric];
           rewrite bool_decide_eq_true_2, assoc_setIfPresent
             by (rewrite list_elem_of_In; destruct f; cbn; tauto));
      cbn [stored st_mode st_expr set_fields delete_model m_billingMode m_billingExpr];
      rewrite ?assoc_assign_delete, ?assoc_delete; by case_bool_decide.
  - split_and!; [intros f|..]; cbn [stored st_numeric st_mode st_expr set_fields delete_model m_numeric m_billingMode m_billingExpr];
      rewrite ?assoc_delete; [|by case_bool_decide..].
    destruct (decide (f = FPrice)) as [->|Hf].
    + rewrite bool_decide_eq_true_2, assoc_setIfPresent by (left). by case_bool_decide.
    + rewrite (bool_decide_eq_false_2 (f ∈ _)) by by rewrite list_elem_of_singleton.
      rewrite assoc_delete. case_bool_decide; [|done]. cbn [st_numeric]. by rewrite bool_decide_eq_false_2.
  - split_and!; [intros f|..]; cbn [stored st_numeric st_mode st_expr set_fields delete_model m_numeric m_billingMode m_billingExpr];
      rewrite ?assoc_delete; [|by case_bool_decide..].
    destruct (decide (f = FPrice)) as [->|Hf].
    + rewrite (bool_decide_eq_false_2 (FPrice ∈ _)) by (rewrite ratio_fields; naive_solver).
      rewrite assoc_delete. by case_bool_decide.
    + rewrite bool_decide_eq_true_2, assoc_setIfPresent by by apply ratio_fields.
      case_bool_decide; [|done]. cbn [st_numeric]. by rewrite bool_decide_eq_false_2.
Qed.

Lemma persist_stored data names m k :
  stored (fold_left (persist_one data) names m) k ≡
    if bool_decide (k ∈ names) then saved data else stored m k.
Proof.
  revert m. induction names as [|n names IH]; intros m; cbn [fold_left].
  { by rewrite bool_decide_eq_false_2 by apply not_elem_of_nil. }
  etrans; [apply IH|]. destruct (bool_decide (k ∈ names)) eqn:E; bool_hyps.
  - by rewrite bool_decide_eq_true_2 by by right.
  - etrans; [apply persist_one_stored|]. destruct (decide (k = n)) as [->|Hne].
    + rewrite !bool_decide_eq_true_2 by (done || left). done.
    + rewrite !bool_decide_eq_false_2; [done|set_solver|done].
Qed.

Lemma entered_ok data f x : data_ok data = true → entered (rd_values data f) = Some x → json_ok x = true.
Proof.
  unfold data_ok. rewrite !andb_true_iff, forallb_forall. intros [[H _] _] Hx.
  specialize (H f). rewrite Hx in H. apply H. destruct f; cbn; tauto.
Qed.

Lemma combine_units a b :
  forallb code_unit a = true → forallb code_unit b = true → forallb code_unit (combineBillingExpr a b) = true.
Proof.
  intros Ha%(forallb_trim _ _) Hb%(forallb_trim _ _). unfold combineBillingExpr.
  repeat case_match; try done. by rewrite !forallb_app, Ha, Hb.
Qed.

Lemma setIfPresent_ok data f o name :
  data_ok data = true → obj_ok o → forallb code_unit name = true →
  obj_ok (setIfPresent (obj_delete name o) name (rd_values data f)).
Proof.
  intros Hd Ho Hn. rewrite setIfPresent_entered. destruct (entered (rd_values data f)) eqn:E.
  - apply obj_assign_ok; [done..|by eapply entered_ok].
  - by apply obj_delete_ok.
Qed.

Lemma delete_model_ok name m : maps_ok m → maps_ok (delete_model name m).
Proof. intros (H1 & H2 & H3). split_and!; [intros f|..]; by apply obj_delete_ok. Qed.

Lemma persist_one_ok data m name :
  data_ok data = true → forallb code_unit name = true → maps_ok m → maps_ok (persist_one data m name).
Proof.
  intros Hd Hn Hm. destruct (delete_model_ok name m Hm) as (D1 & D2 & D3). destruct Hm as (H1 & H2 & H3).
  assert (Hf : ∀ (fields : list PriceField) f, obj_ok (if bool_decide (f ∈ fields)
      then setIfPresent (obj_delete name (m_numeric m f)) name (rd_values data f)
      else obj_delete name (m_numeric m f))).
  { intros fields f. case_bool_decide; [by apply setIfPresent_ok|apply D1]. }
  assert (forallb code_unit (combineBillingExpr (default [] (rd_billingExpr data))
            (default [] (rd_requestRuleExpr data))) = true) as Hc.
  { unfold data_ok in Hd. rewrite !andb_true_iff in Hd. apply combine_units; tauto. }
  unfold persist_one. repeat case_match; (split_and!; [intros f; apply Hf|..]);
    first [done|by apply obj_assign_ok].
Qed.

Lemma persist_ok data names m :
  data_ok data = true → forallb (forallb code_unit) names = true → maps_ok m →
  maps_ok (fold_left (persist_one data) names m).
Proof.
  intros Hd. revert m. induction names as [|n names IH]; intros m; [done|]. cbn [forallb fold_left].
  intros [Hn Hns]%andb_true_iff Hm. apply IH; [done|]. by apply persist_one_ok.
Qed.

(** The texts written are read as the objects they were written for. *)
Lemma read_write m :
  maps_ok m → ∃ m', read_maps (write_maps m) = Some m' ∧ ∀ k, stored m' k ≡ stored m k.
Proof.
  intros (H1 & H2 & H3). unfold read_maps.
  assert (∀ f, parse_map (s_numeric (write_maps m) f) = Some (m_numeric m f)) as Hp
    by (intros f; cbn [write_maps s_numeric]; rewrite by_field_eq; by apply parse_map_text).
  replace (forallb _ PRICE_FIELDS) with true.
  2:{ symmetry. apply forallb_forall. intros f _. rewrite Hp. by apply bool_decide_eq_true_2. }
  cbn [write_maps s_billingMode s_billingExpr]. rewrite !parse_map_text by done. cbn [mbind option_bind].
  eexists. split; [done|]. intros k. split_and!; [intros f|done..]. cbn [stored st_numeric m_numeric].
  by rewrite by_field_eq, Hp.
Qed.

Lemma persist_reads s m data names :
  read_maps s = Some m → maps_ok m → data_ok data = true → forallb (forallb code_unit) names = true →
  ∃ s' m', persistPricingData s data names = Some s' ∧ read_maps s' = Some m' ∧
    ∀ k, stored m' k ≡ if bool_decide (k ∈ names) then saved data else stored m k.
Proof.
  intros Hr Hm Hd Hn. destruct (read_write _ (persist_ok data names m Hd Hn Hm)) as (m' & Hr' & Hs).
  unfold persistPricingData. rewrite Hr. cbn [mbind option_bind].
  eexists _, m'. split_and!; [done|done|]. intros k. rewrite (Hs k). apply persist_stored.
Qed.

(** ** The snapshot of what is stored *)

Definition stored_text (v : option value) : jsstr :=
  match v with None | Some VUndefined | Some VNull => [] | Some x => value_text x end.

Lemma field_text_stored m k f : field_text (m_numeric m f) k = stored_text (st_numeric (stored m k) f).
Proof.
  unfold field_text, stored_text, get. cbn [stored st_numeric].
  destruct (assoc k (m_numeric m f)) as [v|]; [|done]. cbn. by destruct v.
Qed.

(** The price shown for an entered text: the text of its number. *)
Definition shown (v : option jsstr) : jsstr :=
  let s := default [] v in
  if truthy s && is_finite (parse_float s) then number_text (parse_float s) else [].

Lemma entered_text v : stored_text (entered v) = shown v.
Proof. unfold entered, shown. by destruct (_ && _). Qed.

Lemma shown_present v : truthy (shown v) = true → truthy (default [] v) = true.
Proof. unfold shown. by destruct (truthy (default [] v)). Qed.

Lemma snapshot_stored m k sn :
  snapshot_of m k = Normal sn → ∀ f, sn_values sn f = Some (stored_text (st_numeric (stored m k) f)).
Proof.
  unfold snapshot_of. intros H f. destruct (eq_str _ _).
  - destruct (if negb _ then _ else _); [|done]. cbn [bind_completion] in H. injection H as <-.
    cbn [sn_values]. by rewrite by_field_eq, field_text_stored.
  - injection H as <-. cbn [sn_values]. by rewrite by_field_eq, field_text_stored.
Qed.

Lemma token_prices_read_back (s : Settings) (m : Maps) (data : ModelRatioData) (names : list jsstr) :
  read_maps s = Some m → maps_ok m → data_ok data = true → forallb (forallb code_unit) names = true →
  rd_billingMode data ≠ Some TieredExpr →
  ∃ s' m', persistPricingData s data names = Some s' ∧ read_maps s' = Some m' ∧
    (∀ k, k ∉ names → stored m' k ≡ stored m k) ∧
    (∀ k, k ∈ names → ∃ sn, snapshot_of m' k = Normal sn ∧
       (∀ f, sn_values sn f =
          Some (if eqb (bool_decide (f = FPrice)) (truthy (default [] (rd_values data FPrice)))
                then shown (rd_values data f) else [])) ∧
       sn_billingMode sn =
         Some (if truthy (shown (rd_values data FPrice)) then $"per-request" else $"per-token") ∧
       sn_hasConflict sn = false).
Proof.
  intros Hr Hm Hd Hn Hmode. destruct (persist_reads s m data names Hr Hm Hd Hn) as (s' & m' & Hp & Hr' & Hs).
  exists s', m'. split_and!; [done..| |].
  { intros k Hk. specialize (Hs k). by rewrite bool_decide_eq_false_2 in Hs. }
  intros k Hk. specialize (Hs k). rewrite bool_decide_eq_true_2 in Hs by done.
  destruct Hs as (Hnum & Hst & _). unfold saved in Hnum, Hst. cbn [st_numeric st_mode] in Hnum, Hst.
  rewrite bool_decide_eq_false_2 in Hnum, Hst by done. cbn [andb orb] in Hnum, Hst.
  unfold snapshot_of, get. change (assoc k (m_billingMode m')) with (st_mode (stored m' k)). rewrite Hst.
  change (eq_str _ _) with false. cbn iota. eexists. split; [done|]. cbn [sn_values sn_billingMode sn_hasConflict].
  assert (∀ f, by_field (λ f, field_text (m_numeric m' f) k) f =
    if eqb (bool_decide (f = FPrice)) (truthy (default [] (rd_values data FPrice)))
    then shown (rd_values data f) else []) as Ht.
  { intros f. rewrite by_field_eq, field_text_stored, Hnum, <- entered_text. by destruct (eqb _ _). }
  assert (truthy (by_field (λ f, field_text (m_numeric m' f) k) FPrice) = truthy (shown (rd_values data FPrice))) as Hpr.
  { rewrite Ht. rewrite bool_decide_eq_true_2 by done. unfold shown.
    by destruct (truthy (default [] (rd_values data FPrice))). }
  split_and!; [intros f; by rewrite Ht|by rewrite Hpr|]. rewrite Hpr.
  destruct (truthy (shown (rd_values data FPrice))) eqn:E; [|done]. cbn [andb].
  apply shown_present in E. apply not_true_iff_false. intros (f & Hf & Hx)%existsb_exists.
  apply list_elem_of_In, ratio_fields in Hf. rewrite Ht, bool_decide_eq_false_2, E in Hx by done. done.
Qed.

(** C6: saved prices read back.  When per-token or per-request settings are saved
    for a list of models, the ten texts written are read again; every model of
    the list then shows the entered numbers (the fixed price alone when one was
    entered, otherwise the ratios), in the mode that belongs to them and without
    a conflict; whatever was stored for any other model is unchanged. *)
Theorem saved_prices_read_back (s : Settings) (m : Maps) (data : ModelRatioData) (names : list jsstr) :
  read_maps s = Some m → maps_ok m → data_ok data = true → forallb (forallb code_unit) names = true →
  rd_billingMode data ≠ Some TieredExpr →
  ∃ s' m', persistPricingData s data names = Some s' ∧ read_maps s' = Some m' ∧
    (∀ k, k ∉ names → stored m' k ≡ stored m k) ∧
    (∀ k, k ∈ names → ∃ sn, snapshot_of m' k = Normal sn ∧
       (∀ f, sn_values sn f =
          Some (if eqb (bool_decide (f = FPrice)) (truthy (default [] (rd_values data FPrice)))
                then shown (rd_values data f) else [])) ∧
       sn_billingMode sn =
         Some (if truthy (shown (rd_values data FPrice)) then $"per-request" else $"per-token") ∧
       sn_hasConflict sn = false).
Proof. apply token_prices_read_back. Qed.

Lemma combined_present base rules : price_expr base = true → truthy (combineBillingExpr base (buildRequestRuleExpr rules)) = true.
Proof.
  unfold price_expr. rewrite !andb_true_iff, !negb_true_iff, bool_decide_eq_true.
  intros [[[[Hne Ht] _] _] _]. unfold combineBillingExpr. rewrite Ht, Hne. cbn [negb]. by case_match.
Qed.

(** Saved expressions read back.  A price expression and request rules saved
    for a list of models are separated again in the snapshot of each of them,
    which is in expression mode and keeps the entered numbers as a fallback;
    other models keep what is stored for them. *)
Theorem saved_expression_reads_back (s : Settings) (m : Maps) (data : ModelRatioData)
    (names : list jsstr) (base : jsstr) (groups : list RequestRuleGroup) :
  read_maps s = Some m → maps_ok m → data_ok data = true → forallb (forallb code_unit) names = true →
  rd_billingMode data = Some TieredExpr →
  rd_billingExpr data = Some base → rd_requestRuleExpr data = Some (buildRequestRuleExpr groups) →
  price_expr base = true → forallb faithful_group groups = true → groups ≠ [] →
  ∃ s' m', persistPricingData s data names = Some s' ∧ read_maps s' = Some m' ∧
    (∀ k, k ∉ names → stored m' k ≡ stored m k) ∧
    (∀ k, k ∈ names → ∃ sn, snapshot_of m' k = Normal sn ∧
       (∀ f, sn_values sn f = Some (shown (rd_values data f))) ∧
       sn_billingMode sn = Some $"tiered_expr" ∧
       sn_billingExpr sn = Some base ∧
       sn_requestRuleExpr sn = Some (buildRequestRuleExpr groups)).
Proof.
  intros Hr Hm Hd Hn Hmode Hb Hq Hpe Hg Hgs.
  destruct (persist_reads s m data names Hr Hm Hd Hn) as (s' & m' & Hp & Hr' & Hs).
  exists s', m'. split_and!; [done..| |].
  { intros k Hk. specialize (Hs k). by rewrite bool_decide_eq_false_2 in Hs. }
  intros k Hk. specialize (Hs k). rewrite bool_decide_eq_true_2 in Hs by done.
  destruct Hs as (Hnum & Hst & Hex). unfold saved in Hnum, Hst, Hex. cbn [st_numeric st_mode st_expr] in *.
  rewrite bool_decide_eq_true_2 in Hnum, Hst, Hex by done. rewrite Hb, Hq in Hst, Hex.
  cbn [andb orb] in *. change (default [] (Some ?x)) with x in *.
  rewrite (combined_present base groups Hpe) in Hst, Hex.
  unfold snapshot_of, get. change (assoc k (m_billingMode m')) with (st_mode (stored m' k)).
  change (assoc k (m_billingExpr m')) with (st_expr (stored m' k)). rewrite Hst, Hex.
  change (default VUndefined (Some ?x)) with x. cbn [to_boolean eq_str].
  rewrite bool_decide_eq_true_2, (combined_present base groups Hpe) by done. cbn [negb].
  rewrite split_combined by done. cbn [bind_completion]. eexists. split; [done|].
  cbn [sn_values sn_billingMode sn_billingExpr sn_requestRuleExpr BillingExpr.billingExpr BillingExpr.requestRuleExpr].
  split_and!; try done. intros f. by rewrite by_field_eq, field_text_stored, Hnum, entered_text.
Qed.

(** ** The panel *)

Record in_sync (p : Panel) : Prop := {
  sync_base : p_form p FRatio = base_ratio (p_promptPrice p);
  sync_lanes : ∀ lane, p_form p (ratioFieldByLane lane) = lane_ratio p lane
}.

#[global] Instance ratioFieldByLane_inj : Inj (=) (=) ratioFieldByLane.
Proof. intros [] []; done. Qed.

Lemma form_set_eq f s p : p_form (setFormValue f s p) f = s.
Proof. apply fn_lookup_insert. Qed.

Lemma form_set_ne f g s p : f ≠ g → p_form (setFormValue f s p) g = p_form p g.
Proof. intros. by apply fn_lookup_insert_ne. Qed.

Definition synced_ratio (prices : LaneKey → jsstr) (enabled : LaneKey → bool) (prompt : jsstr)
    (lane : LaneKey) : jsstr :=
  if enabled lane then deriveLaneRatio lane (prices lane) prompt prices else [].

Lemma fold_sync (ratio : LaneKey → jsstr) step lanes p :
  (∀ p lane, step p lane = setFormValue (ratioFieldByLane lane) (ratio lane) p) →
  let p' := fold_left step lanes p in
  p_promptPrice p' = p_promptPrice p ∧ p_prices p' = p_prices p ∧ p_enabled p' = p_enabled p ∧
  (∀ lane, lane ∈ lanes → p_form p' (ratioFieldByLane lane) = ratio lane) ∧
  (∀ f, (∀ lane, f ≠ ratioFieldByLane lane) → p_form p' f = p_form p f).
Proof.
  intros Hstep. cbv zeta. induction lanes as [|k lanes IH] using rev_ind.
  { split_and!; try done. by intros lane ?%not_elem_of_nil. }
  rewrite fold_left_app. cbn [fold_left]. rewrite Hstep. destruct IH as (H1 & H2 & H3 & H4 & H5).
  split_and!; [done..| |].
  - intros lane Hin. destruct (decide (lane = k)) as [->|Hne]; [apply form_set_eq|].
    rewrite form_set_ne by (intros ?%(inj _); congruence). apply H4.
    apply elem_of_app in Hin as [?|?%list_elem_of_singleton]; done.
  - intros f Hf. rewrite form_set_ne by congruence. by apply H5.
Qed.

Lemma lane_configured lane : lane ∈ lane_keys.
Proof. rewrite list_elem_of_In. destruct lane; cbn; tauto. Qed.

Lemma syncLaneRatios_spec prompt prices enabled p :
  let p' := syncLaneRatios prompt prices enabled p in
  p_promptPrice p' = p_promptPrice p ∧ p_prices p' = p_prices p ∧ p_enabled p' = p_enabled p ∧
  p_form p' FRatio = base_ratio prompt ∧
  (∀ lane, p_form p' (ratioFieldByLane lane) = synced_ratio prices enabled prompt lane) ∧
  p_form p' FPrice = p_form p FPrice.
Proof.
  unfold syncLaneRatios.
  edestruct (fold_sync (synced_ratio prices enabled prompt)) as (H1 & H2 & H3 & H4 & H5); cycle 1.
  - split_and!; [exact H1|exact H2|exact H3|..].
    + etrans; [apply H5; by intros []|apply form_set_eq].
    + intros lane. apply H4, lane_configured.
    + etrans; [apply H5; by intros []|by apply form_set_ne].
  - intros p0 lane. unfold synced_ratio. by destruct (enabled lane).
Qed.

(** Changing a price that no ratio of [lane] is derived from. *)
Lemma derive_other lane l v price prompt prices :
  (lane = AudioOutput → l ≠ AudioInput) →
  deriveLaneRatio lane price prompt (<[l := v]> prices) = deriveLaneRatio lane price prompt prices.
Proof.
  intros H. unfold deriveLaneRatio. destruct lane; try done.
  by rewrite fn_lookup_insert_ne by by apply H.
Qed.

Lemma in_sync_prompt v p : numericDraft v = true → in_sync (handlePromptPriceChange v p).
Proof.
  intros Hv. unfold handlePromptPriceChange. rewrite Hv. cbn [negb].
  destruct (syncLaneRatios_spec v (p_prices p) (p_enabled p) (with_promptPrice v p)) as (H1 & H2 & H3 & H4 & H5 & _).
  split; [by rewrite H4, H1|]. intros lane. rewrite H5. unfold lane_ratio. by rewrite H1, H2, H3.
Qed.

Lemma in_sync_lane_price lane v p : in_sync p → in_sync (handleLanePriceChange lane v p).
Proof.
  intros [Hb Hl]. unfold handleLanePriceChange. destruct (numericDraft v); [|by split]. cbn [negb].
  set (prices := <[lane := v]> (p_prices p)).
  assert (∀ k, p_form (if p_enabled p lane
      then setFormValue (ratioFieldByLane lane) (deriveLaneRatio lane v (p_promptPrice p) prices)
             (with_lanes prices (p_enabled p) p)
      else with_lanes prices (p_enabled p) p) (ratioFieldByLane k) =
    if bool_decide (k = AudioOutput ∧ lane = AudioInput) then lane_ratio p k
    else synced_ratio prices (p_enabled p) (p_promptPrice p) k) as Hf.
  { intros k. unfold synced_ratio, lane_ratio. destruct (decide (k = lane)) as [->|Hne].
    - rewrite bool_decide_eq_false_2 by naive_solver. subst prices. rewrite fn_lookup_insert.
      destruct (p_enabled p lane) eqn:E; [apply form_set_eq|].
      etrans; [apply Hl|]. unfold lane_ratio. by rewrite E.
    - transitivity (p_form p (ratioFieldByLane k)).
      { destruct (p_enabled p lane); [|done]. etrans; [apply form_set_ne|done]. intros ?%(inj _). congruence. }
      rewrite Hl. unfold lane_ratio. case_bool_decide as Hk; [done|].
      subst prices. rewrite fn_lookup_insert_ne by done. by rewrite derive_other by naive_solver. }
  destruct (bool_decide (lane = AudioInput) && p_enabled p AudioOutput) eqn:Ea.
  - apply andb_true_iff in Ea as [Ea Eo]. apply bool_decide_eq_true in Ea. subst lane. split.
    + by destruct (p_enabled p AudioInput).
    + intros k. destruct (decide (k = AudioOutput)) as [->|Hk].
      * etrans; [apply form_set_eq|]. unfold lane_ratio. destruct (p_enabled p AudioInput); cbn; by rewrite Eo.
      * rewrite form_set_ne by by destruct k. rewrite Hf, bool_decide_eq_false_2 by naive_solver.
        unfold lane_ratio. by destruct (p_enabled p AudioInput).
  - split.
    + destruct (p_enabled p lane); [|done]. etrans; [apply form_set_ne; by destruct lane|done].
    + intros k. rewrite Hf. transitivity (synced_ratio prices (p_enabled p) (p_promptPrice p) k).
      * destruct (decide (k = AudioOutput ∧ lane = AudioInput)) as [[-> ->]|Hk];
          [|by rewrite bool_decide_eq_false_2].
        rewrite bool_decide_eq_true_2 by done. rewrite bool_decide_eq_true_2 in Ea by done.
        cbn [andb] in Ea. unfold lane_ratio, synced_ratio. by rewrite Ea.
      * unfold lane_ratio. by destruct (p_enabled p lane).
Qed.

Lemma in_sync_toggle lane checked p : in_sync p → in_sync (handleLaneToggle lane checked p).
Proof.
  intros [Hb Hl]. unfold handleLaneToggle. destruct checked; cbn [negb].
  - split; [etrans; [apply form_set_ne; by destruct lane|done]|]. intros k.
    unfold lane_ratio. cbn [p_enabled p_prices p_promptPrice setFormValue with_lanes].
    destruct (decide (k = lane)) as [->|Hne].
    + rewrite fn_lookup_insert. by rewrite form_set_eq.
    + rewrite fn_lookup_insert_ne, form_set_ne by (done || intros ?%(inj _); congruence).
      cbn [p_form with_lanes]. apply Hl.
  - destruct (bool_decide (lane = AudioInput)) eqn:Ea; bool_hyps.
    + subst lane. split; [done|]. intros k. unfold lane_ratio. cbn [p_enabled p_prices p_promptPrice setFormValue with_lanes].
      destruct (decide (k = AudioOutput)) as [->|Ho]; [done|].
      rewrite (fn_lookup_insert_ne _ AudioOutput k) by done.
      destruct (decide (k = AudioInput)) as [->|Hi]; [done|].
      rewrite !fn_lookup_insert_ne by done.
      transitivity (p_form p (ratioFieldByLane k)); [by destruct k|]. rewrite Hl. unfold lane_ratio. by destruct k.
    + split; [etrans; [apply form_set_ne; by destruct lane|done]|]. intros k.
      unfold lane_ratio. cbn [p_enabled p_prices p_promptPrice p_form with_lanes].
      destruct (decide (k = lane)) as [->|Hne].
      * rewrite fn_lookup_insert. apply form_set_eq.
      * rewrite !fn_lookup_insert_ne, derive_other by naive_solver.
        etrans; [apply form_set_ne; intros ?%(inj _); congruence|apply Hl].
Qed.

Lemma in_sync_edit p e : in_sync p → in_sync (apply_edit p e).
Proof.
  intros Hp. destruct e; cbn [apply_edit].
  - destruct (numericDraft v) eqn:E; [by apply in_sync_prompt|].
    unfold handlePromptPriceChange. by rewrite E.
  - by apply in_sync_lane_price.
  - by apply in_sync_toggle.
  - unfold handleModeChange. case_match; by destruct Hp.
  - unfold handleNameChange. case_match; by destruct Hp.
  - unfold handlePriceChange. case_match; [|done]. destruct Hp as [Hb Hl].
    split; [done|]. intros lane. etrans; [apply form_set_ne; by destruct lane|apply Hl].
  - by destruct Hp.
  - by destruct Hp.
Qed.

Lemma in_sync_edits edits p : in_sync p → in_sync (apply_edits edits p).
Proof. revert p. induction edits as [|e edits IH]; intros p Hp; [done|]. apply IH. by apply in_sync_edit. Qed.

(** C23: the ratios follow the prices.  In a panel opened for a new model, after
    any sequence of edits, the form's ratio is half the input price and the ratio
    of every lane is the one derived from its price while the lane is enabled,
    and empty otherwise; in a panel opened for an existing model the same holds
    from the first accepted edit of the input price on. *)
Theorem lanes_in_sync (edits : list Edit) :
  in_sync (apply_edits edits (load None)) ∧
  ∀ data before v, numericDraft v = true →
    in_sync (apply_edits (before ++ EditPromptPrice v :: edits) (load (Some data))).
Proof.
  split.
  - apply in_sync_edits. by split.
  - intros data before v Hv. unfold apply_edits. rewrite fold_left_app. cbn [fold_left apply_edit].
    apply in_sync_edits. by apply in_sync_prompt.
Qed.

(** ** Changing the mode of a model with a fixed price *)

Definition edits_price (e : Edit) : bool := match e with EditPrice _ => true | _ => false end.

Lemma price_kept p e : edits_price e = false → p_form (apply_edit p e) FPrice = p_form p FPrice.
Proof.
  intros He. destruct e; try done; cbn [apply_edit].
  - unfold handlePromptPriceChange. case_match; [done|].
    by destruct (syncLaneRatios_spec v (p_prices p) (p_enabled p) (with_promptPrice v p)) as (_ & _ & _ & _ & _ & ->).
  - unfold handleLanePriceChange. repeat case_match; rewrite ?form_set_ne by (by destruct lane); done.
  - unfold handleLaneToggle. repeat case_match; cbn [with_lanes p_form];
      rewrite ?form_set_ne by (by destruct lane); done.
  - unfold handleModeChange. by case_match.
  - unfold handleNameChange. by case_match.
Qed.

Lemma price_kept_edits edits p :
  forallb (λ e, negb (edits_price e)) edits = true → p_form (apply_edits edits p) FPrice = p_form p FPrice.
Proof.
  revert p. induction edits as [|e edits IH]; intros p; [done|]. cbn [forallb].
  intros [He%negb_true_iff Hs]%andb_true_iff. cbn [apply_edits fold_left].
  etrans; [by apply IH|by apply price_kept].
Qed.

(** C37: a fixed price hides token prices.  In the panel of a model that has a
    fixed price, switching to token prices and entering them (without emptying
    the hidden fixed price) saves the fixed price again: the row stays in
    per-request mode, and none of the entered token prices is stored. *)
Theorem per_token_edit_lost (e : Editor) (m : Maps) (d data : ModelRatioData) (price : jsstr)
    (edits : list Edit) :
  read_maps (ed_settings e) = Some m → maps_ok m → ed_open e = true →
  rd_values d FPrice = Some price → truthy (shown (Some price)) = true →
  forallb (λ e, negb (edits_price e)) edits = true →
  p_mode (apply_edits edits (load (Some d))) = PerToken →
  commitDraft (apply_edits edits (load (Some d))) = Some data →
  data_ok data = true → forallb code_unit (rd_name data) = true →
  ∃ e' m' sn, commitOpenEditor e (apply_edits edits (load (Some d))) = Some (true, e') ∧
    read_maps (ed_settings e') = Some m' ∧ snapshot_of m' (rd_name data) = Normal sn ∧
    sn_billingMode sn = Some $"per-request" ∧
    sn_values sn FPrice = Some (shown (Some price)) ∧
    ∀ f, f ≠ FPrice → sn_values sn f = Some [].
Proof.
  intros Hr Hm Hopen Hd Hs He Hmode Hc Hok Hu. set (p := apply_edits _ _) in *.
  assert (rd_values data FPrice = Some price ∧ rd_billingMode data ≠ Some TieredExpr) as [Hp Hmd].
  { unfold commitDraft in Hc. repeat case_match; try done. injection Hc as <-.
    cbn [rd_values rd_billingMode buildSubmitData]. rewrite Hmode. split; [|done]. f_equal.
    unfold p. rewrite price_kept_edits by done. cbn [load p_form]. by rewrite Hd. }
  destruct (token_prices_read_back (ed_settings e) m data [rd_name data] Hr Hm Hok) as (s' & m' & Hs' & Hm' & _ & Hsn); [|done|].
  { cbn [forallb]. by rewrite Hu. }
  destruct (Hsn (rd_name data)) as (sn & Hk & Hv & Hb & _); [left|].
  exists (with_settings s' (Some data) e), m', sn. unfold commitOpenEditor. rewrite Hopen, Hc, Hs'.
  cbn [negb mbind option_bind].
  rewrite Hp in Hv, Hb. rewrite Hs in Hb. pose proof (shown_present _ Hs) as Ht.
  change (default [] (Some price)) with price in *. rewrite Ht in Hv.
  split_and!; [done..| |].
  - rewrite Hv, bool_decide_eq_true_2, Hp by done. done.
  - intros f Hf. rewrite Hv, bool_decide_eq_false_2 by done. done.
Qed.

(** ** Deleting a model *)

Definition nothing : Stored := {| st_numeric _ := None; st_mode := None; st_expr := None |}.

Lemma elem_of_model_names m k : k ∈ model_names m ↔ ¬ stored m k ≡ nothing.
Proof.
  unfold model_names. rewrite elem_of_os_of_list, !elem_of_app, list_elem_of_join.
  split.
  - intros [(l & Hk & (f & -> & _)%list_elem_of_fmap)|[Hk|Hk]] (H1 & H2 & H3);
      [specialize (H1 f); apply assoc_None in H1|apply assoc_None in H2|apply assoc_None in H3]; done.
  - intros Hn. destruct (decide (k ∈ (m_billingMode m).*1)) as [|H2%assoc_None]; [tauto|].
    destruct (decide (k ∈ (m_billingExpr m).*1)) as [|H3%assoc_None]; [tauto|]. left.
    destruct (decide (Exists (λ f, k ∈ (m_numeric m f).*1) PRICE_FIELDS)) as [(f & Hf & Hk)%Exists_exists|He].
    { exists (m_numeric m f).*1. split; [done|]. apply list_elem_of_fmap. eauto. }
    exfalso. apply Hn. split_and!; [|done..]. intros f. apply assoc_None. intros Hk. apply He, Exists_exists.
    exists f. split; [|done]. rewrite list_elem_of_In. destruct f; cbn; tauto.
Qed.

(** Deleting removes one model and nothing else.  After [handleDelete] nothing
    is stored for the model, so that it no longer has a row, and what is stored
    for every other model is unchanged; the panel is closed exactly when it was
    the deleted model that was being edited. *)
Theorem delete_exact (e : Editor) (m : Maps) (name : jsstr) :
  read_maps (ed_settings e) = Some m → maps_ok m →
  ∃ e' m', handleDelete e name = Some e' ∧ read_maps (ed_settings e') = Some m' ∧
    (ed_data e', ed_open e', ed_sheet e') =
      (if bool_decide (rd_name <$> ed_data e = Some name) then (None, false, false)
       else (ed_data e, ed_open e, ed_sheet e)) ∧
    stored m' name ≡ nothing ∧
    name ∉ model_names m' ∧
    ∀ k, k ≠ name → stored m' k ≡ stored m k ∧ (k ∈ model_names m' ↔ k ∈ model_names m).
Proof.
  intros Hr Hm. destruct (read_write _ (delete_model_ok name m Hm)) as (m' & Hr' & Hs).
  assert (∀ k, stored (delete_model name m) k ≡
    if bool_decide (k = name) then nothing else stored m k) as Hd.
  { intros k. split_and!; [intros f|..]; cbn [stored st_numeric st_mode st_expr delete_model m_numeric m_billingMode m_billingExpr];
      rewrite assoc_delete; by case_bool_decide. }
  unfold handleDelete. rewrite Hr. cbn [mbind option_bind]. eexists _, m'.
  split_and!; [done|by case_bool_decide|by case_bool_decide|..].
  - rewrite (Hs name), (Hd name). by rewrite bool_decide_eq_true_2.
  - rewrite elem_of_model_names. intros Hn. apply Hn. rewrite (Hs name), (Hd name). by rewrite bool_decide_eq_true_2.
  - intros k Hk. assert (stored m' k ≡ stored m k) as E.
    { rewrite (Hs k), (Hd k). by rewrite bool_decide_eq_false_2. }
    split; [done|]. rewrite !elem_of_model_names. by rewrite E.
Qed.

(** ** Opening and saving without an edit *)

(** Settings of a model that are numbers, with no expression. *)
Definition plain_settings (st : Stored) : Prop :=
  st_mode st = None ∧ st_expr st = None ∧
  ∀ f v, st_numeric st f = Some v → ∃ x, v = VNum x ∧ json_ok v = true.

Lemma number_value_text x : json_ok (VNum x) = true → entered (Some (number_text x)) = Some (VNum x).
Proof.
  cbn [json_ok]. rewrite !andb_true_iff, bool_decide_eq_true. intros [[Hf Hv] Hz].
  destruct (number_text_json x Hf Hv) as [Hj _]. unfold entered. change (default [] (Some ?s)) with s.
  rewrite parse_float_text by done. assert (unsigned_zero x = x) as -> by (by destruct x as [[]| | |]).
  rewrite Hf. destruct (number_text x); [done|]. done.
Qed.

Lemma entered_stored st f : plain_settings st → entered (Some (stored_text (st_numeric st f))) = st_numeric st f.
Proof.
  intros (_ & _ & Hn). destruct (st_numeric st f) as [v|] eqn:E; [|done].
  destruct (Hn f v E) as (x & -> & Hx). by apply number_value_text.
Qed.

Lemma plain_snapshot m k sn :
  plain_settings (stored m k) → snapshot_of m k = Normal sn →
  sn_name sn = k ∧
  (∀ f, sn_values sn f = Some (stored_text (st_numeric (stored m k) f))) ∧
  sn_billingMode sn ≠ Some $"tiered_expr" ∧
  sn_hasConflict sn = truthy (stored_text (st_numeric (stored m k) FPrice))
    && existsb (λ f, truthy (stored_text (st_numeric (stored m k) f))) RATIO_FIELDS.
Proof.
  intros (Hm & _) H. unfold snapshot_of, get in H.
  change (assoc k (m_billingMode m)) with (st_mode (stored m k)) in H. rewrite Hm in H.
  change (eq_str _ _) with false in H. cbn iota in H. injection H as <-.
  cbn [sn_name sn_values sn_billingMode sn_hasConflict]. split_and!; [done|..].
  - intros f. by rewrite by_field_eq, field_text_stored.
  - by case_match.
  - rewrite ?by_field_eq, field_text_stored. f_equal. unfold RATIO_FIELDS. cbn [existsb]. by rewrite ?by_field_eq, !field_text_stored.
Qed.

Lemma truthy_nil (s : jsstr) : truthy s = false → s = [].
Proof. by destruct s. Qed.

Lemma saved_unedited st data :
  plain_settings st → rd_billingMode data ≠ Some TieredExpr →
  (∀ f, rd_values data f = Some (stored_text (st_numeric st f))) →
  truthy (stored_text (st_numeric st FPrice))
    && existsb (λ f, truthy (stored_text (st_numeric st f))) RATIO_FIELDS = false →
  saved data ≡ st.
Proof.
  intros Hst Hmode Hv Hc. pose proof Hst as (Hm & He & _). unfold saved.
  rewrite (bool_decide_eq_false_2 (rd_billingMode data = _)) by done. cbn [andb orb].
  split_and!; [|done..]. intros f. cbn [st_numeric]. rewrite !Hv. change (default [] (Some ?s)) with s.
  rewrite entered_stored by done. destruct (eqb _ _) eqn:E; [done|].
  rewrite <- entered_stored by done. apply eqb_false_iff in E.
  assert (stored_text (st_numeric st f) = []) as ->; [|done].
  destruct (truthy (stored_text (st_numeric st FPrice))) eqn:Ep; cbn [andb] in Hc.
  - apply truthy_nil, not_true_iff_false. intros Hf. apply not_true_iff_false in Hc. apply Hc.
    apply existsb_exists. exists f. split; [|done]. apply list_elem_of_In, ratio_fields.
    intros ->. by rewrite bool_decide_eq_true_2 in E.
  - case_bool_decide; [subst f; by apply truthy_nil|done].
Qed.

(** What the panel opened on the row of a model submits when nothing is edited. *)
Lemma unedited_data m k sn saved_row data :
  plain_settings (stored m k) → snapshot_of m k = Normal sn → trim k = k →
  commitDraft (load (Some (edit_data (model_row saved_row (Some sn) k)))) = Some data →
  rd_name data = k ∧ rd_billingMode data ≠ Some TieredExpr ∧
  (∀ f, rd_values data f = Some (stored_text (st_numeric (stored m k) f))) ∧ data_ok data = true.
Proof.
  intros Hst Hsn Ht Hc. destruct (plain_snapshot m k sn Hst Hsn) as (Hn & Hv & Hb & _).
  unfold commitDraft in Hc. repeat case_match; try done. injection Hc as <-.
  set (p := load (Some (edit_data (model_row saved_row (Some sn) k)))). assert (p_mode p ≠ TieredExpr) as Hp.
  { unfold p. cbn [load p_mode edit_data rd_billingMode model_row mr_draft].
    rewrite (bool_decide_eq_false_2 (sn_billingMode sn = _)) by done. by repeat case_match. }
  assert (∀ f, rd_values (buildSubmitData p) f = Some (stored_text (st_numeric (stored m k) f))) as Hd
    by (intros f; unfold p; cbn; by rewrite Hv).
  split_and!; [unfold p; cbn; by rewrite Hn| |done|].
  { change (Some (p_mode p) ≠ Some TieredExpr). congruence. }
  unfold data_ok. cbn [rd_billingExpr rd_requestRuleExpr buildSubmitData].
  rewrite !(bool_decide_eq_false_2 (p_mode p = _)) by done.
  change (forallb code_unit (default [] None)) with true. rewrite !andb_true_r.
  apply forallb_forall. intros f _. rewrite Hd, entered_stored by done.
  destruct (st_numeric (stored m k) f) as [v|] eqn:Es; [|done].
  by destruct (proj2 (proj2 Hst) f v Es) as (? & _ & ?).
Qed.

(** Opening a model and saving it changes nothing.  For a model with numeric
    settings and no conflict between them, the panel opened on its row, committed
    without an edit, writes texts in which every model keeps exactly what was
    stored for it. *)
Theorem unedited_save_is_identity (isMobile : bool) (e e' : Editor) (m : Maps) (k : jsstr)
    (sn : ModelPricingSnapshot) (saved_row : option ModelPricingSnapshot) :
  read_maps (ed_settings e) = Some m → maps_ok m → forallb code_unit k = true → trim k = k →
  plain_settings (stored m k) → snapshot_of m k = Normal sn → sn_hasConflict sn = false →
  let opened := handleEdit isMobile (model_row saved_row (Some sn) k) e in
  commitOpenEditor opened (load (ed_data opened)) = Some (true, e') →
  ∃ m', read_maps (ed_settings e') = Some m' ∧ ∀ k', stored m' k' ≡ stored m k'.
Proof.
  intros Hr Hm Hu Ht Hst Hsn Hc opened Hcommit. subst opened.
  unfold commitOpenEditor in Hcommit. cbn [handleEdit ed_open ed_data ed_settings negb] in Hcommit. destruct (commitDraft _) as [data|] eqn:Ed; [|done].
  destruct (unedited_data m k sn saved_row data Hst Hsn Ht Ed) as (Hk & Hmode & Hd & Hok).
  rewrite Hk in Hcommit. destruct (persist_reads (ed_settings e) m data [k] Hr Hm Hok) as (s1 & m' & Hp & Hr' & Hs).
  { cbn [forallb]. by rewrite Hu. }
  rewrite Hp in Hcommit. injection Hcommit as <-. exists m'. split; [done|]. intros k'. rewrite (Hs k').
  destruct (decide (k' = k)) as [->|Hne].
  - rewrite bool_decide_eq_true_2 by (left). apply saved_unedited; [done..|].
    by destruct (plain_snapshot m k sn Hst Hsn) as (_ & _ & _ & <-).
  - rewrite bool_decide_eq_false_2 by by rewrite list_elem_of_singleton. done.
Qed.

(** ** Which rows are marked as changed *)

Definition snapshot_units (s : ModelPricingSnapshot) : bool :=
  forallb (λ f, forallb code_unit (default [] (sn_values s f))) PRICE_FIELDS
  && forallb code_unit (default [] (sn_billingMode s))
  && forallb code_unit (default [] (sn_billingExpr s))
  && forallb code_unit (default [] (sn_requestRuleExpr s)).

Definition effective_mode (s : ModelPricingSnapshot) : jsstr :=
  if hasPricingValue (sn_billingMode s) then default [] (sn_billingMode s) else $"per-token".

(** The settings a signature records. *)
Definition same_settings (a b : ModelPricingSnapshot) : Prop :=
  (∀ f, default [] (sn_values a f) = default [] (sn_values b f)) ∧
  effective_mode a = effective_mode b ∧
  default [] (sn_billingExpr a) = default [] (sn_billingExpr b) ∧
  default [] (sn_requestRuleExpr a) = default [] (sn_requestRuleExpr b).

Lemma signature_ok s : snapshot_units s = true → json_ok (signature_value s) = true.
Proof.
  unfold snapshot_units. rewrite !andb_true_iff. intros [[[Hf Hm] He] Hr].
  unfold PRICE_FIELDS in Hf. cbn [forallb] in Hf. rewrite !andb_true_iff in Hf.
  destruct Hf as (H1 & H2 & H3 & H4 & H5 & H6 & H7 & H8 & _).
  unfold signature_value. fold (effective_mode s).
  assert (forallb code_unit (effective_mode s) = true) as Hem by (unfold effective_mode; by case_match).
  cbn [json_ok forallb fst snd]. rewrite H1, H2, H3, H4, H5, H6, H7, H8, He, Hr, Hem.
  vm_compute. reflexivity.
Qed.

Lemma stringify_inj v w :
  json_ok v = true → json_ok w = true → json_stringify [] v = json_stringify [] w → v = w.
Proof.
  intros Hv Hw E. destruct (parse_stringify [] ltac:(done) v Hv) as (t & Et & Ev).
  destruct (parse_stringify [] ltac:(done) w Hw) as (u & Eu & Ew). congruence.
Qed.

Lemma signature_text s : snapshot_units s = true →
  ∃ t, json_stringify [] (signature_value s) = Some t ∧ getSnapshotSignature (Some s) = t ∧ t ≠ [].
Proof.
  intros Hs. destruct (parse_stringify [] ltac:(done) _ (signature_ok s Hs)) as (t & Et & Ep).
  exists t. unfold getSnapshotSignature. rewrite Et. split_and!; [done..|]. by intros ->.
Qed.

Lemma signature_value_inj a b : signature_value a = signature_value b ↔ same_settings a b.
Proof.
  unfold signature_value, same_settings. fold (effective_mode a) (effective_mode b). split.
  - intros H. injection H as H1 H2 H3 H4 H5 H6 H7 H8 H9 H10 H11. split_and!; [|done..]. by intros [].
  - intros (Hf & -> & -> & ->). by rewrite !Hf.
Qed.

(** A row is marked as changed exactly when a setting differs.  Between the
    saved and the draft settings of a model, the mark is absent exactly when all
    eight numbers, the mode (per-token when absent), the expression and the rules
    agree; a model that was added or deleted is always marked. *)
Theorem signature_exact (a b : ModelPricingSnapshot) (name : jsstr) :
  snapshot_units a = true → snapshot_units b = true →
  (isDraftChanged (model_row (Some a) (Some b) name) = false ↔ same_settings a b) ∧
  isDraftChanged (model_row (Some a) None name) = true ∧
  isDraftChanged (model_row None (Some b) name) = true.
Proof.
  intros Ha Hb. destruct (signature_text a Ha) as (ta & Ea & Sa & Na), (signature_text b Hb) as (tb & Eb & Sb & Nb).
  unfold model_row. cbn [isDraftChanged]. rewrite Sa, Sb. change (getSnapshotSignature None) with (@nil Z).
  split_and!.
  - rewrite negb_false_iff, bool_decide_eq_true, <- signature_value_inj. split.
    + intros ->. apply stringify_inj; [by apply signature_ok..|congruence].
    + intros E. rewrite E in Ea. congruence.
  - by rewrite bool_decide_eq_false_2.
  - by rewrite bool_decide_eq_false_2.
Qed.

(** ** Concrete settings *)

Definition sample_settings : Settings :=
  {| s_numeric f :=
       match f with
       | FPrice => dq "{'dall-e': 0.04}"
       | FRatio => dq "{'gpt': 1.25, 'claude': 1.5}"
       | FCompletionRatio => dq "{'gpt': 4}"
       | _ => []
       end;
     s_billingMode := dq "{}"; s_billingExpr := [] |}.

Definition sample_maps : Maps :=
  {| m_numeric := by_field (λ f, default [] (parse_map (s_numeric sample_settings f)));
     m_billingMode := []; m_billingExpr := [] |}.

Lemma sample_reads : read_maps sample_settings = Some sample_maps.
Proof. vm_compute. reflexivity. Qed.

Lemma sample_maps_ok : maps_ok sample_maps.
Proof. split_and!; [intros []|..]; vm_compute; reflexivity. Qed.

Definition sample_data : ModelRatioData :=
  {| rd_name := $"gpt";
     rd_values f := match f with FRatio => Some $"2.5" | FCacheRatio => Some $"0.10" | _ => Some [] end;
     rd_billingMode := Some PerToken; rd_billingExpr := None; rd_requestRuleExpr := None |}.

Lemma saved_prices_read_back_witness :
  ∃ s' m' sn, persistPricingData sample_settings sample_data [$"gpt"; $"o3"] = Some s' ∧
    read_maps s' = Some m' ∧ stored m' $"claude" ≡ stored sample_maps $"claude" ∧
    snapshot_of m' $"o3" = Normal sn ∧ sn_values sn FCacheRatio = Some $"0.1".
Proof.
  destruct (saved_prices_read_back sample_settings sample_maps sample_data [$"gpt"; $"o3"])
    as (s' & m' & Hp & Hr & Ho & Hn);
    [exact sample_reads|exact sample_maps_ok|vm_compute; reflexivity|vm_compute; reflexivity|done|].
  destruct (Hn $"o3") as (sn & Hs & Hv & _); [by right; left|].
  exists s', m', sn. split_and!; [done|done| |done|rewrite Hv; vm_compute; reflexivity].
  apply Ho. rewrite !not_elem_of_cons. split_and!; [done|done|apply not_elem_of_nil].
Defined.

Definition sample_tiered : ModelRatioData :=
  {| rd_name := $"gpt"; rd_values _ := Some []; rd_billingMode := Some TieredExpr;
     rd_billingExpr := Some (dq "tier('base', p * 1 + c * 2)");
     rd_requestRuleExpr := Some (buildRequestRuleExpr sample_groups) |}.

Lemma saved_expression_reads_back_witness :
  ∃ s' m' sn, persistPricingData sample_settings sample_tiered [$"gpt"] = Some s' ∧
    read_maps s' = Some m' ∧ snapshot_of m' $"gpt" = Normal sn ∧
    sn_requestRuleExpr sn = Some (buildRequestRuleExpr sample_groups).
Proof.
  destruct (saved_expression_reads_back sample_settings sample_maps sample_tiered [$"gpt"]
              (dq "tier('base', p * 1 + c * 2)") sample_groups) as (s' & m' & Hp & Hr & _ & Hn);
    [exact sample_reads|exact sample_maps_ok|vm_compute; reflexivity|vm_compute; reflexivity|done|done|done
    |vm_compute; reflexivity|vm_compute; reflexivity|done|].
  destruct (Hn $"gpt") as (sn & Hs & _ & _ & _ & Hq); [left|]. eauto 10.
Defined.

(** A model with a fixed price, edited to have token prices. *)
Definition fixed_data : ModelRatioData :=
  {| rd_name := $"dall-e"; rd_values f := match f with FPrice => Some $"0.04" | _ => Some [] end;
     rd_billingMode := Some PerRequest; rd_billingExpr := None; rd_requestRuleExpr := None |}.

Definition switch_edits : list Edit :=
  [EditMode PerToken; EditPromptPrice $"3"; ToggleLane Completion true; EditLanePrice Completion $"15"].

Definition sample_editor : Editor :=
  {| ed_settings := sample_settings; ed_data := Some fixed_data; ed_open := true; ed_sheet := false |}.

Lemma per_token_edit_lost_witness :
  ∃ e' m' sn,
    commitOpenEditor sample_editor (apply_edits switch_edits (load (Some fixed_data))) = Some (true, e') ∧
    read_maps (ed_settings e') = Some m' ∧ snapshot_of m' $"dall-e" = Normal sn ∧
    sn_billingMode sn = Some $"per-request" ∧ sn_values sn FRatio = Some [].
Proof.
  destruct (per_token_edit_lost sample_editor sample_maps fixed_data
    (buildSubmitData (apply_edits switch_edits (load (Some fixed_data)))) $"0.04" switch_edits)
    as (s' & m' & sn & Hc & Hr & Hs & Hm & _ & Hf);
    [exact sample_reads|exact sample_maps_ok|done|done|vm_compute; reflexivity|done|done|vm_compute; reflexivity
    |vm_compute; reflexivity|vm_compute; reflexivity|].
  exists s', m', sn. split_and!; [done..|by apply Hf].
Defined.

Lemma delete_exact_witness :
  ∃ e' m', handleDelete sample_editor $"gpt" = Some e' ∧ read_maps (ed_settings e') = Some m' ∧
    $"gpt" ∉ model_names m'.
Proof.
  destruct (delete_exact sample_editor sample_maps $"gpt") as (e' & m' & Hd & Hr & _ & _ & Hn & _);
    [exact sample_reads|exact sample_maps_ok|]. eauto.
Defined.

Definition sample_snapshot : ModelPricingSnapshot :=
  match snapshot_of sample_maps $"gpt" with Normal sn => sn | Throws => unpriced [] end.

Definition sample_opened : Editor := handleEdit false (model_row None (Some sample_snapshot) $"gpt") sample_editor.

Definition sample_saved : Editor :=
  match commitOpenEditor sample_opened (load (ed_data sample_opened)) with
  | Some (_, e') => e' | None => sample_editor
  end.

Lemma unedited_save_is_identity_witness :
  ∃ m', read_maps (ed_settings sample_saved) = Some m' ∧ ∀ k, stored m' k ≡ stored sample_maps k.
Proof.
  apply (unedited_save_is_identity false sample_editor sample_saved sample_maps $"gpt" sample_snapshot None);
    [exact sample_reads|exact sample_maps_ok|done|done| |vm_compute; reflexivity|vm_compute; reflexivity
    |vm_compute; reflexivity].
  split_and!; [done|done|]. intros f v Hv.
  assert (match st_numeric (stored sample_maps $"gpt") f with
          | Some (VNum x) => json_ok (VNum x) | None => true | _ => false end = true) as H
    by (destruct f; vm_compute; reflexivity).
  rewrite Hv in H. destruct v; try done. by eexists.
Defined.

Lemma signature_exact_witness :
  isDraftChanged (model_row (Some sample_snapshot) (Some sample_snapshot) $"gpt") = false.
Proof.
  assert (snapshot_units sample_snapshot = true) as H by (vm_compute; reflexivity).
  destruct (signature_exact sample_snapshot sample_snapshot $"gpt" H H) as [[_ Hs] _].
  apply Hs. split_and!; reflexivity.
Defined.

Lemma lanes_in_sync_witness :
  p_form (apply_edits switch_edits (load None)) FCompletionRatio = $"5".
Proof.
  destruct (proj1 (lanes_in_sync switch_edits)) as [_ Hl].
  etrans; [exact (Hl Completion)|]. vm_compute. reflexivity.
Defined.

(** ** An expression that cannot be read *)

(** A [contains] rule on a header whose text has an escape JSON does not know. *)
Definition bad_escape_expr : jsstr :=
  dq "(tier('base', p * 1 + c * 2)) * (has(header('x-tier'), 'a\q') ? 2 : 1)".

Lemma map_completion_throws {A B : Type} (f : A → completion B) (l : list A) x :
  x ∈ l → f x = Throws → map_completion f l = Throws.
Proof.
  induction 1 as [|x y l Hx IH]; intros Hf; cbn [map_completion]; [by rewrite Hf|].
  destruct (f y); [|done]. cbn [bind_completion]. by rewrite IH.
Qed.

(** One unreadable expression takes down the table.  [JSON.parse] is called
    outside a [try] when a [contains] rule is read, so that a stored expression
    with a bad escape makes [buildModelSnapshots] throw: there are no rows for
    any model, the others included. *)
Theorem bad_expression_breaks_table (s : Settings) (m : Maps) (name : jsstr) :
  read_maps s = Some m →
  st_mode (stored m name) = Some (VStr $"tiered_expr") →
  st_expr (stored m name) = Some (VStr bad_escape_expr) →
  buildModelSnapshots s = Some Throws.
Proof.
  intros Hr Hm He. unfold buildModelSnapshots. rewrite Hr. cbn [mbind option_bind]. f_equal.
  apply (map_completion_throws _ _ name).
  - apply elem_of_model_names. intros (_ & H & _). by rewrite Hm in H.
  - unfold snapshot_of, get. change (assoc name (m_billingMode m)) with (st_mode (stored m name)).
    change (assoc name (m_billingExpr m)) with (st_expr (stored m name)). rewrite Hm, He.
    change (default VUndefined (Some ?x)) with x. cbn [eq_str]. rewrite bool_decide_eq_true_2 by done.
    cbn iota. assert (splitBillingExprAndRequestRules bad_escape_expr = Throws) as Hs by (vm_compute; reflexivity).
    change (to_boolean (VStr bad_escape_expr)) with true. cbn [negb]. by rewrite Hs.
Qed.

Definition broken_settings : Settings :=
  {| s_numeric f := match f with FRatio => dq "{'gpt': 1.25}" | _ => [] end;
     s_billingMode := dq "{'o3': 'tiered_expr'}";
     s_billingExpr := map_text [($"o3", VStr bad_escape_expr)] |}.

Lemma bad_expression_breaks_table_witness : buildModelSnapshots broken_settings = Some Throws.
Proof.
  destruct (read_maps broken_settings) as [m|] eqn:E; [|by vm_compute in E].
  apply (bad_expression_breaks_table broken_settings m $"o3" E); clear -E;
    unfold read_maps in E; case_match; try done;
    change (parse_map (s_billingMode broken_settings)) with (Some [($"o3", VStr $"tiered_expr")]) in E;
    change (parse_map (s_billingExpr broken_settings)) with (Some [($"o3", VStr bad_escape_expr)]) in E;
    injection E as <-; reflexivity.
Defined.
