(* ===== verification/SystemConfig.v ===== *)
(** * System configuration

    [src/web/src/stores/system-config-store.ts] and the status mapping of
    [src/web/src/hooks/use-system-config.ts]: the settings every page reads, how
    the answer of [/api/status] becomes one, and how it is merged into the
    store.  The store is persisted, so what it holds may come from an older
    version: the fields of the stored currency settings are optional. *)

From S2P Require Import Prelude JsString JsNumber JsValue.

Local Open Scope js_scope.

Record CurrencyConfig := {
  displayInCurrency : bool;
  quotaDisplayType : jsstr;
  quotaPerUnit : number;
  usdExchangeRate : number;
  customCurrencySymbol : jsstr;
  customCurrencyExchangeRate : number }.

Definition DEFAULT_CURRENCY_CONFIG : CurrencyConfig := {|
  displayInCurrency := true;
  quotaDisplayType := $"USD";
  quotaPerUnit := num_of_Z 500000;
  usdExchangeRate := num_of_Z 1;
  customCurrencySymbol := $"¤";
  customCurrencyExchangeRate := num_of_Z 1 |}.

(** The currency settings as stored: [None] for a missing field. *)
Record StoredCurrency := {
  s_displayInCurrency : option bool;
  s_quotaDisplayType : option jsstr;
  s_quotaPerUnit : option number;
  s_usdExchangeRate : option number;
  s_customCurrencySymbol : option jsstr;
  s_customCurrencyExchangeRate : option number }.

Definition stored (c : CurrencyConfig) : StoredCurrency := {|
  s_displayInCurrency := Some (displayInCurrency c);
  s_quotaDisplayType := Some (quotaDisplayType c);
  s_quotaPerUnit := Some (quotaPerUnit c);
  s_usdExchangeRate := Some (usdExchangeRate c);
  s_customCurrencySymbol := Some (customCurrencySymbol c);
  s_customCurrencyExchangeRate := Some (customCurrencyExchangeRate c) |}.

Definition first_some {A} (x y : option A) : option A := match x with Some a => Some a | None => y end.

(** [{ ...old, ...new }] on stored currency settings *)
Definition merge_currency (old new : StoredCurrency) : StoredCurrency := {|
  s_displayInCurrency := first_some (s_displayInCurrency new) (s_displayInCurrency old);
  s_quotaDisplayType := first_some (s_quotaDisplayType new) (s_quotaDisplayType old);
  s_quotaPerUnit := first_some (s_quotaPerUnit new) (s_quotaPerUnit old);
  s_usdExchangeRate := first_some (s_usdExchangeRate new) (s_usdExchangeRate old);
  s_customCurrencySymbol := first_some (s_customCurrencySymbol new) (s_customCurrencySymbol old);
  s_customCurrencyExchangeRate :=
    first_some (s_customCurrencyExchangeRate new) (s_customCurrencyExchangeRate old) |}.

Definition no_currency : StoredCurrency := {|
  s_displayInCurrency := None; s_quotaDisplayType := None; s_quotaPerUnit := None;
  s_usdExchangeRate := None; s_customCurrencySymbol := None; s_customCurrencyExchangeRate := None |}.

Definition DEFAULT_SYSTEM_NAME : jsstr := $"Flow API".
Definition DEFAULT_LOGO : jsstr := $"/logo.png".

Record SystemConfig := {
  systemName : jsstr;
  logo : jsstr;
  footerHtml : option jsstr;
  demoSiteEnabled : option bool;
  displayTokenStatEnabled : option bool;
  currency : option StoredCurrency }.

(** [Partial<SystemConfig>]: every field may be absent. *)
Record PartialConfig := {
  p_systemName : option jsstr;
  p_logo : option jsstr;
  p_footerHtml : option (option jsstr);
  p_demoSiteEnabled : option (option bool);
  p_displayTokenStatEnabled : option (option bool);
  p_currency : option StoredCurrency }.

Definition empty_partial : PartialConfig := {|
  p_systemName := None; p_logo := None; p_footerHtml := None; p_demoSiteEnabled := None;
  p_displayTokenStatEnabled := None; p_currency := None |}.

Record SystemConfigState := { config : SystemConfig; loading : bool; loadedLogoUrl : jsstr }.

Definition initial_config : SystemConfigState := {|
  config := {| systemName := DEFAULT_SYSTEM_NAME; logo := DEFAULT_LOGO; footerHtml := None;
               demoSiteEnabled := None; displayTokenStatEnabled := None;
               currency := Some (stored DEFAULT_CURRENCY_CONFIG) |};
  loading := true;
  loadedLogoUrl := DEFAULT_LOGO |}.

Definition setConfig (newConfig : PartialConfig) (st : SystemConfigState) : SystemConfigState :=
  let c := config st in
  {| config := {|
       systemName := default (systemName c) (p_systemName newConfig);
       logo := default (logo c) (p_logo newConfig);
       footerHtml := default (footerHtml c) (p_footerHtml newConfig);
       demoSiteEnabled := default (demoSiteEnabled c) (p_demoSiteEnabled newConfig);
       displayTokenStatEnabled := default (displayTokenStatEnabled c) (p_displayTokenStatEnabled newConfig);
       currency := Some (merge_currency (default no_currency (currency c))
                                        (default no_currency (p_currency newConfig))) |};
     loading := loading st;
     loadedLogoUrl := loadedLogoUrl st |}.

Definition setLoadedLogoUrl (url : jsstr) (st : SystemConfigState) : SystemConfigState :=
  {| config := config st; loading := loading st; loadedLogoUrl := url |}.

Definition setLoading (l : bool) (st : SystemConfigState) : SystemConfigState :=
  {| config := config st; loading := l; loadedLogoUrl := loadedLogoUrl st |}.

(** ** The status answer *)

Record StatusData := {
  d_system_name : option jsstr;
  d_logo : option jsstr;
  d_footer_html : option jsstr;
  d_demo_site_enabled : option bool;
  d_display_token_stat_enabled : option bool;
  d_display_in_currency : option bool;
  d_quota_display_type : option jsstr;
  d_quota_per_unit : value;
  d_usd_exchange_rate : value;
  d_custom_currency_symbol : option jsstr;
  d_custom_currency_exchange_rate : value }.

Definition is_nan (x : number) : bool := match x with S754_nan => true | _ => false end.

Definition toNumber (v : value) (fallback : number) : number :=
  match v with
  | VNum x => if is_nan x then fallback else x
  | VStr s => let parsed := number_of_string s in if is_nan parsed then fallback else parsed
  | _ => fallback
  end.

Definition normalizeLogo (logo : option jsstr) : jsstr :=
  match logo with
  | Some l =>
    if negb (truthy l) || bool_decide (l = $"/flow-api-mark.svg") ||
       bool_decide (l = $"/flow-api-logo.svg") || bool_decide (l = $"/flow-api-logo.png")
    then DEFAULT_LOGO else l
  | None => DEFAULT_LOGO
  end.

(** [s?.trim() || fallback] *)
Definition trimmed_or (s : option jsstr) (fallback : jsstr) : jsstr :=
  str_or (trim (default [] s)) fallback.

Definition mapStatusDataToConfig (data : option StatusData) : PartialConfig :=
  match data with
  | None => empty_partial
  | Some d =>
    let systemName := trim (default [] (d_system_name d)) in
    {| p_systemName := Some (
         if negb (truthy systemName) || bool_decide (systemName = $"New API")
         then DEFAULT_SYSTEM_NAME else systemName);
       p_logo := Some (normalizeLogo (trim <$> d_logo d));
       p_footerHtml := Some (d_footer_html d);
       p_demoSiteEnabled := Some (d_demo_site_enabled d);
       p_displayTokenStatEnabled := Some (d_display_token_stat_enabled d);
       p_currency := Some (stored {|
         displayInCurrency := default (displayInCurrency DEFAULT_CURRENCY_CONFIG) (d_display_in_currency d);
         quotaDisplayType := default (quotaDisplayType DEFAULT_CURRENCY_CONFIG) (d_quota_display_type d);
         quotaPerUnit := toNumber (d_quota_per_unit d) (quotaPerUnit DEFAULT_CURRENCY_CONFIG);
         usdExchangeRate := toNumber (d_usd_exchange_rate d) (usdExchangeRate DEFAULT_CURRENCY_CONFIG);
         customCurrencySymbol :=
           trimmed_or (d_custom_currency_symbol d) (customCurrencySymbol DEFAULT_CURRENCY_CONFIG);
         customCurrencyExchangeRate :=
           toNumber (d_custom_currency_exchange_rate d)
             (customCurrencyExchangeRate DEFAULT_CURRENCY_CONFIG) |}) |}
  end.

(** The answer of [fetch('/api/status')]: the request failed (or the answer was
    not OK or not JSON), or it carries [success] and [data]. *)
Inductive StatusAnswer := StatusFailed | StatusBody (success : bool) (data : option StatusData).

Definition fetchSystemConfig (a : StatusAnswer) : option PartialConfig :=
  match a with
  | StatusFailed => None
  | StatusBody success data => if success then Some (mapStatusDataToConfig data) else None
  end.

(** [loadConfig] up to its await, and what it does with the answer *)
Definition loadConfig_start (st : SystemConfigState) : SystemConfigState := setLoading true st.

Definition loadConfig_finish (a : StatusAnswer) (st : SystemConfigState) : SystemConfigState :=
  setLoading false
    (match fetchSystemConfig a with Some newConfig => setConfig newConfig st | None => st end).
