(* ===== verification/Currency.v ===== *)
(** * Currency

    [src/web/src/lib/currency.ts] and the amounts of [src/web/src/lib/format.ts]:
    how an amount kept in US dollars or in quota units is converted to the
    configured display currency, how it is rounded and written, and how an
    amount typed by the user becomes quota units again. *)

From S2P Require Import Prelude JsString JsNumber NumberText Regex JsValue Json JsMath SystemConfig.

Local Open Scope js_scope.

(** ** The platform *)

(** The options of [new Intl.NumberFormat]; [None] for one that is not given. *)
Record NumberFormatOptions := {
  nf_notation : option jsstr;
  nf_style : option jsstr;
  nf_currency : option jsstr;
  nf_currencyDisplay : option jsstr;
  nf_minimumFractionDigits : option nat;
  nf_maximumFractionDigits : option nat }.

(** [Intl.NumberFormat] belongs to the platform and its locale data: it is a
    parameter, as is the power of ten, which the language leaves to the
    implementation to approximate. *)
Class IntlEnv := {
  number_format : option jsstr → NumberFormatOptions → number → jsstr;
  pow10 : Z → number }.

(** What the code relies on: powers of ten are finite and positive. *)
Class IntlLaws (E : IntlEnv) : Prop := {
  pow10_positive n : -100 ≤ n ≤ 100 → ∃ m e, pow10 n = S754_finite false m e }.

(** ** Options *)

(** Numbers of fraction digits are natural numbers, as [toFixed] requires. *)
Record CurrencyFormatOptions := {
  o_digitsLarge : option nat;
  o_digitsSmall : option nat;
  o_abbreviate : option bool;
  o_minimumNonZero : option number;
  o_compact : option bool;
  o_fixedFractionDigits : option nat;
  o_showSymbol : option bool;
  o_locale : option jsstr }.

Record ResolvedCurrencyFormatOptions := {
  digitsLarge : nat;
  digitsSmall : nat;
  abbreviate : bool;
  minimumNonZero : number;
  compact : bool;
  fixedFractionDigits : option nat;
  showSymbol : bool;
  locale : option jsstr }.

Inductive DisplayMeta :=
| MetaCurrency (symbol currencyCode : jsstr) (exchangeRate : number)
| MetaCustom (symbol : jsstr) (exchangeRate : number)
| MetaTokens (quotaPerUnit : number).

Definition DEFAULT_FORMAT_OPTIONS : ResolvedCurrencyFormatOptions := {|
  digitsLarge := 2; digitsSmall := 4; abbreviate := true; minimumNonZero := S754_zero false;
  compact := false; fixedFractionDigits := None; showSymbol := true; locale := None |}.

Definition DISPLAY_TYPE_VALUES : list jsstr := [$"USD"; $"CNY"; $"TOKENS"; $"CUSTOM"].

Definition isCurrencyDisplayType (v : value) : bool :=
  match v with VStr s => bool_decide (s ∈ DISPLAY_TYPE_VALUES) | _ => false end.

Definition parseCurrencyDisplayType (v : value) (fallback : jsstr) : jsstr :=
  match v with
  | VStr s => if isCurrencyDisplayType v then s else fallback
  | _ => fallback
  end.

(** [x && x > 0 ? x : fallback] *)
Definition positive_or (x : option number) (fallback : number) : number :=
  match x with
  | Some n => if num_truthy n && num_ltb (S754_zero false) n then n else fallback
  | None => fallback
  end.

Definition getConfig (st : SystemConfigState) : CurrencyConfig :=
  let D := DEFAULT_CURRENCY_CONFIG in
  let c := default (stored D) (currency (config st)) in
  {| displayInCurrency := default (displayInCurrency D) (s_displayInCurrency c);
     quotaDisplayType := default (quotaDisplayType D) (s_quotaDisplayType c);
     quotaPerUnit := positive_or (s_quotaPerUnit c) (quotaPerUnit D);
     usdExchangeRate := positive_or (s_usdExchangeRate c) (usdExchangeRate D);
     customCurrencySymbol := trimmed_or (s_customCurrencySymbol c) (customCurrencySymbol D);
     customCurrencyExchangeRate :=
       positive_or (s_customCurrencyExchangeRate c) (customCurrencyExchangeRate D) |}.

Definition USD_META : DisplayMeta := MetaCurrency $"$" $"USD" (num_of_Z 1).

Definition getDisplayMeta (c : CurrencyConfig) : DisplayMeta :=
  if bool_decide (quotaDisplayType c = $"CNY") then MetaCurrency $"¥" $"CNY" (usdExchangeRate c)
  else if bool_decide (quotaDisplayType c = $"CUSTOM") then
    MetaCustom (customCurrencySymbol c) (customCurrencyExchangeRate c)
  else if bool_decide (quotaDisplayType c = $"TOKENS") then MetaTokens (quotaPerUnit c)
  else USD_META.

Definition getBillingDisplayMeta (c : CurrencyConfig) : DisplayMeta :=
  match getDisplayMeta c with
  | MetaTokens _ => USD_META
  | meta => meta
  end.

Definition mergeOptions (options : option CurrencyFormatOptions) : ResolvedCurrencyFormatOptions :=
  let D := DEFAULT_FORMAT_OPTIONS in
  match options with
  | None => D
  | Some o => {|
      digitsLarge := default (digitsLarge D) (o_digitsLarge o);
      digitsSmall := default (digitsSmall D) (o_digitsSmall o);
      abbreviate := default (abbreviate D) (o_abbreviate o);
      minimumNonZero := default (minimumNonZero D) (o_minimumNonZero o);
      compact := default (compact D) (o_compact o);
      fixedFractionDigits := o_fixedFractionDigits o;
      showSymbol := default (showSymbol D) (o_showSymbol o);
      locale := first_some (o_locale o) (locale D) |}
  end.

Definition getFractionDigits (value : number) (digitsLarge digitsSmall : nat) : nat :=
  if num_leb (num_of_Z 1) (num_abs value) then digitsLarge else digitsSmall.

Definition getCurrencyFractionDigits (value : number) (options : option CurrencyFormatOptions) : nat :=
  let merged := mergeOptions options in
  getFractionDigits value (digitsLarge merged) (digitsSmall merged).

(** ** Writing a number *)

(** [/(\.[0-9]*?)0+$/] and [/\.$/] *)
Definition trailing_zeros_pattern : regex :=
  rseq [RGroup 1 (RSeq (RSet (Z.eqb 46)) (RLazy (RSet is_digit))); RPlus (RSet (Z.eqb 48)); REnd].
Definition trailing_point_pattern : regex := rseq [RSet (Z.eqb 46); REnd].

Definition removeTrailingZeros (str : jsstr) : jsstr :=
  if negb (includes $"." str) then str
  else
    replace_first trailing_point_pattern (λ _, [])
      (replace_first trailing_zeros_pattern (λ m, default [] (capture m 1)) str).

Definition formatNumberWithSuffix (value : number) (digitsLarge digitsSmall : nat)
    (abbreviate : bool) : jsstr :=
  if abbreviate && num_leb (num_of_Z 1000) (num_abs value) then
    removeTrailingZeros (toFixed 1 (num_div value (num_of_Z 1000))) ++ $"k"
  else
    removeTrailingZeros (toFixed (getFractionDigits value digitsLarge digitsSmall) value).

Section Format.
Context `{IntlEnv}.

Definition adjustForMinimum (value : number) (digits : nat) (minimumNonZero : number) : number :=
  if num_eqb value (S754_zero false) then value
  else
    let threshold :=
      if num_ltb (S754_zero false) minimumNonZero then minimumNonZero
      else pow10 (- Z.of_nat digits) in
    let abs := num_abs value in
    if num_ltb (S754_zero false) abs && num_ltb abs threshold then
      if num_ltb (S754_zero false) value then threshold else SFopp threshold
    else value.

Definition COMPACT_OPTIONS : NumberFormatOptions := {|
  nf_notation := Some $"compact"; nf_style := None; nf_currency := None; nf_currencyDisplay := None;
  nf_minimumFractionDigits := None; nf_maximumFractionDigits := Some 1%nat |}.

Definition with_currency (code : jsstr) (o : NumberFormatOptions) : NumberFormatOptions := {|
  nf_notation := nf_notation o; nf_style := Some $"currency"; nf_currency := Some code;
  nf_currencyDisplay := Some $"narrowSymbol";
  nf_minimumFractionDigits := nf_minimumFractionDigits o;
  nf_maximumFractionDigits := nf_maximumFractionDigits o |}.

Definition fixed_options (d : nat) : NumberFormatOptions := {|
  nf_notation := None; nf_style := None; nf_currency := None; nf_currencyDisplay := None;
  nf_minimumFractionDigits := Some d; nf_maximumFractionDigits := Some d |}.

Definition plain_options (compact : bool) (digits : nat) : NumberFormatOptions := {|
  nf_notation := Some (if compact then $"compact" else $"standard");
  nf_style := None; nf_currency := None; nf_currencyDisplay := None;
  nf_minimumFractionDigits := Some O;
  nf_maximumFractionDigits := Some (if compact then 1%nat else digits) |}.

(** The number a fixed display prints: a value that rounds to zero is zero. *)
Definition fixed_value (d : nat) (value : number) : number :=
  if num_eqb (num_round (num_mul (num_abs value) (pow10 (Z.of_nat d)))) (S754_zero false)
  then S754_zero false else value.

Definition formatCurrencyValue (value : number) (o : ResolvedCurrencyFormatOptions)
    (meta : DisplayMeta) : jsstr :=
  let fmt := number_format (locale o) in
  let digits := getFractionDigits value (digitsLarge o) (digitsSmall o) in
  let adjustedValue := adjustForMinimum value digits (minimumNonZero o) in
  match meta, fixedFractionDigits o with
  | MetaTokens _, _ =>
    if compact o then fmt COMPACT_OPTIONS value
    else formatNumberWithSuffix value (digitsLarge o) (digitsSmall o) (abbreviate o)
  | MetaCurrency _ code _, Some d =>
    fmt (if showSymbol o then with_currency code (fixed_options d) else fixed_options d)
        (fixed_value d value)
  | MetaCustom symbol _, Some d =>
    let fixedDecimal := fmt (fixed_options d) (fixed_value d value) in
    if showSymbol o then symbol ++ $" " ++ fixedDecimal else fixedDecimal
  | MetaCurrency _ code _, None =>
    let plain := plain_options (compact o) digits in
    fmt (if showSymbol o then with_currency code plain else plain) adjustedValue
  | MetaCustom symbol _, None =>
    let decimal := fmt (plain_options (compact o) digits) adjustedValue in
    if showSymbol o then symbol ++ $" " ++ decimal else decimal
  end.

Definition getCurrencyDisplay (st : SystemConfigState) : CurrencyConfig * DisplayMeta :=
  let c := getConfig st in (c, getDisplayMeta c).

(** [amount == null || Number.isNaN(amount)] *)
Definition absent (amount : option number) : option number :=
  match amount with Some x => if is_nan x then None else Some x | None => None end.

Definition formatCurrencyFromUSD (st : SystemConfigState) (amountUSD : option number)
    (options : option CurrencyFormatOptions) : jsstr :=
  match absent amountUSD with
  | None => $"-"
  | Some amount =>
    let '(c, meta) := getCurrencyDisplay st in
    let merged := mergeOptions options in
    match meta with
    | MetaTokens _ =>
      let tokens := num_mul amount (quotaPerUnit c) in
      if compact merged then number_format (locale merged) COMPACT_OPTIONS tokens
      else formatNumberWithSuffix tokens 0 (digitsSmall merged) (abbreviate merged)
    | MetaCurrency _ _ rate | MetaCustom _ rate =>
      formatCurrencyValue (num_mul amount rate) merged meta
    end
  end.

Definition formatBillingCurrencyFromUSD (st : SystemConfigState) (amountUSD : option number)
    (options : option CurrencyFormatOptions) : jsstr :=
  match absent amountUSD with
  | None => $"-"
  | Some amount =>
    let '(c, _) := getCurrencyDisplay st in
    let meta := getBillingDisplayMeta c in
    let value :=
      match meta with
      | MetaCurrency _ _ rate | MetaCustom _ rate => num_mul amount rate
      | MetaTokens _ => amount
      end in
    formatCurrencyValue value (mergeOptions options) meta
  end.

Definition formatQuotaWithCurrency (st : SystemConfigState) (quota : option number)
    (options : option CurrencyFormatOptions) : jsstr :=
  match absent quota with
  | None => $"-"
  | Some q =>
    let '(c, _) := getCurrencyDisplay st in
    formatCurrencyFromUSD st (Some (num_div q (quotaPerUnit c))) options
  end.

Definition getCurrencyLabel (st : SystemConfigState) : jsstr :=
  let '(c, meta) := getCurrencyDisplay st in
  match meta with
  | MetaTokens _ => $"Tokens"
  | _ =>
    if bool_decide (quotaDisplayType c = $"CNY") then $"CNY"
    else if bool_decide (quotaDisplayType c = $"CUSTOM") then
      match meta with MetaCustom symbol _ => symbol | _ => $"Custom" end
    else $"USD"
  end.

Definition isCurrencyDisplayEnabled (st : SystemConfigState) : bool :=
  match (getCurrencyDisplay st).2 with MetaTokens _ => false | _ => true end.

Definition formatLocalCurrencyAmount (st : SystemConfigState) (amount : option number)
    (options : option CurrencyFormatOptions) : jsstr :=
  match absent amount with
  | None => $"-"
  | Some a =>
    let '(c, _) := getCurrencyDisplay st in
    formatCurrencyValue a (mergeOptions options) (getBillingDisplayMeta c)
  end.

End Format.
