(* ===== verification/Format.v ===== *)
(** * Numbers, quota, time and colours as text

    [src/web/src/lib/format.ts].  Amounts go through [Currency]; the calendar
    library and the relative-time formatter of the platform are parameters. *)

From S2P Require Import Prelude JsString JsNumber NumberText JsValue Json JsMath SystemConfig Currency.

Local Open Scope js_scope.

(** ** The language: [%] on numbers and 32-bit integers *)

(** The remainder has the sign of the dividend and is exact. *)
Definition num_rem (x y : number) : number :=
  match x, y with
  | S754_nan, _ | _, S754_nan | S754_infinity _, _ | _, S754_zero _ => nan
  | S754_zero _, _ | _, S754_infinity _ => x
  | S754_finite sx mx ex, S754_finite _ my ey =>
    let e := Z.min ex ey in
    match (Zpos mx * 2 ^ (ex - e)) mod (Zpos my * 2 ^ (ey - e)) with
    | Zpos r => binary_normalize 53 1024 (if sx then Zneg r else Zpos r) e false
    | _ => S754_zero sx
    end
  end.

(** [ToInt32] of an integer *)
Definition to_int32 (n : Z) : Z := (n + 2 ^ 31) mod 2 ^ 32 - 2 ^ 31.

(** ** The platform *)

(** [dayjs(ms).format(pattern)], [new Date(text).getTime()] and
    [Intl.RelativeTimeFormat], in the locale and time zone of the browser. *)
Class TimeEnv := {
  dayjs_format : number → jsstr → jsstr;
  date_getTime : jsstr → number;
  relative_format : option jsstr → number → jsstr → jsstr }.

Definition DATE_TIME : jsstr := $"YYYY-MM-DD HH:mm:ss".

(** ** Numbers *)

Definition max_digits (style : option jsstr) (d : nat) : NumberFormatOptions := {|
  nf_notation := None; nf_style := style; nf_currency := None; nf_currencyDisplay := None;
  nf_minimumFractionDigits := None; nf_maximumFractionDigits := Some d |}.

Section Numbers.
Context `{IntlEnv}.

Definition formatNumber (value : option number) (locales : option jsstr) : jsstr :=
  match absent value with
  | None => $"-"
  | Some x => number_format locales (max_digits None 2) x
  end.

Definition formatCompactNumber (value : option number) (locales : option jsstr) : jsstr :=
  match absent value with
  | None => $"-"
  | Some x => number_format locales COMPACT_OPTIONS x
  end.

Definition formatPercent (value : option number) : jsstr :=
  match absent value with
  | None => $"-"
  | Some x => number_format None (max_digits (Some $"percent") 2) (num_div x (num_of_Z 100))
  end.

Definition formatCurrencyUSD (st : SystemConfigState) (value : option number) : jsstr :=
  formatCurrencyFromUSD st value None.

Definition amount_options (large small : nat) (abbrev : bool) : CurrencyFormatOptions := {|
  o_digitsLarge := Some large; o_digitsSmall := Some small; o_abbreviate := Some abbrev;
  o_minimumNonZero := None; o_compact := None; o_fixedFractionDigits := None;
  o_showSymbol := None; o_locale := None |}.

Definition formatQuota (st : SystemConfigState) (quota : number) : jsstr :=
  formatQuotaWithCurrency st (Some quota) (Some (amount_options 2 4 true)).

Definition formatLogQuota (st : SystemConfigState) (quota : number) : jsstr :=
  formatQuotaWithCurrency st (Some quota) (Some (amount_options 4 6 false)).

Definition getEditableQuotaStep (st : SystemConfigState) : number :=
  match (getCurrencyDisplay st).2 with
  | MetaTokens _ => num_of_Z 1
  | _ => pow10 (- Z.of_nat (getCurrencyFractionDigits (S754_zero false) None))
  end.
End Numbers.

(** ** Quota units and display amounts *)

Definition parseQuotaFromDollars (st : SystemConfigState) (amount : number) : number :=
  if negb (is_finite amount) then S754_zero false
  else
    let '(c, meta) := getCurrencyDisplay st in
    match meta with
    | MetaTokens _ => num_round amount
    | MetaCurrency _ _ exchangeRate | MetaCustom _ exchangeRate =>
      let usdAmount :=
        if num_ltb (S754_zero false) exchangeRate then num_div amount exchangeRate else amount in
      num_round (num_mul usdAmount (quotaPerUnit c))
    end.

Definition quotaUnitsToDisplayAmount (units quotaPerUnit : number) (meta : DisplayMeta) : number :=
  match meta with
  | MetaTokens _ => units
  | MetaCurrency _ _ exchangeRate | MetaCustom _ exchangeRate =>
    num_mul (num_div units quotaPerUnit) exchangeRate
  end.

Definition quotaUnitsToDollars (st : SystemConfigState) (units : number) : number :=
  let '(c, meta) := getCurrencyDisplay st in
  quotaUnitsToDisplayAmount units (quotaPerUnit c) meta.

Definition quotaUnitsToEditableAmount (st : SystemConfigState) (units : number) : number :=
  let '(c, meta) := getCurrencyDisplay st in
  let amount := quotaUnitsToDisplayAmount units (quotaPerUnit c) meta in
  match meta with
  | MetaTokens _ => num_round amount
  | _ => number_of_string (toFixed (getCurrencyFractionDigits amount None) amount)
  end.

(** ** Time *)

Inductive TimeUnit := Seconds | Milliseconds.

Definition in_ms (timestamp : number) (unit : TimeUnit) : number :=
  match unit with Seconds => num_mul timestamp (num_of_Z 1000) | Milliseconds => timestamp end.

(** [!timestamp || timestamp === -1 || timestamp === 0] *)
Definition no_time (timestamp : option number) : option number :=
  match timestamp with
  | Some ts =>
    if negb (num_truthy ts) || num_eqb ts (num_of_Z (-1)) || num_eqb ts (S754_zero false)
    then None else Some ts
  | None => None
  end.

Section Time.
Context `{TimeEnv}.

Definition formatTimestampToDate (timestamp : option number) (unit : TimeUnit) : jsstr :=
  match no_time timestamp with
  | None => $"-"
  | Some ts => dayjs_format (in_ms ts unit) DATE_TIME
  end.

Definition formatTimestamp (timestamp : number) : jsstr :=
  if num_eqb timestamp (num_of_Z (-1)) then $"Never" else formatTimestampToDate (Some timestamp) Seconds.

Definition formatTimestampRelative (now : number) (timestamp : option number) (unit : TimeUnit)
    (locales : option jsstr) : jsstr :=
  match no_time timestamp with
  | None => $"-"
  | Some ts =>
    let diffSeconds := num_round (num_div (num_sub (in_ms ts unit) now) (num_of_Z 1000)) in
    let absSeconds := num_abs diffSeconds in
    let in_units n := num_round (num_div diffSeconds (num_of_Z n)) in
    let below n := num_ltb absSeconds (num_of_Z n) in
    let fmt := relative_format locales in
    if below 60 then fmt diffSeconds $"second"
    else if below 3600 then fmt (in_units 60) $"minute"
    else if below 86400 then fmt (in_units 3600) $"hour"
    else if below 2592000 then fmt (in_units 86400) $"day"
    else if below 31536000 then fmt (in_units 2592000) $"month"
    else fmt (in_units 31536000) $"year"
  end.

Definition formatTimestampForInput (timestamp : number) : jsstr :=
  if num_eqb timestamp (num_of_Z (-1)) then []
  else dayjs_format (num_mul timestamp (num_of_Z 1000)) $"YYYY-MM-DDTHH:mm".

Definition parseTimestampFromInput (value : jsstr) : number :=
  if negb (truthy value) then num_of_Z (-1)
  else num_floor (num_div (date_getTime value) (num_of_Z 1000)).
End Time.

(** ** Counters, durations and colours *)

Definition formatTokens (tokens : number) : jsstr :=
  if num_eqb tokens (S754_zero false) then $"-"
  else if num_ltb tokens (num_of_Z 1000) then number_text tokens
  else if num_ltb tokens (num_of_Z 1000000) then toFixed 1 (num_div tokens (num_of_Z 1000)) ++ $"K"
  else toFixed 2 (num_div tokens (num_of_Z 1000000)) ++ $"M".

Definition formatUseTime (seconds : number) : jsstr :=
  if num_ltb seconds (num_of_Z 60) then toFixed 1 seconds ++ $"s"
  else
    let minutes := num_floor (num_div seconds (num_of_Z 60)) in
    let remainingSeconds := num_rem seconds (num_of_Z 60) in
    number_text minutes ++ $"m " ++ toFixed 0 remainingSeconds ++ $"s".

(** The hash of the loop: [hash << 5] and [hash & hash] are 32-bit, the sum and
    the difference between them are exact. *)
Definition hash_step (hash c : Z) : Z := to_int32 (c + (to_int32 (Z.shiftl hash 5) - hash)).

Definition string_hash (str : jsstr) : Z := fold_left hash_step str 0.

Definition stringToColor (str : jsstr) : jsstr :=
  if negb (truthy str) then $"gray"
  else
    let hash := string_hash str in
    let hue := Z.abs (Z.rem hash 360) in
    let saturation := 65 + Z.rem (Z.abs hash) 10 in
    let lightness := 55 + Z.rem (Z.abs (Z.shiftr hash 8)) 10 in
    $"hsl(" ++ string_of_Z hue ++ $", " ++ string_of_Z saturation ++ $"%, " ++
    string_of_Z lightness ++ $"%)".

Example format_examples :
  formatTokens (num_of_Z 1536) = $"1.5K" ∧ formatUseTime (num_of_Z 125) = $"2m 5s" ∧
  formatUseTime (num_lit 1197 1) = $"1m 60s" ∧
  stringToColor $"gpt-4o" = $"hsl(227, 72%, 56%)".
Proof. vm_compute. done. Qed.
