(* ===== verification/CurrencyFacts.v ===== *)
(** * Currency: what the conversions and the formatters guarantee

    Theorems on [SystemConfig], [Currency] and [Format]: the configuration the
    formatters see is always usable, an amount that is shown and typed back is
    the same quota, non-zero amounts never print as zero, trimming zeros keeps
    the amount, and the colours derived from names are in range. *)

From Stdlib Require Import Reals Lra.
From S2P Require Import Prelude JsString JsNumber NumberText Rounding Regex JsValue Json JsMath.
From S2P Require Import SystemConfig Currency Format.

Local Open Scope Z_scope.
Local Open Scope js_scope.

(** ** Quota units and display amounts *)

(** A rate of ordinary size: positive, between 2^-64 and 2^64. *)
Definition moderate (x : number) : bool :=
  match x with
  | S754_finite false m e =>
    (2 ^ 52 <=? Zpos m) && (Zpos m <? 2 ^ 53) && (-116 <=? e) && (e <=? 11)
  | _ => false
  end.

Lemma moderate_order x : moderate x = true → normal x ∧ order 64 (real x).
Proof.
  destruct x as [| | |[] m e]; try done. cbn [moderate]. intros H. bool_hyps.
  split; [cbn [normal]; lia|]. cbn [real]. pose proof (pow2_pos e).
  assert (IZR (2 ^ 52) <= IZR (Zpos m))%R by (apply IZR_le; lia).
  assert (IZR (Zpos m) <= IZR (2 ^ 53))%R by (apply IZR_le; lia). split.
  - apply Rle_trans with (pow2 (52 + e)); [apply pow2_le; lia|]. rewrite pow2_add, (pow2_IZR 52) by lia. nra.
  - apply Rle_trans with (pow2 (53 + e)); [|apply pow2_le; lia]. rewrite pow2_add, (pow2_IZR 53) by lia. nra.
Qed.

Definition rate_moderate (meta : DisplayMeta) : bool :=
  match meta with
  | MetaTokens _ => true
  | MetaCurrency _ _ r | MetaCustom _ r => moderate r
  end.

Lemma eight_roundoffs n : 0 < n < 2 ^ 48 →
  (IZR n * (0 + 2 * unit_roundoff + 2 * unit_roundoff + 2 * unit_roundoff + 2 * unit_roundoff) < / 2)%R.
Proof.
  intros Hn. assert (IZR n < IZR (2 ^ 48))%R as H by (apply IZR_lt; lia).
  assert (IZR (2 ^ 48) * (8 * unit_roundoff) <= / 2)%R as Hu.
  { rewrite <- (pow2_IZR 48) by lia. change 8%R with (IZR (2 ^ 3)). rewrite <- (pow2_IZR 3) by lia.
    unfold unit_roundoff. rewrite <- !pow2_add. change (pow2 (48 + (3 + -53))) with (/ (2 * (2 * 1)))%R. lra. }
  pose proof roundoff_small. nra.
Qed.

Lemma convert_back n q r :
  0 < n < 2 ^ 48 → moderate q = true → moderate r = true →
  num_round (num_mul (num_div (num_mul (num_div (num_of_Z n) q) r) r) q) = num_of_Z n ∧
  normal (num_mul (num_div (num_of_Z n) q) r).
Proof.
  intros Hn [Hq Hqo]%moderate_order [Hr Hro]%moderate_order. pose proof roundoff_small as Hu.
  pose proof (tracks_integer n ltac:(lia)) as T0.
  pose proof (tracks_div _ _ _ _ _ _ T0 Hq Hqo ltac:(lra) ltac:(lia)) as T1.
  pose proof (tracks_mul _ _ _ _ _ _ T1 Hr Hro ltac:(lra) ltac:(lia)) as T2.
  pose proof (tracks_div _ _ _ _ _ _ T2 Hr Hro ltac:(lra) ltac:(lia)) as T3.
  pose proof (tracks_mul _ _ _ _ _ _ T3 Hq Hqo ltac:(lra) ltac:(lia)) as T4.
  apply normal_real in Hq as Hq0. apply normal_real in Hr as Hr0.
  replace (IZR n / real q * real r / real r * real q)%R with (IZR n) in T4 by (field; lra).
  split; [|apply T2].
  by apply (tracks_round _ _ _ _ T4); [lia|apply eight_roundoffs].
Qed.

Lemma moderate_positive r : moderate r = true → num_ltb (S754_zero false) r = true.
Proof. by destruct r as [| | |[] m e]. Qed.

Lemma normal_finite x : normal x → is_finite x = true ∧ num_truthy x = true ∧ num_ltb x (S754_zero false) = false.
Proof. by destruct x as [| | |[]]. Qed.

(** Quota units the display handles, under a currency of ordinary size. *)
Section Quota.
Context (st : SystemConfigState) (n : Z) (Hn : 0 ≤ n < 2 ^ 48).
Context (Hq : moderate (quotaPerUnit (getConfig st)) = true) (Hr : rate_moderate (getDisplayMeta (getConfig st)) = true).

(** The amount shown is zero or a positive number. *)
Lemma quota_amount : quotaUnitsToDollars st (num_of_Z n) = S754_zero false ∨ normal (quotaUnitsToDollars st (num_of_Z n)).
Proof using Hn Hq Hr.
  unfold quotaUnitsToDollars, getCurrencyDisplay. destruct (Z.eq_dec n 0) as [E|Hn0].
  { rewrite E. left. change (num_of_Z 0) with (S754_zero false). destruct (getDisplayMeta _) as [? ? r|? r|]; [| |done];
      cbn [rate_moderate] in Hr; destruct r as [| | |[] m e]; try done;
      destruct (quotaPerUnit (getConfig st)) as [| | |[] m' e']; done. }
  right. destruct (getDisplayMeta _) as [? ? r|? r|]; cbn [rate_moderate quotaUnitsToDisplayAmount] in *.
  3:{ apply integer_exact. lia. }
  all: by apply (convert_back n _ r ltac:(lia) Hq Hr).
Qed.

Lemma quota_back : parseQuotaFromDollars st (quotaUnitsToDollars st (num_of_Z n)) = num_of_Z n.
Proof using Hn Hq Hr.
  pose proof quota_amount as Hamount. revert Hamount. unfold parseQuotaFromDollars, quotaUnitsToDollars, getCurrencyDisplay.
  destruct (Z.eq_dec n 0) as [E|Hn0].
  { rewrite E. intros _. change (num_of_Z 0) with (S754_zero false).
    destruct (getDisplayMeta _) as [? ? r|? r|]; [| |done]; cbn [rate_moderate] in Hr;
      destruct r as [| | |[] m e]; try done;
      destruct (quotaPerUnit (getConfig st)) as [| | |[] m' e']; done. }
  intros Ha. assert (∀ x, x = S754_zero false ∨ normal x → is_finite x = true) as Hfin.
  { intros x [->|Hx]; [done|by apply normal_finite]. }
  destruct (getDisplayMeta _) as [? ? r|? r|]; cbn [rate_moderate quotaUnitsToDisplayAmount] in *; rewrite (Hfin _ Ha); cbn [negb].
  3:{ apply (tracks_round _ _ _ _ (tracks_integer n ltac:(lia))); [lia|lra]. }
  all: rewrite (moderate_positive _ Hr); by apply (convert_back n _ r ltac:(lia) Hq Hr).
Qed.
End Quota.

(** C9: An amount of quota units that is shown in the configured currency and
    typed back unchanged is the same amount again, for up to 2^48 units and any
    ordinary exchange rate: the four rounding errors on the way never add up to
    half a unit. *)
Theorem quota_roundtrip st n :
  0 ≤ n < 2 ^ 48 →
  moderate (quotaPerUnit (getConfig st)) = true →
  rate_moderate (getDisplayMeta (getConfig st)) = true →
  parseQuotaFromDollars st (quotaUnitsToDollars st (num_of_Z n)) = num_of_Z n.
Proof. apply quota_back. Qed.

(** ** Trimming zeros *)

Fixpoint skip_zeros (s : jsstr) : jsstr :=
  match s with
  | c :: s' => if c =? 48 then skip_zeros s' else s
  | [] => []
  end.

(** The digits without the zeros at their end *)
Definition drop_zeros (fp : jsstr) : jsstr := reverse (skip_zeros (reverse fp)).

Lemma skip_zeros_split s :
  ∃ n, s = replicate n 48 ++ skip_zeros s ∧ match skip_zeros s with c :: _ => c ≠ 48 | [] => True end.
Proof.
  induction s as [|c s (n & Hs & Hh)]; [by exists O|]. cbn [skip_zeros].
  destruct (Z.eqb_spec c 48) as [->|Hc]; [|by exists O].
  exists (S n). cbn [replicate app]. by rewrite <- Hs.
Qed.

Lemma drop_zeros_split fp :
  ∃ n, fp = drop_zeros fp ++ replicate n 48 ∧ (drop_zeros fp = [] ∨ ∃ t c, drop_zeros fp = t ++ [c] ∧ c ≠ 48).
Proof.
  destruct (skip_zeros_split (reverse fp)) as (n & Hs & Hh). exists n. unfold drop_zeros. split.
  - apply (f_equal reverse) in Hs. by rewrite reverse_involutive, reverse_app, reverse_replicate in Hs.
  - destruct (skip_zeros (reverse fp)) as [|c t]; [by left|]. right. exists (reverse t), c.
    by rewrite reverse_cons.
Qed.

Definition zeros_end : regex := rseq [RPlus (RSet (Z.eqb 48)); REnd].

Lemma zeros_end_runs {A} n b cs (k : mstate → option A) :
  is_Some (k (MState (reverse (replicate (S n) 48) ++ b) [] cs)) →
  rmatch zeros_end (MState b (replicate (S n) 48) cs) k = k (MState (reverse (replicate (S n) 48) ++ b) [] cs).
Proof.
  change (replicate (S n) 48) with (48 :: replicate n 48). intros [x Hk].
  unfold zeros_end, rseq, RPlus. cbn [fold_right]. rewrite !rmatch_seq.
  rewrite rmatch_set. cbn [Z.eqb Pos.eqb]. rewrite Hk.
  rewrite <- (app_nil_r (replicate n 48)). apply star_set_longest; [|done|].
  - clear. induction n; [done|]. cbn [replicate forallb]. done.
  - rewrite rmatch_seq, rmatch_end, rmatch_eps, plus_state. done.
Qed.

Lemma zeros_end_fails t c cs : c ∈ t → c ≠ 48 → fails zeros_end t cs.
Proof.
  intros Hin Hc A b k. destruct (rmatch zeros_end _ k) as [x|] eqn:E; [|done]. exfalso.
  unfold zeros_end, rseq in E. cbn [fold_right] in E. rewrite rmatch_seq in E.
  apply (rmatch_within (Z.eqb 48)) in E as (st & w & E & Ew & Hw); [|split; by intros ? ?].
  destruct st as [b' [|d r'] cs']; rewrite rmatch_seq, rmatch_end in E; [|done].
  cbn [rest] in Ew. rewrite app_nil_r in Ew. subst w.
  rewrite forallb_forall in Hw. apply list_elem_of_In in Hin. specialize (Hw c Hin). lia.
Qed.

Lemma zeros_end_fails_nil cs : fails zeros_end [] cs.
Proof. intros A b k. done. Qed.

(** The patterns begin with a point, so a search passes over everything else. *)
Definition begins_with_point (r : regex) : Prop := ∀ c s cs, c ≠ 46 → fails r (c :: s) cs.

Lemma trailing_zeros_point : begins_with_point (whole trailing_zeros_pattern).
Proof.
  intros c s cs Hc A b k. unfold whole, trailing_zeros_pattern, rseq. cbn [fold_right].
  rewrite rmatch_group, rmatch_seq, rmatch_group, rmatch_seq, rmatch_set.
  by rewrite (proj2 (Z.eqb_neq 46 c)) by done.
Qed.

Lemma trailing_point_point : begins_with_point (whole trailing_point_pattern).
Proof.
  intros c s cs Hc A b k. unfold whole, trailing_point_pattern, rseq. cbn [fold_right].
  rewrite rmatch_group, rmatch_seq, rmatch_set. by rewrite (proj2 (Z.eqb_neq 46 c)) by done.
Qed.

Lemma search_past r w b s :
  begins_with_point r → 46 ∉ w → search r b (w ++ s) = search r (reverse w ++ b) s.
Proof.
  intros Hr. revert b. induction w as [|c w IH]; intros b Hw; [done|].
  cbn [app]. rewrite search_skip by (apply Hr; set_solver). rewrite IH by set_solver.
  by rewrite plus_state.
Qed.

Lemma digits_no_point s : forallb is_digit s = true → 46 ∉ s.
Proof.
  intros Hs Hin%list_elem_of_In. rewrite forallb_forall in Hs. by specialize (Hs _ Hin).
Qed.

Lemma replace_tail r f (ip w : jsstr) m :
  search (whole r) [] (ip ++ w) = Some m → rest m = [] → capture m 0 = Some w →
  replace_first r f (ip ++ w) = ip ++ f m.
Proof.
  intros Hs Hr Hc. unfold replace_first. rewrite Hs, Hr, Hc. cbn [default length].
  rewrite Nat.sub_0_r, length_app, Nat.add_sub, take_app_length, app_nil_r. done.
Qed.

Lemma search_none r b s :
  begins_with_point r → fails r [] [] → 46 ∉ s → search r b s = None.
Proof.
  intros Hr H0 Hs. rewrite <- (app_nil_r s), search_past by done. cbn [search]. by rewrite H0.
Qed.

Lemma trailing_zeros_nil : fails (whole trailing_zeros_pattern) [] [].
Proof. intros A b k. done. Qed.

Lemma trailing_point_nil : fails (whole trailing_point_pattern) [] [].
Proof. intros A b k. done. Qed.

Lemma zeros_replaced ip fp :
  46 ∉ ip → forallb is_digit fp = true →
  replace_first trailing_zeros_pattern (λ m, default [] (capture m 1)) (ip ++ 46 :: fp) =
  ip ++ 46 :: drop_zeros fp.
Proof.
  intros Hip Hfp. destruct (drop_zeros_split fp) as (n & Hn & Hlast).
  set (u := drop_zeros fp) in *. clearbody u. subst fp. rewrite forallb_app in Hfp. apply andb_true_iff in Hfp as [Hu _].
  assert (∀ u1 u2, u = u1 ++ u2 → u2 ≠ [] → ∀ z cs, fails zeros_end (u2 ++ z) cs) as Hfail.
  { intros u1 u2 -> Hne z cs. destruct Hlast as [Hnil|(t & c & Ht & Hc)]; [by destruct u1, u2|].
    apply (zeros_end_fails _ c); [|done]. destruct (exists_last Hne) as (u3 & d & ->).
    rewrite app_assoc in Ht. apply app_inj_tail in Ht as [_ ->]. set_solver. }
  assert (∀ A b (k : mstate → option A), rmatch (whole trailing_zeros_pattern) (MState b (46 :: u ++ replicate n 48) []) k =
    rmatch (RLazy (RSet is_digit)) (MState (46 :: b) (u ++ replicate n 48) []) (λ st,
      rmatch zeros_end (set_capture 1 (take (length (46 :: u ++ replicate n 48) - length (rest st)) (46 :: u ++ replicate n 48)) st)
        (λ st', k (set_capture 0 (take (length (46 :: u ++ replicate n 48) - length (rest st')) (46 :: u ++ replicate n 48)) st')))) as Heq.
  { intros A b k. unfold whole, trailing_zeros_pattern. unfold rseq at 1. cbn [fold_right].
    by rewrite rmatch_group, rmatch_seq, rmatch_group, rmatch_seq, rmatch_set. }
  destruct n as [|n].
  - cbn [replicate] in *. rewrite app_nil_r in *. unfold replace_first.
    rewrite search_past by (apply trailing_zeros_point || done).
    rewrite search_skip.
    { rewrite search_none; [done|apply trailing_zeros_point|apply trailing_zeros_nil|by apply digits_no_point]. }
    intros A b k. rewrite Heq. apply lazy_set_none. intros u1 u2 Hu12.
    destruct u2 as [|c u2]; [apply zeros_end_fails_nil|].
    rewrite <- (app_nil_r (c :: u2)). by apply (Hfail u1 (c :: u2)).
  - set (w := 46 :: u ++ replicate (S n) 48) in *.
    assert (∃ b', search (whole trailing_zeros_pattern) [] (ip ++ w) = Some (MState b' [] [(0%nat, w); (1%nat, 46 :: u)])) as [b' Hs].
    { rewrite search_past by (apply trailing_zeros_point || done).
      subst w. cbn [search]. rewrite Heq. eexists. rewrite lazy_set_first; [|done|..].
      - unfold set_capture at 1. cbn [before rest caps].
        rewrite zeros_end_runs; [unfold set_capture; cbn [before rest caps]|done].
        rewrite Nat.sub_0_r, take_ge by done.
        change (46 :: u ++ replicate (S n) 48) with ((46 :: u) ++ replicate (S n) 48).
        by rewrite group_text.
      - intros u1 u2 Hu12 Hne. by apply (Hfail u1 u2).
      - unfold set_capture at 1. cbn [before rest caps]. rewrite zeros_end_runs; done. }
    rewrite (replace_tail _ _ _ _ _ Hs); done.
Qed.

Lemma point_replaced ip fp :
  46 ∉ ip → 46 ∉ fp →
  replace_first trailing_point_pattern (λ _, []) (ip ++ 46 :: fp) =
  if truthy fp then ip ++ 46 :: fp else ip.
Proof.
  intros Hip Hfp. destruct fp as [|c fp]; cbn [truthy].
  - assert (∃ b', search (whole trailing_point_pattern) [] (ip ++ [46]) = Some (MState b' [] [(0%nat, [46])])) as [b' Hs].
    { rewrite search_past by (apply trailing_point_point || done). by eexists. }
    rewrite (replace_tail _ _ _ _ _ Hs) by done. by rewrite app_nil_r.
  - unfold replace_first. rewrite search_past by (apply trailing_point_point || done).
    rewrite search_skip; [|by intros A b k].
    by rewrite search_none; [|apply trailing_point_point|apply trailing_point_nil|].
Qed.

Lemma includes_point a b : includes $"." (a ++ 46 :: b) = true.
Proof.
  change ($".") with [46]. induction a as [|c a IH]; [done|].
  cbn [app includes]. rewrite IH. apply orb_true_r.
Qed.

Lemma drop_zeros_digits fp : forallb is_digit fp = true → forallb is_digit (drop_zeros fp) = true.
Proof.
  destruct (drop_zeros_split fp) as (n & Hn & _). intros H. rewrite Hn, forallb_app in H.
  by apply andb_true_iff in H as [? _].
Qed.

Lemma removeTrailingZeros_spec ip fp :
  46 ∉ ip → forallb is_digit fp = true →
  removeTrailingZeros (ip ++ 46 :: fp) =
  if truthy (drop_zeros fp) then ip ++ 46 :: drop_zeros fp else ip.
Proof.
  intros Hip Hfp. unfold removeTrailingZeros. rewrite includes_point. cbn [negb].
  rewrite zeros_replaced by done. apply point_replaced; [done|].
  by apply digits_no_point, drop_zeros_digits.
Qed.

(** ** What a fixed-point text says *)

Lemma parse_pad_left n s : parse_digits (pad_left n s) = parse_digits s.
Proof.
  unfold parse_digits, pad_left. rewrite digits_value_app, digits_value_zeros. done.
Qed.

Lemma pad_left_digits n s : forallb is_digit s = true → forallb is_digit (pad_left n s) = true.
Proof.
  intros Hs. unfold pad_left. rewrite forallb_app, Hs, andb_true_r.
  induction (n - length s)%nat; done.
Qed.

Lemma fixed_digits_spec n d :
  0 ≤ n → ∃ ip fp, fixed_digits n d = ip ++ (if d is O then [] else 46 :: fp) ∧
    all_digits ip = true ∧ forallb is_digit fp = true ∧ length fp = d ∧ parse_digits (ip ++ fp) = n.
Proof.
  intros Hn. pose proof (all_digits_string_of_Z n Hn) as Hd. unfold all_digits in Hd.
  apply andb_true_iff in Hd as [_ Hd]. set (s := pad_left (S d) (string_of_Z n)).
  assert (parse_digits s = n) as Hp by (unfold s; rewrite parse_pad_left; by apply parse_string_of_Z).
  assert (forallb is_digit s = true) as Hs by (by apply pad_left_digits).
  assert (S d ≤ length s)%nat as Hlen by (unfold s, pad_left; rewrite length_app, length_replicate; lia).
  exists (take (length s - d) s), (drop (length s - d) s).
  assert (forallb is_digit (take (length s - d) s) = true ∧ forallb is_digit (drop (length s - d) s) = true) as [Ht Hr].
  { apply andb_true_iff. by rewrite <- forallb_app, take_drop. }
  split; [|split; [|split; [done|split]]].
  - unfold fixed_digits. fold s. destruct d as [|d]; [|done]. rewrite Nat.sub_0_r, take_ge, app_nil_r by done. done.
  - unfold all_digits. rewrite Ht, andb_true_r. apply truthy_ne. intros E%(f_equal length).
    rewrite length_take in E. cbn [length] in E. lia.
  - rewrite length_drop. lia.
  - by rewrite take_drop.
Qed.

(** [|x| * 10^d] rounded to an integer *)
Definition scaled (x : number) (d : nat) : Z :=
  match x with S754_finite _ m e => scaled_round m e (Z.of_nat d) | _ => 0 end.

Definition minus_sign (x : number) : jsstr :=
  match x with S754_finite true _ _ => [45] | _ => [] end.

Lemma scaled_nonneg x d : 0 ≤ scaled x d.
Proof.
  destruct x as [| | |s m e]; try done. cbn [scaled]. unfold scaled_round.
  destruct (Z.leb_spec 0 e).
  - repeat apply Z.mul_nonneg_nonneg; try lia; apply Z.pow_nonneg; lia.
  - apply Z.div_pos; [|apply Z.mul_pos_pos; [lia|apply Z.pow_pos_nonneg; lia]].
    pose proof (Z.pow_nonneg 2 (- e)). pose proof (Z.pow_nonneg 10 (Z.of_nat d)). nia.
Qed.

Lemma toFixed_digits x d :
  is_finite x = true → num_leb (num_of_Z (10 ^ 21)) (num_abs x) = false →
  toFixed d x = minus_sign x ++ fixed_digits (scaled x d) d.
Proof.
  intros Hf Hb. unfold toFixed. rewrite Hb. clear Hb.
  destruct x as [| | |[]]; (discriminate Hf || reflexivity).
Qed.

Lemma no_point_digits ip : all_digits ip = true → 46 ∉ ip.
Proof. unfold all_digits. intros [_ H]%andb_true_iff. by apply digits_no_point. Qed.

Definition point_text (fp : jsstr) : jsstr := if truthy fp then 46 :: fp else [].

(** The trimmed text denotes the same decimal, and none shorter does. *)
Lemma trimmed_fixed x d :
  is_finite x = true → num_leb (num_of_Z (10 ^ 21)) (num_abs x) = false →
  ∃ ip fp, removeTrailingZeros (toFixed d x) = minus_sign x ++ ip ++ point_text fp ∧
    all_digits ip = true ∧ forallb is_digit fp = true ∧ (length fp ≤ d)%nat ∧
    (fp = [] ∨ ∃ t c, fp = t ++ [c] ∧ c ≠ 48) ∧
    parse_digits (ip ++ fp) * 10 ^ Z.of_nat (d - length fp) = scaled x d.
Proof.
  intros Hf Hb. rewrite toFixed_digits by assumption. clear Hb.
  destruct (fixed_digits_spec (scaled x d) d (scaled_nonneg x d)) as (ip & fp & -> & Hip & Hfp & Hlen & Hval).
  assert (46 ∉ minus_sign x ++ ip) as Hno.
  { apply not_elem_of_app. split; [destruct x as [| | |[]]; set_solver by lia|by apply no_point_digits]. }
  destruct d as [|d].
  - destruct fp as [|]; [|done]. exists ip, []. rewrite !app_nil_r in *. split; [|split; [done|split; [done|split; [done|split; [by left|]]]]].
    + unfold removeTrailingZeros. destruct (includes $"." (minus_sign x ++ ip)) eqn:E; [|by rewrite ?app_nil_r].
      exfalso. revert Hno E. generalize (minus_sign x ++ ip) as s. change ($".") with [46].
      induction s as [|c s IH]; [done|]. intros Hno. cbn [includes starts_with].
      destruct (Z.eqb_spec 46 c); [set_solver|]. cbn. apply IH. set_solver.
    + cbn [length]. rewrite Nat.sub_0_r, Z.pow_0_r. lia.
  - exists ip, (drop_zeros fp). rewrite app_assoc, removeTrailingZeros_spec by done.
    destruct (drop_zeros_split fp) as (n & Hn & Hlast). set (u := drop_zeros fp) in *.
    assert (length fp = length u + n)%nat as Hl by (rewrite Hn, length_app, length_replicate; done).
    split; [|split; [done|split; [by apply drop_zeros_digits|split; [lia|split; [done|]]]]].
    + unfold point_text. destruct (truthy u); by rewrite ?app_nil_r, <- ?app_assoc.
    + rewrite <- Hval, Hn. replace (S d - length u)%nat with n by lia.
      unfold parse_digits. rewrite app_assoc, (digits_value_app 0 (ip ++ u)), digits_value_zeros. done.
Qed.

(** The number a counter prints, its suffix and the digits it is rounded to. *)
Definition printed (value : number) (large small : nat) (abbrev : bool) : number * jsstr * nat :=
  if abbrev && num_leb (num_of_Z 1000) (num_abs value) then (num_div value (num_of_Z 1000), $"k", 1%nat)
  else (value, [], getFractionDigits value large small).

(** A counter is printed as the decimal nearest to it (or to its thousandth,
    followed by k) with the given number of fraction digits, without zeros at
    its end: trimming them never changes the amount. *)
Theorem counter_text_exact value large small abbrev x suffix d :
  printed value large small abbrev = (x, suffix, d) →
  is_finite x = true → num_leb (num_of_Z (10 ^ 21)) (num_abs x) = false →
  ∃ ip fp, formatNumberWithSuffix value large small abbrev = minus_sign x ++ ip ++ point_text fp ++ suffix ∧
    all_digits ip = true ∧ forallb is_digit fp = true ∧ (length fp ≤ d)%nat ∧
    (fp = [] ∨ ∃ t c, fp = t ++ [c] ∧ c ≠ 48) ∧
    parse_digits (ip ++ fp) * 10 ^ Z.of_nat (d - length fp) = scaled x d.
Proof.
  intros Hp Hf Hb. destruct (trimmed_fixed x d Hf Hb) as (ip & fp & Ht & Hrest). clear Hb.
  exists ip, fp. split; [|exact Hrest]. clear Hrest. unfold printed in Hp. unfold formatNumberWithSuffix.
  destruct (_ && _); apply pair_equal_spec in Hp as [[<- <-]%pair_equal_spec <-];
    rewrite Ht, <- ?app_assoc, ?app_nil_r; reflexivity.
Qed.

Lemma counter_text_exact_witness :
  formatNumberWithSuffix (num_of_Z 1234567) 2 4 true = $"1234.6k" ∧
  ∃ ip fp, formatNumberWithSuffix (num_of_Z 1234567) 2 4 true = [] ++ ip ++ point_text fp ++ $"k" ∧
    all_digits ip = true ∧ forallb is_digit fp = true ∧ (length fp ≤ 1)%nat ∧
    (fp = [] ∨ ∃ t c, fp = t ++ [c] ∧ c ≠ 48) ∧
    parse_digits (ip ++ fp) * 10 ^ Z.of_nat (1 - length fp) = 12346.
Proof.
  split; [vm_compute; reflexivity|].
  assert (scaled (num_div (num_of_Z 1234567) (num_of_Z 1000)) 1 = 12346) as <- by (vm_compute; reflexivity).
  apply (counter_text_exact (num_of_Z 1234567) 2 4 true (num_div (num_of_Z 1234567) (num_of_Z 1000)) $"k" 1);
    vm_compute; reflexivity.
Defined.

(** ** Amounts near zero *)

Definition threshold `{IntlEnv} (o : ResolvedCurrencyFormatOptions) (value : number) : number :=
  if num_ltb (S754_zero false) (minimumNonZero o) then minimumNonZero o
  else pow10 (- Z.of_nat (getFractionDigits value (digitsLarge o) (digitsSmall o))).

Definition digits_sane (o : ResolvedCurrencyFormatOptions) : Prop :=
  (digitsLarge o ≤ 100)%nat ∧ (digitsSmall o ≤ 100)%nat.

Section Printed.
Context `{L : IntlLaws}.

Lemma threshold_positive o value :
  digits_sane o → num_ltb (S754_zero false) (threshold o value) = true.
Proof using L.
  intros [H1 H2]. unfold threshold. destruct (num_ltb (S754_zero false) (minimumNonZero o)) eqn:Em; [done|].
  destruct (pow10_positive (- Z.of_nat (getFractionDigits value (digitsLarge o) (digitsSmall o)))) as (m & e & ->); [|done].
  unfold getFractionDigits. case_match; lia.
Qed.

Lemma adjusted_spec o value :
  digits_sane o → num_truthy value = true →
  let x := adjustForMinimum value (getFractionDigits value (digitsLarge o) (digitsSmall o)) (minimumNonZero o) in
  num_leb (threshold o value) (num_abs x) = true ∧
  num_ltb (S754_zero false) x = num_ltb (S754_zero false) value ∧
  (num_leb (threshold o value) (num_abs value) = true → x = value).
Proof using L.
  intros Ho Hv. cbv zeta. pose proof (threshold_positive o value Ho) as Ht. unfold adjustForMinimum.
  destruct (num_eqb value (S754_zero false)) eqn:Ez; [by destruct value as [|[]| |[]]|].
  fold (threshold o value). set (t := threshold o value) in *. clearbody t.
  destruct (num_ltb (num_abs value) t) eqn:Ea.
  - replace (num_ltb (S754_zero false) (num_abs value)) with true by (destruct value as [| | |[]]; done).
    cbn [andb]. assert (t ≠ nan) as Htn by by intros ->. assert (num_abs value ≠ nan) as Hvn by by destruct value.
    rewrite num_ltb_leb in Ea by done. apply negb_true_iff in Ea. split; [|split; [|congruence]].
    + replace (num_abs _) with t; [by apply num_leb_refl|].
      destruct (num_ltb _ value); destruct t as [|[]| |[]]; done.
    + destruct (num_ltb (S754_zero false) value); [done|]. destruct t as [|[]| |[]]; done.
  - rewrite andb_false_r. assert (num_abs value ≠ nan) as Hvn by by destruct value.
    rewrite num_ltb_leb in Ea by (done || by intros ->). by apply negb_false_iff in Ea.
Qed.

(** In a currency display a non-zero amount is handed to the formatter with
    its sign and with at least the smallest amount its digits (or the given
    minimum) can show, unchanged when it is that large; with fixed digits it is
    handed over unchanged unless it rounds to zero, when it becomes a zero
    without a sign. *)
Theorem amount_never_vanishes value o meta :
  digits_sane o → num_truthy value = true → (∀ q, meta ≠ MetaTokens q) →
  ∃ prefix opts x, formatCurrencyValue value o meta = prefix ++ number_format (locale o) opts x ∧
    match fixedFractionDigits o with
    | None =>
      num_leb (threshold o value) (num_abs x) = true ∧
      num_ltb (S754_zero false) x = num_ltb (S754_zero false) value ∧
      (num_leb (threshold o value) (num_abs value) = true → x = value)
    | Some d =>
      let rounded := num_round (num_mul (num_abs value) (pow10 (Z.of_nat d))) in
      (num_eqb rounded (S754_zero false) = true ∧ x = S754_zero false) ∨
      (num_eqb rounded (S754_zero false) = false ∧ x = value)
    end.
Proof using L.
  intros Ho Hv Hm. pose proof (adjusted_spec o value Ho Hv) as Ha. unfold formatCurrencyValue.
  destruct meta as [sym code r|sym r|q]; [| |by destruct (Hm q)]; destruct (fixedFractionDigits o) as [d|].
  1,3: assert ((num_eqb (num_round (num_mul (num_abs value) (pow10 (Z.of_nat d)))) (S754_zero false) = true ∧
      fixed_value d value = S754_zero false) ∨ (num_eqb (num_round (num_mul (num_abs value) (pow10 (Z.of_nat d)))) (S754_zero false) = false ∧
      fixed_value d value = value)) as Hf by (unfold fixed_value; destruct (num_eqb _ _); auto).
  - exists [], (if showSymbol o then with_currency code (fixed_options d) else fixed_options d), (fixed_value d value). done.
  - destruct (showSymbol o); [exists (sym ++ $" ")|exists []]; exists (fixed_options d), (fixed_value d value);
      by rewrite <- ?app_assoc.
  - eexists [], _, _. by split.
  - destruct (showSymbol o); [exists (sym ++ $" ")|exists []]; eexists _, _; rewrite <- ?app_assoc; by split.
Qed.
End Printed.

(** ** The configuration the formatters see *)

(** Positive rates and a symbol that is not blank. *)
Definition usable_currency (c : CurrencyConfig) : Prop :=
  num_ltb (S754_zero false) (quotaPerUnit c) = true ∧
  num_ltb (S754_zero false) (usdExchangeRate c) = true ∧
  num_ltb (S754_zero false) (customCurrencyExchangeRate c) = true ∧
  customCurrencySymbol c ≠ [] ∧ trim (customCurrencySymbol c) = customCurrencySymbol c.

Lemma positive_or_positive x f :
  num_ltb (S754_zero false) f = true → num_ltb (S754_zero false) (positive_or x f) = true.
Proof. intros Hf. destruct x as [n|]; [|done]. cbn [positive_or]. destruct (_ && _) eqn:E; bool_hyps; done. Qed.

Lemma positive_or_some x f : num_ltb (S754_zero false) x = true → positive_or (Some x) f = x.
Proof. intros H. cbn [positive_or]. rewrite H, andb_true_r. by destruct x as [[]|[]| |[]]. Qed.

Lemma trimmed_or_spec s f :
  f ≠ [] → trim f = f → trimmed_or s f ≠ [] ∧ trim (trimmed_or s f) = trimmed_or s f.
Proof.
  intros Hf Ht. unfold trimmed_or, str_or. destruct (truthy _) eqn:E; [|done].
  apply truthy_ne in E. split; [done|apply trim_idem].
Qed.

Lemma getConfig_usable st : usable_currency (getConfig st).
Proof.
  unfold usable_currency, getConfig. cbn [quotaPerUnit usdExchangeRate customCurrencyExchangeRate customCurrencySymbol].
  repeat (split; [by apply positive_or_positive|]). apply trimmed_or_spec; [done|]. by vm_compute.
Qed.

Lemma first_some_none {A} (x : option A) : first_some None x = x.
Proof. done. Qed.

Definition received (d : StatusData) (c : CurrencyConfig) : Prop :=
  let D := DEFAULT_CURRENCY_CONFIG in
  let rate v f := let n := toNumber v f in if num_ltb (S754_zero false) n then n else f in
  quotaDisplayType c = default $"USD" (d_quota_display_type d) ∧
  quotaPerUnit c = rate (d_quota_per_unit d) (quotaPerUnit D) ∧
  usdExchangeRate c = rate (d_usd_exchange_rate d) (usdExchangeRate D) ∧
  customCurrencyExchangeRate c = rate (d_custom_currency_exchange_rate d) (customCurrencyExchangeRate D) ∧
  customCurrencySymbol c = trimmed_or (d_custom_currency_symbol d) (customCurrencySymbol D).

Lemma positive_or_rate n f :
  positive_or (Some n) f = if num_ltb (S754_zero false) n then n else f.
Proof.
  cbn [positive_or]. destruct (num_ltb (S754_zero false) n) eqn:E; [|by rewrite andb_false_r].
  rewrite andb_true_r. by destruct n as [[]|[]| |[]].
Qed.

Lemma trimmed_or_twice s f : f ≠ [] → trim f = f → trimmed_or (Some (trimmed_or s f)) f = trimmed_or s f.
Proof.
  intros Hf Ht. destruct (trimmed_or_spec s f Hf Ht) as [H1 H2].
  change (str_or (trim (trimmed_or s f)) f = trimmed_or s f).
  rewrite H2. unfold str_or. by rewrite (proj2 (truthy_ne _) H1).
Qed.

(** Loading the system configuration ends the loading state whatever is
    answered, leaves the configuration alone when the request fails or is
    refused, and otherwise makes the formatters see exactly the currency
    settings of the answer, with the default for every rate that is no positive
    number and for a blank symbol; the configuration in use is always usable. *)
Theorem status_becomes_config a st :
  let st' := loadConfig_finish a (loadConfig_start st) in
  loading st' = false ∧ usable_currency (getConfig st') ∧
  match a with
  | StatusBody true (Some d) => received d (getConfig st')
  | StatusBody true None => getConfig st' = getConfig st
  | _ => config st' = config st
  end.
Proof.
  cbv zeta. split; [done|]. split; [apply getConfig_usable|].
  destruct a as [|[] [d|]]; try done.
  - unfold received, getConfig. cbn -[positive_or trimmed_or num_ltb toNumber num_of_Z lit].
    rewrite !positive_or_rate. repeat (split; [done|]).
    apply trimmed_or_twice; [done|]. by vm_compute.
  - unfold loadConfig_finish, loadConfig_start, getConfig. cbn [fetchSystemConfig mapStatusDataToConfig setConfig setLoading config currency].
    destruct (currency (config st)) as [c|]; cbn; [by destruct c|]. f_equal; by vm_compute.
Qed.

(** ** Colours *)

(** The polynomial the loop computes modulo 2^32. *)
Definition poly_hash (s : jsstr) : Z := fold_left (λ h c, 31 * h + c) s 0.

Lemma to_int32_mod a b : a mod 2 ^ 32 = b mod 2 ^ 32 → to_int32 a = to_int32 b.
Proof. intros H. unfold to_int32. rewrite (Z.add_mod a), (Z.add_mod b), H by lia. done. Qed.

Lemma to_int32_cong a : to_int32 a mod 2 ^ 32 = a mod 2 ^ 32.
Proof.
  unfold to_int32. rewrite Zminus_mod_idemp_l. f_equal. lia.
Qed.

Lemma hash_step_poly h c : hash_step (to_int32 h) c = to_int32 (31 * h + c).
Proof.
  unfold hash_step. apply to_int32_mod. rewrite Z.shiftl_mul_pow2 by lia. change (2 ^ 5) with 32.
  pose proof (to_int32_cong h) as Hh. pose proof (to_int32_cong (to_int32 h * 32)) as H1.
  rewrite <- (Z.add_mod_idemp_r c), <- Zminus_mod_idemp_l, H1, Zminus_mod_idemp_l, Z.add_mod_idemp_r by lia.
  replace (c + (to_int32 h * 32 - to_int32 h)) with (to_int32 h * 31 + c) by lia.
  rewrite <- (Z.add_mod_idemp_l (to_int32 h * 31)), <- Z.mul_mod_idemp_l, Hh, Z.mul_mod_idemp_l, Z.add_mod_idemp_l by lia.
  f_equal. lia.
Qed.

Lemma string_hash_poly s : string_hash s = to_int32 (poly_hash s).
Proof.
  unfold string_hash, poly_hash. change 0 with (to_int32 0) at 1. generalize 0 as h.
  induction s as [|c s IH]; intros h; [done|]. cbn [fold_left]. by rewrite hash_step_poly, IH.
Qed.

(** The colour of a name has a hue below 360, a saturation of 65 to 74 and a
    lightness of 55 to 64 percent, all from the polynomial hash of the name. *)
Theorem color_in_range s :
  s ≠ [] → ∃ hue saturation lightness,
    stringToColor s = $"hsl(" ++ string_of_Z hue ++ $", " ++ string_of_Z saturation ++ $"%, " ++
      string_of_Z lightness ++ $"%)" ∧
    hue = Z.abs (Z.rem (to_int32 (poly_hash s)) 360) ∧
    0 ≤ hue < 360 ∧ 65 ≤ saturation < 75 ∧ 55 ≤ lightness < 65.
Proof.
  intros Hs. unfold stringToColor. rewrite (proj2 (truthy_ne s) Hs). cbn [negb]. rewrite string_hash_poly.
  set (h := to_int32 (poly_hash s)). eexists _, _, _. split; [reflexivity|]. split; [done|].
  pose proof (Z.rem_bound_abs h 360 ltac:(lia)).
  pose proof (Z.rem_bound_pos (Z.abs h) 10). pose proof (Z.rem_bound_pos (Z.abs (Z.shiftr h 8)) 10). lia.
Qed.

(** ** Concrete inputs *)

(** A platform that prints fixed-point numbers, with correctly rounded powers of
    ten. *)
#[global] Instance sample_intl : IntlEnv := {|
  number_format := λ _ o x,
    (if nf_style o is Some _ then $"$" else []) ++ toFixed (default 3%nat (nf_maximumFractionDigits o)) x;
  pow10 := λ n, num_of_decimal false 1 n |}.

Definition is_positive (x : number) : bool := match x with S754_finite false _ _ => true | _ => false end.

Lemma sample_powers :
  forallb (λ n, is_positive (num_of_decimal false 1 (Z.of_nat n - 100))) (seq 0 201) = true.
Proof. vm_compute. reflexivity. Qed.

#[global] Instance sample_intl_laws : IntlLaws sample_intl.
Proof.
  constructor. intros n Hn. pose proof sample_powers as H. rewrite forallb_forall in H.
  assert (In (Z.to_nat (n + 100)) (seq 0 201)) as Hin by (apply in_seq; lia). specialize (H _ Hin).
  replace (Z.of_nat (Z.to_nat (n + 100)) - 100) with n in H by lia. cbn [pow10 sample_intl].
  destruct (num_of_decimal false 1 n) as [| | |[] m e]; try done. by exists m, e.
Qed.

Definition sample_status (display : string) : StatusData := {|
  d_system_name := None; d_logo := None; d_footer_html := None; d_demo_site_enabled := None;
  d_display_token_stat_enabled := None; d_display_in_currency := None;
  d_quota_display_type := Some (lit display); d_quota_per_unit := VNum (num_of_Z 500000);
  d_usd_exchange_rate := VStr $"7.3"; d_custom_currency_symbol := Some $"€";
  d_custom_currency_exchange_rate := VNum (num_lit 9 1) |}.

Definition sample_state (display : string) : SystemConfigState :=
  loadConfig_finish (StatusBody true (Some (sample_status display))) initial_config.

Lemma quota_roundtrip_witness :
  parseQuotaFromDollars (sample_state "CNY") (quotaUnitsToDollars (sample_state "CNY") (num_of_Z 1234567)) =
  num_of_Z 1234567.
Proof. apply quota_roundtrip; [lia|vm_compute; reflexivity|vm_compute; reflexivity]. Defined.

Lemma amount_never_vanishes_witness :
  threshold DEFAULT_FORMAT_OPTIONS (num_lit 3 7) = num_lit 1 4 ∧
  ∃ prefix opts x,
    formatCurrencyValue (num_lit 3 7) DEFAULT_FORMAT_OPTIONS USD_META = prefix ++ number_format None opts x ∧
    num_leb (threshold DEFAULT_FORMAT_OPTIONS (num_lit 3 7)) (num_abs x) = true ∧
    num_ltb (S754_zero false) x = num_ltb (S754_zero false) (num_lit 3 7) ∧
    (num_leb (threshold DEFAULT_FORMAT_OPTIONS (num_lit 3 7)) (num_abs (num_lit 3 7)) = true → x = num_lit 3 7).
Proof.
  split; [vm_compute; reflexivity|].
  apply (amount_never_vanishes (num_lit 3 7) DEFAULT_FORMAT_OPTIONS USD_META).
  - split; cbn; lia.
  - vm_compute. reflexivity.
  - intros q. discriminate.
Defined.

(** The displays the code produces where its comments give other ones. *)
Example display_examples :
  formatCurrencyFromUSD (sample_state "TOKENS") (Some (num_of_Z 10)) None = $"5000k" ∧
  formatCurrencyFromUSD (sample_state "CUSTOM") (Some (num_of_Z 10)) None = $"€ 9.00" ∧
  formatBillingCurrencyFromUSD (sample_state "TOKENS") (Some (num_of_Z 10)) None = $"$10.00" ∧
  formatLocalCurrencyAmount (sample_state "CNY") (Some (num_of_Z 50)) None = $"$50.00" ∧
  quotaUnitsToEditableAmount (sample_state "USD") (num_of_Z 7) = S754_zero false.
Proof. vm_compute. done. Qed.
