(* ===== verification/PricingPage.v ===== *)
(** * The pricing page

    [src/web/src/features/pricing/lib/filters.ts], [model-helpers.ts],
    [price.ts], [dynamic-price.ts] and the hooks [use-pricing-data.ts] and
    [use-filters.ts]: the list of models with their vendors, the filters and
    orders of the list, the group ratio a price is shown for, and the prices as
    text, from ratios or from a billing expression. *)

From S2P Require Import Prelude JsString JsText JsNumber NumberText Regex JsValue Json JsMath OrderedMap.
From S2P Require Import BillingExpr SystemConfig Currency.

Local Open Scope js_scope.

(** ** Data *)

Record PricingVendor := { v_id : Z; v_name : jsstr }.

(** The fields of a model the code computes with.  The values of a group ratio
    table are of unknown type: they are checked before use. *)
Record PricingModel := {
  model_name : jsstr;
  description : option jsstr;
  vendor_id : option Z;
  vendor_name : option jsstr;
  quota_type : Z;
  model_ratio : number;
  completion_ratio : number;
  model_price : option number;
  cache_ratio : option number;
  create_cache_ratio : option number;
  image_ratio : option number;
  audio_ratio : option number;
  audio_completion_ratio : option number;
  enable_groups : option (list jsstr);
  tags : option jsstr;
  supported_endpoint_types : option (list jsstr);
  group_ratio : option (list (jsstr * value));
  billing_mode : option jsstr;
  billing_expr : option jsstr }.

Record PricingData := {
  pd_data : option (list PricingModel);
  pd_vendors : option (list PricingVendor);
  pd_group_ratio : option (list (jsstr * value)) }.

Inductive TokenUnit := UnitM | UnitK.
Inductive PriceType :=
| PInput | POutput | PCache | PCreateCache | PImage | PAudioInput | PAudioOutput.

Definition FILTER_ALL : jsstr := $"all".
Definition EXCLUDED_GROUPS : list jsstr := [[]; $"auto"].
Definition QUOTA_TOKEN : Z := 0.
Definition QUOTA_REQUEST : Z := 1.

Definition TOKEN_UNIT_DIVISORS (u : TokenUnit) : number :=
  match u with UnitM => num_of_Z 1 | UnitK => num_of_Z 1000 end.

(** ** Models with their vendors ([use-pricing-data.ts]) *)

Definition with_vendor (vendorMap : list (Z * PricingVendor)) (groupRatio : option (list (jsstr * value)))
    (m : PricingModel) : PricingModel :=
  let vendor :=
    match vendor_id m with
    | Some i => if i =? 0 then None else om_get i vendorMap
    | None => None
    end in
  {| model_name := model_name m; description := description m; vendor_id := vendor_id m;
     vendor_name := v_name <$> vendor; quota_type := quota_type m; model_ratio := model_ratio m;
     completion_ratio := completion_ratio m; model_price := model_price m; cache_ratio := cache_ratio m;
     create_cache_ratio := create_cache_ratio m; image_ratio := image_ratio m; audio_ratio := audio_ratio m;
     audio_completion_ratio := audio_completion_ratio m; enable_groups := enable_groups m; tags := tags m;
     supported_endpoint_types := supported_endpoint_types m; group_ratio := groupRatio;
     billing_mode := billing_mode m; billing_expr := billing_expr m |}.

Definition pricing_models (data : option PricingData) : list PricingModel :=
  match data with
  | Some {| pd_data := Some ms; pd_vendors := Some vs; pd_group_ratio := gr |} =>
    let vendorMap := fold_left (λ acc v, om_set (v_id v) v acc) vs [] in
    with_vendor vendorMap gr <$> ms
  | _ => []
  end.

(** [Math.max(x ?? fallback, 0.001)] *)
Definition safe_rate (x : option number) (fallback : number) : number :=
  num_max (default fallback x) (num_lit 1 3).

Definition pricing_priceRate (price : option number) : number := safe_rate price (num_of_Z 1).
Definition pricing_usdExchangeRate (price usd_exchange_rate : option number) : number :=
  safe_rate usd_exchange_rate (pricing_priceRate price).

(** ** Filters *)

Section Filters.
Context `{TextEnv}.

Definition lower_includes (query : jsstr) (s : option jsstr) : bool :=
  match s with Some t => includes query (toLowerCase t) | None => false end.

Definition filterBySearch (models : list PricingModel) (query : jsstr) : list PricingModel :=
  if negb (truthy query) then models
  else
    let lowerQuery := toLowerCase query in
    List.filter (λ m, lower_includes lowerQuery (Some (model_name m)) ||
                      lower_includes lowerQuery (description m) ||
                      lower_includes lowerQuery (tags m) ||
                      lower_includes lowerQuery (vendor_name m)) models.

Definition filterByVendor (models : list PricingModel) (vendor : jsstr) : list PricingModel :=
  if bool_decide (vendor = FILTER_ALL) then models
  else List.filter (λ m, bool_decide (vendor_name m = Some vendor)) models.

Definition filterByGroup (models : list PricingModel) (group : jsstr) : list PricingModel :=
  if bool_decide (group = FILTER_ALL) then models
  else List.filter (λ m, bool_decide (group ∈ default [] (enable_groups m))) models.

Definition filterByQuotaType (models : list PricingModel) (quotaType : jsstr) : list PricingModel :=
  if bool_decide (quotaType = $"all") then models
  else
    let targetType := if bool_decide (quotaType = $"token") then QUOTA_TOKEN else QUOTA_REQUEST in
    List.filter (λ m, quota_type m =? targetType) models.

Definition filterByEndpointType (models : list PricingModel) (endpointType : jsstr) : list PricingModel :=
  if bool_decide (endpointType = $"all") then models
  else List.filter (λ m, bool_decide (endpointType ∈ default [] (supported_endpoint_types m))) models.

(** [[,;|\s]+] *)
Definition tag_separator (c : Z) : bool := (c =? 44) || (c =? 59) || (c =? 124) || is_space c.

Definition parseTags (tagsString : option jsstr) : list jsstr :=
  match tagsString with
  | Some s =>
    if negb (truthy s) then []
    else List.filter truthy (trim <$> split_re (RPlus (RSet tag_separator)) s)
  | None => []
  end.

Definition tag_set (models : list PricingModel) : list jsstr :=
  fold_left (λ acc m, fold_left (λ acc t, os_add acc (toLowerCase t)) (parseTags (tags m)) acc) models [].

Definition extractAllTags (models : list PricingModel) : list jsstr :=
  js_sort localeCompare (tag_set models).

Definition filterByTag (models : list PricingModel) (tag : jsstr) : list PricingModel :=
  if bool_decide (tag = FILTER_ALL) then models
  else
    let tagLower := toLowerCase tag in
    List.filter (λ m, bool_decide (tagLower ∈ toLowerCase <$> parseTags (tags m))) models.

(** ** Order *)

Definition getModelPrice (m : PricingModel) : number :=
  if quota_type m =? 0 then model_ratio m else num_or_zero (model_price m).

Definition by_price (a b : PricingModel) : Z :=
  num_sgn (num_sub (getModelPrice a) (getModelPrice b)).

Definition sortModels (models : list PricingModel) (sortBy : jsstr) : list PricingModel :=
  if bool_decide (sortBy = $"name") then
    js_sort (λ a b, localeCompare (model_name a) (model_name b)) models
  else if bool_decide (sortBy = $"price-low") then js_sort by_price models
  else if bool_decide (sortBy = $"price-high") then js_sort (λ a b, by_price b a) models
  else models.

Record Filters := {
  f_search : jsstr; f_vendor : jsstr; f_group : jsstr; f_quotaType : jsstr;
  f_endpointType : jsstr; f_tag : jsstr; f_sortBy : jsstr }.

Definition filterAndSortModels (models : list PricingModel) (f : Filters) : list PricingModel :=
  let result := filterBySearch models (f_search f) in
  let result := filterByVendor result (f_vendor f) in
  let result := filterByGroup result (f_group f) in
  let result := filterByQuotaType result (f_quotaType f) in
  let result := filterByEndpointType result (f_endpointType f) in
  let result := filterByTag result (f_tag f) in
  sortModels result (f_sortBy f).
End Filters.

(** ** The state of the filters ([use-filters.ts]) *)

Inductive ViewMode := ViewCard | ViewTable.
#[global] Instance ViewMode_eq_dec : EqDecision ViewMode.
Proof. solve_decision. Defined.

(** A field that was set to [undefined] is deleted, so each is set or absent. *)
Record FilterState := {
  fs_search : option jsstr; fs_sort : option jsstr; fs_vendor : option jsstr; fs_group : option jsstr;
  fs_quotaType : option jsstr; fs_endpointType : option jsstr; fs_tag : option jsstr;
  fs_tokenUnit : option TokenUnit; fs_view : option ViewMode; fs_rechargePrice : option bool }.

Definition or_default (x : option jsstr) (d : jsstr) : jsstr := str_or (default [] x) d.

Definition searchInput (s : FilterState) : jsstr := or_default (fs_search s) [].
Definition sortBy (s : FilterState) : jsstr := or_default (fs_sort s) $"name".
Definition vendorFilter (s : FilterState) : jsstr := or_default (fs_vendor s) FILTER_ALL.
Definition groupFilter (s : FilterState) : jsstr := or_default (fs_group s) FILTER_ALL.
Definition quotaTypeFilter (s : FilterState) : jsstr := or_default (fs_quotaType s) $"all".
Definition endpointTypeFilter (s : FilterState) : jsstr := or_default (fs_endpointType s) $"all".
Definition tagFilter (s : FilterState) : jsstr := or_default (fs_tag s) FILTER_ALL.
Definition tokenUnit (s : FilterState) : TokenUnit :=
  match fs_tokenUnit s with Some UnitK => UnitK | _ => UnitM end.
Definition viewMode (s : FilterState) : ViewMode :=
  match fs_view s with Some ViewTable => ViewTable | _ => ViewCard end.
Definition showRechargePrice (s : FilterState) : bool :=
  match fs_rechargePrice s with Some true => true | _ => false end.

(** What the setters do to a field: the default value is not stored. *)
Definition unless (d v : jsstr) : option jsstr := if bool_decide (v = d) then None else Some v.

Inductive FilterAction :=
| SetSearchInput (v : jsstr) | SetSortBy (v : jsstr) | SetVendorFilter (v : jsstr)
| SetGroupFilter (v : jsstr) | SetQuotaTypeFilter (v : jsstr) | SetEndpointTypeFilter (v : jsstr)
| SetTagFilter (v : jsstr) | SetTokenUnit (u : TokenUnit) | SetViewMode (v : ViewMode)
| SetShowRechargePrice (b : bool) | ClearFilters | ClearSearch.

Definition filter_step (a : FilterAction) (s : FilterState) : FilterState :=
  let '(Build_FilterState se so ve gr qu en ta tu vi re) := s in
  match a with
  | SetSearchInput v => Build_FilterState (unless [] v) so ve gr qu en ta tu vi re
  | SetSortBy v => Build_FilterState se (unless $"name" v) ve gr qu en ta tu vi re
  | SetVendorFilter v => Build_FilterState se so (unless FILTER_ALL v) gr qu en ta tu vi re
  | SetGroupFilter v => Build_FilterState se so ve (unless FILTER_ALL v) qu en ta tu vi re
  | SetQuotaTypeFilter v => Build_FilterState se so ve gr (unless $"all" v) en ta tu vi re
  | SetEndpointTypeFilter v => Build_FilterState se so ve gr qu (unless $"all" v) ta tu vi re
  | SetTagFilter v => Build_FilterState se so ve gr qu en (unless FILTER_ALL v) tu vi re
  | SetTokenUnit u =>
    Build_FilterState se so ve gr qu en ta (match u with UnitM => None | UnitK => Some UnitK end) vi re
  | SetViewMode v =>
    Build_FilterState se so ve gr qu en ta tu (match v with ViewCard => None | ViewTable => Some ViewTable end) re
  | SetShowRechargePrice b => Build_FilterState se so ve gr qu en ta tu vi (if b then Some true else None)
  | ClearFilters => Build_FilterState se so None None None None None tu vi re
  | ClearSearch => Build_FilterState None so ve gr qu en ta tu vi re
  end.

Definition active_filters (s : FilterState) : list bool :=
  [negb (bool_decide (vendorFilter s = FILTER_ALL)); negb (bool_decide (groupFilter s = FILTER_ALL));
   negb (bool_decide (quotaTypeFilter s = $"all")); negb (bool_decide (endpointTypeFilter s = $"all"));
   negb (bool_decide (tagFilter s = FILTER_ALL))].

Definition hasActiveFilters (s : FilterState) : bool := existsb id (active_filters s).
Definition activeFilterCount (s : FilterState) : nat := length (List.filter id (active_filters s)).

Section Shown.
Context `{TextEnv}.

Definition availableTags (models : list PricingModel) : list jsstr :=
  match models with [] => [] | _ => extractAllTags models end.

(** [debounced] is the search text after the debounce. *)
Definition filteredModels (models : list PricingModel) (debounced : jsstr) (s : FilterState) : list PricingModel :=
  match models with
  | [] => []
  | _ => filterAndSortModels models {|
      f_search := debounced; f_vendor := vendorFilter s; f_group := groupFilter s;
      f_quotaType := quotaTypeFilter s; f_endpointType := endpointTypeFilter s; f_tag := tagFilter s;
      f_sortBy := sortBy s |}
  end.
End Shown.

(** ** Groups ([model-helpers.ts]) *)

Definition getAvailableGroups (m : PricingModel) (usableGroup : list jsstr) : list jsstr :=
  let modelEnableGroups := default [] (enable_groups m) in
  List.filter (λ g, bool_decide (g ∈ modelEnableGroups))
    (List.filter (λ g, negb (bool_decide (g ∈ EXCLUDED_GROUPS))) usableGroup).

(** [typeof ratio === 'number' && Number.isFinite(ratio)] *)
Definition configured (groupRatio : list (jsstr * value)) (group : jsstr) : option number :=
  match om_get group groupRatio with
  | Some (VNum x) => if is_finite x then Some x else None
  | _ => None
  end.

Definition getConfiguredGroupRatio (groupRatio : list (jsstr * value)) (group : jsstr) : number :=
  default (num_of_Z 1) (configured groupRatio group).

Definition min_step (groupRatio : list (jsstr * value)) (minRatio : number) (group : jsstr) : number :=
  match configured groupRatio group with
  | Some ratio => if num_ltb ratio minRatio then ratio else minRatio
  | None => minRatio
  end.

Definition getDisplayGroupRatio (m : PricingModel) (selectedGroup : option jsstr) : number :=
  let modelEnableGroups := default [] (enable_groups m) in
  let groupRatio := default [] (group_ratio m) in
  let best :=
    match modelEnableGroups with
    | [] => num_of_Z 1
    | _ =>
      let minRatio := fold_left (min_step groupRatio) modelEnableGroups (infinity false) in
      if num_eqb minRatio (infinity false) then num_of_Z 1 else minRatio
    end in
  match selectedGroup with
  | Some g =>
    if truthy g && negb (bool_decide (g = FILTER_ALL)) && bool_decide (g ∈ modelEnableGroups)
    then getConfiguredGroupRatio groupRatio g else best
  | None => best
  end.

(** [path.replaceAll('{model}', modelName)] with a name that has no [$] *)
Fixpoint replace_all (pat w s : jsstr) (skip : nat) : jsstr :=
  match s with
  | [] => []
  | c :: s' =>
    match skip with
    | S k => replace_all pat w s' k
    | O => if starts_with pat s then w ++ replace_all pat w s' (length pat - 1) else c :: replace_all pat w s' O
    end
  end.

Definition replaceModelInPath (path modelName : jsstr) : jsstr := replace_all $"{model}" modelName path O.

Definition isTokenBasedModel (m : PricingModel) : bool := quota_type m =? QUOTA_TOKEN.

(** ** Prices from ratios ([price.ts]) *)

(** A currency symbol (no digit, no minus), a number with thousands separators,
    an optional k; the whole text. *)
Definition price_text_pattern : regex :=
  rseq [RGroup 1 (RStar (RSet (λ c, negb (is_digit c || (c =? 45)))));
        RGroup 2 (rseq [RPlus (RSet (λ c, (c =? 45) || is_digit c || (c =? 44))); ROpt (RSet (Z.eqb 46));
                        RStar (RSet is_digit)]);
        RGroup 3 (ROpt (RSet (Z.eqb 107)))].

(** [/\.?0+$/] *)
Definition zeros_suffix_pattern : regex := rseq [ROpt (RSet (Z.eqb 46)); RPlus (RSet (Z.eqb 48)); REnd].

Definition stripTrailingZeros (formatted : jsstr) : jsstr :=
  match match_whole price_text_pattern formatted with
  | None => formatted
  | Some m =>
    let symbol := default [] (capture m 1) in
    let cleanNumber := List.filter (λ c, negb (c =? 44)) (default [] (capture m 2)) in
    let suffix := default [] (capture m 3) in
    let parsed := parse_float cleanNumber in
    if is_nan parsed then formatted
    else
      let result := number_text parsed in
      let result :=
        if includes $"e" result then replace_first zeros_suffix_pattern (λ _, []) (toFixed 20 parsed)
        else result in
      symbol ++ result ++ suffix
  end.

Definition hasRatio (x : option number) : bool :=
  match x with Some v => is_finite v | None => false end.

Definition times_ratio (base : number) (x : option number) : number :=
  if hasRatio x then num_mul base (default nan x) else nan.

Definition calculateTokenPrice (m : PricingModel) (type : PriceType) (ratio : number) : number :=
  let base := num_mul (num_mul (model_ratio m) (num_of_Z 2)) ratio in
  match type with
  | PInput => base
  | POutput => num_mul base (completion_ratio m)
  | PCache => times_ratio base (cache_ratio m)
  | PCreateCache => times_ratio base (create_cache_ratio m)
  | PImage => times_ratio base (image_ratio m)
  | PAudioInput => times_ratio base (audio_ratio m)
  | PAudioOutput =>
    if hasRatio (audio_ratio m) && hasRatio (audio_completion_ratio m) then
      num_mul (num_mul base (default nan (audio_ratio m))) (default nan (audio_completion_ratio m))
    else nan
  end.

Definition applyRechargeRate (price : number) (showWithRecharge : bool) (priceRate usdExchangeRate : number)
  : number :=
  if negb showWithRecharge then price else num_div (num_mul price priceRate) usdExchangeRate.

(** The recharge view: is it on, the price of a dollar of credit, the rate. *)
Record Recharge := { r_show : bool; r_priceRate : number; r_usdExchangeRate : number }.

Definition recharged (r : Recharge) (price : number) : number :=
  applyRechargeRate price (r_show r) (r_priceRate r) (r_usdExchangeRate r).

Definition price_options (large small : nat) : CurrencyFormatOptions := {|
  o_digitsLarge := Some large; o_digitsSmall := Some small; o_abbreviate := Some false;
  o_minimumNonZero := None; o_compact := None; o_fixedFractionDigits := None;
  o_showSymbol := None; o_locale := None |}.

Section Prices.
Context `{IntlEnv} (st : SystemConfigState).

Definition formatPrice (m : PricingModel) (type : PriceType) (unit : TokenUnit) (r : Recharge)
    (selectedGroup : option jsstr) : jsstr :=
  if quota_type m =? QUOTA_REQUEST then $"-"
  else
    let displayGroupRatio := getDisplayGroupRatio m selectedGroup in
    let priceInUSD := recharged r (calculateTokenPrice m type displayGroupRatio) in
    let price := num_div priceInUSD (TOKEN_UNIT_DIVISORS unit) in
    formatCurrencyFromUSD st (Some price) (Some (price_options 4 6)).

Definition formatGroupPrice (m : PricingModel) (group : jsstr) (type : PriceType) (unit : TokenUnit)
    (r : Recharge) (groupRatio : list (jsstr * value)) : jsstr :=
  if quota_type m =? QUOTA_REQUEST then $"-"
  else
    let ratio := getConfiguredGroupRatio groupRatio group in
    let priceInUSD := recharged r (calculateTokenPrice m type ratio) in
    let price := num_div priceInUSD (TOKEN_UNIT_DIVISORS unit) in
    formatCurrencyFromUSD st (Some price) (Some (price_options 4 6)).

Definition formatFixedPrice (m : PricingModel) (group : jsstr) (r : Recharge)
    (groupRatio : list (jsstr * value)) : jsstr :=
  if negb (quota_type m =? QUOTA_REQUEST) then $"-"
  else
    let ratio := getConfiguredGroupRatio groupRatio group in
    let priceInUSD := recharged r (num_mul (num_or_zero (model_price m)) ratio) in
    formatCurrencyFromUSD st (Some priceInUSD) (Some (price_options 4 4)).

Definition formatRequestPrice (m : PricingModel) (r : Recharge) (selectedGroup : option jsstr) : jsstr :=
  if negb (quota_type m =? QUOTA_REQUEST) then $"-"
  else
    let displayGroupRatio := getDisplayGroupRatio m selectedGroup in
    let priceInUSD := recharged r (num_mul (num_or_zero (model_price m)) displayGroupRatio) in
    formatCurrencyFromUSD st (Some priceInUSD) (Some (price_options 4 4)).

(** ** Prices from a billing expression ([dynamic-price.ts]) *)

Record DynamicPriceOptions := {
  dp_tokenUnit : TokenUnit;
  dp_showRechargePrice : option bool;
  dp_priceRate : option number;
  dp_usdExchangeRate : option number;
  dp_groupRatioMultiplier : option number }.

Record DynamicPriceEntry := {
  e_key : jsstr;
  e_field : jsstr;
  e_label : jsstr;
  e_shortLabel : jsstr;
  e_value : number;
  e_formatted : jsstr }.

Record DynamicPricingSummary := {
  ds_tiers : list ParsedTier;
  ds_tier : option ParsedTier;
  ds_tierCount : nat;
  ds_hasRequestRules : bool;
  ds_isSpecialExpression : bool;
  ds_rawExpression : jsstr;
  ds_entries : list DynamicPriceEntry;
  ds_primaryEntries : list DynamicPriceEntry;
  ds_secondaryEntries : list DynamicPriceEntry }.

Definition PRIMARY_DYNAMIC_FIELDS : list jsstr := [$"inputPrice"; $"outputPrice"].

Definition isDynamicPricingModel (m : PricingModel) : bool :=
  bool_decide (billing_mode m = Some $"tiered_expr") && truthy (default [] (billing_expr m)).

Definition formatDynamicUnitPrice (valuePerMillionTokens : number) (o : DynamicPriceOptions) : jsstr :=
  let groupRatio := default (num_of_Z 1) (dp_groupRatioMultiplier o) in
  let priceRate := default (num_of_Z 1) (dp_priceRate o) in
  let usdExchangeRate := default (num_of_Z 1) (dp_usdExchangeRate o) in
  let priceUSD := num_div (num_mul valuePerMillionTokens groupRatio) (TOKEN_UNIT_DIVISORS (dp_tokenUnit o)) in
  let displayPrice :=
    applyRechargeRate priceUSD (default false (dp_showRechargePrice o)) priceRate usdExchangeRate in
  formatBillingCurrencyFromUSD st (Some displayPrice) (Some (price_options 4 6)).

(** Splitting an expression can throw, as in the price editor. *)
Definition getDynamicPricingTiers (m : PricingModel) : completion (list ParsedTier) :=
  if negb (isDynamicPricingModel m) then Normal []
  else
    let? split := splitBillingExprAndRequestRules (default [] (billing_expr m)) in
    Normal (parseTiersFromExpr (billingExpr split)).

Definition hasDynamicRequestRules (m : PricingModel) : completion bool :=
  if negb (isDynamicPricingModel m) then Normal false
  else
    let? split := splitBillingExprAndRequestRules (default [] (billing_expr m)) in
    let? rules := tryParseRequestRuleExpr (requestRuleExpr split) in
    Normal (match rules with Some (_ :: _) => true | _ => false end).

Definition price_entry (o : DynamicPriceOptions) (tier : ParsedTier) (v : BillingVar) : list DynamicPriceEntry :=
  match bv_field v with
  | None => []
  | Some field =>
    let x := default nan (om_get field (pt_prices tier)) in
    if negb (is_finite x) || num_leb x (S754_zero false) then []
    else [{| e_key := key v; e_field := field; e_label := bv_label v; e_shortLabel := shortLabel v;
             e_value := x; e_formatted := formatDynamicUnitPrice x o |}]
  end.

Definition is_primary (e : DynamicPriceEntry) : bool := bool_decide (e_field e ∈ PRIMARY_DYNAMIC_FIELDS).

Definition primary_first (a b : DynamicPriceEntry) : Z :=
  if Bool.eqb (is_primary a) (is_primary b) then 0 else if is_primary a then -1 else 1.

Definition getDynamicPriceEntries (tier : option ParsedTier) (o : DynamicPriceOptions) : list DynamicPriceEntry :=
  match tier with
  | None => []
  | Some t => js_sort primary_first (flat_map (price_entry o t) BILLING_PRICING_VARS)
  end.

Definition getDynamicPricingSummary (m : PricingModel) (o : DynamicPriceOptions)
  : completion (option DynamicPricingSummary) :=
  if negb (isDynamicPricingModel m) then Normal None
  else
    let? tiers := getDynamicPricingTiers m in
    let? hasRules := hasDynamicRequestRules m in
    let tier := head tiers in
    let entries := getDynamicPriceEntries tier o in
    let rawExpression := default [] (billing_expr m) in
    Normal (Some {|
      ds_tiers := tiers; ds_tier := tier; ds_tierCount := length tiers; ds_hasRequestRules := hasRules;
      ds_isSpecialExpression := truthy (trim rawExpression) && (length tiers =? 0)%nat;
      ds_rawExpression := rawExpression; ds_entries := entries;
      ds_primaryEntries := List.filter is_primary entries;
      ds_secondaryEntries := List.filter (λ e, negb (is_primary e)) entries |}).
End Prices.

Example strip_examples :
  stripTrailingZeros $"$1,234.5000" = $"$1234.5" ∧ stripTrailingZeros $"¥0.0000001" = $"¥0.0000001" ∧
  stripTrailingZeros $"-" = $"-" ∧ stripTrailingZeros $"12.50k" = $"12.5k" ∧
  replaceModelInPath $"/v1/{model}/x/{model}" $"gpt" = $"/v1/gpt/x/gpt".
Proof. vm_compute. done. Qed.
