(* ===== verification/PricingPageFacts.v ===== *)
(** * The pricing page: theorems

    The filters show exactly the matching models in the chosen order, every tag
    offered selects a model, the summary price uses the best ratio, missing
    prices are dashes, and the filter state remembers what was set. *)

From S2P Require Import Prelude JsString JsText JsNumber NumberText Rounding Regex JsValue Json JsMath OrderedMap.
From S2P Require Import BillingExpr SystemConfig Currency PricingPage.

Local Open Scope Z_scope.
Local Open Scope js_scope.

(** ** What is shown *)

Section Matching.
Context {TE : TextEnv}.

(** A model has a tag, whatever the case. *)
Definition has_tag (tag : jsstr) (m : PricingModel) : Prop :=
  toLowerCase tag ∈ toLowerCase <$> parseTags (tags m).

Definition found (query : jsstr) (m : PricingModel) : Prop :=
  ∃ s, Some s ∈ [Some (model_name m); description m; tags m; vendor_name m] ∧
       includes (toLowerCase query) (toLowerCase s) = true.

(** The declarative meaning of the filters. *)
Definition matches (f : Filters) (m : PricingModel) : Prop :=
  (f_search f ≠ [] → found (f_search f) m) ∧
  (f_vendor f ≠ FILTER_ALL → vendor_name m = Some (f_vendor f)) ∧
  (f_group f ≠ FILTER_ALL → f_group f ∈ default [] (enable_groups m)) ∧
  (f_quotaType f ≠ $"all" →
    quota_type m = if bool_decide (f_quotaType f = $"token") then QUOTA_TOKEN else QUOTA_REQUEST) ∧
  (f_endpointType f ≠ $"all" → f_endpointType f ∈ default [] (supported_endpoint_types m)) ∧
  (f_tag f ≠ FILTER_ALL → has_tag (f_tag f) m).

Lemma elem_filter_guard {A} (g : bool) (P : A → bool) (Q R : Prop) (x : A) l :
  (g = false ↔ R) → (P x = true ↔ Q) → (x ∈ (if g then l else List.filter P l)) ↔ (R → Q) ∧ x ∈ l.
Proof using.
  intros Hg HP. destruct g; rewrite ?elem_of_js_filter, ?HP.
  - split; [intros H; split; [intros HR%Hg; done|done]|by intros [_ ?]].
  - assert R as HR by by apply Hg. tauto.
Qed.

Lemma guard_all (v d : jsstr) : bool_decide (v = d) = false ↔ v ≠ d.
Proof using. apply bool_decide_eq_false. Qed.

Lemma lower_includes_spec q s : lower_includes q s = true ↔ ∃ t, s = Some t ∧ includes q (toLowerCase t) = true.
Proof using. unfold lower_includes. destruct s as [s|]; [|split; [done|by intros (?&?&_)]]. split; [by exists s|]. by intros (t & [= ->] & ?). Qed.

Lemma elem_search query m l : m ∈ filterBySearch l query ↔ (query ≠ [] → found query m) ∧ m ∈ l.
Proof using.
  unfold filterBySearch. apply elem_filter_guard.
  - by rewrite negb_false_iff, truthy_ne.
  - rewrite !orb_true_iff, !lower_includes_spec. unfold found. split.
    + intros [[[H|H]|H]|H]; destruct H as (t & E & Ht); exists t; rewrite E; (split; [|done]); set_solver.
    + intros (s & Hs & Hi). rewrite !elem_of_cons in Hs.
      destruct Hs as [E|[E|[E|[E|E]]]]; [left; left; left|left; left; right|left; right|right|by apply elem_of_nil in E];
        exists s; by rewrite <- E.
Qed.

Lemma elem_vendor v m l : m ∈ filterByVendor l v ↔ (v ≠ FILTER_ALL → vendor_name m = Some v) ∧ m ∈ l.
Proof using. apply elem_filter_guard; [apply guard_all|apply bool_decide_eq_true]. Qed.
Lemma elem_group g m l : m ∈ filterByGroup l g ↔ (g ≠ FILTER_ALL → g ∈ default [] (enable_groups m)) ∧ m ∈ l.
Proof using. apply elem_filter_guard; [apply guard_all|apply bool_decide_eq_true]. Qed.
Lemma elem_quota q m l :
  m ∈ filterByQuotaType l q ↔
  (q ≠ $"all" → quota_type m = if bool_decide (q = $"token") then QUOTA_TOKEN else QUOTA_REQUEST) ∧ m ∈ l.
Proof using. apply elem_filter_guard; [apply guard_all|apply Z.eqb_eq]. Qed.
Lemma elem_endpoint e m l :
  m ∈ filterByEndpointType l e ↔ (e ≠ $"all" → e ∈ default [] (supported_endpoint_types m)) ∧ m ∈ l.
Proof using. apply elem_filter_guard; [apply guard_all|apply bool_decide_eq_true]. Qed.
Lemma elem_tag t m l : m ∈ filterByTag l t ↔ (t ≠ FILTER_ALL → has_tag t m) ∧ m ∈ l.
Proof using. apply elem_filter_guard; [apply guard_all|apply bool_decide_eq_true]. Qed.

Lemma sortModels_perm l s : sortModels l s ≡ₚ l.
Proof using. unfold sortModels. repeat case_match; rewrite ?js_sort_perm; done. Qed.

(** The filtered list before it is sorted. *)
Definition filtered (models : list PricingModel) (f : Filters) : list PricingModel :=
  filterByTag (filterByEndpointType (filterByQuotaType (filterByGroup (filterByVendor
    (filterBySearch models (f_search f)) (f_vendor f)) (f_group f)) (f_quotaType f)) (f_endpointType f)) (f_tag f).

Lemma filtered_sublist models f : sublist (filtered models f) models.
Proof using.
  unfold filtered, filterByTag, filterByEndpointType, filterByQuotaType, filterByGroup, filterByVendor, filterBySearch.
  assert (∀ {A} (P : A → bool) l l', sublist l l' → sublist (List.filter P l) l') as Hf.
  { intros A P l l' H. etransitivity; [|exact H]. clear H. induction l as [|x l IH]; [constructor|].
    cbn [List.filter]. destruct (P x); by constructor. }
  repeat case_match; repeat apply Hf; done.
Qed.

(** The order a sort option asks for. *)
Definition in_order (s : jsstr) (a b : PricingModel) : Prop :=
  (s = $"name" → localeCompare (model_name a) (model_name b) ≤ 0) ∧
  (s = $"price-low" → in_units (getModelPrice a) ≤ in_units (getModelPrice b)) ∧
  (s = $"price-high" → in_units (getModelPrice b) ≤ in_units (getModelPrice a)).

Definition priced (m : PricingModel) : Prop := ordinary (getModelPrice m).

Lemma by_price_units a b :
  priced a → priced b → by_price a b ≤ 0 ↔ in_units (getModelPrice a) - in_units (getModelPrice b) ≤ 0.
Proof using. intros Ha Hb. unfold by_price. rewrite sub_sgn by done. lia. Qed.

Context {L : TextLaws TE}.

Lemma sortModels_sorted l s : Forall priced l → StronglySorted (in_order s) (sortModels l s).
Proof using L.
  intros Hl. rewrite Forall_forall in Hl. unfold sortModels.
  assert (∀ (R1 R2 : PricingModel → PricingModel → Prop) l, (∀ a b, R1 a b → R2 a b) → StronglySorted R1 l → StronglySorted R2 l) as Himpl.
  { intros R1 R2 l' H Hs. induction Hs; constructor; [done|]. eapply Forall_impl; eauto. }
  destruct (decide (s = $"name")) as [->|H1]; [rewrite bool_decide_eq_true_2 by done|rewrite bool_decide_eq_false_2 by done].
  { pose proof (comparison_proj model_name localeCompare _). eapply Himpl; [|apply js_sort_sorted, _].
    intros a b Hab. repeat split; [done|discriminate..]. }
  destruct (decide (s = $"price-low")) as [->|H2]; [rewrite bool_decide_eq_true_2 by done|rewrite bool_decide_eq_false_2 by done].
  { rewrite (js_sort_agree by_price (λ a b, in_units (getModelPrice a) - in_units (getModelPrice b)))
      by (intros; apply by_price_units; auto).
    eapply Himpl; [|apply js_sort_sorted; constructor; intros; lia].
    intros a b Hab. cbn beta in Hab. repeat split; [discriminate|lia|discriminate]. }
  destruct (decide (s = $"price-high")) as [->|H3]; [rewrite bool_decide_eq_true_2 by done|rewrite bool_decide_eq_false_2 by done].
  { rewrite (js_sort_agree (λ a b, by_price b a) (λ a b, in_units (getModelPrice b) - in_units (getModelPrice a)))
      by (intros; apply by_price_units; auto).
    eapply Himpl; [|apply js_sort_sorted; constructor; intros; lia].
    intros a b Hab. cbn beta in Hab. repeat split; [discriminate|discriminate|lia]. }
  assert (∀ a b, in_order s a b) as Hall by (intros a b; by repeat split).
  clear -Hall. induction l; constructor; [done|]. by apply Forall_true.
Qed.

(** C10: The page shows exactly the models that match the filters, none twice
    more often than it was given, in the chosen order: by name as the locale
    compares, or by price. *)
Theorem shown_models_exact models f :
  Forall priced models →
  let shown := filterAndSortModels models f in
  (∀ m, m ∈ shown ↔ matches f m ∧ m ∈ models) ∧
  (∃ kept, sublist kept models ∧ shown ≡ₚ kept) ∧
  StronglySorted (in_order (f_sortBy f)) shown.
Proof using L.
  intros Hp. cbv zeta. change (filterAndSortModels models f) with (sortModels (filtered models f) (f_sortBy f)).
  split; [|split].
  - intros m. rewrite sortModels_perm. unfold filtered, matches.
    rewrite elem_tag, elem_endpoint, elem_quota, elem_group, elem_vendor, elem_search. tauto.
  - exists (filtered models f). split; [apply filtered_sublist|apply sortModels_perm].
  - apply sortModels_sorted. rewrite Forall_forall in *. intros m Hm. apply Hp.
    by eapply (elem_of_submseteq _ _ _ Hm), sublist_submseteq, filtered_sublist.
Qed.
End Matching.

(** ** Tags *)

(** The maximal runs of characters outside a class, in order. *)
Fixpoint fields (p : Z → bool) (w s : jsstr) : list jsstr :=
  match s with
  | [] => if truthy w then [reverse w] else []
  | c :: s' =>
    if p c then (if truthy w then [reverse w] else []) ++ fields p [] s' else fields p (c :: w) s'
  end.

Section Split.
Context (p : Z → bool).

Abbreviation sep := (RPlus (RSet p)).

Lemma span_class (q : Z → bool) (s : jsstr) :
  ∃ w t, s = w ++ t ∧ forallb q w = true ∧ match t with c :: _ => q c = false | [] => True end.
Proof using.
  induction s as [|c s (w & t & -> & Hw & Ht)]; [by exists [], []|].
  destruct (q c) eqn:Hc; [exists (c :: w), t|exists [], (c :: w ++ t)]; cbn; rewrite ?Hc; done.
Qed.

Lemma sep_fails c s cs : p c = false → fails (whole sep) (c :: s) cs.
Proof using. intros Hc A b k. unfold whole, RPlus. rewrite rmatch_group, rmatch_seq, rmatch_set. by rewrite Hc. Qed.

Lemma search_sep w d u t b :
  forallb (λ c, negb (p c)) w = true → p d = true → forallb p u = true →
  match t with c :: _ => p c = false | [] => True end →
  ∃ b', search (whole sep) b (w ++ (d :: u) ++ t) = Some (MState b' t [(0%nat, d :: u)]).
Proof using.
  intros Hw Hd Hu Ht. revert b. induction w as [|c w IH]; intros b.
  - cbn [app]. apply search_here. unfold whole, RPlus. apply runs_group with (w := d :: u).
    apply (runs_plus p (d :: u)); [done|by cbn; rewrite Hd|done].
  - cbn [forallb] in Hw. apply andb_true_iff in Hw as [Hc%negb_true_iff Hw]. cbn [app].
    rewrite search_skip by by apply sep_fails. by apply IH.
Qed.

Lemma search_no_sep w b : forallb (λ c, negb (p c)) w = true → search (whole sep) b w = None.
Proof using.
  revert b. induction w as [|c w IH]; intros b Hw; [done|].
  cbn [forallb] in Hw. apply andb_true_iff in Hw as [Hc%negb_true_iff Hw].
  rewrite search_skip by by apply sep_fails. by apply IH.
Qed.

Lemma fields_word w s acc :
  forallb (λ c, negb (p c)) w = true → fields p acc (w ++ s) = fields p (reverse w ++ acc) s.
Proof using.
  revert acc. induction w as [|c w IH]; intros acc Hw; [done|].
  cbn [forallb] in Hw. apply andb_true_iff in Hw as [Hc%negb_true_iff Hw].
  cbn [app fields]. by rewrite Hc, IH, plus_state.
Qed.

Lemma fields_seps u s : forallb p u = true → fields p [] (u ++ s) = fields p [] s.
Proof using.
  induction u as [|c u IH]; intros Hu; [done|].
  cbn [forallb] in Hu. apply andb_true_iff in Hu as [Hc Hu]. cbn [app fields truthy]. by rewrite Hc, IH.
Qed.

Lemma fields_plain s x : x ∈ fields p [] s → forallb (λ c, negb (p c)) x = true ∧ x ≠ [].
Proof using.
  assert (∀ w, forallb (λ c, negb (p c)) w = true → x ∈ fields p w s →
    forallb (λ c, negb (p c)) x = true ∧ x ≠ []) as H; [|by apply H].
  assert (∀ w, forallb (λ c, negb (p c)) w = true → truthy w = true →
    forallb (λ c, negb (p c)) (reverse w) = true ∧ reverse w ≠ []) as Hr.
  { intros w Hw Ht%truthy_ne. split; [|intros E%(f_equal reverse); by rewrite reverse_involutive in E].
    rewrite forallb_forall in *. intros c Hc. apply Hw. by rewrite <- list_elem_of_In, <- elem_of_reverse, list_elem_of_In. }
  induction s as [|c s IH]; intros w Hw Hx; cbn [fields] in Hx.
  - destruct (truthy w) eqn:Ht; [|by apply elem_of_nil in Hx].
    apply list_elem_of_singleton in Hx as ->. by apply Hr.
  - destruct (p c) eqn:Hc.
    + apply elem_of_app in Hx as [Hx|Hx]; [|by apply (IH [])].
      destruct (truthy w) eqn:Ht; [|by apply elem_of_nil in Hx].
      apply list_elem_of_singleton in Hx as ->. by apply Hr.
    + apply (IH (c :: w)); [|done]. cbn [forallb]. by rewrite Hc, Hw.
Qed.

Lemma split_re_fields s n :
  (length s ≤ n)%nat → List.filter truthy (split_re_from sep s n) = fields p [] s.
Proof using.
  revert s. induction n as [|n IH]; intros s Hn; [by destruct s; [|cbn in Hn; lia]|]. cbn [split_re_from].
  destruct (span_class (λ c, negb (p c)) s) as (w & t & -> & Hw & Ht).
  destruct t as [|d t].
  - rewrite app_nil_r, search_no_sep by done. rewrite <- (app_nil_r w) at 2.
    rewrite fields_word, app_nil_r by done. cbn [fields List.filter].
    rewrite reverse_involutive. destruct w as [|c w]; [done|]. cbn [truthy].
    by rewrite (proj2 (truthy_ne (reverse (c :: w)))) by (intros E%(f_equal reverse); by rewrite reverse_involutive in E).
  - apply negb_false_iff in Ht. destruct (span_class p t) as (u & r & -> & Hu & Hr).
    destruct (search_sep w d u r [] Hw Ht Hu Hr) as [b' Hs]. cbn [app] in Hs. rewrite Hs.
    cbn [rest capture cap_lookup caps List.find fst snd fmap option_fmap option_map default].
    replace (take _ (w ++ d :: u ++ r)) with w.
    2:{ rewrite !length_app in *. cbn [length] in *. rewrite length_app in *.
        replace (_ - length (d :: u))%nat with (length w) by (cbn [length]; lia). by rewrite take_app_length. }
    cbn [List.filter]. rewrite IH by (rewrite length_app in Hn; cbn [length] in Hn; rewrite length_app in Hn; lia).
    rewrite fields_word, app_nil_r by done. cbn [fields]. rewrite Ht, fields_seps by done.
    rewrite reverse_involutive. destruct w as [|c w]; [done|]. cbn [truthy].
    by rewrite (proj2 (truthy_ne (reverse (c :: w)))) by (intros E%(f_equal reverse); by rewrite reverse_involutive in E).
Qed.
End Split.

Lemma trim_plain x : forallb (λ c, negb (tag_separator c)) x = true → trim x = x.
Proof.
  intros H. apply trim_no_spaces. unfold no_spaces. rewrite forallb_forall in *. intros c Hc.
  specialize (H c Hc). unfold tag_separator in H. destruct (is_space c); [|done].
  by rewrite orb_true_r in H.
Qed.

(** The pieces of a split have no separators, so trimming leaves them alone. *)
Lemma split_plain p s n x :
  (length s ≤ n)%nat → x ∈ split_re_from (RPlus (RSet p)) s n → forallb (λ c, negb (p c)) x = true.
Proof.
  intros Hn Hx. destruct (truthy x) eqn:Ht; [|by destruct x].
  eapply (fields_plain p s x). rewrite <- (split_re_fields p s n) by done.
  by apply elem_of_js_filter.
Qed.

Lemma fmap_id_on {A} (f : A → A) (l : list A) : (∀ x, x ∈ l → f x = x) → f <$> l = l.
Proof.
  induction l as [|x l IH]; intros H; [done|]. cbn [fmap list_fmap].
  rewrite H by set_solver. f_equal. apply IH. set_solver.
Qed.

(** The tags of a model are the maximal runs of characters other than commas,
    semicolons, bars and white space. *)
Lemma parseTags_fields s : parseTags (Some s) = fields tag_separator [] s.
Proof.
  unfold parseTags. destruct s as [|c s]; [done|]. cbn [truthy negb].
  unfold split_re. rewrite fmap_id_on.
  - by apply split_re_fields.
  - intros x Hx. apply trim_plain. by eapply split_plain.
Qed.

Section Tags.
Context {TE : TextEnv}.

Definition model_tags (m : PricingModel) : list jsstr := toLowerCase <$> parseTags (tags m).

Lemma tag_set_eq models : tag_set models = os_of_list (flat_map model_tags models).
Proof using.
  unfold tag_set, os_of_list. rewrite fold_left_flat_map. apply fold_left_ext.
  intros acc m. unfold model_tags. by rewrite fold_left_fmap.
Qed.

Lemma elem_of_tags models tag :
  tag ∈ extractAllTags models ↔ ∃ m, m ∈ models ∧ tag ∈ model_tags m.
Proof using.
  unfold extractAllTags. rewrite elem_of_js_sort, tag_set_eq, elem_of_os_of_list.
  rewrite list_elem_of_In, in_flat_map. by setoid_rewrite list_elem_of_In.
Qed.

Context {L : TextLaws TE}.

(** Each tag is offered once, in the order of the locale; selecting one that
    is offered leaves at least one model, and every tag written on a model is
    offered (in lower case) and leaves that model.  The tag "all" is the one
    exception: it stands for no filter. *)
Theorem tag_facets_exact models :
  let offered := extractAllTags models in
  NoDup offered ∧ StronglySorted (λ a b, localeCompare a b ≤ 0) offered ∧
  (∀ tag, tag ∈ offered → filterByTag models tag ≠ []) ∧
  (∀ m s t, m ∈ models → tags m = Some s → t ∈ fields tag_separator [] s →
     toLowerCase t ∈ offered ∧ m ∈ filterByTag models (toLowerCase t)).
Proof using L.
  cbv zeta. split; [|split; [apply js_sort_sorted, _|split]].
  - unfold extractAllTags. rewrite js_sort_perm, tag_set_eq. apply os_of_list_NoDup.
  - intros tag (m & Hm & Ht)%elem_of_tags Hnil.
    assert (m ∈ filterByTag models tag) as Hin; [|rewrite Hnil in Hin; by apply elem_of_nil in Hin].
    apply elem_tag. split; [|done]. intros _. unfold has_tag, model_tags in *.
    apply list_elem_of_fmap in Ht as (t & -> & Ht). rewrite lower_idem. by apply list_elem_of_fmap_2.
  - intros m s t Hm Hs Ht. rewrite <- parseTags_fields, <- Hs in Ht. split.
    + apply elem_of_tags. exists m. split; [done|]. by apply list_elem_of_fmap_2.
    + apply elem_tag. split; [|done]. intros _. unfold has_tag. rewrite lower_idem. by apply list_elem_of_fmap_2.
Qed.
End Tags.

(** ** Group ratios *)

Lemma configured_finite gr g x : configured gr g = Some x → is_finite x = true.
Proof. unfold configured. repeat case_match; by intros [= <-]. Qed.

Lemma min_step_spec gr l acc :
  acc ≠ nan →
  let r := fold_left (min_step gr) l acc in
  r ≠ nan ∧ num_leb r acc = true ∧ (∀ g x, g ∈ l → configured gr g = Some x → num_leb r x = true) ∧
  (r = acc ∨ ∃ g, g ∈ l ∧ configured gr g = Some r).
Proof.
  cbv zeta. revert acc. induction l as [|g l IH]; intros acc Hacc.
  - cbn [fold_left]. split; [done|]. split; [by apply num_leb_refl|]. split; [|by left].
    intros g x Hg. by apply elem_of_nil in Hg.
  - cbn [fold_left]. set (acc' := min_step gr acc g).
    assert (acc' ≠ nan ∧ num_leb acc' acc = true ∧ (∀ x, configured gr g = Some x → num_leb acc' x = true) ∧
      (acc' = acc ∨ configured gr g = Some acc')) as (Hn & H1 & H2 & H3).
    { unfold acc', min_step. destruct (configured gr g) as [x|] eqn:E.
      - assert (x ≠ nan) as Hx by (apply configured_finite in E; by destruct x).
        destruct (num_ltb x acc) eqn:El.
        + split; [done|]. split; [by apply num_ltb_weak|]. split; [|by right].
          intros y [= <-]. by apply num_leb_refl.
        + split; [done|]. split; [by apply num_leb_refl|]. split; [|by left]. intros y [= <-].
          rewrite num_ltb_leb in El by done. by apply negb_false_iff in El.
      - split; [done|]. split; [by apply num_leb_refl|]. split; [done|by left]. }
    destruct (IH acc' Hn) as (I1 & I2 & I3 & I4). split; [done|]. split; [by eapply num_leb_trans|]. split.
    + intros g' x [->|Hg]%elem_of_cons Hx; [|by apply (I3 g')]. eapply num_leb_trans; [done|by apply H2].
    + destruct I4 as [->|(g' & Hg & Hx)]; [|right; exists g'; set_solver].
      destruct H3 as [->|H3]; [by left|]. right. exists g. set_solver.
Qed.

(** The ratio the price list is shown for is the smallest one configured for
    the groups of the model, 1 when none is, and so at most that of every group
    the details offer; with a group of the model selected it is that group's, 1
    when not configured. *)
Theorem display_ratio_best m :
  let groups := default [] (enable_groups m) in
  let gr := default [] (group_ratio m) in
  let r := getDisplayGroupRatio m None in
  (∀ usable g x, g ∈ getAvailableGroups m usable → configured gr g = Some x → num_leb r x = true) ∧
  ((∃ g, g ∈ groups ∧ configured gr g = Some r ∧
      ∀ g' x, g' ∈ groups → configured gr g' = Some x → num_leb r x = true) ∨
   ((∀ g, g ∈ groups → configured gr g = None) ∧ r = num_of_Z 1)) ∧
  (∀ g, g ∈ groups → g ≠ [] → g ≠ FILTER_ALL →
     getDisplayGroupRatio m (Some g) = getConfiguredGroupRatio gr g).
Proof.
  cbv zeta. unfold getDisplayGroupRatio. set (groups := default [] (enable_groups m)).
  set (gr := default [] (group_ratio m)).
  destruct (min_step_spec gr groups (infinity false)) as (Hn & Hi & Hle & Hor); [done|].
  set (r := fold_left _ _ _) in *.
  assert (∀ g x, g ∈ groups → configured gr g = Some x →
    num_leb (if num_eqb r (infinity false) then num_of_Z 1 else r) x = true) as Hbest.
  { intros g x Hg Hx. specialize (Hle g x Hg Hx). apply configured_finite in Hx.
    destruct (num_eqb r (infinity false)) eqn:Er; [|done].
    destruct r as [|[]| |]; try done; by destruct x. }
  split; [|split].
  - intros usable g x Hg Hx. unfold getAvailableGroups in Hg.
    apply elem_of_js_filter in Hg as [_ Hg%bool_decide_eq_true]. fold groups in Hg.
    destruct groups as [|g0 groups]; [by apply elem_of_nil in Hg|]. by eapply Hbest.
  - destruct groups as [|g0 groups]; [right; split; [intros g Hg; by apply elem_of_nil in Hg|done]|].
    destruct Hor as [Hinf|(g & Hg & Hx)].
    + right. rewrite Hinf. split; [|done]. intros g Hg. destruct (configured gr g) as [x|] eqn:Hx; [|done].
      specialize (Hle g x Hg Hx). rewrite Hinf in Hle. apply configured_finite in Hx. by destruct x.
    + left. exists g. apply configured_finite in Hx as Hf.
      assert (num_eqb r (infinity false) = false) as Er by by destruct r. rewrite Er in *. done.
  - intros g Hg Hne Hall. rewrite (proj2 (truthy_ne g) Hne), bool_decide_eq_false_2, bool_decide_eq_true_2 by done.
    done.
Qed.


(** ** The filter state *)

(** What the page works with: every filter has a value. *)
Record FilterView := {
  w_search : jsstr; w_sort : jsstr; w_vendor : jsstr; w_group : jsstr; w_quotaType : jsstr;
  w_endpointType : jsstr; w_tag : jsstr; w_unit : TokenUnit; w_view : ViewMode; w_recharge : bool }.

Definition view (s : FilterState) : FilterView := {|
  w_search := searchInput s; w_sort := sortBy s; w_vendor := vendorFilter s; w_group := groupFilter s;
  w_quotaType := quotaTypeFilter s; w_endpointType := endpointTypeFilter s; w_tag := tagFilter s;
  w_unit := tokenUnit s; w_view := viewMode s; w_recharge := showRechargePrice s |}.

(** The action on the values: an empty value means the default. *)
Definition view_step (a : FilterAction) (w : FilterView) : FilterView :=
  let '(Build_FilterView se so ve gr qu en ta tu vi re) := w in
  match a with
  | SetSearchInput v => Build_FilterView v so ve gr qu en ta tu vi re
  | SetSortBy v => Build_FilterView se (str_or v $"name") ve gr qu en ta tu vi re
  | SetVendorFilter v => Build_FilterView se so (str_or v FILTER_ALL) gr qu en ta tu vi re
  | SetGroupFilter v => Build_FilterView se so ve (str_or v FILTER_ALL) qu en ta tu vi re
  | SetQuotaTypeFilter v => Build_FilterView se so ve gr (str_or v $"all") en ta tu vi re
  | SetEndpointTypeFilter v => Build_FilterView se so ve gr qu (str_or v $"all") ta tu vi re
  | SetTagFilter v => Build_FilterView se so ve gr qu en (str_or v FILTER_ALL) tu vi re
  | SetTokenUnit u => Build_FilterView se so ve gr qu en ta u vi re
  | SetViewMode v => Build_FilterView se so ve gr qu en ta tu v re
  | SetShowRechargePrice b => Build_FilterView se so ve gr qu en ta tu vi b
  | ClearFilters => Build_FilterView se so FILTER_ALL FILTER_ALL $"all" $"all" FILTER_ALL tu vi re
  | ClearSearch => Build_FilterView [] so ve gr qu en ta tu vi re
  end.

Lemma or_default_unless d v : or_default (unless d v) d = str_or v d.
Proof.
  unfold or_default, unless, str_or. destruct (decide (v = d)) as [->|Hne];
    [rewrite bool_decide_eq_true_2 by done|rewrite bool_decide_eq_false_2 by done]; cbn [default truthy]; [|done].
  by destruct d.
Qed.

(** The stored filter state refines the values the page shows: after any
    action each value is the last one set (the default for an empty one), all
    others are unchanged, and clearing resets exactly the five filters.  A
    filter counts as active exactly when its value is not the default. *)
Theorem filter_state_refines a s :
  view (filter_step a s) = view_step a (view s) ∧
  (hasActiveFilters s = true ↔ (0 < activeFilterCount s)%nat) ∧
  (activeFilterCount s = 0%nat ↔
     vendorFilter s = FILTER_ALL ∧ groupFilter s = FILTER_ALL ∧ quotaTypeFilter s = $"all" ∧
     endpointTypeFilter s = $"all" ∧ tagFilter s = FILTER_ALL).
Proof.
  split; [|split].
  - destruct s as [se so ve gr qu en ta tu vi re].
    destruct a as [v|v|v|v|v|v|v|[]|[]|[]| |]; try reflexivity; unfold view, filter_step, view_step,
      searchInput, sortBy, vendorFilter, groupFilter, quotaTypeFilter, endpointTypeFilter, tagFilter;
      cbn [fs_search fs_sort fs_vendor fs_group fs_quotaType fs_endpointType fs_tag];
      rewrite or_default_unless; try reflexivity. f_equal. unfold str_or. by destruct v.
  - unfold hasActiveFilters, activeFilterCount. induction (active_filters s) as [|[] l IH]; cbn; [split; [done|lia]| |done].
    split; [lia|done].
  - unfold activeFilterCount, active_filters. cbn [List.filter].
    repeat (case_bool_decide; cbn [negb id]); cbn [length]; split; try lia; try done; intros; tauto.
Qed.

(** ** Prices *)

(** The ratio a price type needs besides the base ratio. *)
Definition type_ratio (m : PricingModel) (type : PriceType) : option number :=
  match type with
  | PInput => Some (num_of_Z 1)
  | POutput => Some (completion_ratio m)
  | PCache => cache_ratio m
  | PCreateCache => create_cache_ratio m
  | PImage => image_ratio m
  | PAudioInput => audio_ratio m
  | PAudioOutput => _ ← audio_ratio m; audio_completion_ratio m
  end.

Lemma mul_nan x : num_mul nan x = nan.
Proof. by destruct x. Qed.
Lemma div_nan x : num_div nan x = nan.
Proof. by destruct x. Qed.

Section Cells.
Context `{IntlEnv} (st : SystemConfigState).

(** A price that needs a missing ratio is a dash, for every group, unit and
    recharge view; per-request models have no token prices and token models no
    request price. *)
Theorem missing_price_is_dash m type unit r sel g gr :
  (type_ratio m type = None → formatPrice st m type unit r sel = $"-" ∧ formatGroupPrice st m g type unit r gr = $"-") ∧
  (quota_type m = QUOTA_REQUEST → formatPrice st m type unit r sel = $"-" ∧ formatGroupPrice st m g type unit r gr = $"-") ∧
  (quota_type m ≠ QUOTA_REQUEST → formatFixedPrice st m g r gr = $"-" ∧ formatRequestPrice st m r sel = $"-").
Proof using.
  assert (∀ x, type_ratio m type = None → calculateTokenPrice m type x = nan) as Hnan.
  { intros x Hn. unfold calculateTokenPrice. destruct type; cbn [type_ratio] in Hn; try done; try by rewrite Hn.
    destruct (audio_ratio m); cbn in Hn; [|done]. rewrite Hn. cbn [hasRatio]. by rewrite andb_false_r. }
  assert (∀ x, x = nan → formatCurrencyFromUSD st (Some (num_div (recharged r x) (TOKEN_UNIT_DIVISORS unit)))
    (Some (price_options 4 6)) = $"-") as Hdash.
  { intros x ->. unfold recharged, applyRechargeRate. by destruct (r_show r); cbn [negb]; rewrite ?mul_nan, ?div_nan. }
  split; [|split].
  - intros Hn. unfold formatPrice, formatGroupPrice. destruct (_ =? _); [done|]. split; by apply Hdash, Hnan.
  - intros Hq. unfold formatPrice, formatGroupPrice. by rewrite Hq.
  - intros Hq. unfold formatFixedPrice, formatRequestPrice. by rewrite (proj2 (Z.eqb_neq _ _) Hq).
Qed.

Lemma primary_first_sorted l :
  StronglySorted (λ a b, primary_first a b ≤ 0) l →
  l = List.filter is_primary l ++ List.filter (λ e, negb (is_primary e)) l.
Proof using.
  induction 1 as [|e l Hs IH Hall]; [done|]. cbn [List.filter].
  destruct (is_primary e) eqn:He; cbn [negb app]; [by rewrite <- IH|].
  assert (List.filter is_primary l = []) as Hnone.
  { rewrite Forall_forall in Hall. clear -Hall He.
    induction l as [|d l IHl]; [done|]. cbn [List.filter]. destruct (is_primary d) eqn:Hd.
    - specialize (Hall d (list_elem_of_here _ _)). unfold primary_first in Hall. rewrite He, Hd in Hall. cbn in Hall. lia.
    - apply IHl. set_solver. }
  rewrite Hnone in *. cbn [app] in *. by rewrite <- IH.
Qed.

#[local] Instance primary_first_comparator : Comparator primary_first.
Proof.
  constructor; unfold primary_first; intros; destruct (is_primary x), (is_primary y); try destruct (is_primary z);
    cbn in *; lia.
Qed.

Lemma dynamic_entries t o :
  getDynamicPriceEntries st (Some t) o =
  List.filter is_primary (flat_map (price_entry st o t) BILLING_PRICING_VARS) ++
  List.filter (λ e, negb (is_primary e)) (flat_map (price_entry st o t) BILLING_PRICING_VARS).
Proof using.
  unfold getDynamicPriceEntries. rewrite (primary_first_sorted (js_sort _ _)) by apply js_sort_sorted, _.
  f_equal; apply js_sort_stable; intros a b Ha Hb; unfold primary_first.
  - by rewrite Ha, Hb.
  - apply negb_true_iff in Ha, Hb. by rewrite Ha, Hb.
Qed.
End Cells.

(** ** Witnesses *)

#[local] Existing Instance ascii_text.
#[local] Existing Instance ascii_text_laws.

Definition sample_model (name tag : jsstr) (ratio : Z) : PricingModel :=
  {| model_name := name; description := None; vendor_id := None; vendor_name := None; quota_type := 0;
     model_ratio := num_of_Z ratio; completion_ratio := num_of_Z 1; model_price := None; cache_ratio := None;
     create_cache_ratio := None; image_ratio := None; audio_ratio := None; audio_completion_ratio := None;
     enable_groups := Some [$"default"]; tags := Some tag; supported_endpoint_types := None; group_ratio := None;
     billing_mode := None; billing_expr := None |}.

Definition sample_models : list PricingModel :=
  [sample_model $"gpt" $"Chat;Vision" 2; sample_model $"o3" $"chat" 1; sample_model $"dalle" $"image" 5].

Definition sample_filters : Filters :=
  {| f_search := []; f_vendor := $"all"; f_group := $"default"; f_quotaType := $"all"; f_endpointType := $"all";
     f_tag := $"CHAT"; f_sortBy := $"price-low" |}.

Example shown_example : model_name <$> filterAndSortModels sample_models sample_filters = [$"o3"; $"gpt"].
Proof. vm_compute. reflexivity. Qed.

Lemma shown_models_exact_witness :
  (∀ m, m ∈ filterAndSortModels sample_models sample_filters ↔ matches sample_filters m ∧ m ∈ sample_models) ∧
  (∃ kept, sublist kept sample_models ∧ filterAndSortModels sample_models sample_filters ≡ₚ kept) ∧
  StronglySorted (in_order (f_sortBy sample_filters)) (filterAndSortModels sample_models sample_filters).
Proof.
  apply (shown_models_exact (L := ascii_text_laws) sample_models sample_filters).
  repeat constructor; vm_compute; discriminate || reflexivity.
Defined.

Lemma tag_facets_exact_witness :
  NoDup (extractAllTags sample_models) ∧
  StronglySorted (λ a b, localeCompare a b ≤ 0) (extractAllTags sample_models) ∧
  (∀ tag, tag ∈ extractAllTags sample_models → filterByTag sample_models tag ≠ []) ∧
  (∀ m s t, m ∈ sample_models → tags m = Some s → t ∈ fields tag_separator [] s →
     toLowerCase t ∈ extractAllTags sample_models ∧ m ∈ filterByTag sample_models (toLowerCase t)).
Proof. apply (tag_facets_exact (L := ascii_text_laws) sample_models). Defined.
