(* ===== verification/PricingDisplay.v ===== *)
(** * From the price editor to the pricing page

    The editor of tiered prices and the pricing page share nothing but the text
    of the billing expression: the editor writes it ([TierExpr]), the page reads
    it with another parser ([parseTiersFromExpr] of [BillingExpr]).
    [page_shows_editor_prices]: the page finds the tiers, conditions and prices
    the editor wrote, with or without request rules around them. *)

From S2P Require Import Prelude JsString JsNumber NumberText Regex JsValue Json OrderedMap.
From S2P Require Import BillingExpr BillingExprFacts TierExpr TierExprFacts PricingFacts.
From S2P Require Import SystemConfig Currency PricingPage.

Local Open Scope Z_scope.
Local Open Scope js_scope.

(** ** The body of a tier as one group *)

Definition not_close (c : Z) : bool := negb (c =? 41).

Lemma word_not_close v : word v → forallb not_close v = true.
Proof.
  intros [_ Hw]. rewrite forallb_forall in *. intros c Hc. specialize (Hw c Hc). unfold not_close.
  destruct (Z.eqb_spec c 41) as [->|]; done.
Qed.

Lemma price_not_close x : price_ok x = true → forallb not_close (number_text x) = true.
Proof.
  intros Hx. destruct (price_text x Hx) as (_ & Hn & _). rewrite forallb_forall in *. intros c Hc.
  specialize (Hn c Hc). unfold not_close. destruct (Z.eqb_spec c 41) as [->|]; done.
Qed.

Lemma terms_not_close l :
  Forall word l.*1 → Forall (λ vx, price_ok vx.2 = true) l → forallb not_close (terms_text l) = true.
Proof.
  induction l as [|[v x] l IH]; [done|]. cbn [fmap list_fmap fst].
  intros [Hv Hw]%Forall_cons [Hx Hp]%Forall_cons. cbn [snd] in Hx. cbn [terms_text]. rewrite forallb_app, IH, andb_true_r by done.
  destruct (num_truthy x); [|done]. unfold term_text.
  rewrite !forallb_app, (word_not_close v), (price_not_close x) by done. reflexivity.
Qed.

Lemma body_not_close t : tier_ok t = true → forallb not_close (buildTierBodyExpr t) = true.
Proof.
  intros Ht. rewrite body_text by done. pose proof (priced_ok t Ht) as Hp.
  unfold tier_ok in Ht. rewrite !andb_true_iff in Ht. destruct Ht as [[[[_ Hi] Ho] _] _].
  rewrite !forallb_app, (price_not_close _ Hi), (price_not_close _ Ho), terms_not_close; [reflexivity| |done].
  rewrite priced_vars. apply vars_words.
Qed.

Definition page_caps (t : VisualTier) (cs : list (nat * jsstr)) : list (nat * jsstr) :=
  (3%nat, buildTierBodyExpr t) :: (2%nat, label t) :: cs.

Lemma page_named_runs t s cs :
  tier_ok t = true →
  runs (rseq [rlit (dq "tier('"); RGroup 2 (RStar (RSet not_quote)); rlit (dq "',"); rspaces;
              RGroup 3 (RPlus (RSet not_close)); rlit $")"])
    (tier_text (label t) t ++ s) cs s (page_caps t cs).
Proof.
  intros Ht. destruct (tier_fields t Ht) as [_ Hq]. unfold rseq, tier_text. cbn [fold_right].
  rewrite <- !app_assoc. change (dq "', ") with (dq "'," ++ [32]). rewrite <- !app_assoc.
  change ([32] ++ ?x) with (32 :: x).
  eapply runs_seq; [apply runs_lit|]. eapply runs_seq; [by apply runs_group_star|].
  eapply runs_seq; [apply runs_lit|].
  destruct (body_head t ($")" ++ s)) as [r Hr].
  eapply runs_seq; [apply runs_space; by rewrite Hr|].
  eapply runs_seq; [apply runs_group_plus; [|by apply body_not_close|done]|].
  - destruct (body_head t []) as [r' Hr']. rewrite app_nil_r in Hr'. by rewrite Hr'.
  - eapply runs_seq; [apply (runs_lit $")")|apply runs_eps].
Qed.

Lemma page_segment_runs t s :
  full_tier_ok t = true →
  ∃ cs, runs parse_tier_pattern (segment t ++ s) [] s (page_caps t cs) ∧
    cap_lookup cs 1 = if truthy (buildConditionStr (vt_conditions t))
                      then Some (buildConditionStr (vt_conditions t)) else None.
Proof.
  unfold full_tier_ok. intros [Ht Hc]%andb_true_iff. unfold segment. rewrite cond_truthy by done.
  unfold parse_tier_pattern, tier_head.
  assert (∀ s0 cs1, runs (ROpt (rseq [condGroup 1; rspaces; rlit $"?"; rspaces])) (s0 ++ tier_text (label t) t ++ s) []
      (tier_text (label t) t ++ s) cs1 →
    runs (rseq ([ROpt (rseq [condGroup 1; rspaces; rlit $"?"; rspaces]); rlit (dq "tier('");
      RGroup 2 (RStar (RSet not_quote)); rlit (dq "',"); rspaces] ++ [RGroup 3 (RPlus (RSet (λ c, negb (c =? 41)))); rlit $")"]))
      (s0 ++ tier_text (label t) t ++ s) [] s (page_caps t cs1)) as Hrun.
  { intros s0 cs1 H0. eapply runs_seq; [exact H0|]. by apply page_named_runs. }
  destruct (bool_decide (vt_conditions t = [])) eqn:E; cbn [negb].
  - exists []. split; [|done]. apply (Hrun []). apply runs_opt_none. unfold tier_text.
    rewrite <- !app_assoc. intros A b k. reflexivity.
  - apply bool_decide_eq_false in E. exists [(1%nat, buildConditionStr (vt_conditions t))].
    split; [|done]. rewrite <- !app_assoc. rewrite (app_assoc (buildConditionStr _)). apply Hrun.
    rewrite <- !app_assoc. apply runs_opt_some. rewrite conditions_text by done. cbn [rseq fold_right].
    destruct (vt_conditions t) as [|c cs]; [done|]. cbn [forallb] in Hc. apply andb_true_iff in Hc as [Hc Hcs].
    change ($" ? " ++ tier_text (label t) t ++ s) with (32 :: 63 :: 32 :: tier_text (label t) t ++ s).
    eapply runs_seq; [apply runs_group; by apply conjunction_runs|].
    eapply runs_seq; [by apply runs_space|].
    eapply runs_seq; [apply (runs_lit $"?")|]. eapply runs_seq; [by apply runs_space|apply runs_eps].
Qed.

(** ** The coefficients in the body *)

Definition var_keys : list jsstr := key <$> BILLING_PRICING_VARS.

Lemma var_keys_words : Forall word var_keys.
Proof. vm_compute. repeat constructor; done. Qed.

Lemma alt_words {A} vs v b s cs (k : mstate → option A) :
  v ∈ vs → Forall word vs →
  (∀ b' c t, is_word c = true → k (MState b' (c :: t) cs) = None) →
  is_Some (k (MState (reverse v ++ b) (32 :: s) cs)) →
  rmatch (ralt (rlit <$> vs)) (MState b (v ++ 32 :: s) cs) k = k (MState (reverse v ++ b) (32 :: s) cs).
Proof.
  intros Hv Hw Hk Hs. induction vs as [|a vs IH]; [by apply elem_of_nil in Hv|].
  apply Forall_cons in Hw as [Ha Hw].
  assert (a = v ∨ rmatch (rlit a) (MState b (v ++ 32 :: s) cs) k = None) as [->|Hnone].
  { destruct (decide (a = v)) as [|Hne]; [by left|right].
    assert (word v) as Hwv. { apply elem_of_cons in Hv as [->|Hv]; [done|]. rewrite Forall_forall in Hw. by apply Hw. }
    destruct (starts_with a (v ++ 32 :: s)) eqn:E; [|by apply rmatch_lit_fail].
    destruct (longer_word a v s (proj2 Ha) (proj2 Hwv) Hne E) as (c & t & -> & Hc).
    rewrite rmatch_lit. by apply Hk. }
  - destruct vs as [|a2 vs]; cbn [fmap list_fmap ralt]; [by rewrite rmatch_lit|].
    rewrite rmatch_alt, rmatch_lit. by destruct Hs as [x ->].
  - destruct vs as [|a2 vs]; cbn [fmap list_fmap ralt].
    + apply list_elem_of_singleton in Hv as ->. rewrite rmatch_lit in Hnone. rewrite Hnone in Hs. by destruct Hs.
    + rewrite rmatch_alt, Hnone. apply IH; [|done]. apply elem_of_cons in Hv as [->|Hv]; [|done].
      rewrite rmatch_lit in Hnone. rewrite Hnone in Hs. by destruct Hs.
Qed.

(** One term of a body. *)
Definition one_term (vx : jsstr * number) : jsstr := vx.1 ++ $" * " ++ number_text vx.2.

Lemma var_rest_runs x s cs :
  price_ok x = true → stops_at numeral_char s →
  runs (rseq [rspaces; rlit $"*"; rspaces; numeral_group 2]) ($" * " ++ number_text x ++ s) cs s ((2%nat, number_text x) :: cs).
Proof.
  intros Hx Hs. destruct (price_text x Hx) as (Hne & Hn & _). cbn [rseq fold_right].
  change ($" * " ++ number_text x ++ s) with (32 :: $"*" ++ 32 :: number_text x ++ s).
  eapply runs_seq; [by apply runs_space|]. eapply runs_seq; [apply (runs_lit $"*")|].
  eapply runs_seq; [by apply runs_space, price_stops|].
  eapply runs_seq; [by apply runs_group_plus|apply runs_eps].
Qed.

Lemma var_rest_fails c t cs : is_word c = true → fails (rseq [rspaces; rlit $"*"; rspaces; numeral_group 2]) (c :: t) cs.
Proof.
  intros Hc. destruct (word_char_solid c Hc) as (Hsp & Hst & _). cbn [rseq fold_right].
  apply (fails_spaces []); [done|done| |].
  - apply fails_seq, fails_lit. change ($"*") with [42]. cbn [starts_with].
    by rewrite (proj2 (Z.eqb_neq 42 c)) by congruence.
  - intros c' s' Hc'. by apply fails_lit_space.
Qed.

Lemma var_step v x b s :
  v ∈ var_keys → price_ok x = true → head_is_word b = false → stops_at numeral_char s →
  ∃ b', search BILLING_VAR_REGEX b (one_term (v, x) ++ s) = Some (MState b' s [(2%nat, number_text x); (1%nat, v)]).
Proof.
  intros Hv Hx Hb Hs. unfold one_term. cbn [fst snd]. rewrite <- !app_assoc.
  assert (word v) as [Hne Hw]. { pose proof var_keys_words as H. rewrite Forall_forall in H. by apply H. }
  set (tl := $" * " ++ number_text x ++ s).
  destruct (var_rest_runs x s [(1%nat, v)] Hx Hs mstate (reverse v ++ b)) as [b' E]. fold tl in E.
  exists b'. assert (rmatch BILLING_VAR_REGEX (MState b (v ++ tl) []) Some = Some (MState b' s [(2%nat, number_text x); (1%nat, v)])) as Hm.
  2:{ destruct v as [|c v]; [done|]. cbn [app] in *. cbn [search]. by rewrite Hm. }
  change BILLING_VAR_REGEX with (RSeq RWordB (RSeq (RGroup 1 (ralt (rlit <$> var_keys)))
    (rseq [rspaces; rlit $"*"; rspaces; numeral_group 2]))).
  rewrite rmatch_seq. cbn [rmatch before rest]. rewrite Hb.
  assert (head_is_word (v ++ tl) = true) as ->.
  { destruct v as [|c v]; [done|]. cbn [forallb] in Hw. by apply andb_true_iff in Hw as [Hw _]. }
  cbn [xorb]. change tl with (32 :: drop 1 tl). rewrite alt_words; [|done|apply var_keys_words|..].
  - unfold set_capture. cbn [before rest caps]. rewrite group_text. by apply E.
  - intros b2 c t Hc. unfold set_capture. cbn [before rest caps]. by apply var_rest_fails.
  - unfold set_capture. cbn [before rest caps]. rewrite group_text.
    change (32 :: drop 1 tl) with tl. by rewrite E.
Qed.

Lemma var_fails_at c s : c = 32 ∨ c = 43 → fails BILLING_VAR_REGEX (c :: s) [].
Proof.
  intros Hc A b k. change BILLING_VAR_REGEX with (RSeq RWordB (RSeq (RGroup 1 (ralt (rlit <$> var_keys)))
    (rseq [rspaces; rlit $"*"; rspaces; numeral_group 2]))).
  rewrite rmatch_seq. cbn [rmatch before rest]. destruct (xorb _ _); [|done].
  destruct Hc as [-> | ->]; reflexivity.
Qed.


Lemma var_search_end b : search BILLING_VAR_REGEX b [] = None.
Proof.
  cbn [search]. change BILLING_VAR_REGEX with (RSeq RWordB (RSeq (RGroup 1 (ralt (rlit <$> var_keys)))
    (rseq [rspaces; rlit $"*"; rspaces; numeral_group 2]))).
  rewrite rmatch_seq. cbn [rmatch before rest]. by destruct (xorb _ _).
Qed.

Definition term_caps (vx : jsstr * number) : list (nat * jsstr) := [(2%nat, number_text vx.2); (1%nat, vx.1)].

Definition term_ok (vx : jsstr * number) : Prop := vx.1 ∈ var_keys ∧ price_ok vx.2 = true.

Definition more_terms (l : list (jsstr * number)) : jsstr := concat ((λ vx, $" + " ++ one_term vx) <$> l).

Lemma exec_more_terms l b fuel :
  Forall term_ok l → (length l < fuel)%nat →
  caps <$> exec_all_from BILLING_VAR_REGEX b (more_terms l) fuel = term_caps <$> l.
Proof.
  intros Hok. revert b fuel. induction Hok as [|[v x] l [Hv Hx] Hok IH]; intros b fuel Hf; (destruct fuel as [|fuel]; [cbn [length] in Hf; lia|]).
  - cbn [more_terms fmap list_fmap concat exec_all_from]. by rewrite var_search_end.
  - cbn [fst snd] in Hv, Hx. unfold more_terms. cbn [fmap list_fmap concat]. fold (more_terms l). rewrite <- app_assoc.
    change ($" + " ++ one_term (v, x) ++ more_terms l) with (32 :: 43 :: 32 :: one_term (v, x) ++ more_terms l).
    cbn [exec_all_from]. rewrite !search_skip by (apply var_fails_at; tauto).
    destruct (var_step v x (32 :: 43 :: 32 :: b) (more_terms l) Hv Hx eq_refl) as [b' ->].
    { by destruct l as [|[v' x'] l]. }
    cbn [before rest fmap list_fmap caps]. f_equal. apply IH. cbn [length] in Hf. lia.
Qed.

(** The terms a body mentions: input, output and the extras that cost something. *)
Definition live (l : list (jsstr * number)) : list (jsstr * number) := List.filter (λ vx, num_truthy vx.2) l.

Definition body_terms (t : VisualTier) : list (jsstr * number) :=
  ($"p", input_unit_cost t) :: ($"c", output_unit_cost t) :: live (priced t).

Lemma terms_more l : terms_text l = more_terms (live l).
Proof.
  induction l as [|[v x] l IH]; [done|]. unfold live, more_terms in *. cbn [terms_text List.filter snd].
  destruct (num_truthy x); [|done]. cbn [fmap list_fmap concat]. by rewrite IH.
Qed.

Lemma live_sub l vx : vx ∈ live l → vx ∈ l.
Proof. unfold live. rewrite !list_elem_of_In. by intros [? _]%filter_In. Qed.

Lemma body_terms_ok t : tier_ok t = true → Forall term_ok (body_terms t).
Proof.
  intros Ht. pose proof (priced_ok t Ht) as Hp. unfold tier_ok in Ht. rewrite !andb_true_iff in Ht.
  destruct Ht as [[[[_ Hi] Ho] _] _]. unfold body_terms.
  apply Forall_cons; split; [split; [apply (bool_decide_unpack (_ ∈ var_keys)); vm_compute; exact I|done]|].
  apply Forall_cons; split; [split; [apply (bool_decide_unpack (_ ∈ var_keys)); vm_compute; exact I|done]|].
  rewrite !Forall_forall in *. intros vx Hin%live_sub. split; [|by apply Hp].
  assert (cacheVarNames ⊆ var_keys) as Hsub.
  { assert (Forall (λ v, v ∈ var_keys) cacheVarNames) as H.
    { apply (bool_decide_unpack _). vm_compute. exact I. }
    rewrite Forall_forall in H. done. }
  apply Hsub. rewrite <- (priced_vars t). by apply list_elem_of_fmap_2.
Qed.

Lemma live_keys l k : k ∈ (live l).*1 → k ∈ l.*1.
Proof. intros (vx & -> & Hin)%list_elem_of_fmap. by apply list_elem_of_fmap_2, live_sub. Qed.

Lemma live_NoDup l : NoDup l.*1 → NoDup (live l).*1.
Proof.
  induction l as [|[v x] l IH]; [done|]. cbn [fmap list_fmap fst]. intros [Hv Hl]%NoDup_cons.
  unfold live. cbn [List.filter snd]. destruct (num_truthy x); [|by apply IH].
  cbn [fmap list_fmap fst]. apply NoDup_cons. split; [|by apply IH]. by intros H%live_keys.
Qed.

Lemma body_terms_NoDup t : NoDup (body_terms t).*1.
Proof.
  unfold body_terms. cbn [fmap list_fmap fst]. pose proof (proj2 vars_words) as Hv. rewrite <- (priced_vars t) in Hv.
  assert ($"p" ∉ (priced t).*1 ∧ $"c" ∉ (priced t).*1) as [Hp Hc].
  { rewrite priced_vars. split; apply (bool_decide_unpack _); vm_compute; exact I. }
  apply NoDup_cons. split; [intros [?|?%live_keys]%elem_of_cons; [discriminate|done]|].
  apply NoDup_cons. split; [by intros ?%live_keys|by apply live_NoDup].
Qed.

Lemma exec_body t : tier_ok t = true →
  caps <$> exec_all BILLING_VAR_REGEX (buildTierBodyExpr t) = term_caps <$> body_terms t.
Proof.
  intros Ht. pose proof (body_terms_ok t Ht) as Hok. apply Forall_cons in Hok as [[Hv Hx] Hok].
  set (l := ($"c", output_unit_cost t) :: live (priced t)) in *.
  assert (buildTierBodyExpr t = one_term ($"p", input_unit_cost t) ++ more_terms l) as ->.
  { rewrite body_text, terms_more by done. subst l. unfold more_terms, one_term. cbn [fmap list_fmap concat fst snd].
    rewrite <- !app_assoc. reflexivity. }
  unfold exec_all. cbn [exec_all_from].
  destruct (var_step $"p" (input_unit_cost t) [] (more_terms l) Hv Hx eq_refl) as [b' ->]; [done|].
  cbn [before rest fmap list_fmap caps]. change (term_caps <$> body_terms t) with
    (term_caps ($"p", input_unit_cost t) :: (term_caps <$> l)). unfold term_caps at 1. f_equal.
  apply exec_more_terms; [done|]. rewrite length_app. assert (length l ≤ length (more_terms l))%nat.
  { clear. unfold more_terms. induction l as [|vx l IH]; cbn [fmap list_fmap concat length]; [lia|].
    rewrite !length_app. change (length $" + ") with 3%nat. lia. }
  unfold one_term. rewrite length_app. cbn [fst]. change (length $"p") with 1%nat. lia.
Qed.

(** The first coefficient of each variable, when no variable comes twice. *)
Lemma first_coeffs_terms ms l acc k :
  caps <$> ms = term_caps <$> l → Forall term_ok l → NoDup l.*1 → (∀ v, v ∈ l.*1 → om_get v acc = None) →
  om_get k (fold_left (λ coeffs m,
    let v := default [] (capture m 1) in
    match om_get v coeffs with
    | Some _ => coeffs
    | None => om_set v (number_of_string (default [] (capture m 2))) coeffs
    end) ms acc) = match om_get k acc with Some x => Some x | None => om_get k l end.
Proof.
  intros E Hok. revert ms acc E. induction Hok as [|[v x] l [_ Hx] Hok IH]; intros ms acc E Hnd Hacc.
  - destruct ms; [|done]. cbn. by destruct (om_get k acc).
  - destruct ms as [|m ms]; [done|]. cbn [fmap list_fmap fst] in *. injection E as Em E.
    apply NoDup_cons in Hnd as [Hv Hnd]. cbn [fold_left].
    assert (capture m 1 = Some v ∧ capture m 2 = Some (number_text x)) as [-> ->] by (unfold capture; by rewrite Em).
    cbn [default from_option]. unfold id. rewrite (Hacc v) by by left.
    cbn [snd] in Hx. destruct (price_text x Hx) as (_ & _ & ->).
    rewrite (IH ms); [|done|done|].
    + cbn [om_get]. destruct (decide (k = v)) as [->|Hne].
      * by rewrite om_get_set_eq, Hacc by by left.
      * by rewrite om_get_set_ne by done.
    + intros w Hw. rewrite om_get_set_ne by (by intros ->). apply Hacc. by right.
Qed.

Lemma live_price l k : NoDup l.*1 → num_or_zero (om_get k (live l)) = num_or_zero (om_get k l).
Proof.
  induction l as [|[v x] l IH]; [done|]. cbn [fmap list_fmap fst]. intros [Hv Hl]%NoDup_cons.
  unfold live. cbn [List.filter snd om_get]. fold (live l).
  destruct (num_truthy x) eqn:Ex; cbn [om_get]; destruct (decide (k = v)) as [->|]; try (by auto).
  cbn [num_or_zero]. rewrite Ex. replace (om_get v (live l)) with (@None number); [done|].
  symmetry. apply om_get_None. by intros H%live_keys.
Qed.

(** What the page shows of a tier: the two base prices and, per further
    variable, the price in the editor's field, zero where there is none. *)
Definition page_prices (t : VisualTier) : list (jsstr * number) :=
  ($"inputPrice", input_unit_cost t) :: ($"outputPrice", output_unit_cost t) ::
  ((λ v, (default [] (bv_field v), num_or_zero (om_get (default [] (tierField v)) (prices t)))) <$> BILLING_EXTRA_VARS).

Lemma num_or_zero_twice o : num_or_zero (Some (num_or_zero o)) = num_or_zero o.
Proof. destruct o as [x|]; [|done]. cbn. destruct (num_truthy x) eqn:E; [by rewrite E|done]. Qed.

Lemma body_prices t : tier_ok t = true → parseTierBody (buildTierBodyExpr t) = page_prices t.
Proof.
  intros Ht. unfold parseTierBody, first_coeffs.
  assert (∀ k, om_get k (first_coeffs (exec_all BILLING_VAR_REGEX (buildTierBodyExpr t))) = om_get k (body_terms t)) as Hc.
  { intros k. apply (first_coeffs_terms _ (body_terms t) []); [by apply exec_body|by apply body_terms_ok|apply body_terms_NoDup|done]. }
  unfold first_coeffs in Hc. cbn zeta.
  pose proof (proj2 vars_words) as Hnd. rewrite <- (priced_vars t) in Hnd.
  assert (∀ k, k ≠ $"p" → k ≠ $"c" → num_or_zero (om_get k (body_terms t)) = num_or_zero (om_get k (priced t))) as Hx.
  { intros k Hp Hk. unfold body_terms. cbn [om_get]. rewrite !decide_False by done. by apply live_price. }
  unfold tier_ok in Ht. rewrite !andb_true_iff in Ht. destruct Ht as [[[[_ Hi] Ho] _] _].
  assert (BILLING_VAR_KEY_TO_FIELD = ($"p", $"inputPrice") :: ($"c", $"outputPrice") ::
    ((λ v, (key v, default [] (bv_field v))) <$> BILLING_EXTRA_VARS)) as -> by reflexivity.
  unfold page_prices. rewrite !fmap_cons. cbn [fst snd]. rewrite !Hc. f_equal; [|f_equal].
  - exact (f_equal (pair _) (num_or_zero_some _ Hi)).
  - exact (f_equal (pair _) (num_or_zero_some _ Ho)).
  - rewrite <- list_fmap_compose. apply list_fmap_ext. intros i v Hv%list_elem_of_lookup_2. cbn [compose fst snd].
    rewrite Hc. f_equal.
    assert (Forall (λ v, key v ≠ $"p" ∧ key v ≠ $"c") BILLING_EXTRA_VARS) as Hk.
    { apply (bool_decide_unpack _). vm_compute. exact I. }
    rewrite Forall_forall in Hk. destruct (Hk v Hv) as [Hp Hk']. rewrite Hx by done.
    assert (om_get (key v) (priced t) = Some (num_or_zero (om_get (default [] (tierField v)) (prices t)))) as ->;
      [|apply num_or_zero_twice].
    apply elem_om_get; [exact Hnd|]. unfold priced, BILLING_CACHE_VAR_MAP. rewrite <- list_fmap_compose.
    apply list_elem_of_fmap. by exists v.
Qed.

(** ** The tiers *)

Lemma page_fails_at c s : c = 32 ∨ c = 58 → fails parse_tier_pattern (c :: s) [].
Proof. intros [-> | ->] A b k; reflexivity. Qed.

Definition read_tier (m : mstate) : ParsedTier :=
  {| pt_label := default [] (capture m 2);
     pt_conditions := parse_tier_conditions (default [] (capture m 1));
     pt_prices := parseTierBody (default [] (capture m 3)) |}.

Definition page_tier (t : VisualTier) : ParsedTier :=
  {| pt_label := label t; pt_conditions := parse_tier_conditions (buildConditionStr (vt_conditions t));
     pt_prices := page_prices t |}.

Lemma page_segment t s : full_tier_ok t = true →
  ∃ cs, runs parse_tier_pattern (segment t ++ s) [] s cs ∧ ∀ b s', read_tier (MState b s' cs) = page_tier t.
Proof.
  intros Ht. destruct (page_segment_runs t s Ht) as (cs & Hr & Hc). eexists. split; [exact Hr|]. intros b s'.
  unfold full_tier_ok in Ht. apply andb_true_iff in Ht as [Ht _].
  unfold read_tier, page_tier, capture, page_caps. cbn [caps].
  assert (∀ n x l, n ≠ 2%nat → n ≠ 3%nat → cap_lookup ((3%nat, x) :: (2%nat, l) :: cs) n = cap_lookup cs n) as Hn.
  { intros n x l H2 H3. unfold cap_lookup. cbn [List.find fst].
    by rewrite (proj2 (Nat.eqb_neq 3 n)), (proj2 (Nat.eqb_neq 2 n)) by congruence. }
  rewrite (Hn 1%nat), Hc by done. f_equal; [|by apply body_prices].
  by destruct (buildConditionStr (vt_conditions t)).
Qed.

Lemma strip_other c s : c ≠ 118 → (stripExprVersion (c :: s)).2 = c :: s.
Proof.
  intros Hc. unfold stripExprVersion. cbn [truthy negb]. replace (match_whole _ (c :: s)) with (@None mstate); [done|].
  symmetry. unfold match_whole, start_state. rewrite rmatch_seq. cbn [rseq fold_right].
  rewrite rmatch_seq, rmatch_lit_fail; [done|]. cbn [rest]. change ($"v") with [118]. cbn [starts_with].
  by rewrite (proj2 (Z.eqb_neq 118 c)) by congruence.
Qed.

Lemma page_tiers c : config_ok c = true →
  parseTiersFromExpr (generateExprFromVisualConfig (Some c)) = page_tier <$> tiers c.
Proof.
  intros Hc. pose proof (generated_text c Hc) as Hg. unfold config_ok in Hc. apply andb_true_iff in Hc as [Hok Hshape].
  set (g := generateExprFromVisualConfig (Some c)) in *.
  set (tail := match tiers c with [t] => _ | _ => _ end) in Hg.
  assert (∀ b, search parse_tier_pattern b tail = None) as Htail.
  { intros b. subst tail. destruct (tiers c) as [|t [|]]; try reflexivity.
    destruct (truthy _); [|reflexivity]. vm_compute. reflexivity. }
  assert (∃ d r, g = d :: r ∧ d ≠ 118) as (d & r & Ed & Hd).
  { rewrite Hg. destruct (tiers c) as [|t ts]; [done|]. cbn [forallb] in Hok. apply andb_true_iff in Hok as [Ht _].
    cbn [fmap list_fmap]. rewrite join_concat, <- app_assoc.
    destruct (segment_head t (concat ((λ w, $" : " ++ w) <$> (segment <$> ts)) ++ tail) Ht) as [(_ & r & Hr)|(_ & d & r & Hr & Hv & _)];
      eexists _, r; (split; [exact Hr|done]). }
  unfold parseTiersFromExpr. rewrite Ed, strip_other, <- Ed by done. rewrite Ed at 1. cbn [truthy negb].
  unfold exec_all. change (read_tier <$> exec_all_from parse_tier_pattern [] g (S (length g)) = page_tier <$> tiers c).
  rewrite Hg. apply exec_segments_with; [apply page_segment|auto using page_fails_at..|done|done| |by destruct (tiers c)].
  rewrite length_app. pose proof (segments_length (tiers c) Hok). lia.
Qed.

(** A tier of the page shows a tier of the editor. *)
Definition shown_as (t : VisualTier) (pt : ParsedTier) : Prop :=
  pt_label pt = label t ∧ input_of_condition <$> pt_conditions pt = vt_conditions t ∧ pt_prices pt = page_prices t.

Lemma page_tier_shown t : full_tier_ok t = true → shown_as t (page_tier t).
Proof. unfold full_tier_ok. intros [_ Hc]%andb_true_iff. split_and!; [done| |done]. by apply conditions_parse. Qed.

(** C8: the pricing page shows the prices the administrator set.  For a model
    billed by the expression the price editor wrote for a configuration the
    editor can read back itself (with matching parentheses in its labels),
    combined with request rules that survive their text ([faithful_group]: no comparison of, or search in, a request parameter),
    the page's own parser finds one tier per tier that was written, in order, with
    its label, its conditions (the last of several tiers is the fallback and has
    none) and the price of every variable (zero where none is set), and reports
    that there are rules; the same tiers come out of the expression alone. *)
Theorem page_shows_editor_prices (c : VisualConfig) (groups : list RequestRuleGroup) (m : PricingModel) :
  let expr := generateExprFromVisualConfig (Some c) in
  config_ok (written_config c) = true → price_expr expr = true → forallb faithful_group groups = true → groups ≠ [] →
  billing_mode m = Some $"tiered_expr" → billing_expr m = Some (combineBillingExpr expr (buildRequestRuleExpr groups)) →
  hasDynamicRequestRules m = Normal true ∧
  ∃ pts, getDynamicPricingTiers m = Normal pts ∧ parseTiersFromExpr expr = pts ∧ Forall2 shown_as (tiers (written_config c)) pts.
Proof.
  intros expr Hc Hp Hg Hne Hmode Hexpr.
  assert (isDynamicPricingModel m = true) as Hd.
  { unfold isDynamicPricingModel. rewrite Hmode, Hexpr, bool_decide_eq_true_2 by done. by apply combined_present. }
  unfold hasDynamicRequestRules, getDynamicPricingTiers. rewrite Hd, Hexpr. cbn [negb default from_option]. unfold id.
  rewrite split_combined by done. cbn [bind_completion billingExpr requestRuleExpr]. rewrite rules_parse by done.
  cbn [bind_completion]. split; [by destruct groups|]. eexists. split; [done|]. split; [done|].
  subst expr. rewrite <- generate_written, page_tiers by done. apply Forall2_fmap_r, Forall_Forall2_diag, Forall_forall. intros t Ht.
  apply page_tier_shown. unfold config_ok in Hc. apply andb_true_iff in Hc as [Hok _].
  rewrite forallb_forall in Hok. apply Hok. by apply list_elem_of_In.
Qed.

Definition sample_tiered_model : PricingModel :=
  {| model_name := $"gemini"; description := None; vendor_id := None; vendor_name := None; quota_type := 0;
     model_ratio := S754_zero false; completion_ratio := S754_zero false; model_price := None; cache_ratio := None;
     create_cache_ratio := None; image_ratio := None; audio_ratio := None; audio_completion_ratio := None;
     enable_groups := None; tags := None; supported_endpoint_types := None; group_ratio := None;
     billing_mode := Some $"tiered_expr";
     billing_expr := Some (combineBillingExpr (generateExprFromVisualConfig (Some sample_config))
                             (buildRequestRuleExpr sample_groups)) |}.

Lemma page_shows_editor_prices_witness :
  hasDynamicRequestRules sample_tiered_model = Normal true ∧
  ∃ pts, getDynamicPricingTiers sample_tiered_model = Normal pts ∧
    parseTiersFromExpr (generateExprFromVisualConfig (Some sample_config)) = pts ∧
    Forall2 shown_as (tiers (written_config sample_config)) pts.
Proof.
  apply (page_shows_editor_prices sample_config sample_groups sample_tiered_model);
    [vm_compute; reflexivity..|discriminate|reflexivity|reflexivity].
Defined.
