(* ===== verification/ChannelForm.v ===== *)
(** * The form of a channel

    [src/web/src/features/channels/lib/channel-form.ts]: the channel drawer shows
    a channel of the backend as a form ([transformChannelToFormDefaults]), the
    schema checks the form, and submitting writes it back as a payload for
    creating or updating the channel.  Two JSON texts carry most of the settings:
    [setting], which is rebuilt from the form ([buildSettingJSON]), and
    [settings], which is edited in place ([buildSettingsJSON]).
    [hooks/use-channel-mutate-form.ts] sends the payload, less the sensitive
    fields when the user may not write them.

    Channels, forms and payloads are objects here, as in the code: JSON puts
    values of any type into them.  The methods of strings are applied to values
    the schema has found to be strings or undefined. *)

From S2P Require Import Prelude JsString JsText JsNumber NumberText Regex JsValue Json JsMath OrderedMap JsObject.
From S2P Require Import AuthStore AdvancedCustom AdvancedCustomText Redirects.

Local Open Scope Z_scope.
Local Open Scope js_scope.

(** ** The language *)

(** [a || b] and [a ?? b] on values *)
Definition val_or (a b : value) : value := if to_boolean a then a else b.
Definition nullish (a b : value) : value := match a with VUndefined | VNull => b | _ => a end.

(** [v?.trim()] of a string or undefined, as a string. *)
Definition trimmed (v : value) : jsstr := trim (str_of v).

(** [v === n] *)
Definition eq_num (v : value) (n : Z) : bool :=
  match v with VNum x => num_eqb x (num_of_Z n) | _ => false end.

(** The text of an optional string. *)
Definition opt_str (v : value) : option jsstr := match v with VStr s => Some s | _ => None end.

(** ** Constants ([constants.ts]) *)

Definition CHANNEL_TYPE_NEW_API : Z := 60.
Definition CHANNEL_TYPE_ADVANCED_CUSTOM : Z := 58.
Definition CHANNEL_STATUS_ENABLED : Z := 1.

Definition MODEL_FETCHABLE_TYPES : list Z :=
  [1; 4; 14; 17; 20; 23; 24; 25; 26; 27; 31; 34; 35; 40; 42; 43; 47; 48; 57; 58; 59; 60].
Definition FIELD_PASSTHROUGH_TYPES : list Z := [1; 14; 57; 58; 59; CHANNEL_TYPE_NEW_API].
Definition OPENAI_FIELD_PASSTHROUGH_TYPES : list Z := [1; 57; 58; 59; CHANNEL_TYPE_NEW_API].
Definition CLAUDE_FIELD_PASSTHROUGH_TYPES : list Z := [14; 58; 59; CHANNEL_TYPE_NEW_API].

Definition HTTP_PROTOCOL_AUTO : jsstr := $"auto".
Definition HTTP_PROTOCOL_HTTP1 : jsstr := $"http1".
Definition MAX_HTTP2_CONNECTION_SHARDS : Z := 8.

(** [formData.type === n] and [SET.has(formData.type)] *)
Definition type_is (form : object) (n : Z) : bool := eq_num (fld form $"type") n.
Definition type_in (types : list Z) (form : object) : bool := existsb (type_is form) types.

(** ** Lists in one text *)

(** The parts of a comma-separated text, trimmed, without empty ones. *)
Definition comma_parts (s : jsstr) : list jsstr := List.filter truthy (trim <$> split 44 s).

Definition parseModels (models : jsstr) : list jsstr := if truthy models then comma_parts models else [].
Definition parseGroups (groups : jsstr) : list jsstr := if truthy groups then comma_parts groups else [].
Definition formatModels (models : list jsstr) : jsstr := join [44] models.
Definition formatGroups (groups : list jsstr) : jsstr := join [44] groups.

(** ** Normalisation *)

Section Normal.
Context {TE : TextEnv}.

Definition normalizeHttpProtocol (v : value) : jsstr :=
  let normalized := toLowerCase (trim (value_text (val_or v (VStr [])))) in
  if bool_decide (normalized = HTTP_PROTOCOL_HTTP1) then HTTP_PROTOCOL_HTTP1 else HTTP_PROTOCOL_AUTO.

Definition is_nullish (v : value) : bool := match v with VUndefined | VNull => true | _ => false end.

Definition normalizeHttp2ConnectionShards (v : value) : value :=
  if is_nullish v || match v with VNum x => num_eqb x (S754_zero false) || match x with S754_nan => true | _ => false end
                     | _ => false end
  then VNum (num_of_Z 1)
  else if num_ltb (to_number v) (num_of_Z 1) then VNum (num_of_Z 1)
  else if num_ltb (num_of_Z MAX_HTTP2_CONNECTION_SHARDS) (to_number v) then VNum (num_of_Z MAX_HTTP2_CONNECTION_SHARDS)
  else v.

(** [/\/+$/] *)
Definition trailing_slashes : Regex.regex := rseq [RPlus (RSet (Z.eqb 47)); REnd].

Definition normalizeBaseUrl (v : value) : jsstr :=
  replace_first trailing_slashes (λ _, []) (trim (value_text (val_or v (VStr [])))).

(** ** The [setting] text *)

Definition DEFAULT_EXTRA_SETTINGS : object :=
  [($"force_format", VBool false); ($"thinking_to_content", VBool false); ($"proxy", VStr []);
   ($"http_protocol", VStr HTTP_PROTOCOL_AUTO); ($"http2_connection_shards", VNum (num_of_Z 1));
   ($"pass_through_body_enabled", VBool false); ($"system_prompt", VStr []); ($"system_prompt_override", VBool false)].

(** A read of a property of [null] throws, which leaves the defaults. *)
Definition extraSettings (setting : value) : object :=
  if negb (to_boolean setting) then DEFAULT_EXTRA_SETTINGS
  else match json_parse (str_of setting) with
  | None | Some VNull => DEFAULT_EXTRA_SETTINGS
  | Some parsed =>
    let protocol := normalizeHttpProtocol (get parsed $"http_protocol") in
    let shards := normalizeHttp2ConnectionShards (get parsed $"http2_connection_shards") in
    [($"force_format", val_or (get parsed $"force_format") (VBool false));
     ($"thinking_to_content", val_or (get parsed $"thinking_to_content") (VBool false));
     ($"proxy", val_or (get parsed $"proxy") (VStr []));
     ($"http_protocol", VStr protocol);
     ($"http2_connection_shards", if bool_decide (protocol = HTTP_PROTOCOL_HTTP1) then VNum (num_of_Z 1) else shards);
     ($"pass_through_body_enabled", val_or (get parsed $"pass_through_body_enabled") (VBool false));
     ($"system_prompt", val_or (get parsed $"system_prompt") (VStr []));
     ($"system_prompt_override", val_or (get parsed $"system_prompt_override") (VBool false))]
  end.

(** The object written; defaults of the connection are left out. *)
Definition setting_object (form : object) : object :=
  let base :=
    [($"force_format", val_or (fld form $"force_format") (VBool false));
     ($"thinking_to_content", val_or (fld form $"thinking_to_content") (VBool false));
     ($"proxy", VStr (trimmed (fld form $"proxy")));
     ($"pass_through_body_enabled", val_or (fld form $"pass_through_body_enabled") (VBool false));
     ($"system_prompt", val_or (fld form $"system_prompt") (VStr []));
     ($"system_prompt_override", val_or (fld form $"system_prompt_override") (VBool false))] in
  let protocol := normalizeHttpProtocol (fld form $"http_protocol") in
  let shards :=
    if bool_decide (protocol = HTTP_PROTOCOL_HTTP1) then VNum (num_of_Z 1)
    else normalizeHttp2ConnectionShards (fld form $"http2_connection_shards") in
  if bool_decide (protocol = HTTP_PROTOCOL_HTTP1)
  then obj_assign base ($"http_protocol", VStr HTTP_PROTOCOL_HTTP1)
  else if num_ltb (num_of_Z 1) (to_number shards) then obj_assign base ($"http2_connection_shards", shards)
  else base.

Definition buildSettingJSON (form : object) : jsstr := default [] (json_stringify [] (VObj (setting_object form))).
End Normal.

(** ** The [settings] text *)

(** [if (b) o[k] = v else delete o[k]] *)
Definition set_if (b : bool) (k : jsstr) (v : value) (o : object) : object :=
  if b then obj_assign o (k, v) else obj_delete k o.

(** [b === true] *)
Definition flag (form : object) (k : jsstr) : value := VBool (is_true (fld form k)).

(** The settings that belong to one kind of channel: set for it, deleted for
    others. *)
Definition type_settings (form : object) (o : object) : object :=
  let o := set_if (type_is form 41) $"vertex_key_type" (val_or (fld form $"vertex_key_type") (VStr $"json")) o in
  let o := set_if (type_is form 3 && to_boolean (fld form $"azure_responses_version"))
             $"azure_responses_version" (fld form $"azure_responses_version") o in
  let o := set_if (type_is form 20) $"openrouter_enterprise" (flag form $"is_enterprise_account") o in
  let o := set_if (type_is form 33) $"aws_key_type" (val_or (fld form $"aws_key_type") (VStr $"ak_sk")) o in
  o.

Definition passthrough_settings (form : object) (o : object) : object :=
  let openai := type_in OPENAI_FIELD_PASSTHROUGH_TYPES form in
  let claude := type_in CLAUDE_FIELD_PASSTHROUGH_TYPES form in
  let o := set_if (type_in FIELD_PASSTHROUGH_TYPES form) $"allow_service_tier" (flag form $"allow_service_tier") o in
  let o := set_if openai $"disable_store" (flag form $"disable_store") o in
  let o := set_if openai $"allow_safety_identifier" (flag form $"allow_safety_identifier") o in
  let o := set_if openai $"allow_include_obfuscation" (flag form $"allow_include_obfuscation") o in
  let o := set_if (openai || claude) $"allow_inference_geo" (flag form $"allow_inference_geo") o in
  let o := set_if claude $"allow_speed" (flag form $"allow_speed") o in
  let o := set_if (type_is form 14) $"claude_beta_query" (flag form $"claude_beta_query") o in
  o.

Definition or_undefined (v : value) : value := if to_boolean v then v else VUndefined.

Definition task_settings (form : object) (o : object) : object :=
  let submit := fld form $"task_submit_path" in
  let fetch := fld form $"task_fetch_path" in
  let o := obj_assign o ($"disable_task_polling_sleep", flag form $"disable_task_polling_sleep") in
  let o := set_if (to_boolean (fld form $"video_protocol")) $"video_protocol" (fld form $"video_protocol") o in
  let o := set_if (to_boolean submit || to_boolean fetch) $"task_endpoint_override"
             (VObj [($"submit_path", or_undefined submit); ($"fetch_path", or_undefined fetch)]) o in
  o.

(** The models not to report, without duplicates. *)
Definition ignored_models (form : object) : list jsstr :=
  os_of_list (comma_parts (value_text (val_or (fld form $"upstream_model_update_ignored_models") (VStr [])))).

Definition upstream_settings (form : object) (o : object) : object :=
  if type_in MODEL_FETCHABLE_TYPES form then
    let check := is_true (fld form $"upstream_model_update_check_enabled") in
    let o := obj_assign o ($"upstream_model_update_check_enabled", VBool check) in
    let o := obj_assign o ($"upstream_model_update_auto_sync_enabled",
                           VBool (check && is_true (fld form $"upstream_model_update_auto_sync_enabled"))) in
    let o := obj_assign o ($"upstream_model_update_ignored_models", VArr (VStr <$> ignored_models form)) in
    let o :=
      if negb (is_array (fld o $"upstream_model_update_last_detected_models"))
         || negb (is_true (fld o $"upstream_model_update_check_enabled"))
      then obj_assign o ($"upstream_model_update_last_detected_models", VArr []) else o in
    let o :=
      if negb (is_number (fld o $"upstream_model_update_last_check_time"))
      then obj_assign o ($"upstream_model_update_last_check_time", VNum (num_of_Z 0)) else o in
    o
  else o.

(** A configuration of undeclared types is outside the model ([None]); without
    a configuration the stored one stays. *)
Definition advanced_settings (form : object) (o : object) : option object :=
  if type_is form CHANNEL_TYPE_ADVANCED_CUSTOM then
    match parseAdvancedCustomConfig (opt_str (fld form $"advanced_custom")) with
    | NoConfig => Some o
    | Parsed config => Some (obj_assign o ($"advanced_custom", config_value config))
    | Untyped => None
    end
  else Some (obj_delete $"advanced_custom" o).

(** [{...v}] *)
Definition spread (v : value) : object :=
  match v with
  | VObj o => o
  | VArr l => imap (λ i x, (string_of_Z (Z.of_nat i), x)) l
  | _ => []
  end.

Definition reliability_object (form : object) (old : value) : object :=
  let r := spread old in
  let r := obj_assign r ($"max_attempts", fld form $"channel_max_attempts") in
  let r := obj_assign r ($"auto_ban_threshold", fld form $"auto_ban_threshold") in
  let r := obj_assign r ($"auto_ban_duration_seconds",
                         VNum (num_mul (to_number (fld form $"auto_ban_duration_minutes")) (num_of_Z 60))) in
  let r := obj_assign r ($"streaming_idle_timeout_seconds", fld form $"streaming_idle_timeout_seconds") in
  let r := obj_assign r ($"non_streaming_timeout_seconds", fld form $"non_streaming_timeout_seconds") in
  r.

Definition reliability_settings (form : object) (o : object) : object :=
  obj_assign o ($"reliability", VObj (reliability_object form (fld o $"reliability"))).

(** The stored settings; [None] for a text that is JSON but no object, which the
    schema refuses. *)
Definition existing_settings (settings : value) : option object :=
  let s := str_of settings in
  if truthy s && negb (bool_decide (s = $"{}")) then
    match json_parse s with
    | None => Some []
    | Some (VObj o) => Some o
    | Some _ => None
    end
  else Some [].

Definition edited_settings (form : object) (o : object) : option object :=
  o ← advanced_settings form (upstream_settings form (task_settings form
        (passthrough_settings form (type_settings form o))));
  Some (reliability_settings form o).

Definition buildSettingsJSON (form : object) : option jsstr :=
  o ← existing_settings (fld form $"settings");
  o' ← edited_settings form o;
  json_stringify [] (VObj o').

(** ** The defaults of a new channel *)

Definition CHANNEL_FORM_DEFAULT_VALUES : object :=
  [($"name", VStr []); ($"type", VNum (num_of_Z 1)); ($"base_url", VStr []); ($"key", VStr []);
   ($"openai_organization", VStr []); ($"models", VStr []); ($"group", VArr [VStr $"default"]);
   ($"model_mapping", VStr []); ($"priority", VNum (num_of_Z 0)); ($"weight", VNum (num_of_Z 0));
   ($"cost_ratio", VNum (num_of_Z 1)); ($"test_model", VStr []); ($"auto_ban", VNum (num_of_Z 1));
   ($"status", VNum (num_of_Z CHANNEL_STATUS_ENABLED)); ($"status_code_mapping", VStr []); ($"tag", VStr []);
   ($"remark", VStr []); ($"setting", VStr []); ($"param_override", VStr []); ($"header_override", VStr []);
   ($"settings", VStr $"{}"); ($"other", VStr []); ($"other_info", VStr $"{}"); ($"video_protocol", VStr []);
   ($"task_submit_path", VStr []); ($"task_fetch_path", VStr []); ($"multi_key_mode", VStr $"single");
   ($"multi_key_type", VStr $"random"); ($"batch_add_set_key_prefix_2_name", VBool false);
   ($"key_mode", VStr $"append"); ($"force_format", VBool false); ($"thinking_to_content", VBool false);
   ($"proxy", VStr []); ($"http_protocol", VStr HTTP_PROTOCOL_AUTO); ($"http2_connection_shards", VNum (num_of_Z 1));
   ($"pass_through_body_enabled", VBool false); ($"system_prompt", VStr []);
   ($"system_prompt_override", VBool false); ($"is_enterprise_account", VBool false);
   ($"vertex_key_type", VStr $"json"); ($"aws_key_type", VStr $"ak_sk"); ($"azure_responses_version", VStr []);
   ($"allow_service_tier", VBool false); ($"disable_store", VBool false); ($"allow_safety_identifier", VBool false);
   ($"allow_include_obfuscation", VBool false); ($"allow_inference_geo", VBool false); ($"allow_speed", VBool false);
   ($"claude_beta_query", VBool false); ($"disable_task_polling_sleep", VBool false);
   ($"upstream_model_update_check_enabled", VBool false); ($"upstream_model_update_auto_sync_enabled", VBool false);
   ($"upstream_model_update_ignored_models", VStr []); ($"channel_max_attempts", VNum (num_of_Z 2));
   ($"auto_ban_threshold", VNum (num_of_Z 5)); ($"auto_ban_duration_minutes", VNum (num_of_Z 30));
   ($"streaming_idle_timeout_seconds", VNum (num_of_Z 0)); ($"non_streaming_timeout_seconds", VNum (num_of_Z 0));
   ($"advanced_custom", VStr [])].

(** ** From the channel to the form *)

Definition or_empty (channel : object) (k : jsstr) : value := val_or (fld channel k) (VStr []).

(** The minutes a channel stays disabled. *)
Definition ban_minutes (reliability : value) : number :=
  num_max (num_of_Z 1)
    (num_round (num_div (to_number (nullish (get reliability $"auto_ban_duration_seconds")
                                     (nullish (get reliability $"open_duration_seconds") (VNum (num_of_Z 1800)))))
                        (num_of_Z 60))).

Definition reliability_fields (reliability : value) : object :=
  if to_boolean reliability && is_object reliability then
    [($"channel_max_attempts", nullish (get reliability $"max_attempts") (VNum (num_of_Z 2)));
     ($"auto_ban_threshold", nullish (get reliability $"auto_ban_threshold")
                               (nullish (get reliability $"failure_threshold") (VNum (num_of_Z 5))));
     ($"auto_ban_duration_minutes", VNum (ban_minutes reliability));
     ($"streaming_idle_timeout_seconds", nullish (get reliability $"streaming_idle_timeout_seconds") (VNum (num_of_Z 0)));
     ($"non_streaming_timeout_seconds", nullish (get reliability $"non_streaming_timeout_seconds") (VNum (num_of_Z 0)))]
  else
    [($"channel_max_attempts", VNum (num_of_Z 2)); ($"auto_ban_threshold", VNum (num_of_Z 5));
     ($"auto_ban_duration_minutes", VNum (num_of_Z 30)); ($"streaming_idle_timeout_seconds", VNum (num_of_Z 0));
     ($"non_streaming_timeout_seconds", VNum (num_of_Z 0))].

(** What the settings text says; a parsed [undefined] stands for no settings, in
    which every property is missing. *)
Definition parsed_settings (settings : value) : value :=
  if negb (to_boolean settings) then VUndefined
  else match json_parse (str_of settings) with
  | None | Some VNull => VUndefined
  | Some parsed => parsed
  end.

Definition is_flag (parsed : value) (k : jsstr) : value := VBool (is_true (get parsed k)).

(** The fields read from the settings; [None] for a stored advanced
    configuration of undeclared types. *)
Definition settings_fields (settings : value) : option object :=
  let parsed := parsed_settings settings in
  let override := get parsed $"task_endpoint_override" in
  let video := get parsed $"video_protocol" in
  advanced ← (if to_boolean (get parsed $"advanced_custom")
              then stringifyAdvancedCustomConfig <$> read_config (get parsed $"advanced_custom") else Some []);
  Some ([($"vertex_key_type", val_or (get parsed $"vertex_key_type") (VStr $"json"));
         ($"azure_responses_version", val_or (get parsed $"azure_responses_version") (VStr []));
         ($"is_enterprise_account", is_flag parsed $"openrouter_enterprise");
         ($"aws_key_type", val_or (get parsed $"aws_key_type") (VStr $"ak_sk"));
         ($"allow_service_tier", is_flag parsed $"allow_service_tier");
         ($"disable_store", is_flag parsed $"disable_store");
         ($"allow_safety_identifier", is_flag parsed $"allow_safety_identifier");
         ($"allow_include_obfuscation", is_flag parsed $"allow_include_obfuscation");
         ($"allow_inference_geo", is_flag parsed $"allow_inference_geo");
         ($"allow_speed", is_flag parsed $"allow_speed");
         ($"claude_beta_query", is_flag parsed $"claude_beta_query");
         ($"disable_task_polling_sleep", is_flag parsed $"disable_task_polling_sleep");
         ($"video_protocol", if eq_str video $"wan-rolldek-v1" || eq_str video $"rolldek-kling4" then video else VStr []);
         ($"task_submit_path", val_or (get override $"submit_path") (VStr []));
         ($"task_fetch_path", val_or (get override $"fetch_path") (VStr []));
         ($"upstream_model_update_check_enabled", is_flag parsed $"upstream_model_update_check_enabled");
         ($"upstream_model_update_auto_sync_enabled", is_flag parsed $"upstream_model_update_auto_sync_enabled");
         ($"upstream_model_update_ignored_models",
            VStr (match get parsed $"upstream_model_update_ignored_models" with VArr l => value_text (VArr l) | _ => [] end));
         ($"advanced_custom", VStr advanced)]
        ++ reliability_fields (get parsed $"reliability")).

Section Form.
Context {TE : TextEnv}.

(** Channels have the declared types; [None] as in [settings_fields].  The fields
    are listed by where they come from; forms are only read by name. *)
Definition transformChannelToFormDefaults (channel : object) : option object :=
  s ← settings_fields (fld channel $"settings");
  Some ([($"name", or_empty channel $"name"); ($"type", fld channel $"type"); ($"base_url", or_empty channel $"base_url");
         ($"key", VStr []); ($"openai_organization", or_empty channel $"openai_organization");
         ($"models", or_empty channel $"models");
         ($"group", VArr (VStr <$> parseGroups (str_of (val_or (fld channel $"group") (VStr $"default")))));
         ($"model_mapping", VStr (normalizeModelRedirectJson (opt_str (fld channel $"model_mapping"))));
         ($"priority", val_or (fld channel $"priority") (VNum (num_of_Z 0)));
         ($"weight", val_or (fld channel $"weight") (VNum (num_of_Z 0)));
         ($"cost_ratio", nullish (fld channel $"cost_ratio") (VNum (num_of_Z 1)));
         ($"test_model", or_empty channel $"test_model");
         ($"auto_ban", nullish (fld channel $"auto_ban") (VNum (num_of_Z 1)));
         ($"status", fld channel $"status");
         ($"status_code_mapping", or_empty channel $"status_code_mapping");
         ($"tag", or_empty channel $"tag"); ($"remark", or_empty channel $"remark");
         ($"setting", or_empty channel $"setting"); ($"param_override", or_empty channel $"param_override");
         ($"header_override", or_empty channel $"header_override");
         ($"settings", val_or (fld channel $"settings") (VStr $"{}"));
         ($"other", or_empty channel $"other");
         ($"other_info", val_or (fld channel $"other_info") (VStr $"{}"));
         ($"multi_key_mode", VStr $"single");
         ($"multi_key_type", val_or (get (fld channel $"channel_info") $"multi_key_mode") (VStr $"random"));
         ($"batch_add_set_key_prefix_2_name", VBool false); ($"key_mode", VStr $"append")]
        ++ extraSettings (fld channel $"setting") ++ s).

(** ** From the form to the payload *)

Definition or_null (v : value) : value := if to_boolean v then v else VNull.
Definition str_or_null (s : jsstr) : value := if truthy s then VStr s else VNull.

(** The strings of an array of strings. *)
Definition strings_of (v : value) : list jsstr := match v with VArr l => str_of <$> l | _ => [] end.

(** [Object.keys(o).forEach(...)]: empty strings become null. *)
Definition empty_to_null (o : object) : object := (λ kv, (kv.1, if eq_str kv.2 [] then VNull else kv.2)) <$> o.

Record CreatePayload := {
  cp_mode : jsstr;
  cp_multi_key_mode : value;
  cp_batch_add_set_key_prefix_2_name : value;
  cp_channel : object
}.

Definition transformFormDataToCreatePayload (form : object) : option CreatePayload :=
  settings ← buildSettingsJSON form;
  let mode := str_or (str_of (fld form $"multi_key_mode")) $"single" in
  let channel :=
    [($"name", fld form $"name"); ($"type", fld form $"type");
     ($"base_url", str_or_null (normalizeBaseUrl (fld form $"base_url")));
     ($"key", fld form $"key"); ($"openai_organization", or_null (fld form $"openai_organization"));
     ($"models", fld form $"models"); ($"group", VStr (formatGroups (strings_of (fld form $"group"))));
     ($"model_mapping", str_or_null (normalizeModelRedirectJson (opt_str (fld form $"model_mapping"))));
     ($"priority", or_null (fld form $"priority")); ($"weight", or_null (fld form $"weight"));
     ($"cost_ratio", fld form $"cost_ratio"); ($"test_model", or_null (fld form $"test_model"));
     ($"auto_ban", nullish (fld form $"auto_ban") (VNum (num_of_Z 1))); ($"status", fld form $"status");
     ($"status_code_mapping", or_null (fld form $"status_code_mapping")); ($"tag", or_null (fld form $"tag"));
     ($"remark", or_empty form $"remark"); ($"setting", VStr (buildSettingJSON form));
     ($"param_override", or_null (fld form $"param_override")); ($"header_override", or_null (fld form $"header_override"));
     ($"settings", VStr settings); ($"other", or_empty form $"other");
     ($"other_info", val_or (fld form $"other_info") (VStr $"{}"))] in
  Some {| cp_mode := mode;
          cp_multi_key_mode := if bool_decide (mode = $"multi_to_single") then fld form $"multi_key_type" else VUndefined;
          cp_batch_add_set_key_prefix_2_name :=
            if bool_decide (mode = $"batch") then fld form $"batch_add_set_key_prefix_2_name" else VUndefined;
          cp_channel := empty_to_null channel |}.

Definition has_key (form : object) : bool := truthy (trimmed (fld form $"key")).

Definition transformFormDataToUpdatePayload (form : object) (channelId : Z) : option object :=
  settings ← buildSettingsJSON form;
  let mapping := normalizeModelRedirectJson (opt_str (fld form $"model_mapping")) in
  let payload :=
    [($"id", VNum (num_of_Z channelId)); ($"name", fld form $"name"); ($"type", fld form $"type");
     ($"base_url", str_or_null (normalizeBaseUrl (fld form $"base_url")));
     ($"openai_organization", or_null (fld form $"openai_organization"));
     ($"models", fld form $"models"); ($"group", VStr (formatGroups (strings_of (fld form $"group"))));
     ($"model_mapping", str_or_null mapping);
     ($"priority", nullish (fld form $"priority") (VNum (num_of_Z 0)));
     ($"weight", nullish (fld form $"weight") (VNum (num_of_Z 0)));
     ($"cost_ratio", fld form $"cost_ratio"); ($"test_model", or_null (fld form $"test_model"));
     ($"auto_ban", nullish (fld form $"auto_ban") (VNum (num_of_Z 1)));
     ($"status_code_mapping", or_null (fld form $"status_code_mapping")); ($"tag", or_null (fld form $"tag"));
     ($"remark", or_empty form $"remark"); ($"setting", VStr (buildSettingJSON form));
     ($"param_override", or_null (fld form $"param_override")); ($"header_override", or_null (fld form $"header_override"));
     ($"settings", VStr settings); ($"other", or_empty form $"other");
     ($"other_info", val_or (fld form $"other_info") (VStr $"{}"))] in
  let payload := if has_key form then obj_assign payload ($"key", fld form $"key") else payload in
  let payload := empty_to_null payload in
  Some (fold_left obj_assign
    [($"base_url", VStr (normalizeBaseUrl (fld form $"base_url")));
     ($"openai_organization", or_empty form $"openai_organization"); ($"test_model", or_empty form $"test_model");
     ($"tag", or_empty form $"tag"); ($"remark", or_empty form $"remark"); ($"model_mapping", VStr mapping);
     ($"status_code_mapping", or_empty form $"status_code_mapping"); ($"param_override", or_empty form $"param_override");
     ($"header_override", or_empty form $"header_override")] payload).

(** ** Submitting ([use-channel-mutate-form.ts]) *)

Definition SENSITIVE_UPDATE_FIELDS : list jsstr :=
  [$"type"; $"key"; $"base_url"; $"openai_organization"; $"param_override"; $"header_override"; $"setting";
   $"settings"; $"other"].

(** The fields the backend guards ([controller/channel_authz.go]). *)
Definition channelSensitiveFields : list jsstr :=
  [$"type"; $"key"; $"base_url"; $"openai_organization"; $"header_override"; $"param_override"; $"setting"; $"other";
   $"settings"; $"key_mode"; $"cost_ratio"].

Definition canEditSensitive (currentUser : option AuthUser) : bool :=
  hasPermission currentUser $"channel" $"sensitive_write".

(** What is sent to the backend for an edited channel. *)
Definition update_request (currentUser : option AuthUser) (isMultiKeyChannel : bool) (form : object) (channelId : Z)
  : option object :=
  payload ← transformFormDataToUpdatePayload form channelId;
  let payload := if has_key form then payload else obj_delete $"key" payload in
  let payload :=
    if canEditSensitive currentUser then payload
    else fold_left (λ p field, obj_delete field p) SENSITIVE_UPDATE_FIELDS payload in
  Some (if canEditSensitive currentUser && isMultiKeyChannel && has_key form && to_boolean (fld form $"key_mode")
        then obj_assign payload ($"key_mode", fld form $"key_mode") else payload).
End Form.
