(* ===== verification/ChannelSchema.v ===== *)
(** * The schema of the channel form

    The validation in [src/web/src/features/channels/lib/channel-form.ts] and
    [media-settings.ts].  The schema is written with the zod library: its shape is data here
    ([zschema], one constructor per combinator the code uses), and what zod
    accepts is a parameter ([ZodEnv]) with the documented meaning of the
    combinators as laws.  The refinements are the code's own and are modelled. *)

From S2P Require Import Prelude JsString JsText JsNumber NumberText Regex JsValue Json JsMath OrderedMap JsObject.
From S2P Require Import AdvancedCustom AdvancedCustomText Redirects ChannelForm.

Local Open Scope Z_scope.
Local Open Scope js_scope.

(** ** Zod *)

Inductive zschema :=
| ZString (min max : option Z)
| ZNumber (int : bool) (min max : option number)
| ZBoolean
| ZEnum (l : list jsstr)
| ZArray (elements : zschema) (min : Z)
| ZOptional (s : zschema)
| ZRefine (s : zschema) (p : value → bool).

(** [accepts s v]: [s.safeParse(v).success]. *)
Class ZodEnv := { accepts : zschema → value → bool }.

Definition within (min max : option number) (x : number) : bool :=
  match min with Some m => num_leb m x | None => true end
  && match max with Some m => num_leb x m | None => true end.

Class ZodLaws (E : ZodEnv) : Prop := {
  zod_string min max v : accepts (ZString min max) v = true →
    is_string v = true ∧ from_option (λ m, m <= Z.of_nat (length (str_of v))) True min;
  zod_number int min max v : accepts (ZNumber int min max) v = true →
    is_number v = true ∧ within min max (num_of v) = true ∧ (int = true → is_integer (num_of v) = true);
  zod_boolean v : accepts ZBoolean v = true → is_boolean v = true;
  zod_enum l v : accepts (ZEnum l) v = true → ∃ s, v = VStr s ∧ s ∈ l;
  zod_array s min v : accepts (ZArray s min) v = true →
    ∃ l, v = VArr l ∧ min <= Z.of_nat (length l) ∧ Forall (λ x, accepts s x = true) l;
  zod_optional s v : accepts (ZOptional s) v = true → v = VUndefined ∨ accepts s v = true;
  zod_refine s p v : accepts (ZRefine s p) v = true → accepts s v = true ∧ p v = true }.

(** ** Texts that hold JSON *)

(** [undefined] for a blank text; [None] is the SyntaxError. *)
Definition parseOptionalJson (v : value) : option value :=
  if negb (truthy (trimmed v)) then Some VUndefined else json_parse (str_of v).

Definition isJsonObjectValue (v : value) : bool := match v with VObj _ => true | _ => false end.

Definition is_undefined (v : value) : bool := match v with VUndefined => true | _ => false end.

Definition isOptionalJsonObject (v : value) : bool :=
  match parseOptionalJson v with
  | None => false
  | Some parsed => is_undefined parsed || isJsonObjectValue parsed
  end.

(** [compile_regex] is [new RegExp], as in [Redirects]. *)
Definition isOptionalModelMapping (compile_regex : jsstr → option (jsstr → bool)) (v : value) : bool :=
  match validateModelRedirectRules compile_regex (str_of v) with None => true | Some _ => false end.

Definition status_code (x : number) : bool :=
  is_integer x && num_leb (num_of_Z 100) x && num_leb x (num_of_Z 599).

Definition isOptionalStatusCodeMapping (v : value) : bool :=
  match parseOptionalJson v with
  | None => false
  | Some VUndefined => true
  | Some (VObj entries) => forallb (λ e, status_code (number_of_string e.1) && status_code (to_number e.2)) entries
  | Some _ => false
  end.

Definition nonblank_string (v : value) : bool := is_string v && truthy (trimmed v).

Definition isCodexCredential (v : value) : bool :=
  match parseOptionalJson v with
  | None => false
  | Some VUndefined => true
  | Some parsed =>
    isJsonObjectValue parsed && nonblank_string (get parsed $"access_token")
    && nonblank_string (get parsed $"account_id")
  end.

Definition isVertexJsonKey (v : value) : bool :=
  match parseOptionalJson v with
  | None => false
  | Some VUndefined => true
  | Some (VArr l) => forallb isJsonObjectValue l
  | Some parsed => isJsonObjectValue parsed
  end.

(** [validateJSON] and [validateModelMapping] *)
Definition validateJSON (v : jsstr) : bool :=
  if negb (truthy v) || negb (truthy (trim v)) then true
  else match json_parse v with Some _ => true | None => false end.

Definition validateModelMapping (v : jsstr) : bool :=
  if negb (truthy v) || negb (truthy (trim v)) then true else validateJSON v.

(** ** Proxies *)

(** [new URL(s)]: protocol, host name and port; [None] when it throws. *)
Class ProxyEnv := { parseProxyURL : jsstr → option (jsstr * jsstr * jsstr) }.

Definition SUPPORTED_PROXY_PROTOCOLS : list jsstr := [$"http:"; $"https:"; $"socks5:"; $"socks5h:"].

(** [s.indexOf(p)], [None] for -1 *)
Fixpoint index_of (p s : jsstr) : option nat :=
  if starts_with p s then Some 0%nat
  else match s with [] => None | _ :: s' => S <$> index_of p s' end.

(** From the first of the characters in [p] on; [None] when there is none. *)
Fixpoint from_first (p : Z → bool) (s : jsstr) : option jsstr :=
  match s with
  | [] => None
  | c :: s' => if p c then Some s else from_first p s'
  end.

Definition isOptionalProxyURL {X : ProxyEnv} (v : value) : bool :=
  let trimmedValue := trimmed v in
  if negb (truthy trimmedValue) then true
  else match index_of $"://" trimmedValue with
  | None | Some O => false
  | Some i =>
    let authorityAndSuffix := drop (i + 3) trimmedValue in
    if match from_first (λ c, (c =? 47) || (c =? 63) || (c =? 35)) authorityAndSuffix with
       | Some suffix => negb (bool_decide (suffix = $"/"))
       | None => false
       end then false
    else match parseProxyURL trimmedValue with
    | None => false
    | Some (protocol, hostname, port) =>
      bool_decide (protocol ∈ SUPPORTED_PROXY_PROTOCOLS) && truthy hostname && negb (bool_decide (port = $"0"))
    end
  end.

(** ** Paths of task endpoints ([media-settings.ts]) *)

(** One percent-encoded byte. *)
Definition encoded_byte (s : jsstr) : option (Z * jsstr) :=
  match s with
  | 37 :: a :: b :: s' => h ← radix_digit a; l ← radix_digit b; Some (16 * h + l, s')
  | _ => None
  end.

(** The continuation bytes of a code point. *)
Fixpoint continuation (n : nat) (cp : Z) (s : jsstr) : option (Z * jsstr) :=
  match n with
  | O => Some (cp, s)
  | S n' =>
    '(b, s') ← encoded_byte s;
    if (128 <=? b) && (b <? 192) then continuation n' (64 * cp + (b - 128)) s' else None
  end.

(** A code point: no overlong form, no surrogate, at most U+10FFFF. *)
Definition encoded_point (s : jsstr) : option (Z * jsstr) :=
  '(b, s') ← encoded_byte s;
  if b <? 128 then Some (b, s')
  else
    '(n, least, start) ← (if (192 <=? b) && (b <? 224) then Some (1%nat, 128, b - 192)
                          else if (224 <=? b) && (b <? 240) then Some (2%nat, 2048, b - 224)
                          else if (240 <=? b) && (b <? 248) then Some (3%nat, 65536, b - 240) else None);
    '(cp, s'') ← continuation n start s';
    if (least <=? cp) && (cp <=? 1114111) && negb ((55296 <=? cp) && (cp <? 57344)) then Some (cp, s'') else None.

Definition units_of_point (cp : Z) : jsstr :=
  if cp <? 65536 then [cp] else [55296 + (cp - 65536) / 1024; 56320 + (cp - 65536) mod 1024].

(** [None] is the URIError; the fuel is the length of the text. *)
Fixpoint decode_from (fuel : nat) (s : jsstr) : option jsstr :=
  match fuel, s with
  | _, [] => Some []
  | O, _ => None
  | S fuel', c :: s' =>
    if c =? 37 then
      '(cp, s'') ← encoded_point s; r ← decode_from fuel' s''; Some (units_of_point cp ++ r)
    else r ← decode_from fuel' s'; Some (c :: r)
  end.

Definition decodeURIComponent (s : jsstr) : option jsstr := decode_from (length s) s.

Example decode_1 : decodeURIComponent $"a%20%E4%B8%AD%2e" = Some ($"a 中.").
Proof. vm_compute. reflexivity. Qed.
Example decode_2 : decodeURIComponent $"%C0%80" = None ∧ decodeURIComponent $"%E4%B8" = None ∧ decodeURIComponent $"100%" = None.
Proof. vm_compute. auto. Qed.

(** [s.split(pat)] for a longer separator; [skip] counts its characters left. *)
Fixpoint split_text (pat w s : jsstr) (skip : nat) : list jsstr :=
  match s with
  | [] => [reverse w]
  | c :: s' =>
    match skip with
    | S skip' => split_text pat w s' skip'
    | O => if starts_with pat s then reverse w :: split_text pat [] s' (length pat - 1)
           else split_text pat (c :: w) s' O
    end
  end.

Definition TASK_ID : jsstr := $"{task_id}".

Definition isValidTaskEndpointPath (v : value) (fetch : bool) : bool :=
  let s := str_of v in
  if negb (truthy s) then true
  else if negb (bool_decide (s = trim s)) || negb (starts_with $"/" s) || starts_with $"//" s
          || existsb (λ c, (c =? 35) || (c =? 92) || is_space c) s then false
  else
    let pieces := split_text TASK_ID [] s O in
    let count := (length pieces - 1)%nat in
    if negb (count =? (if fetch then 1 else 0))%nat
       || existsb (λ c, (c =? 123) || (c =? 125)) (concat pieces) then false
    else match decodeURIComponent (default [] (head (split 63 s))),
               decodeURIComponent (join [63] (tail (split 63 s))) with
    | Some decodedPath, Some _ =>
      negb (existsb (λ segment, bool_decide (segment = $".") || bool_decide (segment = $"..")) (split 47 decodedPath))
    | _, _ => false
    end.

Example task_path_1 : isValidTaskEndpointPath (VStr $"/v1/tasks/{task_id}?full=%41") true = true ∧
  isValidTaskEndpointPath (VStr $"/v1/%2e%2e/tasks") false = false ∧ isValidTaskEndpointPath (VStr $"//host/x") false = false.
Proof. vm_compute. auto. Qed.

(** ** The schema *)

Section Schema.
Context {Z0 : ZodEnv} {X : ProxyEnv} {U : UrlEnv} {TE : TextEnv}.
Context (compile_regex : jsstr → option (jsstr → bool)).

Definition CHANNEL_COST_RATIO_MIN : number := num_lit 1 2.
Definition CHANNEL_COST_RATIO_MAX : number := num_of_Z 1000.

(** At most two decimals. *)
Definition two_decimals (v : value) : bool :=
  let hundredfold := num_mul (num_of v) (num_of_Z 100) in
  num_ltb (num_abs (num_sub hundredfold (num_round hundredfold))) (num_lit 1 9).

(** Zero, or a whole number of seconds from a minute to [max]. *)
Definition timeout_ok (max : Z) (v : value) : bool :=
  value_is_integer v
  && (eq_num v 0 || (num_leb (num_of_Z 60) (num_of v) && num_leb (num_of v) (num_of_Z max))).

Definition z_text : zschema := ZOptional (ZString None None).
Definition z_flag : zschema := ZOptional ZBoolean.
Definition z_whole (min max : Z) : zschema := ZNumber true (Some (num_of_Z min)) (Some (num_of_Z max)).
Definition z_json : zschema := ZRefine z_text isOptionalJsonObject.
Definition z_any_number : zschema := ZNumber false None None.

Definition channelFormShape : list (jsstr * zschema) :=
  [($"name", ZString (Some 1) None); ($"type", ZNumber false (Some (num_of_Z 0)) None); ($"base_url", z_text);
   ($"key", ZString None None); ($"openai_organization", z_text); ($"models", ZString (Some 1) None);
   ($"group", ZArray (ZString None None) 1);
   ($"model_mapping", ZRefine z_text (isOptionalModelMapping compile_regex));
   ($"priority", ZOptional z_any_number); ($"weight", ZOptional z_any_number);
   ($"cost_ratio", ZRefine (ZNumber false (Some CHANNEL_COST_RATIO_MIN) (Some CHANNEL_COST_RATIO_MAX)) two_decimals);
   ($"test_model", z_text); ($"auto_ban", ZOptional z_any_number); ($"status", z_any_number);
   ($"status_code_mapping", ZRefine z_text isOptionalStatusCodeMapping); ($"tag", z_text);
   ($"remark", ZOptional (ZString None (Some 255)));
   ($"setting", z_json); ($"param_override", z_json); ($"header_override", z_json); ($"settings", z_json);
   ($"advanced_custom", z_text); ($"other", z_text); ($"other_info", z_json);
   ($"video_protocol", ZOptional (ZEnum [[]; $"wan-rolldek-v1"; $"rolldek-kling4"]));
   ($"task_submit_path", ZRefine z_text (λ v, isValidTaskEndpointPath v false));
   ($"task_fetch_path", ZRefine z_text (λ v, isValidTaskEndpointPath v true));
   ($"multi_key_mode", ZOptional (ZEnum [$"single"; $"batch"; $"multi_to_single"]));
   ($"multi_key_type", ZOptional (ZEnum [$"random"; $"polling"]));
   ($"batch_add_set_key_prefix_2_name", z_flag); ($"key_mode", ZOptional (ZEnum [$"append"; $"replace"]));
   ($"force_format", z_flag); ($"thinking_to_content", z_flag); ($"proxy", ZRefine z_text isOptionalProxyURL);
   ($"http_protocol", ZOptional (ZEnum [$"auto"; $"http1"])); ($"http2_connection_shards", ZOptional (ZNumber true None None));
   ($"pass_through_body_enabled", z_flag); ($"system_prompt", z_text); ($"system_prompt_override", z_flag);
   ($"is_enterprise_account", z_flag); ($"vertex_key_type", ZOptional (ZEnum [$"json"; $"api_key"]));
   ($"aws_key_type", ZOptional (ZEnum [$"ak_sk"; $"api_key"])); ($"azure_responses_version", z_text);
   ($"allow_service_tier", z_flag); ($"disable_store", z_flag); ($"allow_safety_identifier", z_flag);
   ($"allow_include_obfuscation", z_flag); ($"allow_inference_geo", z_flag); ($"allow_speed", z_flag);
   ($"claude_beta_query", z_flag); ($"disable_task_polling_sleep", z_flag);
   ($"upstream_model_update_check_enabled", z_flag); ($"upstream_model_update_auto_sync_enabled", z_flag);
   ($"upstream_model_update_ignored_models", z_text);
   ($"channel_max_attempts", z_whole 1 10); ($"auto_ban_threshold", z_whole 1 100);
   ($"auto_ban_duration_minutes", z_whole 1 1440);
   ($"streaming_idle_timeout_seconds", ZRefine z_any_number (timeout_ok 600));
   ($"non_streaming_timeout_seconds", ZRefine z_any_number (timeout_ok 1800))].

(** The checks across fields, as the field and the message of each issue. *)
Definition issue_if (b : bool) (path message : jsstr) : list (jsstr * jsstr) := if b then [(path, message)] else [].

Definition no_text (v : value) : bool := negb (truthy (trimmed v)).

(** The parsed configuration, if any; [None] for one of undeclared types. *)
Definition config_of (v : value) : option (option AdvancedCustomConfig) :=
  match parseAdvancedCustomConfig (opt_str v) with
  | NoConfig => Some None
  | Parsed config => Some (Some config)
  | Untyped => None
  end.

Definition advanced_issues (data : object) (config : option AdvancedCustomConfig) : list (jsstr * jsstr) :=
  match validateAdvancedCustomConfig config with
  | Some error => [($"advanced_custom", message error)]
  | None => []
  end
  ++ issue_if (advancedCustomConfigUsesRelativeUpstreamPath config && no_text (fld data $"base_url"))
       $"base_url" $"Base URL is required when an advanced route uses an upstream path"
  ++ issue_if (is_true (fld data $"upstream_model_update_check_enabled")
               && negb (hasValidAdvancedCustomModelListRoute config))
       $"upstream_model_update_check_enabled" $"OpenAI Models route is required to enable upstream model checks".

Definition batch_mode (data : object) : bool :=
  to_boolean (fld data $"multi_key_mode") && negb (eq_str (fld data $"multi_key_mode") $"single").

Definition superRefine (data : object) : option (list (jsstr * jsstr)) :=
  advanced ← (if type_is data CHANNEL_TYPE_ADVANCED_CUSTOM
              then advanced_issues data <$> config_of (fld data $"advanced_custom") else Some []);
  Some (issue_if (eq_str (fld data $"video_protocol") $"rolldek-kling4" && negb (type_in [1; 55] data))
    $"video_protocol" $"Kling 4.0 requires an OpenAI or Sora channel."
  ++ issue_if (type_in [3; 8; 36; 45; CHANNEL_TYPE_NEW_API; 103] data && no_text (fld data $"base_url"))
       $"base_url" $"Base URL is required for this channel type"
  ++ advanced
  ++ issue_if (type_in [3; 18; 21; 39; 41; 49] data && no_text (fld data $"other"))
       $"other" $"This channel type requires additional configuration"
  ++ (if type_is data 57 then
        issue_if (batch_mode data) $"multi_key_mode" $"Codex channels do not support batch creation"
        ++ issue_if (has_key data && negb (isCodexCredential (fld data $"key")))
             $"key" $"Codex credential must be a JSON object with access_token and account_id"
      else [])
  ++ issue_if (type_is data 41 && eq_str (fld data $"vertex_key_type") $"json" && has_key data
               && negb (isVertexJsonKey (fld data $"key")))
       $"key" $"Vertex AI service account key must be valid JSON"
  ++ issue_if (type_is data 41 && eq_str (fld data $"vertex_key_type") $"api_key" && batch_mode data)
       $"multi_key_mode" $"Vertex AI API Key mode does not support batch creation"
  ++ (let protocol := normalizeHttpProtocol (fld data $"http_protocol") in
      let shards := to_number (nullish (fld data $"http2_connection_shards") (VNum (num_of_Z 1))) in
      issue_if (num_ltb shards (num_of_Z 1) || num_ltb (num_of_Z MAX_HTTP2_CONNECTION_SHARDS) shards)
        $"http2_connection_shards" $"HTTP/2 connection shards must be between 1 and 8"
      ++ issue_if (bool_decide (protocol = HTTP_PROTOCOL_HTTP1) && num_ltb (num_of_Z 1) shards)
           $"http2_connection_shards" $"HTTP/2 connection shards must be 1 when HTTP/1.1 is selected")).

(** The form is accepted when every field is and nothing else is wrong. *)
Definition channelFormSchema (data : object) : bool :=
  forallb (λ ks, accepts ks.2 (fld data ks.1)) channelFormShape && bool_decide (superRefine data = Some []).
End Schema.

(** ** A zod for the examples: the combinators as documented *)

Fixpoint sample_accepts (s : zschema) (v : value) : bool :=
  match s with
  | ZString min max =>
    is_string v && from_option (λ m, m <=? Z.of_nat (length (str_of v))) true min
    && from_option (λ m, Z.of_nat (length (str_of v)) <=? m) true max
  | ZNumber int min max =>
    value_is_finite v && within min max (num_of v) && (negb int || is_integer (num_of v))
  | ZBoolean => is_boolean v
  | ZEnum l => match v with VStr t => bool_decide (t ∈ l) | _ => false end
  | ZArray s min => match v with VArr l => (min <=? Z.of_nat (length l)) && forallb (sample_accepts s) l | _ => false end
  | ZOptional s => is_undefined v || sample_accepts s v
  | ZRefine s p => sample_accepts s v && p v
  end.

Definition sample_zod : ZodEnv := {| accepts := sample_accepts |}.

Lemma sample_zod_laws : ZodLaws sample_zod.
Proof.
  constructor; cbn [accepts sample_zod sample_accepts].
  - intros min max v. rewrite !andb_true_iff. intros [[H1 H2] _]. split; [done|].
    destruct min; [cbn in *; lia|done].
  - intros int min max v. rewrite !andb_true_iff. intros [[H1 H2] H3]. split; [by destruct v|]. split; [done|].
    by intros ->.
  - done.
  - intros l v. destruct v; try done. intros ?%bool_decide_eq_true. eauto.
  - intros s min v. destruct v; try done. rewrite andb_true_iff, forallb_forall. intros [H1 H2].
    eexists. split; [done|]. split; [lia|]. apply Forall_forall. intros x Hx. apply H2. by apply list_elem_of_In.
  - intros s v. rewrite orb_true_iff. intros [H|H]; [left; by destruct v|by right].
  - intros s p v. by rewrite andb_true_iff.
Qed.
