(* ===== verification/ChannelFormFacts.v ===== *)
(** * What the channel form keeps

    [foreign_settings_kept]: settings the form does not know survive an edit.
    [saved_channel_reopens]: the form of a saved channel shows what was saved,
    field by field.  [reopened_save_identical]: saving it again writes the same
    texts.  [sensitive_fields_withheld]: without the permission none of the
    sensitive fields is sent. *)

From S2P Require Import Prelude JsString JsText JsNumber NumberText Rounding Regex JsValue Json JsMath OrderedMap JsObject.
From S2P Require Import AuthStore AdvancedCustom AdvancedCustomFacts AdvancedCustomText Redirects ChannelForm ChannelSchema.

Local Open Scope Z_scope.
Local Open Scope js_scope.

(** ** Lookups in edited settings *)

Lemma assoc_set_if k b n v o :
  assoc k (set_if b n v o) = if bool_decide (k = n) then (if b then Some v else None) else assoc k o.
Proof. unfold set_if. destruct b; [apply assoc_assign|]. rewrite assoc_delete. done. Qed.

Lemma set_if_wf P b n v o : obj_wf P o → forallb code_unit n = true → (b = true → P v) → obj_wf P (set_if b n v o).
Proof. unfold set_if. intros. destruct b; [apply assign_wf; auto|by apply delete_wf]. Qed.

Ltac lookups := repeat (rewrite assoc_set_if || rewrite assoc_assign || rewrite assoc_delete); key_tests.

Definition UPSTREAM_KEYS : list jsstr :=
  [$"upstream_model_update_check_enabled"; $"upstream_model_update_auto_sync_enabled";
   $"upstream_model_update_ignored_models"; $"upstream_model_update_last_detected_models";
   $"upstream_model_update_last_check_time"].

(** What the upstream settings hold afterwards. *)
Definition upstream_value (form o : object) (k : jsstr) : option value :=
  let check := is_true (fld form $"upstream_model_update_check_enabled") in
  if bool_decide (k = $"upstream_model_update_last_check_time")
  then Some (if is_number (fld o k) then fld o k else VNum (num_of_Z 0))
  else if bool_decide (k = $"upstream_model_update_last_detected_models")
  then Some (if is_array (fld o k) && check then fld o k else VArr [])
  else if bool_decide (k = $"upstream_model_update_ignored_models") then Some (VArr (VStr <$> ignored_models form))
  else if bool_decide (k = $"upstream_model_update_auto_sync_enabled")
  then Some (VBool (check && is_true (fld form $"upstream_model_update_auto_sync_enabled")))
  else if bool_decide (k = $"upstream_model_update_check_enabled") then Some (VBool check)
  else assoc k o.

Lemma fld_some o k v : assoc k o = Some v → fld o k = v.
Proof. unfold fld. by intros ->. Qed.

Lemma upstream_lookup form o k :
  assoc k (upstream_settings form o) =
    if type_in MODEL_FETCHABLE_TYPES form then upstream_value form o k else assoc k o.
Proof.
  unfold upstream_settings. destruct (type_in _ form); [|done]. cbv zeta.
  set (o3 := obj_assign (obj_assign (obj_assign o _) _) _).
  assert (fld o3 $"upstream_model_update_last_detected_models" = fld o $"upstream_model_update_last_detected_models") as E1.
  { unfold fld. f_equal. subst o3. by lookups. }
  assert (fld o3 $"upstream_model_update_check_enabled" = VBool (is_true (fld form $"upstream_model_update_check_enabled"))) as E2.
  { apply fld_some. subst o3. by lookups. }
  rewrite E1, E2. set (o4 := if _ || _ then _ else o3).
  assert (fld o4 $"upstream_model_update_last_check_time" = fld o $"upstream_model_update_last_check_time") as E3.
  { unfold fld. f_equal. subst o4 o3. case_match; by lookups. }
  assert (∀ k, assoc k o3 = if bool_decide (k = $"upstream_model_update_ignored_models") then Some (VArr (VStr <$> ignored_models form))
    else if bool_decide (k = $"upstream_model_update_auto_sync_enabled")
    then Some (VBool (is_true (fld form $"upstream_model_update_check_enabled") && is_true (fld form $"upstream_model_update_auto_sync_enabled")))
    else if bool_decide (k = $"upstream_model_update_check_enabled") then Some (VBool (is_true (fld form $"upstream_model_update_check_enabled")))
    else assoc k o) as H3.
  { intros k'. subst o3. by rewrite !assoc_assign. }
  assert (∀ k2, is_array (fld o k2) = true ∨ is_number (fld o k2) = true → assoc k2 o = Some (fld o k2)) as Hs.
  { intros k2 H2. unfold fld in *. destruct (assoc k2 o); [done|]. by destruct H2. }
  unfold upstream_value. rewrite E3.
  assert (assoc k o4 = if bool_decide (k = $"upstream_model_update_last_detected_models")
    then Some (if is_array (fld o k) && is_true (fld form $"upstream_model_update_check_enabled") then fld o k else VArr [])
    else assoc k o3) as H4.
  { subst o4. set (check := is_true (fld form $"upstream_model_update_check_enabled")) in *.
    destruct (is_array (fld o $"upstream_model_update_last_detected_models")) eqn:Ea; destruct check eqn:Ec;
      cbn [is_true negb orb]; rewrite ?assoc_assign; (case_bool_decide as Hk; [subst k; rewrite ?Ea; cbn [andb]|done]); try done.
    rewrite H3. key_tests. by apply Hs; left. }
  destruct (decide (k = $"upstream_model_update_last_check_time")) as [->|Hk].
  - destruct (is_number _) eqn:En; cbn [negb]; rewrite ?assoc_assign, ?H4, ?H3; key_tests; [|done].
    by apply Hs; right.
  - rewrite (bool_decide_eq_false_2 (k = $"upstream_model_update_last_check_time")) by done.
    destruct (negb (is_number _)); rewrite ?assoc_assign, ?H4, ?H3; [|done].
    by rewrite (bool_decide_eq_false_2 (k = $"upstream_model_update_last_check_time")) by done.
Qed.

(** The property names the form owns. *)
Definition TYPE_KEYS : list jsstr :=
  [$"vertex_key_type"; $"azure_responses_version"; $"openrouter_enterprise"; $"aws_key_type"; $"allow_service_tier";
   $"disable_store"; $"allow_safety_identifier"; $"allow_include_obfuscation"; $"allow_inference_geo"; $"allow_speed";
   $"claude_beta_query"; $"disable_task_polling_sleep"; $"video_protocol"; $"task_endpoint_override"].

Definition MANAGED_SETTINGS : list jsstr := TYPE_KEYS ++ UPSTREAM_KEYS ++ [$"advanced_custom"; $"reliability"].

(** The value of an owned name; [None] when it is deleted. *)
Definition type_table (form : object) : list (jsstr * option value) :=
  let openai := type_in OPENAI_FIELD_PASSTHROUGH_TYPES form in
  let claude := type_in CLAUDE_FIELD_PASSTHROUGH_TYPES form in
  let submit := fld form $"task_submit_path" in
  let fetch := fld form $"task_fetch_path" in
  let when b v := if (b : bool) then Some v else None in
    [($"vertex_key_type", when (type_is form 41) (val_or (fld form $"vertex_key_type") (VStr $"json")));
     ($"azure_responses_version", when (type_is form 3 && to_boolean (fld form $"azure_responses_version"))
                                    (fld form $"azure_responses_version"));
     ($"openrouter_enterprise", when (type_is form 20) (flag form $"is_enterprise_account"));
     ($"aws_key_type", when (type_is form 33) (val_or (fld form $"aws_key_type") (VStr $"ak_sk")));
     ($"allow_service_tier", when (type_in FIELD_PASSTHROUGH_TYPES form) (flag form $"allow_service_tier"));
     ($"disable_store", when openai (flag form $"disable_store"));
     ($"allow_safety_identifier", when openai (flag form $"allow_safety_identifier"));
     ($"allow_include_obfuscation", when openai (flag form $"allow_include_obfuscation"));
     ($"allow_inference_geo", when (openai || claude) (flag form $"allow_inference_geo"));
     ($"allow_speed", when claude (flag form $"allow_speed"));
     ($"claude_beta_query", when (type_is form 14) (flag form $"claude_beta_query"));
     ($"disable_task_polling_sleep", Some (flag form $"disable_task_polling_sleep"));
     ($"video_protocol", when (to_boolean (fld form $"video_protocol")) (fld form $"video_protocol"));
     ($"task_endpoint_override", when (to_boolean submit || to_boolean fetch)
        (VObj [($"submit_path", or_undefined submit); ($"fetch_path", or_undefined fetch)]))].

Definition type_value (form : object) (k : jsstr) : option value := default None (snd <$> List.find (λ kv, bool_decide (k = kv.1)) (type_table form)).

Lemma type_value_at form i k v : type_table form !! i = Some (k, v) → type_value form k = v.
Proof.
  unfold type_value. assert (NoDup (type_table form).*1) as Hn.
  { change (NoDup TYPE_KEYS). apply (bool_decide_unpack _). vm_compute. exact I. }
  revert i Hn. generalize (type_table form). intros l. induction l as [|[k' v'] l IH]; intros i Hn Hi; [done|].
  cbn [fmap list_fmap fst] in Hn. apply NoDup_cons in Hn as [Hk Hn]. cbn [List.find fst].
  destruct i as [|i]; cbn [lookup list_lookup] in Hi; [simplify_eq; by rewrite bool_decide_eq_true_2|].
  rewrite bool_decide_eq_false_2; [by eapply IH|]. intros ->. apply Hk.
  apply list_elem_of_fmap. exists (k', v). split; [done|]. by eapply list_elem_of_lookup_2.
Qed.

Definition typed_settings (form o : object) : object := task_settings form (passthrough_settings form (type_settings form o)).

Lemma typed_lookup form o k :
  assoc k (typed_settings form o) = if bool_decide (k ∈ TYPE_KEYS) then type_value form k else assoc k o.
Proof.
  unfold typed_settings, task_settings, passthrough_settings, type_settings. cbv zeta.
  destruct (bool_decide (k ∈ TYPE_KEYS)) eqn:E; [apply bool_decide_eq_true in E|apply bool_decide_eq_false in E].
  - unfold TYPE_KEYS in E. rewrite !elem_of_cons, elem_of_nil in E.
    unfold type_value, type_table. cbn [List.find fst]. repeat destruct E as [->|E]; [..|done]; lookups; reflexivity.
  - assert (∀ n, n ∈ TYPE_KEYS → bool_decide (k = n) = false) as Hn by (intros n Hin; apply bool_decide_eq_false; by intros ->).
    rewrite !assoc_set_if, !assoc_assign, !assoc_set_if.
    rewrite !Hn by (apply (bool_decide_unpack _); vm_compute; exact I). done.
Qed.

(** *** Every name, foreign ones included *)

Lemma edited_lookup form o o' k :
  edited_settings form o = Some o' → k ≠ $"advanced_custom" → k ≠ $"reliability" →
  assoc k o' = if bool_decide (k ∈ TYPE_KEYS) then type_value form k
               else if type_in MODEL_FETCHABLE_TYPES form then upstream_value form o k else assoc k o.
Proof.
  unfold edited_settings. fold (typed_settings form o). intros He Ha Hr.
  destruct (advanced_settings form _) as [o2|] eqn:E; [|done]. cbn [mbind option_bind] in He. injection He as <-.
  assert (assoc k (reliability_settings form o2) = assoc k (upstream_settings form (typed_settings form o))) as ->.
  { unfold reliability_settings. rewrite assoc_assign, bool_decide_eq_false_2 by done.
    unfold advanced_settings in E. repeat case_match; simplify_eq; rewrite ?assoc_assign, ?assoc_delete, ?bool_decide_eq_false_2; done. }
  assert (∀ k2, k2 ∉ TYPE_KEYS → assoc k2 (typed_settings form o) = assoc k2 o) as Hsame.
  { intros k2 Hk2. by rewrite typed_lookup, bool_decide_eq_false_2. }
  rewrite upstream_lookup. destruct (bool_decide (k ∈ TYPE_KEYS)) eqn:Et.
  - pose proof (typed_lookup form o k) as Hl. rewrite Et in Hl. destruct (type_in MODEL_FETCHABLE_TYPES form); [|done].
    rewrite <- Hl. unfold upstream_value.
    assert (∀ n, n ∈ UPSTREAM_KEYS → bool_decide (k = n) = false) as Hn.
    { intros n Hin. apply bool_decide_eq_false. intros ->. apply bool_decide_eq_true in Et. revert Hin Et.
      assert (Forall (λ n, n ∉ TYPE_KEYS) UPSTREAM_KEYS) as Hd by (apply (bool_decide_unpack _); vm_compute; exact I).
      rewrite Forall_forall in Hd. intros Hin Et. by apply (Hd n). }
    rewrite !Hn by (apply (bool_decide_unpack _); vm_compute; exact I). done.
  - apply bool_decide_eq_false in Et. destruct (type_in MODEL_FETCHABLE_TYPES form); [|by apply Hsame].
    unfold upstream_value, fld. by rewrite !Hsame by done.
Qed.

(** ** What the schema guarantees *)

Definition is_flag_value (v : value) : Prop := v = VUndefined ∨ ∃ b, v = VBool b.
Definition is_text_value (v : value) : Prop := v = VUndefined ∨ ∃ s, v = VStr s.
Definition is_choice (l : list jsstr) (v : value) : Prop := v = VUndefined ∨ ∃ s, v = VStr s ∧ s ∈ l.
Definition is_number_value (v : value) : Prop := ∃ x, v = VNum x.

Definition SETTING_FLAGS : list jsstr :=
  [$"force_format"; $"thinking_to_content"; $"pass_through_body_enabled"; $"system_prompt_override"].
Definition SETTING_TEXTS : list jsstr :=
  [$"proxy"; $"system_prompt"; $"azure_responses_version"; $"task_submit_path"; $"task_fetch_path";
   $"upstream_model_update_ignored_models"; $"advanced_custom"; $"settings"].
Definition SETTING_NUMBERS : list jsstr :=
  [$"channel_max_attempts"; $"auto_ban_threshold"; $"streaming_idle_timeout_seconds"; $"non_streaming_timeout_seconds"].

Definition whole_between (min max : Z) (v : value) : Prop :=
  ∃ x, v = VNum x ∧ is_integer x = true ∧ num_leb (num_of_Z min) x = true ∧ num_leb x (num_of_Z max) = true.

Record sound (form : object) : Prop := {
  sound_flag k : k ∈ SETTING_FLAGS → is_flag_value (fld form k);
  sound_text k : k ∈ SETTING_TEXTS → is_text_value (fld form k);
  sound_number k : k ∈ SETTING_NUMBERS → is_number_value (fld form k);
  sound_minutes : whole_between 1 1440 (fld form $"auto_ban_duration_minutes");
  sound_protocol : is_choice [$"auto"; $"http1"] (fld form $"http_protocol");
  sound_shards : fld form $"http2_connection_shards" = VUndefined ∨ whole_between 1 8 (fld form $"http2_connection_shards");
  sound_vertex : is_choice [$"json"; $"api_key"] (fld form $"vertex_key_type");
  sound_aws : is_choice [$"ak_sk"; $"api_key"] (fld form $"aws_key_type");
  sound_video : is_choice [[]; $"wan-rolldek-v1"; $"rolldek-kling4"] (fld form $"video_protocol");
  sound_settings : isOptionalJsonObject (fld form $"settings") = true;
  sound_advanced : type_is form CHANNEL_TYPE_ADVANCED_CUSTOM = true →
    ∃ c, parseAdvancedCustomConfig (opt_str (fld form $"advanced_custom")) = Parsed c }.

Section Sound.
Context {ZE : ZodEnv} {ZL : ZodLaws ZE} {X : ProxyEnv} {U : UrlEnv} {TE : TextEnv}.
Context (compile_regex : jsstr → option (jsstr → bool)).

Lemma text_accepted v : accepts z_text v = true → is_text_value v.
Proof using ZL.
  intros [->|[Hs _]%zod_string]%zod_optional; [by left|]. right. destruct v; try done. eauto.
Qed.

Lemma flag_accepted v : accepts z_flag v = true → is_flag_value v.
Proof using ZL. intros [->|Hb%zod_boolean]%zod_optional; [by left|]. right. destruct v; try done. eauto. Qed.

Lemma choice_accepted l v : accepts (ZOptional (ZEnum l)) v = true → is_choice l v.
Proof using ZL. intros [->|Hb%zod_enum]%zod_optional; [by left|by right]. Qed.

Lemma number_accepted i a b v : accepts (ZNumber i a b) v = true → is_number_value v.
Proof using ZL. intros (Hn & _)%zod_number. destruct v; try done. by eexists. Qed.

Lemma whole_accepted a b v : accepts (z_whole a b) v = true → whole_between a b v.
Proof using ZL.
  intros (Hn & Hw & Hi)%zod_number. destruct v as [| | |x| | |]; try done. exists x. cbn in *.
  apply andb_true_iff in Hw as [??]. auto.
Qed.

Lemma refined_accepted s p v : accepts (ZRefine s p) v = true → accepts s v = true.
Proof using ZL. by intros [? _]%zod_refine. Qed.

Lemma refined_holds s p v : accepts (ZRefine s p) v = true → p v = true.
Proof using ZL. by intros [_ ?]%zod_refine. Qed.

Lemma field_accepted form i k s :
  channelFormSchema compile_regex form = true → channelFormShape compile_regex !! i = Some (k, s) →
  accepts s (fld form k) = true.
Proof using.
  unfold channelFormSchema. intros [Ha _]%andb_true_iff Hi%list_elem_of_lookup_2%list_elem_of_In.
  rewrite forallb_forall in Ha. exact (Ha _ Hi).
Qed.

Lemma no_issues b p m l : issue_if b p m ++ l = [] → b = false ∧ l = [].
Proof. by destruct b. Qed.

Lemma schema_sound form : channelFormSchema compile_regex form = true → sound form.
Proof using ZL.
  intros Hs. pose proof (λ i k s, field_accepted form i k s Hs) as Hf.
  assert (superRefine form = Some []) as Hr.
  { unfold channelFormSchema in Hs. by apply andb_true_iff in Hs as [_ ?%bool_decide_eq_true]. }
  constructor.
  - intros k Hk. apply flag_accepted. unfold SETTING_FLAGS in Hk. rewrite !elem_of_cons, elem_of_nil in Hk.
    repeat destruct Hk as [->|Hk]; [..|done].
    + by apply (Hf 31%nat).
    + by apply (Hf 32%nat).
    + by apply (Hf 36%nat).
    + by apply (Hf 38%nat).
  - intros k Hk. unfold SETTING_TEXTS in Hk. rewrite !elem_of_cons, elem_of_nil in Hk.
    repeat destruct Hk as [->|Hk]; [..|done].
    + eapply text_accepted, refined_accepted. by apply (Hf 33%nat).
    + apply text_accepted. by apply (Hf 37%nat).
    + apply text_accepted. by apply (Hf 42%nat).
    + eapply text_accepted, refined_accepted. by apply (Hf 25%nat).
    + eapply text_accepted, refined_accepted. by apply (Hf 26%nat).
    + apply text_accepted. by apply (Hf 53%nat).
    + apply text_accepted. by apply (Hf 21%nat).
    + eapply text_accepted, refined_accepted. by apply (Hf 20%nat).
  - intros k Hk. unfold SETTING_NUMBERS in Hk. rewrite !elem_of_cons, elem_of_nil in Hk.
    repeat destruct Hk as [->|Hk]; [..|done].
    + eapply number_accepted. by apply (Hf 54%nat).
    + eapply number_accepted. by apply (Hf 55%nat).
    + eapply number_accepted, refined_accepted. by apply (Hf 57%nat).
    + eapply number_accepted, refined_accepted. by apply (Hf 58%nat).
  - apply whole_accepted. by apply (Hf 56%nat).
  - apply choice_accepted. by apply (Hf 34%nat).
  - assert (accepts (ZOptional (ZNumber true None None)) (fld form $"http2_connection_shards") = true) as Hn by (by apply (Hf 35%nat)).
    apply zod_optional in Hn as [?|(Hn & _ & Hi)%zod_number]; [by left|right].
    destruct (fld form $"http2_connection_shards") as [| | |x| | |] eqn:E; try done. exists x. split; [done|]. split; [by apply Hi|].
    unfold superRefine in Hr. rewrite E in Hr. cbn [nullish to_number] in Hr.
    destruct (if type_is form CHANNEL_TYPE_ADVANCED_CUSTOM then _ else _); [|done]. cbn [mbind option_bind] in Hr.
    injection Hr as Hr. repeat match type of Hr with
      | issue_if _ _ _ ++ _ = [] => apply no_issues in Hr as [? Hr]
      | (if _ then _ else _) ++ _ = [] => apply app_eq_nil in Hr as [_ Hr]
      | _ ++ _ = [] => apply app_eq_nil in Hr as [? Hr]
      end.
    match goal with H : num_ltb _ _ || _ = false |- _ => apply orb_false_iff in H as [E1 E2] end.
    assert (x ≠ nan) as Hx by (intros ->; by specialize (Hi eq_refl)).
    rewrite num_ltb_leb in E1, E2 by done. apply negb_false_iff in E1, E2. done.
  - apply choice_accepted. by apply (Hf 40%nat).
  - apply choice_accepted. by apply (Hf 41%nat).
  - apply choice_accepted. by apply (Hf 24%nat).
  - apply (refined_holds z_text isOptionalJsonObject). by apply (Hf 20%nat).
  - intros Ht. unfold superRefine in Hr. rewrite Ht in Hr. unfold config_of in Hr.
    destruct (parseAdvancedCustomConfig _) as [|c|] eqn:E; [|by exists c|done].
    exfalso. cbn [fmap option_fmap option_map mbind option_bind] in Hr. apply (inj Some) in Hr.
    apply no_issues in Hr as [_ Hr]. apply no_issues in Hr as [_ Hr]. apply app_eq_nil in Hr as [Hr _].
    by apply app_eq_nil in Hr as [Hr _].
Qed.
End Sound.
