(* ===== verification/ChannelReopen.v ===== *)
(** * Saving and reopening a channel

    The texts written for an accepted form are read back as the same form, and
    writing that form again gives the same texts. *)

From S2P Require Import Prelude JsString JsText JsNumber NumberText Rounding Regex JsValue Json JsMath OrderedMap JsObject.
From S2P Require Import AuthStore AdvancedCustom AdvancedCustomFacts AdvancedCustomText Redirects ChannelForm ChannelSchema ChannelFormFacts.

Local Open Scope Z_scope.
Local Open Scope js_scope.

(** ** Values of the form *)

(** The strings of the form consist of code units and its numbers are binary64;
    the stored settings are an object JSON can carry. *)
Record carried (form o0 : object) : Prop := {
  ca_values : Forall (λ kv, kv.2 = VUndefined ∨ json_ok kv.2 = true) form;
  ca_config c : parseAdvancedCustomConfig (opt_str (fld form $"advanced_custom")) = Parsed c → config_units c = true;
  ca_existing : existing_settings (fld form $"settings") = Some o0;
  ca_stored : obj_ok o0;
  ca_reliability : is_array (fld o0 $"reliability") = false }.

Lemma fld_value (P : value → Prop) (o : object) k : P VUndefined → Forall (λ kv, P kv.2) o → P (fld o k).
Proof.
  intros Hu Ho. unfold fld. destruct (assoc k o) as [v|] eqn:E; [|done]. apply assoc_elem in E.
  rewrite Forall_forall in Ho. exact (Ho _ E).
Qed.

Lemma carried_fld form o0 k : carried form o0 → fld form k = VUndefined ∨ json_ok (fld form k) = true.
Proof. intros Hc. apply (fld_value (λ v, v = VUndefined ∨ json_ok v = true)); [by left|apply Hc]. Qed.

Lemma carried_truthy form o0 k : carried form o0 → to_boolean (fld form k) = true → json_ok (fld form k) = true.
Proof. intros Hc Hb. destruct (carried_fld form o0 k Hc) as [E|]; [by rewrite E in Hb|done]. Qed.

Lemma val_or_ok form o0 k s :
  carried form o0 → forallb code_unit s = true → json_ok (val_or (fld form k) (VStr s)) = true.
Proof. intros Hc Hs. unfold val_or. destruct (to_boolean _) eqn:E; [by eapply carried_truthy|done]. Qed.

(** *** Comma-separated names *)

Lemma split_units c s : forallb code_unit s = true → Forall (λ w, forallb code_unit w = true) (split c s).
Proof.
  induction s as [|d s IH]; cbn [split]; [by repeat constructor|]. cbn [forallb]. intros [Hd Hs]%andb_true_iff.
  specialize (IH Hs). destruct (d =? c); [by constructor|]. destruct (split c s) as [|w ws]; [repeat constructor; cbn; by rewrite Hd|].
  apply Forall_cons in IH as [Hw IH]. constructor; [cbn; by rewrite Hd|done].
Qed.

Lemma comma_units s : forallb code_unit s = true → Forall (λ w, forallb code_unit w = true) (comma_parts s).
Proof.
  intros Hs. unfold comma_parts. rewrite Forall_forall. intros w Hw.
  apply list_elem_of_In, filter_In in Hw as [Hw _]. apply list_elem_of_In, list_elem_of_fmap in Hw as (u & -> & Hu).
  pose proof (split_units 44 s Hs) as H. rewrite Forall_forall in H. apply forallb_trim. by apply H.
Qed.

(** The parts again: trimmed, not empty and free of commas. *)
Definition part (w : jsstr) : Prop := trim w = w ∧ w ≠ [] ∧ (44 ∉ w).

Lemma split_no_sep c s w : w ∈ split c s → c ∉ w.
Proof.
  revert w. induction s as [|d s IH]; intros w; cbn [split]; [rewrite list_elem_of_singleton; intros ->; apply not_elem_of_nil|].
  destruct (Z.eqb_spec d c) as [->|Hne].
  - intros [->|Hw]%elem_of_cons; [apply not_elem_of_nil|by apply IH].
  - destruct (split c s) as [|v vs]; [rewrite list_elem_of_singleton; intros ->; set_solver|].
    intros [->|Hw]%elem_of_cons; [|apply IH; by right]. apply not_elem_of_cons. split; [done|]. apply IH. by left.
Qed.

Lemma trim_elem c s : c ∈ trim s → c ∈ s.
Proof.
  assert (∀ s, c ∈ trim_start s → c ∈ s) as H.
  { intros s0. induction s0 as [|d s' IH]; cbn [trim_start]; [done|]. destruct (is_space d); [|done]. intros Hc%IH. apply elem_of_cons. by right. }
  unfold trim, trim_end. rewrite elem_of_reverse. intros Hc%H. rewrite elem_of_reverse in Hc. by apply H.
Qed.

Lemma comma_parts_spec s : Forall part (comma_parts s).
Proof.
  unfold comma_parts. apply Forall_forall. intros w Hw.
  apply list_elem_of_In, filter_In in Hw as [Hw Ht]. apply list_elem_of_In, list_elem_of_fmap in Hw as (u & -> & Hu).
  split; [apply trim_idem|]. split; [by apply truthy_ne|]. intros Hc%trim_elem. by eapply split_no_sep.
Qed.

Lemma comma_parts_join ws : Forall part ws → comma_parts (join [44] ws) = ws.
Proof.
  intros Hw. destruct (decide (ws = [])) as [->|Hne]; [reflexivity|].
  unfold comma_parts. rewrite split_join; [|done|intros w Hin; rewrite Forall_forall in Hw; by apply (Hw w Hin)].
  clear Hne. induction Hw as [|x l (Ht & Hn & _) Hl IH]; [done|]. cbn [fmap list_fmap List.filter].
  rewrite Ht, (proj2 (truthy_ne x)) by done. by rewrite IH.
Qed.

(** *** Minutes and seconds *)

Definition minute_values : list Z := seqZ 1 2047.

Lemma minutes_back n : 0 < n < 2048 →
  json_ok (VNum (num_mul (num_of_Z n) (num_of_Z 60))) = true ∧
  num_max (num_of_Z 1) (num_round (num_div (num_mul (num_of_Z n) (num_of_Z 60)) (num_of_Z 60))) = num_of_Z n.
Proof.
  intros Hn. assert (Forall (λ n, json_ok (VNum (num_mul (num_of_Z n) (num_of_Z 60))) = true ∧
    num_max (num_of_Z 1) (num_round (num_div (num_mul (num_of_Z n) (num_of_Z 60)) (num_of_Z 60))) = num_of_Z n) minute_values) as H.
  { apply (bool_decide_unpack _). vm_compute. exact I. }
  rewrite Forall_forall in H. apply H. apply elem_of_seqZ. lia.
Qed.

Lemma whole_minutes v : whole_between 1 1440 v → json_ok v = true → ∃ n, 0 < n < 2048 ∧ v = VNum (num_of_Z n).
Proof.
  intros (x & -> & Hi & H1 & H2) Hv. cbn [json_ok] in Hv. rewrite !andb_true_iff in Hv. destruct Hv as [[_ Hv] _].
  destruct (whole_small x Hv Hi H1) as (n & Hn & ->); [|eauto]. eapply num_leb_trans; [exact H2|]. reflexivity.
Qed.

(** ** The settings that are written *)

Section Saved.
Context (form o0 : object) (Hs : sound form) (Hc : carried form o0).

Lemma flag_ok k : json_ok (flag form k) = true.
Proof using. done. Qed.

Lemma override_ok : printable (VObj [($"submit_path", or_undefined (fld form $"task_submit_path"));
                                     ($"fetch_path", or_undefined (fld form $"task_fetch_path"))]).
Proof using Hs Hc.
  split; [done|]. unfold or_undefined.
  assert (∀ k, json_ok (fld form k) = true → jclean (fld form k) = fld form k) as Hj by (intros; by apply clean_ok).
  pose proof (carried_truthy form o0 $"task_submit_path" Hc) as H1.
  pose proof (carried_truthy form o0 $"task_fetch_path" Hc) as H2.
  assert (∀ v, to_boolean v = true → match v with VUndefined => None | _ => Some ($"submit_path", jclean v) end = Some ($"submit_path", jclean v)) as E1
    by by intros [].
  assert (∀ v, to_boolean v = true → match v with VUndefined => None | _ => Some ($"fetch_path", jclean v) end = Some ($"fetch_path", jclean v)) as E2
    by by intros [].
  destruct (to_boolean (fld form $"task_submit_path")) eqn:B1; destruct (to_boolean (fld form $"task_fetch_path")) eqn:B2;
    cbn [jclean omap list_omap fst snd]; rewrite ?E1, ?E2 by done; rewrite ?Hj by auto;
    cbn [json_ok forallb fst snd]; rewrite ?H1, ?H2 by done; vm_compute; reflexivity.
Qed.

Lemma ignored_ok : json_ok (VArr (VStr <$> ignored_models form)) = true.
Proof using Hs Hc.
  apply strings_value_ok. rewrite forallb_forall. intros w Hw. apply list_elem_of_In in Hw.
  unfold ignored_models in Hw. rewrite elem_of_os_of_list in Hw.
  assert (forallb code_unit (value_text (val_or (fld form $"upstream_model_update_ignored_models") (VStr []))) = true) as Hu.
  { destruct (sound_text form Hs $"upstream_model_update_ignored_models") as [->|[s E]];
      [apply (bool_decide_unpack _); vm_compute; exact I|done|].
    pose proof (val_or_ok form o0 $"upstream_model_update_ignored_models" [] Hc eq_refl) as Hv. rewrite E in *.
    unfold val_or in *. by destruct (to_boolean (VStr s)). }
  pose proof (comma_units _ Hu) as Hp. rewrite Forall_forall in Hp. by apply Hp.
Qed.

Lemma stored_wf : obj_wf (λ v, json_ok v = true) o0.
Proof using Hc. apply obj_ok_wf, Hc. Qed.

Lemma typed_wf : obj_wf printable (typed_settings form o0).
Proof using Hs Hc.
  pose proof stored_wf as H0. apply (obj_wf_impl _ printable) in H0; [|apply ok_printable].
  pose proof override_ok as Ho. pose proof (λ k s, val_or_ok form o0 k s Hc) as Hv.
  pose proof (carried_truthy form o0 $"azure_responses_version" Hc) as Ha.
  pose proof (carried_truthy form o0 $"video_protocol" Hc) as Hvid.
  unfold typed_settings, task_settings, passthrough_settings, type_settings. cbv zeta.
  repeat first [apply set_if_wf; [|by vm_compute|intros Hb] | apply assign_wf; [|by vm_compute|] | exact H0
    | exact Ho | by apply ok_printable, Hv | by apply ok_printable, flag_ok].
  - apply andb_true_iff in Hb as [_ Hb]. by apply ok_printable, Ha.
  - by apply ok_printable, Hvid.
Qed.

Lemma typed_same k : k ∉ TYPE_KEYS → assoc k (typed_settings form o0) = assoc k o0.
Proof using. intros Hk. by rewrite typed_lookup, bool_decide_eq_false_2. Qed.

Lemma upstream_wf : obj_wf printable (upstream_settings form (typed_settings form o0)).
Proof using Hs Hc.
  pose proof typed_wf as H0. unfold upstream_settings. destruct (type_in _ form); [|done]. cbv zeta.
  assert (∀ b, printable (VBool b)) as Hb by (intros b; by apply ok_printable).
  pose proof (ok_printable _ ignored_ok) as Hi.
  assert (printable (VArr []) ∧ printable (VNum (num_of_Z 0))) as [H1 H2] by (split; apply ok_printable; by vm_compute).
  set (o3 := obj_assign _ ($"upstream_model_update_ignored_models", _)).
  assert (obj_wf printable o3) as H3 by (repeat (apply assign_wf; [|by vm_compute|auto]); exact H0).
  set (o4 := if _ || _ then _ else o3).
  assert (obj_wf printable o4) as H4 by (subst o4; case_match; [apply assign_wf; [exact H3|by vm_compute|done]|exact H3]).
  case_match; [apply assign_wf; [exact H4|by vm_compute|done]|exact H4].
Qed.

(** The old entries of the reliability settings. *)
Lemma reliability_ok : obj_ok (reliability_object form (fld o0 $"reliability")).
Proof using Hs Hc.
  assert (obj_wf (λ v, json_ok v = true) (spread (fld o0 $"reliability"))) as H0.
  { pose proof (ca_reliability form o0 Hc) as Hna. pose proof stored_wf as [Hv _].
    assert (fld o0 $"reliability" = VUndefined ∨ json_ok (fld o0 $"reliability") = true) as Hr.
    { apply (fld_value (λ v, v = VUndefined ∨ json_ok v = true)); [by left|]. eapply Forall_impl; [exact Hv|]. cbn. tauto. }
    destruct (fld o0 $"reliability") as [| | | | |l|o]; try done; cbn [spread].
    1-5: split_and!; repeat constructor.
    destruct Hr as [|Hr]; [done|]. by apply obj_ok_wf. }
  assert (∀ k, k ∈ SETTING_NUMBERS → json_ok (fld form k) = true) as Hn.
  { intros k Hk. destruct (carried_fld form o0 k Hc) as [E|]; [|done].
    destruct (sound_number form Hs k Hk) as [x E']. congruence. }
  assert (json_ok (VNum (num_mul (to_number (fld form $"auto_ban_duration_minutes")) (num_of_Z 60))) = true) as Hm.
  { pose proof (sound_minutes form Hs) as Hw. destruct (carried_fld form o0 $"auto_ban_duration_minutes" Hc) as [E|Hj].
    - destruct Hw as (x & E' & _). congruence.
    - destruct (whole_minutes _ Hw Hj) as (n & Hb & ->). by apply minutes_back. }
  apply obj_ok_wf. unfold reliability_object. cbv zeta.
  repeat (apply assign_wf; [|by vm_compute|first [exact Hm | apply Hn; apply (bool_decide_unpack _); vm_compute; exact I]]).
  exact H0.
Qed.

(** The advanced configuration of the form, if it has one. *)
Definition form_config : option AdvancedCustomConfig :=
  if type_is form CHANNEL_TYPE_ADVANCED_CUSTOM then
    match parseAdvancedCustomConfig (opt_str (fld form $"advanced_custom")) with Parsed c => Some c | _ => None end
  else None.

Lemma saved_object : ∃ o1,
  edited_settings form o0 = Some o1 ∧ obj_wf printable o1 ∧
  assoc $"reliability" o1 = Some (VObj (reliability_object form (fld o0 $"reliability"))) ∧
  assoc $"advanced_custom" o1 = config_value <$> form_config.
Proof using Hs Hc.
  pose proof upstream_wf as Hu. unfold edited_settings, form_config. fold (typed_settings form o0).
  set (u := upstream_settings form (typed_settings form o0)) in *.
  assert (∀ k, k ∉ TYPE_KEYS → k ∉ UPSTREAM_KEYS → assoc k u = assoc k o0) as Hsame.
  { intros k Ht Hk. subst u. rewrite upstream_lookup, <- (typed_same k Ht). destruct (type_in _ _); [|done].
    unfold upstream_value. assert (∀ n, n ∈ UPSTREAM_KEYS → bool_decide (k = n) = false) as Hn
      by (intros n Hin; apply bool_decide_eq_false; by intros ->).
    rewrite !Hn by (apply (bool_decide_unpack _); vm_compute; exact I). done. }
  assert (∃ a, advanced_settings form u = Some a ∧ obj_wf printable a ∧
    assoc $"advanced_custom" a = config_value <$> form_config ∧ fld a $"reliability" = fld o0 $"reliability") as (a & -> & Ha & Hadv & Hrel).
  { unfold advanced_settings, form_config.
    assert (assoc $"reliability" u = assoc $"reliability" o0) as Hr
      by (apply Hsame; apply (bool_decide_unpack _); vm_compute; exact I).
    destruct (type_is form CHANNEL_TYPE_ADVANCED_CUSTOM) eqn:Et.
    - destruct (sound_advanced form Hs Et) as [c Ec]. rewrite Ec. eexists. split; [done|]. split.
      { apply assign_wf; [done|by vm_compute|]. apply ok_printable, config_value_ok. by apply (ca_config form o0 Hc). }
      split; [by lookups|]. unfold fld. lookups. by rewrite Hr.
    - eexists. split; [done|]. split; [by apply delete_wf|]. split; [by lookups|]. unfold fld. lookups. by rewrite Hr. }
  cbn [mbind option_bind]. eexists. split; [done|]. unfold reliability_settings. rewrite Hrel. split.
  { apply assign_wf; [done|by vm_compute|]. apply ok_printable, reliability_ok. }
  split; [by lookups|]. lookups. exact Hadv.
Qed.

(** What a reader finds in the text. *)
Definition saved (o1 : object) : Prop :=
  edited_settings form o0 = Some o1 ∧ obj_wf printable o1 ∧
  assoc $"reliability" o1 = Some (VObj (reliability_object form (fld o0 $"reliability"))) ∧
  assoc $"advanced_custom" o1 = config_value <$> form_config.

Lemma saved_fld o1 k : saved o1 → fld (clean_fields o1) k = default VUndefined (jclean <$> assoc k o1).
Proof using. intros (_ & Hw & _). unfold fld. by rewrite (proj2 (clean_fields_ok o1 Hw)). Qed.

Lemma saved_type o1 i k v :
  saved o1 → type_table form !! i = Some (k, v) → fld (clean_fields o1) k = default VUndefined (jclean <$> v).
Proof using.
  intros Ho Hi. rewrite saved_fld by done. destruct Ho as (He & _).
  assert (k ∈ TYPE_KEYS) as Hk.
  { change TYPE_KEYS with (type_table form).*1. apply list_elem_of_fmap. exists (k, v). split; [done|]. by eapply list_elem_of_lookup_2. }
  rewrite (edited_lookup form o0 o1) by (done || (intros ->; revert Hk; apply (bool_decide_unpack _); vm_compute; exact I)).
  rewrite bool_decide_eq_true_2 by done. by rewrite (type_value_at form i k v Hi).
Qed.

Lemma saved_text o1 : saved o1 →
  buildSettingsJSON form = Some (json_text o1) ∧ json_parse (json_text o1) = Some (VObj (clean_fields o1)) ∧
  ∃ s, json_text o1 = 123 :: s.
Proof using Hc.
  intros (He & Hw & _). destruct (json_text_parse o1 Hw) as (Et & Hp & Hb). split; [|by split].
  unfold buildSettingsJSON. rewrite (ca_existing form o0 Hc). cbn [mbind option_bind]. rewrite He. cbn [mbind option_bind]. exact Et.
Qed.

(** ** What the form shows *)

(** The settings of a saved form as it shows them again: what belongs to its
    type as it was, the rest at its default.  The upstream settings of a type
    whose models cannot be fetched are those stored before. *)
Definition reopened_settings : object :=
  let openai := type_in OPENAI_FIELD_PASSTHROUGH_TYPES form in
  let claude := type_in CLAUDE_FIELD_PASSTHROUGH_TYPES form in
  let fetchable := type_in MODEL_FETCHABLE_TYPES form in
  let only b k := VBool (b && is_true (fld form k)) in
  let check := is_true (fld form $"upstream_model_update_check_enabled") in
  [($"vertex_key_type", VStr (if type_is form 41 then str_or (str_of (fld form $"vertex_key_type")) $"json" else $"json"));
   ($"azure_responses_version", VStr (if type_is form 3 then str_of (fld form $"azure_responses_version") else []));
   ($"is_enterprise_account", only (type_is form 20) $"is_enterprise_account");
   ($"aws_key_type", VStr (if type_is form 33 then str_or (str_of (fld form $"aws_key_type")) $"ak_sk" else $"ak_sk"));
   ($"allow_service_tier", only (type_in FIELD_PASSTHROUGH_TYPES form) $"allow_service_tier");
   ($"disable_store", only openai $"disable_store");
   ($"allow_safety_identifier", only openai $"allow_safety_identifier");
   ($"allow_include_obfuscation", only openai $"allow_include_obfuscation");
   ($"allow_inference_geo", only (openai || claude) $"allow_inference_geo");
   ($"allow_speed", only claude $"allow_speed");
   ($"claude_beta_query", only (type_is form 14) $"claude_beta_query");
   ($"disable_task_polling_sleep", flag form $"disable_task_polling_sleep");
   ($"video_protocol", VStr (str_of (fld form $"video_protocol")));
   ($"task_submit_path", VStr (str_of (fld form $"task_submit_path")));
   ($"task_fetch_path", VStr (str_of (fld form $"task_fetch_path")));
   ($"upstream_model_update_check_enabled",
      if fetchable then VBool check else is_flag (VObj o0) $"upstream_model_update_check_enabled");
   ($"upstream_model_update_auto_sync_enabled",
      if fetchable then VBool (check && is_true (fld form $"upstream_model_update_auto_sync_enabled"))
      else is_flag (VObj o0) $"upstream_model_update_auto_sync_enabled");
   ($"upstream_model_update_ignored_models",
      VStr (if fetchable then join [44] (ignored_models form)
            else match fld o0 $"upstream_model_update_ignored_models" with VArr l => value_text (VArr l) | _ => [] end));
   ($"advanced_custom", VStr (from_option stringifyAdvancedCustomConfig [] form_config));
   ($"channel_max_attempts", fld form $"channel_max_attempts");
   ($"auto_ban_threshold", fld form $"auto_ban_threshold");
   ($"auto_ban_duration_minutes", fld form $"auto_ban_duration_minutes");
   ($"streaming_idle_timeout_seconds", fld form $"streaming_idle_timeout_seconds");
   ($"non_streaming_timeout_seconds", fld form $"non_streaming_timeout_seconds")].

Lemma choice_text (l : list jsstr) v d : is_choice l v → val_or v (VStr d) = VStr (str_or (str_of v) d).
Proof using. intros [->|(s & -> & _)]; [done|]. unfold val_or, str_or. cbn [to_boolean str_of]. by case_match. Qed.

Lemma text_or_empty v : is_text_value v → val_or v (VStr []) = VStr (str_of v).
Proof using. intros [->|(s & ->)]; [done|]. unfold val_or. cbn [to_boolean str_of]. by destruct s. Qed.

Lemma only_flag o1 i k kf b :
  saved o1 → type_table form !! i = Some (k, if (b : bool) then Some (flag form kf) else None) →
  is_flag (VObj (clean_fields o1)) k = VBool (b && is_true (fld form kf)).
Proof using.
  intros Ho Hi. unfold is_flag. change (get (VObj (clean_fields o1)) k) with (fld (clean_fields o1) k).
  rewrite (saved_type o1 i k _ Ho Hi). destruct b; [|done]. cbn. by destruct (is_true (fld form kf)).
Qed.

Lemma kept_name o1 k : saved o1 → k ∈ UPSTREAM_KEYS → type_in MODEL_FETCHABLE_TYPES form = false →
  fld (clean_fields o1) k = fld o0 k.
Proof using Hc.
  intros Ho Hk Hf. rewrite saved_fld by done. destruct Ho as (He & _).
  assert (Forall (λ k, k ≠ $"advanced_custom" ∧ k ≠ $"reliability" ∧ bool_decide (k ∈ TYPE_KEYS) = false) UPSTREAM_KEYS) as Hd.
  { apply (bool_decide_unpack _). vm_compute. exact I. }
  rewrite Forall_forall in Hd. destruct (Hd k Hk) as (Ha & Hr & Ht).
  rewrite (edited_lookup form o0 o1 k He Ha Hr), Ht, Hf. unfold fld.
  destruct (assoc k o0) as [v|] eqn:E; [|done]. cbn. apply clean_ok.
  pose proof (ca_stored form o0 Hc) as Hok. apply obj_ok_wf in Hok as (Hv & _). rewrite Forall_forall in Hv.
  apply assoc_elem in E. by apply (Hv (k, v)).
Qed.

Lemma fetched_name o1 k v : saved o1 → k ∈ UPSTREAM_KEYS → type_in MODEL_FETCHABLE_TYPES form = true →
  upstream_value form o0 k = Some v → fld (clean_fields o1) k = jclean v.
Proof using.
  intros Ho Hk Hf Hv. rewrite saved_fld by done. destruct Ho as (He & _).
  assert (Forall (λ k, k ≠ $"advanced_custom" ∧ k ≠ $"reliability" ∧ bool_decide (k ∈ TYPE_KEYS) = false) UPSTREAM_KEYS) as Hd.
  { apply (bool_decide_unpack _). vm_compute. exact I. }
  rewrite Forall_forall in Hd. destruct (Hd k Hk) as (Ha & Hr & Ht).
  by rewrite (edited_lookup form o0 o1 k He Ha Hr), Ht, Hf, Hv.
Qed.

Lemma read_config_back c : config_units c = true →
  jclean (config_value c) = config_value c ∧
  stringifyAdvancedCustomConfig <$> read_config (config_value c) = Some (stringifyAdvancedCustomConfig c).
Proof using.
  intros Hu. split; [by apply clean_ok, config_value_ok|]. unfold read_config, config_value.
  change (get _ $"advanced_routes") with (VArr (route_value <$> default [] (advanced_routes c))).
  cbn iota. rewrite read_routes_of. cbn [mbind option_bind fmap option_fmap option_map]. f_equal.
  unfold stringifyAdvancedCustomConfig, normalizeAdvancedCustomConfig, config_value. cbn [advanced_routes].
  by destruct (advanced_routes c).
Qed.

Lemma form_config_units c : form_config = Some c → config_units c = true.
Proof using Hc. unfold form_config. repeat case_match; intros [= <-]. by apply (ca_config form o0 Hc). Qed.

Lemma saved_advanced o1 : saved o1 →
  (if to_boolean (fld (clean_fields o1) $"advanced_custom")
   then stringifyAdvancedCustomConfig <$> read_config (fld (clean_fields o1) $"advanced_custom") else Some [])
  = Some (from_option stringifyAdvancedCustomConfig [] form_config).
Proof using Hc.
  intros Ho. rewrite saved_fld by done. destruct Ho as (_ & _ & _ & ->).
  destruct form_config as [c|] eqn:E; [|done]. destruct (read_config_back c (form_config_units c E)) as [Hj Hr].
  cbn [fmap option_fmap option_map default from_option]. unfold id. by rewrite Hj.
Qed.

(** The reliability settings. *)
Lemma number_field k : k ∈ SETTING_NUMBERS → ∃ x, fld form k = VNum x.
Proof using Hs. apply (sound_number form Hs). Qed.

Lemma saved_reliability o1 : saved o1 →
  reliability_fields (fld (clean_fields o1) $"reliability") =
    [($"channel_max_attempts", fld form $"channel_max_attempts");
     ($"auto_ban_threshold", fld form $"auto_ban_threshold");
     ($"auto_ban_duration_minutes", fld form $"auto_ban_duration_minutes");
     ($"streaming_idle_timeout_seconds", fld form $"streaming_idle_timeout_seconds");
     ($"non_streaming_timeout_seconds", fld form $"non_streaming_timeout_seconds")].
Proof using Hs Hc.
  intros Ho. rewrite saved_fld by done. destruct Ho as (_ & _ & -> & _).
  set (r := reliability_object form (fld o0 $"reliability")).
  assert (jclean (VObj r) = VObj r) as Hj by apply clean_ok, reliability_ok.
  cbn [fmap option_fmap option_map default from_option]. unfold id. rewrite Hj. unfold reliability_fields.
  change (to_boolean (VObj r) && is_object (VObj r)) with true. cbn iota. unfold ban_minutes.
  assert (get (VObj r) $"max_attempts" = fld form $"channel_max_attempts") as -> by (apply fld_some; subst r; unfold reliability_object; by lookups).
  assert (get (VObj r) $"auto_ban_threshold" = fld form $"auto_ban_threshold") as -> by (apply fld_some; subst r; unfold reliability_object; by lookups).
  assert (get (VObj r) $"auto_ban_duration_seconds" = VNum (num_mul (to_number (fld form $"auto_ban_duration_minutes")) (num_of_Z 60))) as ->
    by (apply fld_some; subst r; unfold reliability_object; by lookups).
  assert (get (VObj r) $"streaming_idle_timeout_seconds" = fld form $"streaming_idle_timeout_seconds") as ->
    by (apply fld_some; subst r; unfold reliability_object; by lookups).
  assert (get (VObj r) $"non_streaming_timeout_seconds" = fld form $"non_streaming_timeout_seconds") as ->
    by (apply fld_some; subst r; unfold reliability_object; by lookups).
  assert (∀ k d, k ∈ SETTING_NUMBERS → nullish (fld form k) d = fld form k) as Hn
    by (intros k d Hk; by destruct (number_field k Hk) as [x ->]).
  rewrite !Hn by (apply (bool_decide_unpack _); vm_compute; exact I).
  cbn [nullish]. cbn [to_number]. do 4 f_equal. 
  pose proof (sound_minutes form Hs) as Hw. destruct (carried_fld form o0 $"auto_ban_duration_minutes" Hc) as [E|Hjs].
  - destruct Hw as (x & E' & _). congruence.
  - destruct (whole_minutes _ Hw Hjs) as (n & Hb & ->). cbn [to_number]. f_equal. by apply minutes_back.
Qed.

Lemma cons_pair {A B} (k : A) (v w : B) l l' : v = w → l = l' → (k, v) :: l = (k, w) :: l'.
Proof using. by intros -> ->. Qed.

(** One path of the task endpoints. *)
Lemma saved_path o1 k kf :
  saved o1 → (k = $"submit_path" ∧ kf = $"task_submit_path" ∨ k = $"fetch_path" ∧ kf = $"task_fetch_path") →
  val_or (get (fld (clean_fields o1) $"task_endpoint_override") k) (VStr []) = VStr (str_of (fld form kf)).
Proof using Hs Hc.
  intros Ho Hk. rewrite (saved_type o1 13 $"task_endpoint_override" _ Ho eq_refl).
  assert (∀ kf, kf ∈ [$"task_submit_path"; $"task_fetch_path"] → is_text_value (fld form kf)) as Ht.
  { intros k' Hk'. apply (sound_text form Hs). revert Hk'. rewrite !elem_of_cons, elem_of_nil.
    intros [->|[->|[]]]; apply (bool_decide_unpack _); vm_compute; exact I. }
  pose proof (Ht $"task_submit_path" ltac:(by left)) as H1.
  pose proof (Ht $"task_fetch_path" ltac:(by right; left)) as H2. clear Ht.
  destruct (fld form $"task_submit_path") as [| | | |s1| |] eqn:E1; try (by destruct H1 as [|[? ?]]);
  destruct (fld form $"task_fetch_path") as [| | | |s2| |] eqn:E2; try (by destruct H2 as [|[? ?]]);
  unfold or_undefined; cbn [to_boolean];
  repeat match goal with |- context [truthy ?s] => is_var s; destruct s as [|? ?]; cbn [truthy] end; cbn [orb];
  destruct Hk as [[-> ->]|[-> ->]]; rewrite ?E1, ?E2; reflexivity.
Qed.

Lemma strings_text ws : value_text (VArr (VStr <$> ws)) = join [44] ws.
Proof using. cbn [value_text]. f_equal. induction ws as [|w ws IH]; [done|]. cbn [fmap list_fmap]. by f_equal. Qed.

Lemma is_true_bool b : is_true (jclean (VBool b)) = b.
Proof using. by destruct b. Qed.

Lemma reread_settings o1 : saved o1 → settings_fields (VStr (json_text o1)) = Some reopened_settings.
Proof using Hs Hc.
  intros Ho. destruct (saved_text o1 Ho) as (_ & Hp & s & Es). unfold settings_fields.
  assert (parsed_settings (VStr (json_text o1)) = VObj (clean_fields o1)) as ->.
  { unfold parsed_settings. cbn [str_of]. rewrite Hp. cbn [to_boolean]. by rewrite Es. }
  cbv zeta. change (get (VObj (clean_fields o1))) with (fld (clean_fields o1)).
  rewrite saved_advanced by done. cbn [mbind option_bind]. f_equal. rewrite saved_reliability by done.
  unfold reopened_settings. cbv zeta. cbn [app].
  repeat apply cons_pair; try reflexivity.
  - rewrite (saved_type o1 0 _ _ Ho eq_refl). destruct (type_is form 41); [|done]. cbn [fmap option_fmap option_map default from_option].
    unfold id. rewrite (choice_text _ _ _ (sound_vertex form Hs)). cbn [jclean].
    unfold val_or, str_or. cbn [to_boolean]. destruct (truthy (str_of _)) eqn:E; cbn [to_boolean]; by rewrite ?E.
  - rewrite (saved_type o1 1 _ _ Ho eq_refl). destruct (type_is form 3); [|done]. cbn [andb].
    destruct (sound_text form Hs $"azure_responses_version") as [->|[t ->]];
      [apply (bool_decide_unpack _); vm_compute; exact I|done|]. cbn [to_boolean str_of]. destruct t as [|c t]; [done|]. reflexivity.
  - exact (only_flag o1 2 _ _ _ Ho eq_refl).
  - rewrite (saved_type o1 3 _ _ Ho eq_refl). destruct (type_is form 33); [|done]. cbn [fmap option_fmap option_map default from_option].
    unfold id. rewrite (choice_text _ _ _ (sound_aws form Hs)). cbn [jclean].
    unfold val_or, str_or. cbn [to_boolean]. destruct (truthy (str_of _)) eqn:E; cbn [to_boolean]; by rewrite ?E.
  - exact (only_flag o1 4 _ _ _ Ho eq_refl).
  - exact (only_flag o1 5 _ _ _ Ho eq_refl).
  - exact (only_flag o1 6 _ _ _ Ho eq_refl).
  - exact (only_flag o1 7 _ _ _ Ho eq_refl).
  - exact (only_flag o1 8 _ _ _ Ho eq_refl).
  - exact (only_flag o1 9 _ _ _ Ho eq_refl).
  - exact (only_flag o1 10 _ _ _ Ho eq_refl).
  - exact (only_flag o1 11 _ _ true Ho eq_refl).
  - rewrite (saved_type o1 12 _ _ Ho eq_refl).
    destruct (sound_video form Hs) as [->|(t & -> & Ht)]; [done|]. revert Ht. rewrite !elem_of_cons, elem_of_nil.
    intros [->|[->|[->|[]]]]; vm_compute; reflexivity.
  - apply saved_path; [done|by left].
  - apply saved_path; [done|by right].
  - destruct (type_in MODEL_FETCHABLE_TYPES form) eqn:E.
    + unfold is_flag. change (get (VObj (clean_fields o1))) with (fld (clean_fields o1)).
      erewrite fetched_name; [|done|apply (bool_decide_unpack _); vm_compute; exact I|done|unfold upstream_value; key_tests; reflexivity].
      by rewrite is_true_bool.
    + unfold is_flag. change (get (VObj (clean_fields o1))) with (fld (clean_fields o1)).
      by rewrite kept_name by (done || (apply (bool_decide_unpack _); vm_compute; exact I)).
  - destruct (type_in MODEL_FETCHABLE_TYPES form) eqn:E.
    + unfold is_flag. change (get (VObj (clean_fields o1))) with (fld (clean_fields o1)).
      erewrite fetched_name; [|done|apply (bool_decide_unpack _); vm_compute; exact I|done|unfold upstream_value; key_tests; reflexivity].
      by rewrite is_true_bool.
    + unfold is_flag. change (get (VObj (clean_fields o1))) with (fld (clean_fields o1)).
      by rewrite kept_name by (done || (apply (bool_decide_unpack _); vm_compute; exact I)).
  - destruct (type_in MODEL_FETCHABLE_TYPES form) eqn:E.
    + erewrite fetched_name; [|done|apply (bool_decide_unpack _); vm_compute; exact I|done|unfold upstream_value; key_tests; reflexivity].
      rewrite clean_ok by apply ignored_ok. f_equal. apply strings_text.
    + by rewrite kept_name by (done || (apply (bool_decide_unpack _); vm_compute; exact I)).
Qed.
End Saved.
