(* ===== verification/ChannelRoundtrip.v ===== *)
(** * Saving a reopened channel

    Both JSON texts of a channel under a second save, and the theorems about
    whole channels: [saved_channel_reopens], [reopened_save_identical],
    [foreign_settings_kept] and [sensitive_fields_withheld]. *)

From S2P Require Import Prelude JsString JsText JsNumber NumberText Rounding Regex JsValue Json JsMath OrderedMap JsObject.
From S2P Require Import AuthStore AdvancedCustom AdvancedCustomFacts AdvancedCustomText Redirects ChannelForm ChannelSchema.
From S2P Require Import ChannelFormFacts ChannelReopen.

Local Open Scope Z_scope.
Local Open Scope js_scope.

(** ** The [setting] text *)

Section Setting.
Context {TE : TextEnv} {TL : TextLaws TE} (form o0 : object) (Hs : sound form) (Hc : carried form o0).

Lemma protocol_text v : is_choice [$"auto"; $"http1"] v →
  normalizeHttpProtocol v = if eq_str v $"http1" then $"http1" else $"auto".
Proof using TL.
  unfold normalizeHttpProtocol. intros [->|(s & -> & Hin)].
  - change (val_or VUndefined (VStr [])) with (VStr []). cbn [value_text eq_str]. change (trim []) with (@nil Z).
    by rewrite lower_ascii.
  - revert Hin. rewrite !elem_of_cons, elem_of_nil. intros [->|[->|[]]].
    + change (val_or (VStr $"auto") (VStr [])) with (VStr $"auto"). cbn [value_text eq_str].
      change (trim $"auto") with $"auto". by rewrite lower_ascii.
    + change (val_or (VStr $"http1") (VStr [])) with (VStr $"http1"). cbn [value_text eq_str].
      change (trim $"http1") with $"http1". by rewrite lower_ascii.
Qed.

(** The connection of the form. *)
Definition http1 (f : object) : bool := eq_str (fld f $"http_protocol") $"http1".
Definition shard_count (f : object) : value :=
  if http1 f then VNum (num_of_Z 1) else nullish (fld f $"http2_connection_shards") (VNum (num_of_Z 1)).

Lemma shards_kept v : v = VUndefined ∨ whole_between 1 8 v →
  normalizeHttp2ConnectionShards v = nullish v (VNum (num_of_Z 1)).
Proof using.
  intros [->|(x & -> & Hi & H1 & H8)]; [done|]. unfold normalizeHttp2ConnectionShards. cbn [is_nullish orb nullish to_number].
  assert (x ≠ nan) as Hx by by intros ->.
  assert (num_ltb x (num_of_Z 1) = false) as -> by (rewrite num_ltb_leb by done; by rewrite H1).
  assert (num_ltb (num_of_Z MAX_HTTP2_CONNECTION_SHARDS) x = false) as -> by (unfold MAX_HTTP2_CONNECTION_SHARDS; rewrite num_ltb_leb by done; by rewrite H8).
  replace (num_eqb x (S754_zero false) || _) with false; [done|]. symmetry. apply orb_false_iff. split; [|by destruct x].
  destruct x as [[]| | |[] m e]; done.
Qed.

(** A whole number of shards that is not above one is one. *)
Lemma one_shard : num_ltb (num_of_Z 1) (to_number (shard_count form)) = false → shard_count form = VNum (num_of_Z 1).
Proof using Hs Hc.
  unfold shard_count. destruct (http1 form); [done|].
  destruct (sound_shards form Hs) as [->|Hw]; [done|].
  destruct (carried_fld form o0 $"http2_connection_shards" Hc) as [->|Hj]; [done|].
  destruct Hw as (x & E & Hi & H1 & H8). rewrite E in *. cbn [nullish to_number].
  cbn [json_ok] in Hj. rewrite !andb_true_iff in Hj. destruct Hj as [[_ Hv] _].
  destruct (whole_small x Hv Hi H1) as (n & Hn & ->); [eapply num_leb_trans; [exact H8|reflexivity]|].
  assert (Forall (λ n, num_ltb (num_of_Z 1) (num_of_Z n) = true ∨ n = 1) minute_values) as H.
  { apply (bool_decide_unpack _). vm_compute. exact I. }
  rewrite Forall_forall in H. destruct (H n) as [Hlt| ->]; [apply elem_of_seqZ; lia|congruence|done].
Qed.

(** The fields of the setting as the form shows them again. *)
Definition reopened_extra : object :=
  [($"force_format", flag form $"force_format"); ($"thinking_to_content", flag form $"thinking_to_content");
   ($"proxy", VStr (trimmed (fld form $"proxy")));
   ($"http_protocol", VStr (if http1 form then $"http1" else $"auto"));
   ($"http2_connection_shards", shard_count form);
   ($"pass_through_body_enabled", flag form $"pass_through_body_enabled");
   ($"system_prompt", VStr (str_of (fld form $"system_prompt")));
   ($"system_prompt_override", flag form $"system_prompt_override")].

Lemma flag_or v : is_flag_value v → val_or v (VBool false) = VBool (is_true v).
Proof using. intros [->|[[] ->]]; done. Qed.

Definition base_object (f : object) : object :=
  [($"force_format", flag f $"force_format"); ($"thinking_to_content", flag f $"thinking_to_content");
   ($"proxy", VStr (trimmed (fld f $"proxy"))); ($"pass_through_body_enabled", flag f $"pass_through_body_enabled");
   ($"system_prompt", VStr (str_of (fld f $"system_prompt"))); ($"system_prompt_override", flag f $"system_prompt_override")].

(** The connection is written only when it is not the default. *)
Definition with_connection (f : object) (o : object) : object :=
  if http1 f then obj_assign o ($"http_protocol", VStr $"http1")
  else if num_ltb (num_of_Z 1) (to_number (shard_count f)) then obj_assign o ($"http2_connection_shards", shard_count f)
  else o.

Lemma setting_object_of (f : object) : sound f → setting_object f = with_connection f (base_object f).
Proof using TL.
  intros Hf. unfold setting_object. cbv zeta.
  rewrite !flag_or by (apply (sound_flag f Hf); apply (bool_decide_unpack _); vm_compute; exact I).
  rewrite text_or_empty by (apply (sound_text f Hf); apply (bool_decide_unpack _); vm_compute; exact I).
  rewrite (protocol_text _ (sound_protocol f Hf)), (shards_kept _ (sound_shards f Hf)).
  fold (http1 f) (base_object f). unfold with_connection, shard_count, HTTP_PROTOCOL_HTTP1.
  destruct (http1 f); key_tests; done.
Qed.

Lemma base_keys f : (base_object f).*1 =
  [$"force_format"; $"thinking_to_content"; $"proxy"; $"pass_through_body_enabled"; $"system_prompt"; $"system_prompt_override"].
Proof using. done. Qed.

Lemma setting_ok : obj_ok (setting_object form).
Proof using TL Hs Hc.
  rewrite (setting_object_of form Hs). apply obj_ok_wf.
  assert (obj_wf (λ v, json_ok v = true) (base_object form)) as Hb.
  { unfold obj_wf. rewrite base_keys. split; [|split; apply (bool_decide_unpack _); vm_compute; exact I].
    assert (∀ k, k ∈ SETTING_TEXTS → json_ok (VStr (str_of (fld form k))) = true) as Ht.
    { intros k Hk. destruct (carried_fld form o0 k Hc) as [->|Hj]; [done|].
      destruct (sound_text form Hs k Hk) as [->|[s E]]; [done|]. by rewrite E in *. }
    assert (json_ok (VStr (trimmed (fld form $"proxy"))) = true) as Hp.
    { apply forallb_trim. apply Ht. apply (bool_decide_unpack _); vm_compute; exact I. }
    unfold base_object. repeat (apply Forall_cons; split; [split; [by vm_compute|]|]); try done.
    apply Ht. apply (bool_decide_unpack _); vm_compute; exact I. }
  unfold with_connection. destruct (http1 form) eqn:Eh; [apply assign_wf; [done|by vm_compute|by vm_compute]|].
  destruct (num_ltb _ _) eqn:El; [|done]. apply assign_wf; [done|by vm_compute|].
  unfold shard_count. rewrite Eh. destruct (carried_fld form o0 $"http2_connection_shards" Hc) as [->|Hj]; [by vm_compute|].
  destruct (sound_shards form Hs) as [->|(x & E & _)]; [by vm_compute|]. by rewrite E in *.
Qed.

Lemma connection_lookup o k :
  assoc k (with_connection form o) =
    if bool_decide (k = $"http_protocol") && http1 form then Some (VStr $"http1")
    else if bool_decide (k = $"http2_connection_shards") && negb (http1 form) && num_ltb (num_of_Z 1) (to_number (shard_count form))
    then Some (shard_count form) else assoc k o.
Proof using.
  unfold with_connection. destruct (http1 form); cbn [negb].
  - rewrite assoc_assign, !andb_false_r, andb_true_r. by case_bool_decide.
  - rewrite andb_false_r, andb_true_r. destruct (num_ltb _ _); [|by rewrite andb_false_r].
    rewrite assoc_assign, andb_true_r. by case_bool_decide.
Qed.

Lemma reread_protocol : normalizeHttpProtocol (if http1 form then VStr $"http1" else VUndefined) = if http1 form then $"http1" else $"auto".
Proof using TL.
  rewrite protocol_text; [by destruct (http1 form)|].
  destruct (http1 form); [right; exists $"http1"; split; [done|by right; left]|by left].
Qed.

Lemma reread_shards :
  (if bool_decide ((if http1 form then $"http1" else $"auto") = HTTP_PROTOCOL_HTTP1) then VNum (num_of_Z 1)
   else normalizeHttp2ConnectionShards
     (if negb (http1 form) && num_ltb (num_of_Z 1) (to_number (shard_count form)) then shard_count form else VUndefined))
  = shard_count form.
Proof using Hs Hc.
  pose proof one_shard as H1. unfold HTTP_PROTOCOL_HTTP1.
  destruct (http1 form) eqn:Eh; key_tests; [unfold shard_count; by rewrite Eh|]. cbn [negb andb].
  destruct (num_ltb _ _) eqn:El; [|by rewrite H1].
  unfold shard_count. rewrite Eh. destruct (sound_shards form Hs) as [E|Hsh]; [by rewrite E|].
  destruct Hsh as (x & E & Hx). rewrite E. cbn [nullish]. rewrite shards_kept; [done|]. right. by exists x.
Qed.

Lemma setting_text : json_parse (buildSettingJSON form) = Some (VObj (setting_object form)) ∧ truthy (buildSettingJSON form) = true.
Proof using TL Hs Hc.
  pose proof setting_ok as Hok. pose proof (proj1 (obj_ok_wf _) Hok) as Hw.
  apply (obj_wf_impl _ printable) in Hw; [|apply ok_printable].
  destruct (json_text_parse _ Hw) as (_ & Hp & s & Es). change (json_text (setting_object form)) with (buildSettingJSON form) in *.
  split; [|by rewrite Es]. rewrite Hp. f_equal. exact (clean_ok (VObj (setting_object form)) Hok).
Qed.

Lemma reread_setting : extraSettings (VStr (buildSettingJSON form)) = reopened_extra.
Proof using TL Hs Hc.
  destruct setting_text as [Hp Ht]. unfold extraSettings. cbn [to_boolean str_of]. rewrite Ht, Hp. cbn [negb]. cbv zeta.
  change (get (VObj (setting_object form))) with (fld (setting_object form)). rewrite (setting_object_of form Hs).
  set (o := with_connection form (base_object form)).
  assert (fld o $"http_protocol" = if http1 form then VStr $"http1" else VUndefined) as ->.
  { unfold fld. subst o. rewrite connection_lookup. key_tests. cbn [andb]. by destruct (http1 form). }
  assert (fld o $"http2_connection_shards" =
    if negb (http1 form) && num_ltb (num_of_Z 1) (to_number (shard_count form)) then shard_count form else VUndefined) as ->.
  { unfold fld. subst o. rewrite connection_lookup. key_tests. cbn [andb]. by destruct (negb _ && _). }
  assert (∀ i k v, base_object form !! i = Some (k, v) → fld o k = v) as Hb.
  { intros i k v Hi. apply fld_some. subst o. rewrite connection_lookup.
    assert (NoDup (base_object form).*1 ∧ Forall (λ k, bool_decide (k = $"http_protocol") = false ∧
      bool_decide (k = $"http2_connection_shards") = false) (base_object form).*1) as [Hn Hf].
    { rewrite base_keys. split; apply (bool_decide_unpack _); vm_compute; exact I. }
    rewrite Forall_forall in Hf. destruct (Hf k) as [-> ->].
    { apply list_elem_of_fmap. exists (k, v). split; [done|]. by eapply list_elem_of_lookup_2. }
    cbn [andb]. apply assoc_in; [done|]. by eapply list_elem_of_lookup_2. }
  rewrite (Hb 0%nat $"force_format" _ eq_refl), (Hb 1%nat $"thinking_to_content" _ eq_refl), (Hb 2%nat $"proxy" _ eq_refl),
    (Hb 3%nat $"pass_through_body_enabled" _ eq_refl), (Hb 4%nat $"system_prompt" _ eq_refl), (Hb 5%nat $"system_prompt_override" _ eq_refl).
  rewrite reread_protocol, reread_shards. unfold reopened_extra.
  assert (∀ k, val_or (flag form k) (VBool false) = flag form k) as Hf by (intros k; unfold flag, val_or; by destruct (is_true _)).
  assert (∀ w, val_or (VStr w) (VStr []) = VStr w) as Hw by (intros [|]; reflexivity).
  by rewrite !Hf, !Hw.
Qed.
End Setting.

(** ** The [settings] text *)

Section Settings.
Context (form o0 : object) (Hs : sound form) (Hc : carried form o0) (o1 : object) (Ho : saved form o0 o1).

(** A form with the same type that shows the saved settings. *)
Context (d : object) (Htype : fld d $"type" = fld form $"type").
Context (Hshow : ∀ k v, (k, v) ∈ reopened_settings form o0 → fld d k = v).

Let o' := clean_fields o1.

Lemma shown i k v : reopened_settings form o0 !! i = Some (k, v) → fld d k = v.
Proof using Hshow. intros Hi. apply Hshow. by eapply list_elem_of_lookup_2. Qed.

Lemma same_type n : type_is d n = type_is form n.
Proof using Htype. unfold type_is. by rewrite Htype. Qed.

Lemma same_types l : type_in l d = type_in l form.
Proof using Htype. unfold type_in. induction l as [|n l IH]; [done|]. cbn [existsb]. by rewrite same_type, IH. Qed.

Lemma read_back k : assoc k o' = jclean <$> assoc k o1.
Proof using Ho. subst o'. destruct Ho as (_ & Hw & _). apply (clean_fields_ok o1 Hw). Qed.

Lemma read_NoDup : NoDup o'.*1.
Proof using Ho. destruct Ho as (_ & Hw & _). destruct (clean_fields_ok o1 Hw) as [Hok _]. by apply obj_ok_wf in Hok as (_ & ? & _). Qed.

Lemma read_type i k v : type_table form !! i = Some (k, v) → assoc k o' = jclean <$> v.
Proof using Ho.
  intros Hi. rewrite read_back. destruct Ho as (He & _).
  assert (k ∈ TYPE_KEYS) as Hk.
  { change TYPE_KEYS with (type_table form).*1. apply list_elem_of_fmap. exists (k, v). split; [done|]. by eapply list_elem_of_lookup_2. }
  rewrite (edited_lookup form o0 o1) by (done || (intros ->; revert Hk; apply (bool_decide_unpack _); vm_compute; exact I)).
  rewrite bool_decide_eq_true_2 by done. by rewrite (type_value_at form i k v Hi).
Qed.

Lemma set_if_same b k v : assoc k o' = (if (b : bool) then Some v else None) → set_if b k v o' = o'.
Proof using Ho. intros Ha. unfold set_if. destruct b; [apply assign_present; [apply read_NoDup|done]|by apply delete_absent]. Qed.

(** A flag that is kept only for some types. *)
Lemma flag_same i j k kf (b : bool) :
  type_table form !! i = Some (k, if b then Some (flag form kf) else None) →
  reopened_settings form o0 !! j = Some (kf, VBool (b && is_true (fld form kf))) →
  set_if b k (flag d kf) o' = o'.
Proof using Ho Hshow.
  intros Hi Hj. apply set_if_same. rewrite (read_type i k _ Hi). destruct b; [|done].
  unfold flag. rewrite (shown j kf _ Hj). cbn. by destruct (is_true _).
Qed.

Lemma type_settings_same : type_settings d o' = o'.
Proof using Hs Ho Htype Hshow.
  unfold type_settings. cbv zeta. rewrite !same_type.
  rewrite (shown 0 $"vertex_key_type" _ eq_refl), (shown 1 $"azure_responses_version" _ eq_refl), (shown 3 $"aws_key_type" _ eq_refl).
  assert (∀ w, val_or (VStr w) (VStr $"json") = VStr (str_or w $"json") ∧ val_or (VStr w) (VStr $"ak_sk") = VStr (str_or w $"ak_sk")) as Hv.
  { intros w. unfold val_or, str_or. cbn [to_boolean]. by destruct (truthy w). }
  assert (∀ w e : jsstr, e ≠ [] → str_or (str_or w e) e = str_or w e) as Hor.
  { intros w e He. unfold str_or. destruct (truthy w) eqn:E; [by rewrite E|]. by destruct (truthy e). }
  rewrite (set_if_same _ $"vertex_key_type").
  2:{ rewrite (read_type 0 _ _ eq_refl). destruct (type_is form 41); [|done]. cbn [fmap option_fmap option_map].
      rewrite (choice_text _ _ _ (sound_vertex form Hs)). cbn [jclean]. rewrite (proj1 (Hv _)). f_equal. f_equal. by rewrite Hor. }
  rewrite (set_if_same _ $"azure_responses_version").
  2:{ rewrite (read_type 1 _ _ eq_refl). destruct (type_is form 3); [|done]. cbn [andb].
      destruct (sound_text form Hs $"azure_responses_version") as [->|[t ->]];
        [apply (bool_decide_unpack _); vm_compute; exact I|done|]. cbn [to_boolean str_of]. by destruct (truthy t). }
  rewrite (flag_same 2 2 $"openrouter_enterprise" $"is_enterprise_account" (type_is form 20) eq_refl eq_refl).
  apply set_if_same. rewrite (read_type 3 _ _ eq_refl). destruct (type_is form 33); [|done]. cbn [fmap option_fmap option_map].
  rewrite (choice_text _ _ _ (sound_aws form Hs)). cbn [jclean]. rewrite (proj2 (Hv _)). f_equal. f_equal. by rewrite Hor.
Qed.

Lemma passthrough_settings_same : passthrough_settings d o' = o'.
Proof using Ho Htype Hshow.
  unfold passthrough_settings. cbv zeta. rewrite !same_type, !same_types.
  rewrite (flag_same 4 4 _ _ (type_in FIELD_PASSTHROUGH_TYPES form) eq_refl eq_refl).
  rewrite (flag_same 5 5 _ _ (type_in OPENAI_FIELD_PASSTHROUGH_TYPES form) eq_refl eq_refl).
  rewrite (flag_same 6 6 _ _ (type_in OPENAI_FIELD_PASSTHROUGH_TYPES form) eq_refl eq_refl).
  rewrite (flag_same 7 7 _ _ (type_in OPENAI_FIELD_PASSTHROUGH_TYPES form) eq_refl eq_refl).
  rewrite (flag_same 8 8 _ _ (type_in OPENAI_FIELD_PASSTHROUGH_TYPES form || type_in CLAUDE_FIELD_PASSTHROUGH_TYPES form) eq_refl eq_refl).
  rewrite (flag_same 9 9 _ _ (type_in CLAUDE_FIELD_PASSTHROUGH_TYPES form) eq_refl eq_refl).
  exact (flag_same 10 10 _ _ (type_is form 14) eq_refl eq_refl).
Qed.

(** The paths are written with undefined ones, which the text leaves out. *)
Lemma clean_assign k v : k ∈ o'.*1 → v ≠ VUndefined → jclean <$> assoc k o' = Some (jclean v) → clean_fields (obj_assign o' (k, v)) = o'.
Proof using Ho.
  intros Hk Hv Ha. destruct Ho as (_ & Hw & _). destruct (clean_fields_ok o1 Hw) as [Hok _]. fold o' in Hok.
  apply obj_ok_wf in Hok as (Hvals & Hn & _).
  assert (Forall (λ kv, kv.2 ≠ VUndefined) o') as Hu by (eapply Forall_impl; [exact Hvals|]; intros [k2 []] [_ ?]; done).
  assert (∀ k2 x, (k2, x) ∈ o' → jclean x = x) as Hcl.
  { intros k2 x Hin. rewrite Forall_forall in Hvals. apply clean_ok. by apply (Hvals (k2, x)). }
  unfold obj_assign. cbn [fst snd]. rewrite bool_decide_eq_true_2 by done.
  rewrite clean_fields_map.
  - rewrite <- (list_fmap_id o') at 2. rewrite <- list_fmap_compose. apply list_fmap_ext. intros i [k2 x] Hi. cbn [compose fst].
    apply list_elem_of_lookup_2 in Hi. case_bool_decide as E; cbn [fst snd]; [|by rewrite (Hcl k2 x Hi)].
    subst k2. rewrite (assoc_in k x o' Hn Hi) in Ha. cbn [fmap option_fmap option_map] in Ha. injection Ha as Ha. rewrite <- Ha. by rewrite (Hcl k x Hi).
  - rewrite Forall_forall in *. intros [k2 x] ([k3 y] & E & Hin)%list_elem_of_fmap. cbn [fst] in E. specialize (Hu _ Hin).
    cbn [snd] in *. by case_bool_decide; simplify_eq.
Qed.

Lemma task_settings_same :
  clean_fields (task_settings d o') = o' ∧ NoDup (task_settings d o').*1 ∧
  ∀ k, k ≠ $"task_endpoint_override" → assoc k (task_settings d o') = assoc k o'.
Proof using Hs Hc Ho Hshow.
  pose proof (flag_same 11 11 $"disable_task_polling_sleep" _ true eq_refl eq_refl) as E. unfold set_if in E.
  unfold task_settings. cbv zeta. rewrite E. clear E.
  rewrite (shown 12 $"video_protocol" _ eq_refl), (shown 13 $"task_submit_path" _ eq_refl), (shown 14 $"task_fetch_path" _ eq_refl).
  rewrite (set_if_same _ $"video_protocol").
  2:{ rewrite (read_type 12 _ _ eq_refl). destruct (sound_video form Hs) as [->|(t & -> & _)]; [done|].
      cbn [to_boolean str_of]. by destruct (truthy t). }
  assert (∀ kf, kf ∈ [$"task_submit_path"; $"task_fetch_path"] → is_text_value (fld form kf)) as Ht.
  { intros k' Hk'. apply (sound_text form Hs). revert Hk'. rewrite !elem_of_cons, elem_of_nil.
    intros [->|[->|[]]]; apply (bool_decide_unpack _); vm_compute; exact I. }
  pose proof (read_type 13 _ _ eq_refl) as Hr.
  set (b := to_boolean (VStr (str_of (fld form $"task_submit_path"))) || to_boolean (VStr (str_of (fld form $"task_fetch_path")))).
  set (V := VObj _).
  assert (assoc $"task_endpoint_override" o' = if b then Some (jclean V) else None) as Hv.
  { rewrite Hr. subst b V.
    destruct (Ht $"task_submit_path" ltac:(by left)) as [->|[s1 ->]]; destruct (Ht $"task_fetch_path" ltac:(by right; left)) as [->|[s2 ->]];
      unfold or_undefined; cbn [to_boolean str_of];
      repeat match goal with |- context [truthy ?s] => is_var s; destruct s as [|? ?]; cbn [truthy] end; reflexivity. }
  unfold set_if. destruct b.
  - assert ($"task_endpoint_override" ∈ o'.*1) as Hin.
    { apply assoc_elem in Hv. apply list_elem_of_fmap. exists ($"task_endpoint_override", jclean V). split; [reflexivity|exact Hv]. }
    assert (jclean (jclean V) = jclean V) as Hj.
    { pose proof (override_ok form o0 Hs Hc) as [_ Hok]. apply clean_ok. subst V.
      destruct (Ht $"task_submit_path" ltac:(by left)) as [E1|[s1 E1]]; destruct (Ht $"task_fetch_path" ltac:(by right; left)) as [E2|[s2 E2]];
        rewrite E1, E2 in *; exact Hok. }
    split; [apply clean_assign; [done|done|by rewrite Hv; cbn [fmap option_fmap option_map]; rewrite Hj]|].
    split; [|intros k Hk; by rewrite assoc_assign, bool_decide_eq_false_2].
    unfold obj_assign. cbn [fst snd]. rewrite bool_decide_eq_true_2 by done. rewrite <- list_fmap_compose.
    erewrite list_fmap_ext; [apply read_NoDup|]. intros i [k x] _. cbn [compose fst]. by case_bool_decide.
  - rewrite delete_absent by done. split; [|split; [apply read_NoDup|done]].
    destruct Ho as (_ & Hw & _). destruct (clean_fields_ok o1 Hw) as [Hok _].
    pose proof (clean_ok (VObj o') Hok) as E. by injection E.
Qed.
(** The remaining steps leave an object alone that agrees with the text outside
    the paths. *)
Context (t : object) (Hnd : NoDup t.*1) (Ht : ∀ k, k ≠ $"task_endpoint_override" → assoc k t = assoc k o').

Lemma assign_same k v : k ≠ $"task_endpoint_override" → assoc k o' = Some v → obj_assign t (k, v) = t.
Proof using Hnd Ht. intros Hk Hv. apply assign_present; [done|]. by rewrite Ht. Qed.

Lemma read_upstream k v :
  type_in MODEL_FETCHABLE_TYPES form = true → k ∈ UPSTREAM_KEYS → upstream_value form o0 k = Some v → assoc k o' = Some (jclean v).
Proof using Ho.
  intros Hf Hk Hv. rewrite read_back. destruct Ho as (He & _).
  assert (Forall (λ k, k ≠ $"advanced_custom" ∧ k ≠ $"reliability" ∧ bool_decide (k ∈ TYPE_KEYS) = false) UPSTREAM_KEYS) as Hd.
  { apply (bool_decide_unpack _). vm_compute. exact I. }
  rewrite Forall_forall in Hd. destruct (Hd k Hk) as (Ha & Hr & Hy).
  by rewrite (edited_lookup form o0 o1 k He Ha Hr), Hy, Hf, Hv.
Qed.

Lemma stored_clean k : jclean (fld o0 k) = fld o0 k.
Proof using Hc.
  pose proof (ca_stored form o0 Hc) as Hok. apply obj_ok_wf in Hok as (Hv & _).
  apply (fld_value (λ v, jclean v = v)); [done|]. eapply Forall_impl; [exact Hv|]. intros kv [_ ?]. by apply clean_ok.
Qed.

Ltac upstream_key := apply (bool_decide_unpack _); vm_compute; exact I.

Lemma upstream_settings_same : upstream_settings d t = t.
Proof using Hs Hc Ho Htype Hshow Hnd Ht.
  unfold upstream_settings. rewrite same_types. destruct (type_in MODEL_FETCHABLE_TYPES form) eqn:Hf; [|done]. cbv zeta.
  set (check := is_true (fld form $"upstream_model_update_check_enabled")).
  assert (fld d $"upstream_model_update_check_enabled" = VBool check) as ->.
  { rewrite (shown 15 $"upstream_model_update_check_enabled" _ eq_refl). by rewrite Hf. }
  assert (fld d $"upstream_model_update_auto_sync_enabled" = VBool (check && is_true (fld form $"upstream_model_update_auto_sync_enabled"))) as ->.
  { rewrite (shown 16 $"upstream_model_update_auto_sync_enabled" _ eq_refl). by rewrite Hf. }
  assert (ignored_models d = ignored_models form) as ->.
  { unfold ignored_models at 1. rewrite (shown 17 $"upstream_model_update_ignored_models" _ eq_refl), Hf.
    assert (∀ w, value_text (val_or (VStr w) (VStr [])) = w) as Hw by by intros [|].
    rewrite Hw. unfold ignored_models.
    assert (∀ l, Forall part l → os_of_list (comma_parts (join [44] (os_of_list l))) = os_of_list l) as Hi.
    { intros l Hl. rewrite comma_parts_join.
      - apply os_of_list_id. apply os_of_list_NoDup.
      - rewrite Forall_forall in *. intros w Hin. apply Hl. by rewrite elem_of_os_of_list in Hin. }
    apply Hi, comma_parts_spec. }
  assert (∀ b, is_true (VBool b) = b) as Hb by by intros [].
  assert (check && (check && is_true (fld form $"upstream_model_update_auto_sync_enabled")) = check && is_true (fld form $"upstream_model_update_auto_sync_enabled")) as Hcc
    by (by destruct check). rewrite !Hb, Hcc.
  rewrite (assign_same $"upstream_model_update_check_enabled").
  2:{ vm_compute. discriminate. }
  2:{ rewrite (read_upstream _ (VBool check)); [done|done|upstream_key|]. unfold upstream_value. by key_tests. }
  rewrite (assign_same $"upstream_model_update_auto_sync_enabled").
  2:{ vm_compute. discriminate. }
  2:{ erewrite read_upstream; [|done|upstream_key|unfold upstream_value; key_tests; reflexivity]. done. }
  rewrite (assign_same $"upstream_model_update_ignored_models").
  2:{ vm_compute. discriminate. }
  2:{ erewrite read_upstream; [|done|upstream_key|unfold upstream_value; key_tests; reflexivity]. f_equal.
      apply clean_ok. exact (ignored_ok form o0 Hs Hc). }
  assert (∀ k v, k ≠ $"task_endpoint_override" → assoc k o' = Some v → fld t k = v) as Hfld.
  { intros k v Hk Hv. apply fld_some. by rewrite Ht. }
  rewrite (Hfld $"upstream_model_update_check_enabled" (VBool check)).
  2:{ vm_compute. discriminate. }
  2:{ rewrite (read_upstream _ (VBool check)); [done|done|upstream_key|]. unfold upstream_value. by key_tests. }
  rewrite Hb.
  assert (assoc $"upstream_model_update_last_detected_models" o' = Some (jclean (if is_array (fld o0 $"upstream_model_update_last_detected_models") && check
    then fld o0 $"upstream_model_update_last_detected_models" else VArr []))) as Hld.
  { apply read_upstream; [done|upstream_key|]. unfold upstream_value. by key_tests. }
  assert (assoc $"upstream_model_update_last_check_time" o' = Some (jclean (if is_number (fld o0 $"upstream_model_update_last_check_time")
    then fld o0 $"upstream_model_update_last_check_time" else VNum (num_of_Z 0)))) as Hlt.
  { apply read_upstream; [done|upstream_key|]. unfold upstream_value. by key_tests. }
  assert ((if negb (is_array (fld t $"upstream_model_update_last_detected_models")) || negb check
    then obj_assign t ($"upstream_model_update_last_detected_models", VArr []) else t) = t) as ->.
  { rewrite (Hfld $"upstream_model_update_last_detected_models" _ ltac:(vm_compute; discriminate) Hld).
    destruct (is_array (fld o0 $"upstream_model_update_last_detected_models")) eqn:Ea; destruct check; cbn [andb] in *;
      rewrite ?stored_clean, ?Ea in *; cbn [negb orb]; try done.
    all: cbn [is_array jclean fmap list_fmap negb orb]; try done.
    all: apply assign_same; [vm_compute; discriminate|exact Hld]. }
  rewrite (Hfld $"upstream_model_update_last_check_time" _ ltac:(vm_compute; discriminate) Hlt).
  destruct (is_number (fld o0 $"upstream_model_update_last_check_time")) eqn:En; [by rewrite stored_clean, En|].
  done.
Qed.
Lemma form_config_normal c : form_config form = Some c → normalizeAdvancedCustomConfig c = c.
Proof using.
  unfold form_config. destruct (type_is _ _); [|done]. destruct (parseAdvancedCustomConfig _) as [|c'|] eqn:E; intros [= <-].
  unfold parseAdvancedCustomConfig in E. repeat case_match; simplify_eq. apply normalize_config_idem.
Qed.

Lemma advanced_settings_same : advanced_settings d t = Some t.
Proof using Hs Hc Ho Htype Hshow Hnd Ht.
  assert (assoc $"advanced_custom" o' = config_value <$> form_config form) as Ha.
  { rewrite read_back. destruct Ho as (_ & _ & _ & ->). destruct (form_config form) as [c|] eqn:E; [|done].
    cbn [fmap option_fmap option_map]. f_equal. apply read_config_back. by eapply form_config_units. }
  unfold advanced_settings. rewrite same_type. pose proof (shown 18 $"advanced_custom" _ eq_refl) as ->. cbn [opt_str].
  pose proof form_config_normal as Hnorm. pose proof (form_config_units form o0 Hc) as Hu. unfold form_config in *.
  destruct (type_is form CHANNEL_TYPE_ADVANCED_CUSTOM) eqn:Et.
  - destruct (sound_advanced form Hs Et) as [c Ec]. rewrite Ec in *. cbn [from_option].
    destruct (config_text c (Hu c eq_refl)) as (text & -> & Htr & Hp).
    assert (parseAdvancedCustomConfig (Some text) = Parsed c) as ->.
    { unfold parseAdvancedCustomConfig. rewrite Htr, Hp. cbn [negb]. rewrite (Hnorm c eq_refl). unfold config_value, read_config.
      change (get _ $"advanced_routes") with (VArr (route_value <$> default [] (advanced_routes c))).
      cbn iota. rewrite read_routes_of. cbn [mbind option_bind]. f_equal. etrans; [|exact (Hnorm c eq_refl)].
      unfold normalizeAdvancedCustomConfig. cbn [advanced_routes]. rewrite <- (Hnorm c eq_refl). done. }
    f_equal. apply assign_same; [vm_compute; discriminate|exact Ha].
  - f_equal. apply delete_absent. rewrite Ht by (vm_compute; discriminate). exact Ha.
Qed.

Lemma reliability_settings_same : reliability_settings d t = t.
Proof using Hs Hc Ho Hshow Hnd Ht.
  set (r := reliability_object form (fld o0 $"reliability")).
  pose proof (reliability_ok form o0 Hs Hc) as Hr. fold r in Hr.
  assert (assoc $"reliability" o' = Some (VObj r)) as Ha.
  { rewrite read_back. destruct Ho as (_ & _ & -> & _). cbn [fmap option_fmap option_map]. f_equal. by apply clean_ok. }
  assert (fld t $"reliability" = VObj r) as Hfr by (apply fld_some; rewrite Ht by (vm_compute; discriminate); exact Ha).
  unfold reliability_settings. rewrite Hfr.
  assert (reliability_object d (VObj r) = r) as ->; [|apply assign_same; [vm_compute; discriminate|exact Ha]].
  unfold reliability_object at 1. cbv zeta. cbn [spread].
  rewrite (shown 19 $"channel_max_attempts" _ eq_refl), (shown 20 $"auto_ban_threshold" _ eq_refl),
    (shown 21 $"auto_ban_duration_minutes" _ eq_refl), (shown 22 $"streaming_idle_timeout_seconds" _ eq_refl),
    (shown 23 $"non_streaming_timeout_seconds" _ eq_refl).
  apply obj_ok_wf in Hr as (_ & Hn & _).
  assert (∀ k v, assoc k r = Some v → obj_assign r (k, v) = r) as Hsame by (intros; by apply assign_present).
  rewrite !Hsame; [done|..]; subst r; unfold reliability_object; by lookups.
Qed.
End Settings.

(** ** Whole channels *)

Section Channels.
Context {ZE : ZodEnv} {ZL : ZodLaws ZE} {X : ProxyEnv} {U : UrlEnv} {TE : TextEnv} {TL : TextLaws TE}.
Context (compile_regex : jsstr → option (jsstr → bool)).

Lemma written form o0 : sound form → carried form o0 →
  ∃ o1, saved form o0 o1 ∧ buildSettingsJSON form = Some (json_text o1).
Proof using.
  intros Hs Hc. destruct (saved_object form o0 Hs Hc) as (o1 & Ho). exists o1. split; [exact Ho|].
  exact (proj1 (saved_text form o0 Hc o1 Ho)).
Qed.

Lemma extra_keys form : (reopened_extra form).*1 =
  [$"force_format"; $"thinking_to_content"; $"proxy"; $"http_protocol"; $"http2_connection_shards";
   $"pass_through_body_enabled"; $"system_prompt"; $"system_prompt_override"].
Proof using. reflexivity. Qed.

Lemma settings_keys form o0 : (reopened_settings form o0).*1 =
  [$"vertex_key_type"; $"azure_responses_version"; $"is_enterprise_account"; $"aws_key_type"; $"allow_service_tier";
   $"disable_store"; $"allow_safety_identifier"; $"allow_include_obfuscation"; $"allow_inference_geo"; $"allow_speed";
   $"claude_beta_query"; $"disable_task_polling_sleep"; $"video_protocol"; $"task_submit_path"; $"task_fetch_path";
   $"upstream_model_update_check_enabled"; $"upstream_model_update_auto_sync_enabled"; $"upstream_model_update_ignored_models";
   $"advanced_custom"; $"channel_max_attempts"; $"auto_ban_threshold"; $"auto_ban_duration_minutes";
   $"streaming_idle_timeout_seconds"; $"non_streaming_timeout_seconds"].
Proof using. reflexivity. Qed.

Lemma reopened_form form o0 o1 ch :
  sound form → carried form o0 → saved form o0 o1 →
  fld ch $"setting" = VStr (buildSettingJSON form) → fld ch $"settings" = VStr (json_text o1) →
  ∃ d, transformChannelToFormDefaults ch = Some d ∧ fld d $"type" = fld ch $"type" ∧ fld d $"settings" = VStr (json_text o1) ∧
    ∀ k v, (k, v) ∈ reopened_extra form ++ reopened_settings form o0 → fld d k = v.
Proof using TL.
  intros Hs Hc Ho Hset Hsets. unfold transformChannelToFormDefaults.
  destruct (saved_text form o0 Hc o1 Ho) as (_ & _ & s & Es).
  rewrite Hset, Hsets, (reread_settings form o0 Hs Hc o1 Ho), (reread_setting form o0 Hs Hc).
  cbn [mbind option_bind]. eexists. split; [reflexivity|].
  set (base := [_; _; _; _; _; _; _; _; _; _; _; _; _; _; _; _; _; _; _; _; _; _; _; _; _; _; _]).
  assert (NoDup (base ++ reopened_extra form ++ reopened_settings form o0).*1) as Hn.
  { rewrite !fmap_app, extra_keys, settings_keys. cbn [fmap list_fmap fst app]. apply (bool_decide_unpack _). vm_compute. exact I. }
  split; [|split].
  - apply fld_in; [exact Hn|]. apply list_elem_of_lookup. by exists 1%nat.
  - rewrite (fld_in $"settings" (val_or (VStr (json_text o1)) (VStr $"{}")) _ Hn); [|apply list_elem_of_lookup; by exists 20%nat].
    unfold val_or. cbn [to_boolean]. by rewrite Es.
  - intros k v Hin. apply fld_in; [exact Hn|]. rewrite elem_of_app. by right.
Qed.

(** *** The second save *)

Lemma setting_object_same form o0 d :
  sound form → carried form o0 → (∀ k v, (k, v) ∈ reopened_extra form → fld d k = v) → setting_object d = setting_object form.
Proof using TL.
  intros Hs Hc Hshow. rewrite (setting_object_of form Hs).
  assert (∀ i k v, reopened_extra form !! i = Some (k, v) → fld d k = v) as Hf
    by (intros i k v Hi; apply Hshow; by eapply list_elem_of_lookup_2).
  unfold setting_object. cbv zeta.
  rewrite (Hf 0%nat $"force_format" _ eq_refl), (Hf 1%nat $"thinking_to_content" _ eq_refl), (Hf 2%nat $"proxy" _ eq_refl),
    (Hf 3%nat $"http_protocol" _ eq_refl), (Hf 4%nat $"http2_connection_shards" _ eq_refl),
    (Hf 5%nat $"pass_through_body_enabled" _ eq_refl), (Hf 6%nat $"system_prompt" _ eq_refl),
    (Hf 7%nat $"system_prompt_override" _ eq_refl).
  assert (∀ k, val_or (flag form k) (VBool false) = flag form k) as Hfl by (intros k; unfold flag, val_or; by destruct (is_true _)).
  assert (∀ w, val_or (VStr w) (VStr []) = VStr w) as Hw by by intros [|].
  assert (trimmed (VStr (trimmed (fld form $"proxy"))) = trimmed (fld form $"proxy")) as Htr by apply trim_idem.
  rewrite !Hfl, Hw, Htr. fold (base_object form).
  assert (normalizeHttpProtocol (VStr (if http1 form then $"http1" else $"auto")) = if http1 form then $"http1" else $"auto") as ->.
  { rewrite protocol_text; [by destruct (http1 form)|]. right. eexists. split; [done|].
    destruct (http1 form); [by right; left|by left]. }
  assert (http1 form = false → normalizeHttp2ConnectionShards (shard_count form) = shard_count form) as Hsh.
  { intros Eh. unfold shard_count. rewrite Eh. destruct (sound_shards form Hs) as [E|(x & E & Hx)]; rewrite E; [done|].
    cbn [nullish]. rewrite shards_kept; [done|]. right. by exists x. }
  unfold with_connection, HTTP_PROTOCOL_HTTP1. destruct (http1 form); key_tests; [done|]. by rewrite Hsh.
Qed.

Lemma settings_text_same form o0 o1 d :
  sound form → carried form o0 → saved form o0 o1 →
  fld d $"type" = fld form $"type" → fld d $"settings" = VStr (json_text o1) →
  (∀ k v, (k, v) ∈ reopened_settings form o0 → fld d k = v) → buildSettingsJSON d = Some (json_text o1).
Proof using.
  intros Hs Hc Ho Hty Hse Hshow. destruct (saved_text form o0 Hc o1 Ho) as (_ & Hp & s & Es).
  assert (existing_settings (fld d $"settings") = Some (clean_fields o1)) as He.
  { rewrite Hse. unfold existing_settings. cbn [str_of]. rewrite Hp.
    assert (truthy (json_text o1) = true) as -> by by rewrite Es.
    rewrite bool_decide_eq_false_2; [done|]. intros E. rewrite E in Hp.
    assert (json_parse $"{}" = Some (VObj [])) as E0 by (vm_compute; reflexivity). rewrite E0 in Hp. injection Hp as Hp.
    pose proof (read_back form o0 o1 Ho $"reliability") as Hr. rewrite <- Hp in Hr. destruct Ho as (_ & _ & Hrel & _).
    rewrite Hrel in Hr. discriminate. }
  unfold buildSettingsJSON. rewrite He. cbn [mbind option_bind]. unfold edited_settings.
  rewrite (type_settings_same form o0 Hs o1 Ho d Hty Hshow), (passthrough_settings_same form o0 o1 Ho d Hty Hshow).
  destruct (task_settings_same form o0 Hs Hc o1 Ho d Hshow) as (Hcl & Hnd & Hk).
  set (t := task_settings d (clean_fields o1)) in *.
  rewrite (upstream_settings_same form o0 Hs Hc o1 Ho d Hty Hshow t Hnd Hk),
    (advanced_settings_same form o0 Hs Hc o1 Ho d Hty Hshow t Hnd Hk).
  cbn [mbind option_bind]. rewrite (reliability_settings_same form o0 Hs Hc o1 Ho d Hshow t Hnd Hk).
  assert (json_text t = json_text o1) as Ht by (by rewrite <- json_text_clean, Hcl, json_text_clean).
  rewrite <- Ht. unfold json_text, json_stringify. reflexivity.
Qed.

(** ** Theorems *)

(** C14: a saved channel reopens as it was saved.  For a form the schema accepts,
    the drawer opened on a channel with the two texts written for the form shows
    every setting of the form again: the connection, the switches and texts of
    [setting], and of [settings] what belongs to the type of the channel (the
    rest at its default), the models to ignore without duplicates, the advanced
    routes in normal form, and the reliability numbers exactly. *)
Theorem saved_channel_reopens (form o0 : object) :
  channelFormSchema compile_regex form = true → carried form o0 →
  ∃ t, buildSettingsJSON form = Some t ∧
    ∀ channel, fld channel $"setting" = VStr (buildSettingJSON form) → fld channel $"settings" = VStr t →
      ∃ d, transformChannelToFormDefaults channel = Some d ∧
        ∀ k v, (k, v) ∈ reopened_extra form ++ reopened_settings form o0 → fld d k = v.
Proof using ZL TL.
  intros Hs%(schema_sound compile_regex) Hc. destruct (written form o0 Hs Hc) as (o1 & Ho & Hb).
  exists (json_text o1). split; [done|]. intros ch H1 H2.
  destruct (reopened_form form o0 o1 ch Hs Hc Ho H1 H2) as (d & Hd & _ & _ & Hshow). by exists d.
Qed.

(** C11: saving a reopened channel changes nothing.  When a channel saved from an
    accepted form is opened and saved again without an edit, the two JSON texts
    sent are the stored ones, character by character, and no key is sent. *)
Theorem reopened_save_identical (form o0 channel : object) (t : jsstr) (id : Z) :
  channelFormSchema compile_regex form = true → carried form o0 → buildSettingsJSON form = Some t →
  fld channel $"type" = fld form $"type" → fld channel $"setting" = VStr (buildSettingJSON form) →
  fld channel $"settings" = VStr t →
  ∃ d p, transformChannelToFormDefaults channel = Some d ∧ transformFormDataToUpdatePayload d id = Some p ∧
    fld p $"setting" = fld channel $"setting" ∧ fld p $"settings" = fld channel $"settings" ∧ assoc $"key" p = None.
Proof using ZL TL.
  intros Hs%(schema_sound compile_regex) Hc Hb Hty Hset Hsets. destruct (written form o0 Hs Hc) as (o1 & Ho & Hb').
  rewrite Hb in Hb'. injection Hb' as ->.
  destruct (reopened_form form o0 o1 channel Hs Hc Ho Hset Hsets) as (d & Hd & Hdt & Hds & Hshow). exists d.
  assert (buildSettingsJSON d = Some (json_text o1)) as Hbd.
  { apply (settings_text_same form o0 o1 d Hs Hc Ho); [by rewrite Hdt|done|]. intros k v Hin. apply Hshow, elem_of_app. by right. }
  assert (buildSettingJSON d = buildSettingJSON form) as Hbs.
  { unfold buildSettingJSON. rewrite (setting_object_same form o0 d Hs Hc); [done|]. intros k v Hin. apply Hshow, elem_of_app. by left. }
  assert (has_key d = false) as Hk.
  { unfold transformChannelToFormDefaults in Hd. destruct (settings_fields _); [|done]. cbn [mbind option_bind] in Hd.
    injection Hd as <-. reflexivity. }
  unfold transformFormDataToUpdatePayload. rewrite Hbd, Hk, Hbs. cbn [mbind option_bind]. cbv zeta. eexists. split; [done|].
  split; [done|]. rewrite Hset, Hsets. cbn [fold_left]. unfold empty_to_null.
  split_and!; [apply fld_some|apply fld_some|]; rewrite !assoc_assign; key_tests; rewrite (assoc_map_values (λ v, if eq_str v [] then VNull else v)); cbn [assoc]; key_tests.
  - cbn [fmap option_fmap option_map eq_str]. rewrite bool_decide_eq_false_2; [done|].
    pose proof (setting_text form o0 Hs Hc) as [_ Htr]. intros E. by rewrite E in Htr.
  - destruct (saved_text form o0 Hc o1 Ho) as (_ & _ & s & Es). cbn [fmap option_fmap option_map eq_str].
    rewrite bool_decide_eq_false_2; [done|]. by rewrite Es.
  - done.
Qed.

Definition RELIABILITY_KEYS : list jsstr :=
  [$"max_attempts"; $"auto_ban_threshold"; $"auto_ban_duration_seconds"; $"streaming_idle_timeout_seconds";
   $"non_streaming_timeout_seconds"].

Lemma reliability_foreign form old k :
  k ∉ RELIABILITY_KEYS → is_array old = false → get (VObj (reliability_object form old)) k = get old k.
Proof using.
  intros Hk Ha. change (fld (reliability_object form old) k = get old k). unfold fld, reliability_object. cbv zeta.
  assert (∀ n, n ∈ RELIABILITY_KEYS → bool_decide (k = n) = false) as Hn by (intros n Hin; apply bool_decide_eq_false; by intros ->).
  rewrite !assoc_assign, !Hn by (apply (bool_decide_unpack _); vm_compute; exact I). by destruct old.
Qed.

(** C13: settings the form does not know survive it.  Whatever else the stored
    settings hold, next to the settings of the form or among the reliability
    settings, is in the text that is written, unchanged. *)
Theorem foreign_settings_kept (form o0 : object) :
  channelFormSchema compile_regex form = true → carried form o0 →
  ∃ t o, buildSettingsJSON form = Some t ∧ json_parse t = Some (VObj o) ∧
    (∀ k, k ∉ MANAGED_SETTINGS → assoc k o = assoc k o0) ∧
    (∀ k, k ∉ RELIABILITY_KEYS → get (fld o $"reliability") k = get (fld o0 $"reliability") k).
Proof using ZL.
  intros Hs%(schema_sound compile_regex) Hc. destruct (written form o0 Hs Hc) as (o1 & Ho & Hb).
  destruct (saved_text form o0 Hc o1 Ho) as (_ & Hp & _). exists (json_text o1), (clean_fields o1).
  split; [done|]. split; [done|]. pose proof (read_back form o0 o1 Ho) as Hr. destruct Ho as (He & _ & Hrel & _). split.
  - intros k Hk. unfold MANAGED_SETTINGS in Hk. rewrite !not_elem_of_app, !not_elem_of_cons in Hk.
    destruct Hk as (Ht & Hu & Ha & Hre & _). rewrite Hr, (edited_lookup form o0 o1 k He Ha Hre), bool_decide_eq_false_2 by done.
    assert (upstream_value form o0 k = assoc k o0) as ->.
    { unfold upstream_value. assert (∀ n, n ∈ UPSTREAM_KEYS → bool_decide (k = n) = false) as Hn
        by (intros n Hin; apply bool_decide_eq_false; by intros ->).
      rewrite !Hn by (apply (bool_decide_unpack _); vm_compute; exact I). done. }
    assert (jclean <$> assoc k o0 = assoc k o0) as Hcl.
    { destruct (assoc k o0) as [v|] eqn:E; [|done]. cbn [fmap option_fmap option_map]. f_equal.
      rewrite <- (fld_some _ _ _ E). apply (stored_clean form o0 Hc). }
    by destruct (type_in _ _).
  - intros k Hk. rewrite (fld_some _ _ _ (eq_trans (Hr $"reliability") (f_equal (fmap jclean) Hrel))).
    rewrite clean_ok by exact (reliability_ok form o0 Hs Hc). apply reliability_foreign; [done|]. apply (ca_reliability form o0 Hc).
Qed.
End Channels.

(** *** Permissions *)

Section Permissions.
Context {TE : TextEnv}.

Lemma delete_all ks o k : assoc k (fold_left (λ p f, obj_delete f p) ks o) = if bool_decide (k ∈ ks) then None else assoc k o.
Proof using.
  revert o. induction ks as [|n ks IH]; intros o; cbn [fold_left]; [by rewrite bool_decide_eq_false_2 by apply not_elem_of_nil|].
  rewrite IH, assoc_delete. repeat case_bool_decide; set_solver.
Qed.

Lemma key_sensitive : $"key" ∈ SENSITIVE_UPDATE_FIELDS.
Proof using. apply (bool_decide_unpack _). vm_compute. exact I. Qed.

(** The fields that are removed are those the backend guards, less two. *)
Lemma guarded_withheld :
  (∀ k, k ∈ channelSensitiveFields → k ∈ SENSITIVE_UPDATE_FIELDS ∨ k = $"key_mode" ∨ k = $"cost_ratio") ∧
  (∀ k, k ∈ SENSITIVE_UPDATE_FIELDS → k ∈ channelSensitiveFields ∧ k ≠ $"cost_ratio").
Proof using.
  assert (Forall (λ k, k ∈ SENSITIVE_UPDATE_FIELDS ∨ k = $"key_mode" ∨ k = $"cost_ratio") channelSensitiveFields) as H1
    by (apply (bool_decide_unpack _); vm_compute; exact I).
  assert (Forall (λ k, k ∈ channelSensitiveFields ∧ k ≠ $"cost_ratio") SENSITIVE_UPDATE_FIELDS) as H2
    by (apply (bool_decide_unpack _); vm_compute; exact I).
  rewrite Forall_forall in H1, H2. done.
Qed.

Lemma payload_without_mode form id full : transformFormDataToUpdatePayload form id = Some full → assoc $"key_mode" full = None.
Proof using.
  unfold transformFormDataToUpdatePayload. destruct (buildSettingsJSON form); [|done]. cbn [mbind option_bind]. cbv zeta.
  intros Hf%(inj Some). rewrite <- Hf. cbn [fold_left]. rewrite !assoc_assign. key_tests. unfold empty_to_null.
  rewrite (assoc_map_values (λ v, if eq_str v [] then VNull else v)).
  destruct (has_key form); rewrite ?assoc_assign; cbn [assoc]; key_tests; reflexivity.
Qed.

(** C12: sensitive fields are withheld, but for the cost ratio.  What is sent for an
    edited channel names the key only when one was typed.  Without the permission to
    write sensitive fields it names none of the fields the backend guards
    ([channelSensitiveFields]: type, key, addresses, organisation, overrides,
    settings, key mode) except the cost ratio, which is sent as the form has it,
    although the backend guards it too; and all other fields, [other_info] among
    them, are those of the form. *)
Theorem sensitive_fields_withheld (user : option AuthUser) (multi : bool) (form : object) (id : Z) (p : object) :
  update_request user multi form id = Some p →
  (has_key form = false → assoc $"key" p = None ∧ assoc $"key_mode" p = None) ∧
  (hasPermission user $"channel" $"sensitive_write" = false →
     ∃ full, transformFormDataToUpdatePayload form id = Some full ∧
       (∀ k, k ∈ channelSensitiveFields → k ≠ $"cost_ratio" → assoc k p = None) ∧
       (∀ k, k ∉ channelSensitiveFields ∨ k = $"cost_ratio" → assoc k p = assoc k full)).
Proof using.
  unfold update_request. destruct (transformFormDataToUpdatePayload form id) as [full|] eqn:Ef; [|done].
  pose proof (payload_without_mode form id full Ef) as Hmode. cbn [mbind option_bind]. fold (canEditSensitive user).
  destruct (canEditSensitive user) eqn:Ec; cbn [andb]; intros Hp%(inj Some); rewrite <- Hp; clear Hp.
  - split; [|done]. intros Hk. rewrite Hk, andb_false_r. cbn [andb]. rewrite !assoc_delete. key_tests. done.
  - assert (∀ k, assoc k (fold_left (λ p field, obj_delete field p) SENSITIVE_UPDATE_FIELDS
                           (if has_key form then full else obj_delete $"key" full)) =
              if bool_decide (k ∈ SENSITIVE_UPDATE_FIELDS) then None else assoc k full) as Hall.
    { intros k. rewrite delete_all. case_bool_decide as Hk; [done|]. destruct (has_key form); [done|].
      rewrite assoc_delete. rewrite bool_decide_eq_false_2; [done|]. intros ->. by apply Hk, key_sensitive. }
    split; intros _.
    + rewrite !Hall, Hmode, bool_decide_eq_true_2 by apply key_sensitive. split; [done|]. by case_bool_decide.
    + exists full. split; [done|]. destruct guarded_withheld as [Hg Ho]. split.
      * intros k Hk Hne. rewrite Hall. destruct (Hg k Hk) as [Hs|[->| ->]]; [by rewrite bool_decide_eq_true_2|by rewrite Hmode; case_bool_decide|done].
      * intros k Hk. rewrite Hall. rewrite bool_decide_eq_false_2; [done|]. intros Hs. destruct (Ho k Hs) as [H1 H2]. by destruct Hk.
Qed.
End Permissions.

(** *** Examples *)

(** A proxy parser that refuses every text. *)
Definition no_proxies : ProxyEnv := {| parseProxyURL := λ _, None |}.

(** A Claude channel with a switch, models to ignore, and a stored setting and a
    reliability setting the form does not know. *)
Definition sample_stored : object :=
  [($"routing_tag", VStr $"blue"); ($"reliability", VObj [($"jitter", VNum (num_of_Z 3))])].

Definition sample_form : object :=
  fold_left obj_assign
    [($"name", VStr $"claude"); ($"type", VNum (num_of_Z 14)); ($"models", VStr $"claude-opus"); ($"allow_speed", VBool true);
     ($"upstream_model_update_check_enabled", VBool true); ($"upstream_model_update_ignored_models", VStr $"a, b,a");
     ($"http2_connection_shards", VNum (num_of_Z 4)); ($"auto_ban_duration_minutes", VNum (num_of_Z 45));
     ($"settings", VStr (json_text sample_stored))] CHANNEL_FORM_DEFAULT_VALUES.

Definition sample_channel : object :=
  [($"type", fld sample_form $"type"); ($"setting", VStr (@buildSettingJSON ascii_text sample_form));
   ($"settings", VStr (default [] (buildSettingsJSON sample_form)))].

Lemma sample_accepted : @channelFormSchema sample_zod no_proxies no_urls ascii_text literal_regex sample_form = true.
Proof. vm_compute. reflexivity. Qed.

Lemma sample_carried : carried sample_form sample_stored.
Proof.
  constructor.
  - assert (Forall (λ kv, json_ok kv.2 = true) sample_form) as H by (apply (bool_decide_unpack _); vm_compute; exact I).
    eapply Forall_impl; [exact H|]. intros kv Hkv. by right.
  - assert (parseAdvancedCustomConfig (opt_str (fld sample_form $"advanced_custom")) = NoConfig) as E by (vm_compute; reflexivity).
    rewrite E. discriminate.
  - vm_compute. reflexivity.
  - vm_compute. reflexivity.
  - vm_compute. reflexivity.
Qed.

Lemma saved_channel_reopens_witness :
  match @transformChannelToFormDefaults ascii_text sample_channel with
  | Some d => fld d $"auto_ban_duration_minutes" = VNum (num_of_Z 45) ∧ fld d $"upstream_model_update_ignored_models" = VStr $"a,b"
  | None => False
  end.
Proof.
  destruct (@saved_channel_reopens sample_zod sample_zod_laws no_proxies no_urls ascii_text ascii_text_laws literal_regex
    sample_form sample_stored sample_accepted sample_carried) as (t & Ht & Hall).
  destruct (Hall sample_channel) as (d & Hd & Hs).
  - vm_compute. reflexivity.
  - assert (Some (default [] (buildSettingsJSON sample_form)) = Some t) as E%(inj Some) by (rewrite Ht; reflexivity).
    rewrite <- E. vm_compute. reflexivity.
  - rewrite Hd. split; apply Hs, assoc_elem; vm_compute; reflexivity.
Defined.

Lemma reopened_save_identical_witness :
  ∃ d p, @transformChannelToFormDefaults ascii_text sample_channel = Some d ∧
    @transformFormDataToUpdatePayload ascii_text d 7 = Some p ∧ fld p $"settings" = fld sample_channel $"settings".
Proof.
  destruct (@reopened_save_identical sample_zod sample_zod_laws no_proxies no_urls ascii_text ascii_text_laws literal_regex
    sample_form sample_stored sample_channel (default [] (buildSettingsJSON sample_form)) 7 sample_accepted sample_carried)
    as (d & p & Hd & Hp & _ & Hs & _); [vm_compute; reflexivity..|].
  exists d, p. split; [exact Hd|]. split; [exact Hp|exact Hs].
Defined.

Lemma foreign_settings_kept_witness :
  ∃ t o, buildSettingsJSON sample_form = Some t ∧ json_parse t = Some (VObj o) ∧ assoc $"routing_tag" o = Some (VStr $"blue") ∧
    get (fld o $"reliability") $"jitter" = VNum (num_of_Z 3).
Proof.
  destruct (@foreign_settings_kept sample_zod sample_zod_laws no_proxies no_urls ascii_text literal_regex
    sample_form sample_stored sample_accepted sample_carried) as (t & o & Ht & Ho & Hk & Hr).
  exists t, o. split; [exact Ht|]. split; [exact Ho|]. split.
  - rewrite Hk; [reflexivity|]. apply (bool_decide_unpack _). vm_compute. exact I.
  - rewrite Hr; [reflexivity|]. apply (bool_decide_unpack _). vm_compute. exact I.
Defined.

(** The request of a visitor without permissions, who types a key. *)
Lemma sensitive_fields_withheld_witness :
  match @update_request ascii_text None true (obj_assign sample_form ($"key", VStr $"sk-1")) 7 with
  | Some p => assoc $"key" p = None ∧ assoc $"name" p = Some (VStr $"claude")
  | None => False
  end.
Proof.
  destruct (@update_request ascii_text None true (obj_assign sample_form ($"key", VStr $"sk-1")) 7) as [p|] eqn:E;
    [|vm_compute in E; discriminate].
  destruct (@sensitive_fields_withheld ascii_text None true (obj_assign sample_form ($"key", VStr $"sk-1")) 7 p E)
    as (_ & H).
  destruct H as (full & Hf & Hk & Ho); [vm_compute; reflexivity|].
  rewrite Hk by (apply (bool_decide_unpack _); vm_compute; exact I).
  rewrite Ho by (apply (bool_decide_unpack _); vm_compute; exact I). split; [done|].
  assert ((assoc $"name") <$> @transformFormDataToUpdatePayload ascii_text (obj_assign sample_form ($"key", VStr $"sk-1")) 7 =
    Some (Some (VStr $"claude"))) as Hn by (vm_compute; reflexivity).
  rewrite Hf in Hn. apply (inj Some) in Hn. rewrite <- Hn. vm_compute. reflexivity.
Defined.
