(* ===== verification/ParamOverrideTables.v ===== *)
(** * Parameter overrides: modes and templates

    The constants of
    [src/web/src/features/channels/components/dialogs/param-override-editor-dialog.tsx]:
    the kinds of rules with the fields each of them uses, the matching modes of
    conditions, and the templates offered by the dialog. *)

From S2P Require Import Prelude JsString JsNumber NumberText JsValue Json.

Local Open Scope Z_scope.
Local Open Scope js_scope.

(** ** Modes *)

(** The entries of [MODE_META]; a missing entry is false. *)
Record ModeMeta := {
  mm_path : bool;
  mm_pathOptional : bool;
  mm_value : bool;
  mm_from : bool;
  mm_to : bool;
  mm_keepOrigin : bool;
  mm_pathAlias : bool
}.

Definition OPERATION_MODE_OPTIONS : list (jsstr * jsstr) :=
  [($"set", $"Set Field"); ($"delete", $"Delete Field"); ($"append", $"Append to End");
   ($"prepend", $"Prepend to Start"); ($"copy", $"Copy Field"); ($"move", $"Move Field");
   ($"replace", $"String Replace"); ($"regex_replace", $"Regex Replace"); ($"trim_prefix", $"Trim Prefix");
   ($"trim_suffix", $"Trim Suffix"); ($"ensure_prefix", $"Ensure Prefix"); ($"ensure_suffix", $"Ensure Suffix");
   ($"trim_space", $"Trim Space"); ($"to_lower", $"To Lowercase"); ($"to_upper", $"To Uppercase");
   ($"return_error", $"Return Custom Error"); ($"prune_objects", $"Prune Object Items");
   ($"pass_headers", $"Pass Through Headers"); ($"sync_fields", $"Sync Fields");
   ($"set_header", $"Set Request Header"); ($"delete_header", $"Delete Request Header");
   ($"copy_header", $"Copy Request Header"); ($"move_header", $"Move Request Header")].

Definition OPERATION_MODE_VALUES : list jsstr := OPERATION_MODE_OPTIONS.*1.

Definition CONDITION_MODE_OPTIONS : list (jsstr * jsstr) :=
  [($"full", $"Exact Match"); ($"prefix", $"Prefix"); ($"suffix", $"Suffix"); ($"contains", $"Contains");
   ($"gt", $"Greater Than"); ($"gte", $"Greater Than or Equal"); ($"lt", $"Less Than");
   ($"lte", $"Less Than or Equal")].

Definition CONDITION_MODE_VALUES : list jsstr := CONDITION_MODE_OPTIONS.*1.

Definition MODE_META : list (jsstr * ModeMeta) :=
  [($"delete", Build_ModeMeta true false false false false false false);
   ($"set", Build_ModeMeta true false true false false true false);
   ($"append", Build_ModeMeta true false true false false true false);
   ($"prepend", Build_ModeMeta true false true false false true false);
   ($"copy", Build_ModeMeta false false false true true false false);
   ($"move", Build_ModeMeta false false false true true false false);
   ($"replace", Build_ModeMeta true false false true false false false);
   ($"regex_replace", Build_ModeMeta true false false true false false false);
   ($"trim_prefix", Build_ModeMeta true false true false false false false);
   ($"trim_suffix", Build_ModeMeta true false true false false false false);
   ($"ensure_prefix", Build_ModeMeta true false true false false false false);
   ($"ensure_suffix", Build_ModeMeta true false true false false false false);
   ($"trim_space", Build_ModeMeta true false false false false false false);
   ($"to_lower", Build_ModeMeta true false false false false false false);
   ($"to_upper", Build_ModeMeta true false false false false false false);
   ($"return_error", Build_ModeMeta false false true false false false false);
   ($"prune_objects", Build_ModeMeta false true true false false false false);
   ($"pass_headers", Build_ModeMeta false false true false false true false);
   ($"sync_fields", Build_ModeMeta false false false true true false false);
   ($"set_header", Build_ModeMeta true false true false false true false);
   ($"delete_header", Build_ModeMeta true false false false false false false);
   ($"copy_header", Build_ModeMeta false false false true true true true);
   ($"move_header", Build_ModeMeta false false false true true true true)].

Definition VALUE_REQUIRED_MODES : list jsstr :=
  [$"trim_prefix"; $"trim_suffix"; $"ensure_prefix"; $"ensure_suffix"; $"set_header"; $"return_error";
   $"prune_objects"; $"pass_headers"].

Definition FROM_REQUIRED_MODES : list jsstr :=
  [$"copy"; $"move"; $"replace"; $"regex_replace"; $"copy_header"; $"move_header"; $"sync_fields"].

Definition TO_REQUIRED_MODES : list jsstr :=
  [$"copy"; $"move"; $"copy_header"; $"move_header"; $"sync_fields"].

Definition MODE_DESCRIPTIONS : list (jsstr * jsstr) :=
  [($"set", $"Write value to the target field"); ($"delete", $"Remove the target field");
   ($"append", $"Append value to array / string / object end");
   ($"prepend", $"Prepend value to array / string / object start");
   ($"copy", $"Copy source field to target field"); ($"move", $"Move source field to target field");
   ($"replace", $"Do string replacement in the target field");
   ($"regex_replace", $"Do regex replacement in the target field"); ($"trim_prefix", $"Remove string prefix");
   ($"trim_suffix", $"Remove string suffix"); ($"ensure_prefix", $"Ensure the string has a specified prefix");
   ($"ensure_suffix", $"Ensure the string has a specified suffix");
   ($"trim_space", $"Trim leading/trailing whitespace"); ($"to_lower", $"Convert string to lowercase");
   ($"to_upper", $"Convert string to uppercase"); ($"return_error", $"Return a custom error immediately");
   ($"prune_objects", $"Prune object items by conditions");
   ($"pass_headers", $"Pass specified request headers to upstream");
   ($"sync_fields", $"Auto-fill when one field exists and another is missing");
   ($"set_header", $"Set runtime request header: override entire value, or manipulate comma-separated tokens");
   ($"delete_header", $"Delete a runtime request header"); ($"copy_header", $"Copy a request header");
   ($"move_header", $"Move a request header")].

(** ** Templates *)

Definition LEGACY_TEMPLATE : value :=
  VObj [($"temperature", VNum (num_of_Z 0)); ($"max_tokens", VNum (num_of_Z 1000))].

Definition OPERATION_TEMPLATE : value :=
  VObj [($"operations", VArr [VObj [($"description", VStr $"Set default temperature for openai/* models.");
   ($"path", VStr $"temperature"); ($"mode", VStr $"set"); ($"value", VNum (num_lit 7 1)); ($"conditions",
   VArr [VObj [($"path", VStr $"model"); ($"mode", VStr $"prefix"); ($"value", VStr $"openai/")]]); ($"logic",
   VStr $"AND")]])].

Definition HEADER_PASSTHROUGH_TEMPLATE : value :=
  VObj [($"operations", VArr [VObj [($"description", VStr $"Pass through X-Request-Id header to upstream.");
   ($"mode", VStr $"pass_headers"); ($"value", VArr [VStr $"X-Request-Id"]); ($"keep_origin", VBool true)]])].

Definition GEMINI_IMAGE_4K_TEMPLATE : value :=
  VObj [($"operations", VArr [VObj [($"description",
   VStr $"Set imageSize to 4K when model contains gemini/image and ends with 4k."); ($"mode", VStr $"set");
   ($"path", VStr $"generationConfig.imageConfig.imageSize"); ($"value", VStr $"4K"); ($"conditions",
   VArr [VObj [($"path", VStr $"original_model"); ($"mode", VStr $"contains"); ($"value", VStr $"gemini")];
   VObj [($"path", VStr $"original_model"); ($"mode", VStr $"contains"); ($"value", VStr $"image")];
   VObj [($"path", VStr $"original_model"); ($"mode", VStr $"suffix"); ($"value", VStr $"4k")]]); ($"logic",
   VStr $"AND")]])].

Definition CODEX_CLI_HEADER_PASSTHROUGH_HEADERS : list jsstr :=
  [$"Originator"; $"Session_id"; $"Thread_id"; $"Session-Id"; $"Thread-Id"; $"X-Client-Request-Id";
   $"User-Agent"; $"X-Codex-Beta-Features"; $"X-Codex-Turn-State"; $"X-Codex-Turn-Metadata";
   $"X-Codex-Window-Id"; $"X-Codex-Parent-Thread-Id"; $"X-OpenAI-Subagent"; $"X-OpenAI-Memgen-Request";
   $"X-ResponsesAPI-Include-Timing-Metrics"; $"X-OpenAI-Internal-Codex-Responses-Lite"].

Definition CLAUDE_CLI_HEADER_PASSTHROUGH_HEADERS : list jsstr :=
  [$"X-Stainless-Arch"; $"X-Stainless-Lang"; $"X-Stainless-Os"; $"X-Stainless-Package-Version";
   $"X-Stainless-Retry-Count"; $"X-Stainless-Runtime"; $"X-Stainless-Runtime-Version"; $"X-Stainless-Timeout";
   $"User-Agent"; $"X-App"; $"Anthropic-Beta"; $"Anthropic-Dangerous-Direct-Browser-Access";
   $"Anthropic-Version"].

Definition buildPassHeadersTemplate (headers : list jsstr) : value :=
  VObj [($"operations",
    VArr [VObj [($"mode", VStr $"pass_headers"); ($"value", VArr (VStr <$> headers)); ($"keep_origin", VBool true)]])].

Definition CODEX_CLI_HEADER_PASSTHROUGH_TEMPLATE : value :=
  VObj [($"operations",
    VArr [VObj [($"mode", VStr $"pass_headers"); ($"value", VArr (VStr <$> CODEX_CLI_HEADER_PASSTHROUGH_HEADERS));
                ($"keep_origin", VBool true)]])].

Definition CLAUDE_CLI_HEADER_PASSTHROUGH_TEMPLATE : value :=
  buildPassHeadersTemplate CLAUDE_CLI_HEADER_PASSTHROUGH_HEADERS.

Definition AWS_BEDROCK_ANTHROPIC_COMPAT_TEMPLATE : value :=
  VObj [($"operations", VArr [VObj [($"description",
   VStr $"Normalize anthropic-beta header tokens for Bedrock compatibility."); ($"mode", VStr $"set_header");
   ($"path", VStr $"anthropic-beta"); ($"value", VObj [($"advanced-tool-use-2025-11-20",
   VStr $"tool-search-tool-2025-10-19"); ($"bash_20241022", VNull); ($"bash_20250124", VNull);
   ($"code-execution-2025-08-25", VNull); ($"compact-2026-01-12", VStr $"compact-2026-01-12");
   ($"computer-use-2025-01-24", VStr $"computer-use-2025-01-24"); ($"computer-use-2025-11-24",
   VStr $"computer-use-2025-11-24"); ($"context-1m-2025-08-07", VStr $"context-1m-2025-08-07");
   ($"context-management-2025-06-27", VStr $"context-management-2025-06-27"); ($"effort-2025-11-24", VNull);
   ($"fast-mode-2026-02-01", VNull); ($"files-api-2025-04-14", VNull);
   ($"fine-grained-tool-streaming-2025-05-14", VNull); ($"interleaved-thinking-2025-05-14",
   VStr $"interleaved-thinking-2025-05-14"); ($"mcp-client-2025-11-20", VNull); ($"mcp-client-2025-04-04",
   VNull); ($"mcp-servers-2025-12-04", VNull); ($"output-128k-2025-02-19", VNull);
   ($"structured-output-2024-03-01", VNull); ($"prompt-caching-scope-2026-01-05", VNull); ($"skills-2025-10-02",
   VNull); ($"structured-outputs-2025-11-13", VNull); ($"text_editor_20241022", VNull);
   ($"text_editor_20250124", VNull); ($"token-efficient-tools-2025-02-19", VNull);
   ($"tool-search-tool-2025-10-19", VStr $"tool-search-tool-2025-10-19"); ($"web-fetch-2025-09-10", VNull);
   ($"web-search-2025-03-05", VNull); ($"oauth-2025-04-20", VNull)])]; VObj [($"description",
   VStr $"Remove all tools[*].custom.input_examples before upstream relay."); ($"mode", VStr $"delete");
   ($"path", VStr $"tools.*.custom.input_examples")]])].

Inductive TemplateKind := KOperations | KLegacy.

Record TemplatePresetConfig := { tp_label : jsstr; tp_kind : TemplateKind; tp_payload : value }.

Definition TEMPLATE_PRESET_CONFIG : list (jsstr * TemplatePresetConfig) :=
  [($"operations_default", Build_TemplatePresetConfig $"New Format Template" KOperations OPERATION_TEMPLATE);
   ($"legacy_default", Build_TemplatePresetConfig $"Legacy Format Template" KLegacy LEGACY_TEMPLATE);
   ($"pass_headers_auth", Build_TemplatePresetConfig $"Header Passthrough (X-Request-Id)"
     KOperations HEADER_PASSTHROUGH_TEMPLATE);
   ($"gemini_image_4k", Build_TemplatePresetConfig $"Gemini Image 4K"
     KOperations GEMINI_IMAGE_4K_TEMPLATE);
   ($"claude_cli_headers_passthrough", Build_TemplatePresetConfig $"Claude CLI Header Passthrough"
     KOperations CLAUDE_CLI_HEADER_PASSTHROUGH_TEMPLATE);
   ($"codex_cli_headers_passthrough", Build_TemplatePresetConfig $"Codex CLI Header Passthrough"
     KOperations CODEX_CLI_HEADER_PASSTHROUGH_TEMPLATE);
   ($"aws_bedrock_anthropic_beta_override", Build_TemplatePresetConfig $"AWS Bedrock Claude Compat"
     KOperations AWS_BEDROCK_ANTHROPIC_COMPAT_TEMPLATE)].
