(* ===== verification/ParamOverride.v ===== *)
(** * Parameter overrides: rules and their JSON

    The pure part of
    [src/web/src/features/channels/components/dialogs/param-override-editor-dialog.tsx].
    A channel stores the changes to make to a request as JSON; the dialog shows
    them as rules ([ParamOverrideOperation]) with conditions, checks the rules
    and writes the JSON.  Every rule and condition has a local id, made from the
    clock and a counter of the module: code that makes ids runs in the monad
    [M], which passes the counter.  [None] is a TypeError: reading a property of
    an entry that is [null]. *)

From S2P Require Import Prelude JsString JsText JsNumber NumberText JsValue Json JsMath OrderedMap JsObject.
From S2P Require Import ChannelForm ParamOverrideTables.

Local Open Scope Z_scope.
Local Open Scope js_scope.

(** Closed decidable facts: membership in a table, inequality of names. *)
Ltac computed := apply (bool_decide_unpack _); vm_compute; exact I.

(** ** Platform *)

(** [t(key)] and [t(key, {line})] of the translation library. *)
Class Translation := { t : jsstr → option Z → jsstr }.

(** No translation of a text is empty. *)
Class TranslationLaws (T : Translation) : Prop := { translation_shown key line : key ≠ [] → t key line ≠ [] }.

(** [toUpperCase] depends on the Unicode tables. *)
Class UpperEnv := { toUpperCase : jsstr → jsstr }.

Definition ascii_upper (c : Z) : Z := if (97 <=? c) && (c <=? 122) then c - 32 else c.

Class UpperLaws (E : UpperEnv) : Prop := {
  upper_ascii s : forallb is_ascii s = true → toUpperCase s = map ascii_upper s }.

(** [Date.now()] when the id with the given number is made. *)
Class Clock := { now : Z → Z }.

(** ** Ids *)

Definition M (A : Type) : Type := Z → option (A * Z).
Global Instance M_ret : MRet M := λ A a seed, Some (a, seed).
Global Instance M_bind : MBind M := λ A B f m seed, match m seed with Some (a, seed') => f a seed' | None => None end.
Definition type_error {A} : M A := λ _, None.

Definition local_id {K : Clock} (seed : Z) : jsstr := $"po_" ++ string_of_Z (now seed) ++ $"_" ++ string_of_Z seed.

Definition nextLocalId {K : Clock} : M jsstr := λ seed, Some (local_id seed, seed + 1).

(** ** Values *)

Definition toValueText (v : value) : jsstr :=
  match v with
  | VUndefined => []
  | VStr s => s
  | _ => default [] (json_stringify [] v)
  end.

Definition parseLooseValue (valueText : jsstr) : value :=
  let raw := trim valueText in
  if negb (truthy raw) then VStr [] else default (VStr raw) (json_parse raw).

Definition verifyJSON (text : jsstr) : bool := match json_parse text with Some _ => true | None => false end.

(** ** Rules and conditions *)

Record ParamOverrideCondition := {
  c_id : jsstr;
  c_path : jsstr;
  c_mode : jsstr;
  c_value_text : jsstr;
  c_invert : bool;
  c_pass_missing_key : bool
}.

Record ParamOverrideOperation := {
  o_id : jsstr;
  o_description : jsstr;
  o_path : jsstr;
  o_mode : jsstr;
  o_from : jsstr;
  o_to : jsstr;
  o_value_text : jsstr;
  o_keep_origin : bool;
  o_logic : jsstr;
  o_conditions : list ParamOverrideCondition
}.

(** [VALUES.has(v) ? v : fallback] *)
Definition one_of (values : list jsstr) (v : value) (fallback : jsstr) : jsstr :=
  match v with VStr s => if bool_decide (s ∈ values) then s else fallback | _ => fallback end.

Section Override.
Context {K : Clock} {UE : UpperEnv}.

Definition normalizeCondition (condition : value) : M ParamOverrideCondition :=
  id ← nextLocalId;
  match condition with
  | VNull => type_error
  | _ =>
    mret {| c_id := id;
            c_path := str_of (get condition $"path");
            c_mode := one_of CONDITION_MODE_VALUES (get condition $"mode") $"full";
            c_value_text := toValueText (get condition $"value");
            c_invert := is_true (get condition $"invert");
            c_pass_missing_key := is_true (get condition $"pass_missing_key") |}
  end.

Definition createDefaultCondition : M ParamOverrideCondition := normalizeCondition (VObj []).

(** [String(v || fallback).toUpperCase() === wanted ? wanted : fallback] *)
Definition logic_of (v : value) (wanted fallback : jsstr) : jsstr :=
  if bool_decide (toUpperCase (value_text (val_or v (VStr fallback))) = wanted) then wanted else fallback.

Definition normalizeOperation (operation : value) : M ParamOverrideOperation :=
  id ← nextLocalId;
  match operation with
  | VNull => type_error
  | _ =>
    conditions ← match get operation $"conditions" with VArr l => mapM normalizeCondition l | _ => mret [] end;
    mret {| o_id := id;
            o_description := str_of (get operation $"description");
            o_path := str_of (get operation $"path");
            o_mode := one_of OPERATION_MODE_VALUES (get operation $"mode") $"set";
            o_value_text := toValueText (get operation $"value");
            o_keep_origin := is_true (get operation $"keep_origin");
            o_from := str_of (get operation $"from");
            o_to := str_of (get operation $"to");
            o_logic := logic_of (get operation $"logic") $"AND" $"OR";
            o_conditions := conditions |}
  end.

Definition createDefaultOperation : M ParamOverrideOperation := normalizeOperation (VObj [($"mode", VStr $"set")]).
End Override.

(** *** Order of the rules *)

Inductive Position := Before | After.

(** [l.findIndex(p)], [None] for -1 *)
Fixpoint find_index {A} (p : A → bool) (l : list A) : option nat :=
  match l with
  | [] => None
  | x :: l' => if p x then Some 0%nat else S <$> find_index p l'
  end.

Definition has_id (id : jsstr) (o : ParamOverrideOperation) : bool := bool_decide (o_id o = id).

(** [l.splice(i, 0, x)] for [i] within the list *)
Definition splice_in {A} (i : nat) (x : A) (l : list A) : list A := take i l ++ x :: drop i l.

Definition reorderOperations (ops : list ParamOverrideOperation) (sourceId targetId : jsstr) (position : Position)
  : list ParamOverrideOperation :=
  if negb (truthy sourceId) || negb (truthy targetId) || bool_decide (sourceId = targetId) then ops
  else match find_index (has_id sourceId) ops with
  | None => ops
  | Some srcIdx =>
    match ops !! srcIdx with
    | None => ops
    | Some moved =>
      let next := delete srcIdx ops in
      match find_index (has_id targetId) next with
      | None => ops
      | Some insertIdx => splice_in (match position with After => S insertIdx | Before => insertIdx end) moved next
      end
    end
  end.

(** *** Rules not filled in *)

Definition condition_touched (c : ParamOverrideCondition) : bool :=
  truthy (trim (c_path c)) || truthy (trim (c_value_text c)) || negb (bool_decide (c_mode c = $"full"))
  || c_invert c || c_pass_missing_key c.

Definition isOperationBlank (o : ParamOverrideOperation) : bool :=
  bool_decide (o_mode o = $"set") && negb (truthy (trim (o_path o))) && negb (truthy (trim (o_from o)))
  && negb (truthy (trim (o_to o))) && negb (truthy (trim (o_value_text o))) && negb (o_keep_origin o)
  && negb (existsb condition_touched (o_conditions o)).

(** *** Labels *)

Definition getOperationSummary (o : ParamOverrideOperation) (index : Z) : jsstr :=
  let mode := str_or (o_mode o) $"set" in
  let modeLabel := str_or (default [] (om_get mode OPERATION_MODE_OPTIONS)) mode in
  let path := trim (o_path o) in
  let from := trim (o_from o) in
  let to := trim (o_to o) in
  let subject := if bool_decide (mode = $"sync_fields") then str_or (str_or from to) $"-"
                 else str_or (str_or (str_or path from) to) $"-" in
  string_of_Z (index + 1) ++ $". " ++ modeLabel ++ $" · " ++ subject.

Abbreviation is_mode m := (λ mode : jsstr, bool_decide (mode = m)).

Definition getModePathLabel (mode : jsstr) : jsstr :=
  if is_mode $"set_header" mode || is_mode $"delete_header" mode then $"Header Name"
  else if is_mode $"prune_objects" mode then $"Target Path (optional)" else $"Target Field Path".

Definition getModePathPlaceholder (mode : jsstr) : jsstr :=
  if is_mode $"set_header" mode then $"Authorization"
  else if is_mode $"delete_header" mode then $"X-Debug-Mode"
  else if is_mode $"prune_objects" mode then $"messages" else $"temperature".

Definition header_pair (mode : jsstr) : bool := is_mode $"copy_header" mode || is_mode $"move_header" mode.

Definition getModeFromLabel (mode : jsstr) : jsstr :=
  if is_mode $"replace" mode then $"Match Text"
  else if is_mode $"regex_replace" mode then $"Regex Pattern"
  else if header_pair mode then $"Source Header" else $"Source Field".

Definition getModeFromPlaceholder (mode : jsstr) : jsstr :=
  if is_mode $"replace" mode then $"openai/"
  else if is_mode $"regex_replace" mode then $"^gpt-"
  else if header_pair mode then $"Authorization" else $"model".

Definition getModeToLabel (mode : jsstr) : jsstr :=
  if is_mode $"replace" mode || is_mode $"regex_replace" mode then $"Replace With"
  else if header_pair mode then $"Target Header" else $"Target Field".

Definition getModeToPlaceholder (mode : jsstr) : jsstr :=
  if is_mode $"replace" mode then $"(leave empty to delete)"
  else if is_mode $"regex_replace" mode then $"openai/gpt-"
  else if header_pair mode then $"X-Upstream-Auth" else $"original_model".

Definition affix_mode (mode : jsstr) : bool :=
  is_mode $"trim_prefix" mode || is_mode $"trim_suffix" mode || is_mode $"ensure_prefix" mode
  || is_mode $"ensure_suffix" mode.

Definition getModeValueLabel (mode : jsstr) : jsstr :=
  if is_mode $"set_header" mode then $"Header Value (supports string or JSON mapping)"
  else if is_mode $"pass_headers" mode then $"Pass-through Headers (comma-separated or JSON array)"
  else if affix_mode mode then $"Prefix/Suffix Text"
  else if is_mode $"prune_objects" mode then $"Prune Rule (string or JSON object)"
  else $"Value (supports JSON or plain text)".

Definition getModeValuePlaceholder (mode : jsstr) : jsstr :=
  if is_mode $"set_header" mode then $"Bearer sk-xxx"
  else if is_mode $"pass_headers" mode then $"Authorization, X-Request-Id"
  else if affix_mode mode then $"openai/"
  else if is_mode $"prune_objects" mode then dq "{'type':'redacted_thinking'}" else $"0.7".

(** ** Fields to synchronise *)

Definition parseSyncTargetSpec {TE : TextEnv} (spec : jsstr) : jsstr * jsstr :=
  let raw := trim spec in
  if negb (truthy raw) then ($"json", [])
  else match find_index (Z.eqb 58) raw with
  | None => ($"json", raw)
  | Some idx =>
    let prefix := toLowerCase (trim (take idx raw)) in
    let key := trim (drop (S idx) raw) in
    if bool_decide (prefix = $"header") then ($"header", key) else ($"json", key)
  end.

Definition buildSyncTargetSpec (type key : jsstr) : jsstr :=
  let normalizedType := if bool_decide (type = $"header") then $"header" else $"json" in
  let normalizedKey := trim key in
  if negb (truthy normalizedKey) then [] else normalizedType ++ $":" ++ normalizedKey.

(** ** The error a rule returns *)

Record ReturnErrorDraft := {
  re_message : jsstr;
  re_statusCode : number;
  re_code : jsstr;
  re_type : jsstr;
  re_skipRetry : bool;
  re_simpleMode : bool
}.

Definition valid_status (x : number) : bool :=
  is_integer x && num_leb (num_of_Z 100) x && num_leb x (num_of_Z 599).

Definition status_or_400 (x : number) : number := if valid_status x then x else num_of_Z 400.

(** [String(v || '').trim()] *)
Definition text_or_empty (v : value) : jsstr := trim (value_text (val_or v (VStr []))).

Definition is_undef (v : value) : bool := match v with VUndefined => true | _ => false end.
Definition is_false (v : value) : bool := match v with VBool false => true | _ => false end.

Definition parseReturnErrorDraft (valueText : jsstr) : ReturnErrorDraft :=
  let raw := trim valueText in
  let plain := {| re_message := raw; re_statusCode := num_of_Z 400; re_code := []; re_type := [];
                  re_skipRetry := true; re_simpleMode := true |} in
  if negb (truthy raw) then plain
  else match json_parse raw with
  | Some (VObj o) =>
    let statusRaw := if is_undef (fld o $"status_code") then fld o $"status" else fld o $"status_code" in
    {| re_message := text_or_empty (val_or (fld o $"message") (fld o $"msg"));
       re_statusCode := status_or_400 (to_number statusRaw);
       re_code := text_or_empty (fld o $"code");
       re_type := text_or_empty (fld o $"type");
       re_skipRetry := negb (is_false (fld o $"skip_retry"));
       re_simpleMode := false |}
  | _ => plain
  end.

(** [if (b) payload[k] = v] *)
Definition put (b : bool) (k : jsstr) (v : value) (payload : object) : object :=
  if b then obj_assign payload (k, v) else payload.

Definition return_error_payload (draft : ReturnErrorDraft) : object :=
  let payload := [($"message", VStr (trim (re_message draft)));
                  ($"status_code", VNum (status_or_400 (re_statusCode draft)))] in
  let code := trim (re_code draft) in
  let type := trim (re_type draft) in
  let payload := put (truthy code) $"code" (VStr code) payload in
  let payload := put (truthy type) $"type" (VStr type) payload in
  put (negb (re_skipRetry draft)) $"skip_retry" (VBool false) payload.

Definition buildReturnErrorValueText (draft : ReturnErrorDraft) : jsstr :=
  if re_simpleMode draft then trim (re_message draft) else json_text (return_error_payload draft).

(** ** The objects a rule prunes *)

(** A rule has the fields of a condition. *)
Abbreviation PruneRule := ParamOverrideCondition.

Record PruneObjectsDraft := {
  pd_simpleMode : bool;
  pd_typeText : jsstr;
  pd_logic : jsstr;
  pd_recursive : bool;
  pd_rules : list PruneRule
}.

Section Prune.
Context {K : Clock} {UE : UpperEnv}.

Definition normalizePruneRule (rule : value) : M PruneRule := normalizeCondition rule.

(** One rule per entry of an object that maps paths to values. *)
Definition entry_rules (entries : object) : M (list PruneRule) :=
  mapM (λ e, normalizePruneRule (VObj [($"path", VStr e.1); ($"mode", VStr $"full"); ($"value", e.2)])) entries.

Definition where_rules (v : value) : M (list PruneRule) :=
  match v with VObj entries => entry_rules entries | _ => mret [] end.

Definition condition_rules (v : value) : M (list PruneRule) :=
  match v with
  | VArr items => mapM normalizePruneRule (List.filter (λ item, to_boolean item && is_object item) items)
  | VObj entries => entry_rules entries
  | _ => mret []
  end.

Definition prune_defaults (typeText : jsstr) : PruneObjectsDraft :=
  {| pd_simpleMode := true; pd_typeText := typeText; pd_logic := $"AND"; pd_recursive := true; pd_rules := [] |}.

Definition parsePruneObjectsDraft (valueText : jsstr) : M PruneObjectsDraft :=
  let raw := trim valueText in
  if negb (truthy raw) then mret (prune_defaults [])
  else match json_parse raw with
  | None => mret (prune_defaults raw)
  | Some (VStr s) => mret (prune_defaults (trim s))
  | Some (VObj o) =>
    r1 ← where_rules (fld o $"where");
    r2 ← condition_rules (fld o $"conditions");
    let hasAdvancedFields := negb (is_undef (fld o $"logic")) || negb (is_undef (fld o $"recursive"))
                             || negb (is_undef (fld o $"where")) || negb (is_undef (fld o $"conditions")) in
    mret {| pd_simpleMode := negb hasAdvancedFields;
            pd_typeText := if is_undef (fld o $"type") then [] else trim (value_text (fld o $"type"));
            pd_logic := logic_of (fld o $"logic") $"OR" $"AND";
            pd_recursive := negb (is_false (fld o $"recursive"));
            pd_rules := r1 ++ r2 |}
  | Some parsed => mret (prune_defaults (trim (value_text (nullish parsed (VStr [])))))
  end.

Definition prune_condition (rule : PruneRule) : value :=
  let payload := [($"path", VStr (trim (c_path rule)));
                  ($"mode", VStr (if bool_decide (c_mode rule ∈ CONDITION_MODE_VALUES) then c_mode rule else $"full"))] in
  let valueRaw := trim (c_value_text rule) in
  let payload := put (truthy valueRaw) $"value" (parseLooseValue valueRaw) payload in
  let payload := put (c_invert rule) $"invert" (VBool true) payload in
  VObj (put (c_pass_missing_key rule) $"pass_missing_key" (VBool true) payload).

Definition prune_payload (draft : PruneObjectsDraft) : object :=
  let typeText := trim (pd_typeText draft) in
  let conditions := prune_condition <$> List.filter (λ rule, truthy (trim (c_path rule))) (pd_rules draft) in
  let payload := put (truthy typeText) $"type" (VStr typeText) [] in
  let payload := put (bool_decide (toUpperCase (str_or (pd_logic draft) $"AND") = $"OR")) $"logic" (VStr $"OR") payload in
  let payload := put (negb (pd_recursive draft)) $"recursive" (VBool false) payload in
  put (match conditions with [] => false | _ => true end) $"conditions" (VArr conditions) payload.

Definition buildPruneObjectsValueText (draft : PruneObjectsDraft) : jsstr :=
  if pd_simpleMode draft then trim (pd_typeText draft)
  else
    let payload := prune_payload draft in
    if negb (to_boolean (fld payload $"type")) && negb (to_boolean (fld payload $"conditions"))
    then json_text [($"logic", VStr $"AND")] else json_text payload.
End Prune.

(** ** Headers passed through *)

(** [String(i ?? '').trim()] of every entry, without empty ones *)
Definition header_names (items : list value) : list jsstr :=
  List.filter truthy ((λ i, trim (value_text (nullish i (VStr [])))) <$> items).

Definition parsePassHeaderNames (rawValue : value) : list jsstr :=
  match rawValue with
  | VArr items => header_names items
  | VObj o =>
    match fld o $"headers" with
    | VArr items => header_names items
    | _ => if is_undef (fld o $"header") then [] else header_names [fld o $"header"]
    end
  | VStr s => comma_parts s
  | _ => []
  end.

(** ** Checking the rules *)

Definition meta_of (mode : jsstr) : ModeMeta :=
  match om_get mode MODE_META with
  | Some meta => meta
  | None => default (Build_ModeMeta false false false false false false false) (om_get $"set" MODE_META)
  end.

Definition mode_of (o : ParamOverrideOperation) : jsstr := str_or (o_mode o) $"set".

Section Validation.
Context {T : Translation}.

(** The message the loop returns at a rule, if it returns there. *)
Definition operation_error (line : Z) (op : ParamOverrideOperation) : option jsstr :=
  let mode := mode_of op in
  let meta := meta_of mode in
  let pathValue := trim (o_path op) in
  let fromValue := trim (o_from op) in
  let toValue := trim (o_to op) in
  let raw := trim (o_value_text op) in
  if mm_path meta && negb (truthy pathValue) then Some (t $"Rule {{line}} is missing target path" (Some line))
  else if bool_decide (mode ∈ FROM_REQUIRED_MODES) && negb (truthy fromValue)
          && negb (mm_pathAlias meta && truthy pathValue)
  then Some (t $"Rule {{line}} is missing source field" (Some line))
  else if bool_decide (mode ∈ TO_REQUIRED_MODES) && negb (truthy toValue)
          && negb (mm_pathAlias meta && truthy pathValue)
  then Some (t $"Rule {{line}} is missing target field" (Some line))
  else if bool_decide (mode ∈ VALUE_REQUIRED_MODES) && negb (truthy raw)
  then Some (t $"Rule {{line}} is missing value" (Some line))
  else if bool_decide (mode = $"return_error") then
    if negb (truthy raw) then Some (t $"Rule {{line}} is missing value" (Some line))
    else match json_parse raw with
    | Some (VObj o) =>
      if negb (truthy (text_or_empty (fld o $"message")))
      then Some (t $"Rule {{line}} return_error requires a message field" (Some line)) else None
    | _ => None
    end
  else if bool_decide (mode = $"prune_objects") then
    if negb (truthy raw) then Some (t $"Rule {{line}} prune_objects is missing conditions" (Some line)) else None
  else if bool_decide (mode = $"pass_headers") then
    if negb (truthy raw) then Some (t $"Rule {{line}} pass_headers is missing header names" (Some line))
    else match parsePassHeaderNames (parseLooseValue raw) with
    | [] => Some (t $"Rule {{line}} pass_headers format is invalid" (Some line))
    | _ => None
    end
  else None.

Fixpoint validate_from (line : Z) (operations : list ParamOverrideOperation) : jsstr :=
  match operations with
  | [] => []
  | op :: rest => match operation_error line op with Some message => message | None => validate_from (line + 1) rest end
  end.

Definition validateOperations (operations : list ParamOverrideOperation) : jsstr := validate_from 1 operations.
End Validation.

(** ** Writing the rules *)

Definition buildConditionPayload (condition : ParamOverrideCondition) : option object :=
  let path := trim (c_path condition) in
  if negb (truthy path) then None
  else
    let payload := [($"path", VStr path); ($"mode", VStr (str_or (c_mode condition) $"full"));
                    ($"value", parseLooseValue (c_value_text condition))] in
    let payload := put (c_invert condition) $"invert" (VBool true) payload in
    Some (put (c_pass_missing_key condition) $"pass_missing_key" (VBool true) payload).

(** The fields the mode uses. *)
Definition base_payload (operation : ParamOverrideOperation) : object :=
  let mode := mode_of operation in
  let meta := meta_of mode in
  let descriptionValue := trim (o_description operation) in
  let pathValue := trim (o_path operation) in
  let fromValue := trim (o_from operation) in
  let toValue := trim (o_to operation) in
  let payload := [($"mode", VStr mode)] in
  let payload := put (truthy descriptionValue) $"description" (VStr descriptionValue) payload in
  let payload := put (mm_path meta) $"path" (VStr pathValue) payload in
  let payload := put (mm_pathOptional meta && truthy pathValue) $"path" (VStr pathValue) payload in
  let payload := put (mm_value meta) $"value" (parseLooseValue (o_value_text operation)) payload in
  let payload := put (mm_keepOrigin meta && o_keep_origin operation) $"keep_origin" (VBool true) payload in
  let payload := put (mm_from meta) $"from" (VStr fromValue) payload in
  let payload := put (negb (mm_to meta) && truthy (trim (o_to operation))) $"to" (VStr toValue) payload in
  put (mm_to meta) $"to" (VStr toValue) payload.

(** A path stands in for a missing source or target. *)
Definition alias_payload (operation : ParamOverrideOperation) (payload : object) : object :=
  let pathValue := trim (o_path operation) in
  if mm_pathAlias (meta_of (mode_of operation)) then
    let payload := put (negb (to_boolean (fld payload $"from")) && truthy pathValue) $"from" (VStr pathValue) payload in
    put (negb (to_boolean (fld payload $"to")) && truthy pathValue) $"to" (VStr pathValue) payload
  else payload.

Definition operation_payload (operation : ParamOverrideOperation) : object :=
  let payload := alias_payload operation (base_payload operation) in
  let conditions := omap buildConditionPayload (o_conditions operation) in
  match conditions with
  | [] => payload
  | _ => obj_assign (obj_assign payload ($"conditions", VArr (VObj <$> conditions)))
           ($"logic", VStr (if bool_decide (o_logic operation = $"AND") then $"AND" else $"OR"))
  end.

(** [JSON.stringify(v, null, 2)] *)
Definition pretty (v : value) : jsstr := default [] (json_stringify $"  " v).

(** The text, or the message of the error that is thrown. *)
Definition buildOperationsJson {T : Translation} (sourceOperations : list ParamOverrideOperation) (validate : bool)
  : jsstr + jsstr :=
  let filteredOps := List.filter (λ o, negb (isOperationBlank o)) sourceOperations in
  match filteredOps with
  | [] => inr []
  | _ =>
    let message := if validate then validateOperations filteredOps else [] in
    if truthy message then inl message
    else inr (pretty (VObj [($"operations", VArr (VObj <$> (operation_payload <$> filteredOps)))]))
  end.

(** ** Opening the dialog *)

Inductive EditMode := Visual | JsonText.
Inductive VisualMode := Operations | Legacy.

Record EditorState := {
  es_editMode : EditMode;
  es_visualMode : VisualMode;
  es_legacyValue : jsstr;
  es_operations : list ParamOverrideOperation;
  es_jsonText : jsstr;
  es_jsonError : jsstr
}.

Section Opening.
Context {K : Clock} {UE : UpperEnv}.

(** The rules of a stored list; an empty list is shown as one empty rule. *)
Definition operations_of (l : list value) : M (list ParamOverrideOperation) :=
  match l with
  | [] => o ← createDefaultOperation; mret [o]
  | _ => mapM normalizeOperation l
  end.

Definition parseInitialState (text : jsstr) : M EditorState :=
  let trimmed := trim text in
  let state editMode visualMode legacyValue jsonText jsonError operations :=
    mret (Build_EditorState editMode visualMode legacyValue operations jsonText jsonError) in
  if negb (truthy trimmed) then o ← createDefaultOperation; state Visual Operations [] [] [] [o]
  else match json_parse trimmed with
  | None => o ← createDefaultOperation; state JsonText Operations [] text $"Invalid JSON format" [o]
  | Some (VObj fields) =>
    let parsed := VObj fields in
    match fld fields $"operations" with
    | VArr l => ops ← operations_of l; state Visual Operations [] (pretty parsed) [] ops
    | _ => o ← createDefaultOperation; state Visual Legacy (pretty parsed) (pretty parsed) [] [o]
    end
  | Some parsed => o ← createDefaultOperation; state JsonText Operations [] (pretty parsed) [] [o]
  end.
End Opening.

(** ** An environment to run the definitions in *)

(** A clock that ticks with every id, letters of ASCII, and texts shown as they are. *)
Definition count_clock : Clock := {| now := λ n, n |}.
Definition ascii_upper_env : UpperEnv := {| toUpperCase := map ascii_upper |}.
Definition keys_shown : Translation := {| t k _ := k |}.

Lemma ascii_upper_laws : UpperLaws ascii_upper_env.
Proof. constructor. reflexivity. Qed.

Lemma keys_shown_laws : TranslationLaws keys_shown.
Proof. by constructor. Qed.
