(* ===== verification/ParamOverrideDialog.v ===== *)
(** * Parameter overrides: the dialog

    The component [ParamOverrideEditorDialog] of
    [src/web/src/features/channels/components/dialogs/param-override-editor-dialog.tsx]
    as a state machine: [Dialog] holds its [useState] variables, what was handed
    to [onSave], the toasts, and the counter of the module that numbers the local
    ids.  Each callback is a definition; [handle] dispatches the events of the
    user, and [step] adds the effect that keeps the selection valid.  [None] is
    an uncaught TypeError. *)

From S2P Require Import Prelude JsString JsText JsNumber NumberText JsValue Json JsMath OrderedMap JsObject.
From S2P Require Import ChannelForm ParamOverrideTables ParamOverride.

Local Open Scope Z_scope.
Local Open Scope js_scope.

(** ** State *)

Record Dialog := {
  d_editMode : EditMode;
  d_visualMode : VisualMode;
  d_legacyValue : jsstr;
  d_operations : list ParamOverrideOperation;
  d_jsonText : jsstr;
  d_jsonError : jsstr;
  d_operationSearch : jsstr;
  d_selectedOperationId : jsstr;
  d_expandedConditions : list (jsstr * bool);
  d_draggedOperationId : jsstr;
  d_dragOverOperationId : jsstr;
  d_dragOverPosition : Position;
  d_templatePresetKey : jsstr;
  d_open : bool;
  d_saved : list jsstr;
  d_toasts : list jsstr;
  d_seed : Z
}.

(** The setters. *)
Definition set_editMode (x : EditMode) (d : Dialog) : Dialog :=
  Build_Dialog x (d_visualMode d) (d_legacyValue d) (d_operations d) (d_jsonText d) (d_jsonError d) (d_operationSearch d) (d_selectedOperationId d) (d_expandedConditions d) (d_draggedOperationId d) (d_dragOverOperationId d) (d_dragOverPosition d) (d_templatePresetKey d) (d_open d) (d_saved d) (d_toasts d) (d_seed d).
Definition set_visualMode (x : VisualMode) (d : Dialog) : Dialog :=
  Build_Dialog (d_editMode d) x (d_legacyValue d) (d_operations d) (d_jsonText d) (d_jsonError d) (d_operationSearch d) (d_selectedOperationId d) (d_expandedConditions d) (d_draggedOperationId d) (d_dragOverOperationId d) (d_dragOverPosition d) (d_templatePresetKey d) (d_open d) (d_saved d) (d_toasts d) (d_seed d).
Definition set_legacyValue (x : jsstr) (d : Dialog) : Dialog :=
  Build_Dialog (d_editMode d) (d_visualMode d) x (d_operations d) (d_jsonText d) (d_jsonError d) (d_operationSearch d) (d_selectedOperationId d) (d_expandedConditions d) (d_draggedOperationId d) (d_dragOverOperationId d) (d_dragOverPosition d) (d_templatePresetKey d) (d_open d) (d_saved d) (d_toasts d) (d_seed d).
Definition set_operations (x : list ParamOverrideOperation) (d : Dialog) : Dialog :=
  Build_Dialog (d_editMode d) (d_visualMode d) (d_legacyValue d) x (d_jsonText d) (d_jsonError d) (d_operationSearch d) (d_selectedOperationId d) (d_expandedConditions d) (d_draggedOperationId d) (d_dragOverOperationId d) (d_dragOverPosition d) (d_templatePresetKey d) (d_open d) (d_saved d) (d_toasts d) (d_seed d).
Definition set_jsonText (x : jsstr) (d : Dialog) : Dialog :=
  Build_Dialog (d_editMode d) (d_visualMode d) (d_legacyValue d) (d_operations d) x (d_jsonError d) (d_operationSearch d) (d_selectedOperationId d) (d_expandedConditions d) (d_draggedOperationId d) (d_dragOverOperationId d) (d_dragOverPosition d) (d_templatePresetKey d) (d_open d) (d_saved d) (d_toasts d) (d_seed d).
Definition set_jsonError (x : jsstr) (d : Dialog) : Dialog :=
  Build_Dialog (d_editMode d) (d_visualMode d) (d_legacyValue d) (d_operations d) (d_jsonText d) x (d_operationSearch d) (d_selectedOperationId d) (d_expandedConditions d) (d_draggedOperationId d) (d_dragOverOperationId d) (d_dragOverPosition d) (d_templatePresetKey d) (d_open d) (d_saved d) (d_toasts d) (d_seed d).
Definition set_operationSearch (x : jsstr) (d : Dialog) : Dialog :=
  Build_Dialog (d_editMode d) (d_visualMode d) (d_legacyValue d) (d_operations d) (d_jsonText d) (d_jsonError d) x (d_selectedOperationId d) (d_expandedConditions d) (d_draggedOperationId d) (d_dragOverOperationId d) (d_dragOverPosition d) (d_templatePresetKey d) (d_open d) (d_saved d) (d_toasts d) (d_seed d).
Definition set_selectedOperationId (x : jsstr) (d : Dialog) : Dialog :=
  Build_Dialog (d_editMode d) (d_visualMode d) (d_legacyValue d) (d_operations d) (d_jsonText d) (d_jsonError d) (d_operationSearch d) x (d_expandedConditions d) (d_draggedOperationId d) (d_dragOverOperationId d) (d_dragOverPosition d) (d_templatePresetKey d) (d_open d) (d_saved d) (d_toasts d) (d_seed d).
Definition set_expandedConditions (x : list (jsstr * bool)) (d : Dialog) : Dialog :=
  Build_Dialog (d_editMode d) (d_visualMode d) (d_legacyValue d) (d_operations d) (d_jsonText d) (d_jsonError d) (d_operationSearch d) (d_selectedOperationId d) x (d_draggedOperationId d) (d_dragOverOperationId d) (d_dragOverPosition d) (d_templatePresetKey d) (d_open d) (d_saved d) (d_toasts d) (d_seed d).
Definition set_draggedOperationId (x : jsstr) (d : Dialog) : Dialog :=
  Build_Dialog (d_editMode d) (d_visualMode d) (d_legacyValue d) (d_operations d) (d_jsonText d) (d_jsonError d) (d_operationSearch d) (d_selectedOperationId d) (d_expandedConditions d) x (d_dragOverOperationId d) (d_dragOverPosition d) (d_templatePresetKey d) (d_open d) (d_saved d) (d_toasts d) (d_seed d).
Definition set_dragOverOperationId (x : jsstr) (d : Dialog) : Dialog :=
  Build_Dialog (d_editMode d) (d_visualMode d) (d_legacyValue d) (d_operations d) (d_jsonText d) (d_jsonError d) (d_operationSearch d) (d_selectedOperationId d) (d_expandedConditions d) (d_draggedOperationId d) x (d_dragOverPosition d) (d_templatePresetKey d) (d_open d) (d_saved d) (d_toasts d) (d_seed d).
Definition set_dragOverPosition (x : Position) (d : Dialog) : Dialog :=
  Build_Dialog (d_editMode d) (d_visualMode d) (d_legacyValue d) (d_operations d) (d_jsonText d) (d_jsonError d) (d_operationSearch d) (d_selectedOperationId d) (d_expandedConditions d) (d_draggedOperationId d) (d_dragOverOperationId d) x (d_templatePresetKey d) (d_open d) (d_saved d) (d_toasts d) (d_seed d).
Definition set_templatePresetKey (x : jsstr) (d : Dialog) : Dialog :=
  Build_Dialog (d_editMode d) (d_visualMode d) (d_legacyValue d) (d_operations d) (d_jsonText d) (d_jsonError d) (d_operationSearch d) (d_selectedOperationId d) (d_expandedConditions d) (d_draggedOperationId d) (d_dragOverOperationId d) (d_dragOverPosition d) x (d_open d) (d_saved d) (d_toasts d) (d_seed d).
Definition set_open (x : bool) (d : Dialog) : Dialog :=
  Build_Dialog (d_editMode d) (d_visualMode d) (d_legacyValue d) (d_operations d) (d_jsonText d) (d_jsonError d) (d_operationSearch d) (d_selectedOperationId d) (d_expandedConditions d) (d_draggedOperationId d) (d_dragOverOperationId d) (d_dragOverPosition d) (d_templatePresetKey d) x (d_saved d) (d_toasts d) (d_seed d).
Definition set_saved (x : list jsstr) (d : Dialog) : Dialog :=
  Build_Dialog (d_editMode d) (d_visualMode d) (d_legacyValue d) (d_operations d) (d_jsonText d) (d_jsonError d) (d_operationSearch d) (d_selectedOperationId d) (d_expandedConditions d) (d_draggedOperationId d) (d_dragOverOperationId d) (d_dragOverPosition d) (d_templatePresetKey d) (d_open d) x (d_toasts d) (d_seed d).
Definition set_toasts (x : list jsstr) (d : Dialog) : Dialog :=
  Build_Dialog (d_editMode d) (d_visualMode d) (d_legacyValue d) (d_operations d) (d_jsonText d) (d_jsonError d) (d_operationSearch d) (d_selectedOperationId d) (d_expandedConditions d) (d_draggedOperationId d) (d_dragOverOperationId d) (d_dragOverPosition d) (d_templatePresetKey d) (d_open d) (d_saved d) x (d_seed d).
Definition set_seed (x : Z) (d : Dialog) : Dialog :=
  Build_Dialog (d_editMode d) (d_visualMode d) (d_legacyValue d) (d_operations d) (d_jsonText d) (d_jsonError d) (d_operationSearch d) (d_selectedOperationId d) (d_expandedConditions d) (d_draggedOperationId d) (d_dragOverOperationId d) (d_dragOverPosition d) (d_templatePresetKey d) (d_open d) (d_saved d) (d_toasts d) x.

(** Runs code that makes ids with the counter of the module. *)
Definition with_ids {A} (m : M A) (d : Dialog) (k : A → Dialog → option Dialog) : option Dialog :=
  match m (d_seed d) with Some (a, seed) => k a (set_seed seed d) | None => None end.

(** ** Partial updates *)

Record OperationPatch := {
  po_description : option jsstr;
  po_path : option jsstr;
  po_mode : option jsstr;
  po_from : option jsstr;
  po_to : option jsstr;
  po_value_text : option jsstr;
  po_keep_origin : option bool;
  po_logic : option jsstr
}.

Definition patch_operation (p : OperationPatch) (o : ParamOverrideOperation) : ParamOverrideOperation :=
  {| o_id := o_id o;
     o_description := default (o_description o) (po_description p);
     o_path := default (o_path o) (po_path p);
     o_mode := default (o_mode o) (po_mode p);
     o_from := default (o_from o) (po_from p);
     o_to := default (o_to o) (po_to p);
     o_value_text := default (o_value_text o) (po_value_text p);
     o_keep_origin := default (o_keep_origin o) (po_keep_origin p);
     o_logic := default (o_logic o) (po_logic p);
     o_conditions := o_conditions o |}.

Definition with_value_text (text : jsstr) (o : ParamOverrideOperation) : ParamOverrideOperation :=
  patch_operation (Build_OperationPatch None None None None None (Some text) None None) o.

Definition with_conditions (l : list ParamOverrideCondition) (o : ParamOverrideOperation) : ParamOverrideOperation :=
  Build_ParamOverrideOperation (o_id o) (o_description o) (o_path o) (o_mode o) (o_from o) (o_to o) (o_value_text o)
    (o_keep_origin o) (o_logic o) l.

Record ConditionPatch := {
  pc_path : option jsstr;
  pc_mode : option jsstr;
  pc_value_text : option jsstr;
  pc_invert : option bool;
  pc_pass_missing_key : option bool
}.

Definition patch_condition (p : ConditionPatch) (c : ParamOverrideCondition) : ParamOverrideCondition :=
  {| c_id := c_id c;
     c_path := default (c_path c) (pc_path p);
     c_mode := default (c_mode c) (pc_mode p);
     c_value_text := default (c_value_text c) (pc_value_text p);
     c_invert := default (c_invert c) (pc_invert p);
     c_pass_missing_key := default (c_pass_missing_key c) (pc_pass_missing_key p) |}.

Record ReturnErrorPatch := {
  pr_message : option jsstr;
  pr_statusCode : option number;
  pr_code : option jsstr;
  pr_type : option jsstr;
  pr_skipRetry : option bool;
  pr_simpleMode : option bool
}.

Definition patch_return_error (p : ReturnErrorPatch) (d : ReturnErrorDraft) : ReturnErrorDraft :=
  {| re_message := default (re_message d) (pr_message p);
     re_statusCode := default (re_statusCode d) (pr_statusCode p);
     re_code := default (re_code d) (pr_code p);
     re_type := default (re_type d) (pr_type p);
     re_skipRetry := default (re_skipRetry d) (pr_skipRetry p);
     re_simpleMode := default (re_simpleMode d) (pr_simpleMode p) |}.

(** What the editor of prune rules sets directly. *)
Record PrunePatch := {
  pp_simpleMode : option bool;
  pp_typeText : option jsstr;
  pp_logic : option jsstr;
  pp_recursive : option bool
}.

Definition patch_prune (p : PrunePatch) (d : PruneObjectsDraft) : PruneObjectsDraft :=
  {| pd_simpleMode := default (pd_simpleMode d) (pp_simpleMode p);
     pd_typeText := default (pd_typeText d) (pp_typeText p);
     pd_logic := default (pd_logic d) (pp_logic p);
     pd_recursive := default (pd_recursive d) (pp_recursive p);
     pd_rules := pd_rules d |}.

Definition with_rules (l : list PruneRule) (d : PruneObjectsDraft) : PruneObjectsDraft :=
  Build_PruneObjectsDraft (pd_simpleMode d) (pd_typeText d) (pd_logic d) (pd_recursive d) l.

Definition advanced_mode (d : PruneObjectsDraft) : PruneObjectsDraft :=
  Build_PruneObjectsDraft false (pd_typeText d) (pd_logic d) (pd_recursive d) (pd_rules d).

(** [ops.map((o) => o.id === id ? f(o) : o)] *)
Definition map_id (id : jsstr) (f : ParamOverrideOperation → ParamOverrideOperation)
    (ops : list ParamOverrideOperation) : list ParamOverrideOperation :=
  (λ o, if has_id id o then f o else o) <$> ops.

(** The same where the update makes ids. *)
Definition mapM_id (id : jsstr) (f : ParamOverrideOperation → M ParamOverrideOperation)
    (ops : list ParamOverrideOperation) : M (list ParamOverrideOperation) :=
  mapM (λ o, if has_id id o then f o else mret o) ops.

Definition cond_is (id : jsstr) (c : ParamOverrideCondition) : bool := bool_decide (c_id c = id).

Section Dialog.
Context {K : Clock} {UE : UpperEnv} {TE : TextEnv} {T : Translation}.

(** ** Opening *)

Definition first_id (ops : list ParamOverrideOperation) : jsstr := from_option o_id [] (head ops).

Definition resetDragState (d : Dialog) : Dialog :=
  set_dragOverPosition Before (set_dragOverOperationId [] (set_draggedOperationId [] d)).

(** The effect on [props.open] and [props.value]. *)
Definition load_state (state : EditorState) (d : Dialog) : Dialog :=
  let d := set_open true d in
  let d := set_editMode (es_editMode state) d in
  let d := set_visualMode (es_visualMode state) d in
  let d := set_legacyValue (es_legacyValue state) d in
  let d := set_operations (es_operations state) d in
  let d := set_jsonText (es_jsonText state) d in
  let d := set_jsonError (es_jsonError state) d in
  let d := set_operationSearch [] d in
  let d := set_selectedOperationId (first_id (es_operations state)) d in
  let d := set_expandedConditions [] d in
  let d := resetDragState d in
  set_templatePresetKey
    (match es_visualMode state with Legacy => $"legacy_default" | Operations => $"operations_default" end) d.

Definition open_with (text : jsstr) (d : Dialog) : option Dialog :=
  with_ids (parseInitialState text) d (λ state d, Some (load_state state d)).

(** The effect that keeps the selection valid. *)
Definition keep_selected (d : Dialog) : Dialog :=
  match d_operations d with
  | [] => set_selectedOperationId [] d
  | o :: _ =>
    if existsb (has_id (d_selectedOperationId d)) (d_operations d) then d else set_selectedOperationId (o_id o) d
  end.

(** ** What is shown *)

Definition operationCount (d : Dialog) : Z :=
  Z.of_nat (length (List.filter (λ o, negb (isOperationBlank o)) (d_operations d))).

Definition searchable_text (op : ParamOverrideOperation) : jsstr :=
  toLowerCase (join [32] (List.filter truthy
    [o_description op; o_mode op; o_path op; o_from op; o_to op; o_value_text op])).

Definition filteredOperations (d : Dialog) : list ParamOverrideOperation :=
  let keyword := toLowerCase (trim (d_operationSearch d)) in
  if negb (truthy keyword) then d_operations d
  else List.filter (λ op, includes keyword (searchable_text op)) (d_operations d).

Definition selectedOperation (d : Dialog) : option ParamOverrideOperation :=
  List.find (has_id (d_selectedOperationId d)) (d_operations d).

Definition selectedOperationIndex (d : Dialog) : option nat := find_index (has_id (d_selectedOperationId d)) (d_operations d).

Definition returnErrorDraft (d : Dialog) : option ReturnErrorDraft :=
  op ← selectedOperation d;
  if bool_decide (o_mode op = $"return_error") then Some (parseReturnErrorDraft (o_value_text op)) else None.

(** Its rules get ids of their own. *)
Definition pruneObjectsDraft (d : Dialog) : M (option PruneObjectsDraft) :=
  match selectedOperation d with
  | Some op =>
    if bool_decide (o_mode op = $"prune_objects")
    then draft ← parsePruneObjectsDraft (o_value_text op); mret (Some draft) else mret None
  | None => mret None
  end.

(** The four most used modes. *)
Definition topOperationModes (d : Dialog) : list (jsstr * Z) :=
  let counts := fold_left (λ acc op, let mode := mode_of op in om_set mode (default 0 (om_get mode acc) + 1) acc)
                  (d_operations d) [] in
  take 4 (js_sort (λ a b, b.2 - a.2) counts).

(** ** Rules *)

Definition updateOperation (id : jsstr) (patch : OperationPatch) (d : Dialog) : Dialog :=
  set_operations (map_id id (patch_operation patch) (d_operations d)) d.

Definition addOperation (d : Dialog) : option Dialog :=
  with_ids createDefaultOperation d (λ created d,
    Some (set_selectedOperationId (o_id created) (set_operations (d_operations d ++ [created]) d))).

Definition clone_value (source : ParamOverrideOperation) : value :=
  VObj [($"description", VStr (o_description source)); ($"path", VStr (o_path source)); ($"mode", VStr (o_mode source));
        ($"value", parseLooseValue (o_value_text source)); ($"keep_origin", VBool (o_keep_origin source));
        ($"from", VStr (o_from source)); ($"to", VStr (o_to source)); ($"logic", VStr (o_logic source));
        ($"conditions", VArr ((λ c, VObj
          [($"path", VStr (c_path c)); ($"mode", VStr (c_mode c)); ($"value", parseLooseValue (c_value_text c));
           ($"invert", VBool (c_invert c)); ($"pass_missing_key", VBool (c_pass_missing_key c))])
          <$> o_conditions source))].

(** Whether React runs the updater before the callback goes on, so that the
    callback sees the new id, is up to React ([eager]). *)
Definition duplicateOperation (id : jsstr) (eager : bool) (d : Dialog) : option Dialog :=
  match find_index (has_id id) (d_operations d) with
  | None => Some d
  | Some idx =>
    match d_operations d !! idx with
    | None => Some d
    | Some source =>
      with_ids (normalizeOperation (clone_value source)) d (λ cloned d,
        let d := set_operations (splice_in (S idx) cloned (d_operations d)) d in
        Some (if eager then set_selectedOperationId (o_id cloned) d else d))
    end
  end.

Definition removeOperation (id : jsstr) (d : Dialog) : option Dialog :=
  match d_operations d with
  | [] | [_] => with_ids createDefaultOperation d (λ created d, Some (set_operations [created] d))
  | ops => Some (set_operations (List.filter (λ o, negb (has_id id o)) ops) d)
  end.

(** ** Conditions *)

Definition addCondition (id : jsstr) (d : Dialog) : option Dialog :=
  with_ids createDefaultCondition d (λ created d,
    let d := set_operations (map_id id (λ op, with_conditions (o_conditions op ++ [created]) op) (d_operations d)) d in
    Some (set_expandedConditions (om_set (c_id created) true (d_expandedConditions d)) d)).

Definition updateCondition (id conditionId : jsstr) (patch : ConditionPatch) (d : Dialog) : Dialog :=
  set_operations (map_id id (λ op, with_conditions
    ((λ c, if cond_is conditionId c then patch_condition patch c else c) <$> o_conditions op) op) (d_operations d)) d.

Definition removeCondition (id conditionId : jsstr) (d : Dialog) : Dialog :=
  set_operations (map_id id (λ op, with_conditions
    (List.filter (λ c, negb (cond_is conditionId c)) (o_conditions op)) op) (d_operations d)) d.

(** ** Editors of structured values *)

Definition updateReturnErrorDraft (id : jsstr) (patch : ReturnErrorPatch) (d : Dialog) : Dialog :=
  set_operations (map_id id (λ op, with_value_text
    (buildReturnErrorValueText (patch_return_error patch (parseReturnErrorDraft (o_value_text op)))) op) (d_operations d)) d.

Definition prune_edit (updater : PruneObjectsDraft → M PruneObjectsDraft) (op : ParamOverrideOperation)
  : M ParamOverrideOperation :=
  draft ← parsePruneObjectsDraft (o_value_text op);
  nextDraft ← updater draft;
  mret (with_value_text (buildPruneObjectsValueText nextDraft) op).

Definition updatePruneObjectsDraft (id : jsstr) (updater : PruneObjectsDraft → M PruneObjectsDraft) (d : Dialog)
  : option Dialog :=
  with_ids (mapM_id id (prune_edit updater) (d_operations d)) d (λ ops d, Some (set_operations ops d)).

Definition addPruneRule (id : jsstr) (d : Dialog) : option Dialog :=
  updatePruneObjectsDraft id (λ draft,
    created ← normalizePruneRule (VObj []);
    mret (with_rules (pd_rules draft ++ [created]) (advanced_mode draft))) d.

Definition updatePruneRule (id ruleId : jsstr) (patch : ConditionPatch) (d : Dialog) : option Dialog :=
  updatePruneObjectsDraft id (λ draft,
    mret (with_rules ((λ r, if cond_is ruleId r then patch_condition patch r else r) <$> pd_rules draft) draft)) d.

Definition removePruneRule (id ruleId : jsstr) (d : Dialog) : option Dialog :=
  updatePruneObjectsDraft id (λ draft,
    mret (with_rules (List.filter (λ r, negb (cond_is ruleId r)) (pd_rules draft)) draft)) d.

(** ** Drag and drop *)

Definition handleDragStart (id : jsstr) (d : Dialog) : Dialog := set_selectedOperationId id (set_draggedOperationId id d).

Definition handleDragOver (id : jsstr) (position : Position) (d : Dialog) : Dialog :=
  if negb (truthy (d_draggedOperationId d)) || bool_decide (d_draggedOperationId d = id) then d
  else set_dragOverPosition position (set_dragOverOperationId id d).

(** [data] is what the drag event carries as text. *)
Definition handleDrop (id data : jsstr) (d : Dialog) : Dialog :=
  let sourceId := str_or (d_draggedOperationId d) data in
  let position := if bool_decide (d_dragOverOperationId d = id) then d_dragOverPosition d else Before in
  let d := if truthy sourceId && truthy id && negb (bool_decide (sourceId = id))
           then set_selectedOperationId sourceId (set_operations (reorderOperations (d_operations d) sourceId id position) d)
           else d in
  resetDragState d.

(** ** Switching between rules and text *)

(** The text, or the message of the error. *)
Definition buildVisualJson (d : Dialog) : jsstr + jsstr :=
  match d_visualMode d with
  | Legacy =>
    let trimmed := trim (d_legacyValue d) in
    if negb (truthy trimmed) then inr []
    else match json_parse trimmed with
    | None => inl (t $"Parameter override must be valid JSON format" None)
    | Some (VObj o) => inr (pretty (VObj o))
    | Some _ => inl (t $"Legacy format must be a JSON object" None)
    end
  | Operations => buildOperationsJson (d_operations d) true
  end.

Definition toast_error (message : jsstr) (d : Dialog) : Dialog := set_toasts (d_toasts d ++ [message]) d.

Definition switchToJsonMode (d : Dialog) : Dialog :=
  match d_editMode d with
  | JsonText => d
  | Visual =>
    let d := match buildVisualJson d with
             | inr text => set_jsonError [] (set_jsonText text d)
             | inl message =>
               let d := toast_error message d in
               let text := match d_visualMode d with
                           | Legacy => d_legacyValue d
                           | Operations => match buildOperationsJson (d_operations d) false with inr s => s | inl s => s end
                           end in
               set_jsonError (str_or message (t $"Parameter configuration error" None)) (set_jsonText text d)
             end in
    set_editMode JsonText d
  end.

(** The rules take over. *)
Definition show_operations (ops : list ParamOverrideOperation) (d : Dialog) : Dialog :=
  let d := set_visualMode Operations d in
  let d := set_operations ops d in
  let d := set_selectedOperationId (first_id ops) d in
  let d := set_legacyValue [] d in
  let d := set_jsonError [] d in
  set_editMode Visual d.

Definition switchToVisualMode (d : Dialog) : option Dialog :=
  match d_editMode d with
  | Visual => Some d
  | JsonText =>
    let trimmed := trim (d_jsonText d) in
    if negb (truthy trimmed) then with_ids createDefaultOperation d (λ fallback d, Some (show_operations [fallback] d))
    else match json_parse trimmed with
    | None => Some (toast_error (t $"Parameter override must be valid JSON format" None) d)
    | Some (VObj fields) =>
      match fld fields $"operations" with
      | VArr l =>
        with_ids (operations_of l) d (λ nextOps d,
          Some (set_templatePresetKey $"operations_default" (show_operations nextOps d)))
      | _ =>
        with_ids createDefaultOperation d (λ fallback d,
          let d := set_visualMode Legacy d in
          let d := set_legacyValue (pretty (VObj fields)) d in
          let d := set_operations [fallback] d in
          let d := set_selectedOperationId (o_id fallback) d in
          let d := set_jsonError [] d in
          let d := set_editMode Visual d in
          Some (set_templatePresetKey $"legacy_default" d))
      end
    | Some _ => Some (toast_error (t $"Parameter override must be a valid JSON object" None) d)
    end
  end.

(** ** Templates *)

Inductive FillMode := Fill | Append.

Definition preset_of (d : Dialog) : TemplatePresetConfig :=
  match om_get (d_templatePresetKey d) TEMPLATE_PRESET_CONFIG with
  | Some preset => preset
  | None => default (Build_TemplatePresetConfig [] KOperations VUndefined) (om_get $"operations_default" TEMPLATE_PRESET_CONFIG)
  end.

Definition show_legacy (text : jsstr) (d : Dialog) : option Dialog :=
  with_ids createDefaultOperation d (λ created d,
    let d := set_visualMode Legacy d in
    let d := set_legacyValue text d in
    let d := set_operations [created] d in
    let d := set_jsonText text d in
    let d := set_jsonError [] d in
    Some (set_editMode Visual d)).

Definition fill_legacy (payload : value) (mode : FillMode) (d : Dialog) : option Dialog :=
  match mode, d_visualMode d with
  | Append, Legacy =>
    let trimmed := trim (d_legacyValue d) in
    match (if truthy trimmed then json_parse trimmed else Some (VObj [])) with
    | None => Some (toast_error (t $"Current legacy JSON is invalid, cannot append" None) d)
    | Some parsedCurrent =>
      show_legacy (pretty (VObj (fold_left obj_assign (own_entries parsedCurrent) (own_entries payload)))) d
    end
  | _, _ => show_legacy (pretty payload) d
  end.

Definition fill_operations (l : list value) (mode : FillMode) (d : Dialog) : option Dialog :=
  match mode with
  | Append =>
    with_ids (mapM normalizeOperation l) d (λ appended d,
      let existing := match d_visualMode d with
                      | Operations => List.filter (λ o, negb (isOperationBlank o)) (d_operations d)
                      | Legacy => []
                      end in
      let nextOps := existing ++ appended in
      let d := set_visualMode Operations d in
      let d := set_operations (match nextOps with [] => appended | _ => nextOps end) d in
      let d := set_selectedOperationId (str_or (first_id nextOps) (first_id appended)) d in
      let d := set_legacyValue [] d in
      let d := set_jsonError [] d in
      let d := set_editMode Visual d in
      Some (set_jsonText [] d))
  | Fill =>
    with_ids (operations_of l) d (λ finalOps d,
      let d := set_visualMode Operations d in
      let d := set_operations finalOps d in
      let d := set_selectedOperationId (first_id finalOps) d in
      let d := set_jsonText (pretty (VObj [($"operations", VArr l)])) d in
      let d := set_jsonError [] d in
      Some (set_editMode Visual d))
  end.

Definition fillTemplate (mode : FillMode) (d : Dialog) : option Dialog :=
  let preset := preset_of d in
  match tp_kind preset with
  | KLegacy => fill_legacy (tp_payload preset) mode d
  | KOperations =>
    fill_operations (match get (tp_payload preset) $"operations" with VArr l => l | _ => [] end) mode d
  end.

Definition resetEditorState (d : Dialog) : option Dialog :=
  with_ids createDefaultOperation d (λ fallback d,
    let d := set_visualMode Operations d in
    let d := set_legacyValue [] d in
    let d := set_operations [fallback] d in
    let d := set_selectedOperationId (o_id fallback) d in
    let d := set_jsonText [] d in
    let d := set_jsonError [] d in
    let d := set_templatePresetKey $"operations_default" d in
    Some (set_editMode Visual d)).

(** ** Text and saving *)

Definition handleJsonChange (nextValue : jsstr) (d : Dialog) : Dialog :=
  let d := set_jsonText nextValue d in
  let trimmed := trim nextValue in
  if negb (truthy trimmed) then set_jsonError [] d
  else set_jsonError (if verifyJSON trimmed then [] else t $"JSON format error" None) d.

Definition visualValidationError (d : Dialog) : jsstr :=
  match d_editMode d with
  | JsonText => []
  | Visual => match buildVisualJson d with inr _ => [] | inl message => str_or message (t $"Parameter configuration error" None) end
  end.

Definition save_text (d : Dialog) : jsstr + jsstr :=
  match d_editMode d with
  | JsonText =>
    let trimmed := trim (d_jsonText d) in
    if negb (truthy trimmed) then inr []
    else match json_parse trimmed with
    | None => inl (t $"Parameter override must be valid JSON format" None)
    | Some v => inr (pretty v)
    end
  | Visual => buildVisualJson d
  end.

Definition handleSave (d : Dialog) : Dialog :=
  match save_text d with
  | inr result => set_open false (set_saved (d_saved d ++ [result]) d)
  | inl message => toast_error message d
  end.

Definition expand_all (expanded : bool) (d : Dialog) : Dialog :=
  match selectedOperation d with
  | None => d
  | Some op =>
    set_expandedConditions (fold_left (λ m c, om_set (c_id c) expanded m) (o_conditions op) (d_expandedConditions d)) d
  end.

(** ** Events *)

Inductive Event :=
| EOpen (text : jsstr)
| EUpdateOperation (id : jsstr) (patch : OperationPatch)
| EAddOperation
| EDuplicateOperation (id : jsstr) (eager : bool)
| ERemoveOperation (id : jsstr)
| EAddCondition (id : jsstr)
| EUpdateCondition (id conditionId : jsstr) (patch : ConditionPatch)
| ERemoveCondition (id conditionId : jsstr)
| EUpdateReturnError (id : jsstr) (patch : ReturnErrorPatch)
| EUpdatePrune (id : jsstr) (patch : PrunePatch)
| EAddPruneRule (id : jsstr)
| EUpdatePruneRule (id ruleId : jsstr) (patch : ConditionPatch)
| ERemovePruneRule (id ruleId : jsstr)
| EDragStart (id : jsstr)
| EDragOver (id : jsstr) (position : Position)
| EDrop (id data : jsstr)
| EDragEnd
| ESwitchToJson
| ESwitchToVisual
| ELegacyChange (text : jsstr)
| EFillTemplate (mode : FillMode)
| EReset
| EJsonChange (text : jsstr)
| ESave
| EExpandAll (expanded : bool)
| EExpand (conditionId : jsstr) (expanded : bool)
| ESearch (text : jsstr)
| ESelect (id : jsstr)
| EChooseTemplate (key : jsstr)
| ERender (ids : nat).

(** Every rendering may make ids that are thrown away ([ERender]): the initial
    state of the rules is computed again, and so are the rules shown for a rule
    that prunes. *)
Definition handle (e : Event) (d : Dialog) : option Dialog :=
  match e with
  | EOpen text => open_with text d
  | EUpdateOperation id patch => Some (updateOperation id patch d)
  | EAddOperation => addOperation d
  | EDuplicateOperation id eager => duplicateOperation id eager d
  | ERemoveOperation id => removeOperation id d
  | EAddCondition id => addCondition id d
  | EUpdateCondition id conditionId patch => Some (updateCondition id conditionId patch d)
  | ERemoveCondition id conditionId => Some (removeCondition id conditionId d)
  | EUpdateReturnError id patch => Some (updateReturnErrorDraft id patch d)
  | EUpdatePrune id patch => updatePruneObjectsDraft id (λ draft, mret (patch_prune patch draft)) d
  | EAddPruneRule id => addPruneRule id d
  | EUpdatePruneRule id ruleId patch => updatePruneRule id ruleId patch d
  | ERemovePruneRule id ruleId => removePruneRule id ruleId d
  | EDragStart id => Some (handleDragStart id d)
  | EDragOver id position => Some (handleDragOver id position d)
  | EDrop id data => Some (handleDrop id data d)
  | EDragEnd => Some (resetDragState d)
  | ESwitchToJson => Some (switchToJsonMode d)
  | ESwitchToVisual => switchToVisualMode d
  | ELegacyChange text => Some (set_legacyValue text d)
  | EFillTemplate mode => fillTemplate mode d
  | EReset => resetEditorState d
  | EJsonChange text => Some (handleJsonChange text d)
  | ESave => Some (handleSave d)
  | EExpandAll expanded => Some (expand_all expanded d)
  | EExpand conditionId expanded => Some (set_expandedConditions (om_set conditionId expanded (d_expandedConditions d)) d)
  | ESearch text => Some (set_operationSearch text d)
  | ESelect id => Some (set_selectedOperationId id d)
  | EChooseTemplate key => Some (set_templatePresetKey (str_or key $"operations_default") d)
  | ERender ids => Some (set_seed (d_seed d + Z.of_nat ids) d)
  end.

Definition step (e : Event) (d : Dialog) : option Dialog := keep_selected <$> handle e d.

(** The state of a dialog that was never opened. *)
Definition initial_dialog (seed : Z) : option Dialog :=
  match createDefaultOperation seed with
  | Some (o, seed) =>
    Some (Build_Dialog Visual Operations [] [o] [] [] [] [] [] [] [] Before $"operations_default" false [] [] seed)
  | None => None
  end.

Inductive reachable : Dialog → Prop :=
| reachable_initial seed d : 0 <= seed → initial_dialog seed = Some d → reachable (keep_selected d)
| reachable_step d e d' : reachable d → step e d = Some d' → reachable d'.
End Dialog.
