(* ===== verification/ParamOverrideFacts.v ===== *)
(** * Parameter overrides: rules and texts

    Lemmas about the pure part of the override dialog, and the theorems
    [rule_validation_exact] and [drag_moves_one_rule]. *)

From S2P Require Import Prelude JsString JsText JsNumber NumberText JsValue Json JsMath OrderedMap JsObject.
From S2P Require Import ChannelForm ParamOverrideTables ParamOverride.

Local Open Scope Z_scope.
Local Open Scope js_scope.

(** ** Validation *)

(** The modes that need each field, as the labels of the dialog describe them. *)
Definition FIELD_MODES : list jsstr :=
  [$"set"; $"delete"; $"append"; $"prepend"; $"replace"; $"regex_replace"; $"trim_prefix"; $"trim_suffix";
   $"ensure_prefix"; $"ensure_suffix"; $"trim_space"; $"to_lower"; $"to_upper"; $"set_header"; $"delete_header"].
Definition COPY_MODES : list jsstr := [$"copy"; $"move"; $"sync_fields"].
Definition REPLACE_MODES : list jsstr := [$"replace"; $"regex_replace"].
Definition HEADER_COPY_MODES : list jsstr := [$"copy_header"; $"move_header"].
Definition TEXT_MODES : list jsstr :=
  [$"trim_prefix"; $"trim_suffix"; $"ensure_prefix"; $"ensure_suffix"; $"set_header"; $"return_error";
   $"prune_objects"; $"pass_headers"].

Definition filled (s : jsstr) : Prop := trim s ≠ [].

(** An error object says what went wrong; headers are named. *)
Definition error_value_ok (text : jsstr) : Prop :=
  ∀ o, json_parse (trim text) = Some (VObj o) → text_or_empty (fld o $"message") ≠ [].
Definition headers_value_ok (text : jsstr) : Prop := parsePassHeaderNames (parseLooseValue (trim text)) ≠ [].

(** A rule the gateway can execute. *)
Record rule_ok (op : ParamOverrideOperation) : Prop := {
  ok_path : o_mode op ∈ FIELD_MODES → filled (o_path op);
  ok_copy : o_mode op ∈ COPY_MODES → filled (o_from op) ∧ filled (o_to op);
  ok_replace : o_mode op ∈ REPLACE_MODES → filled (o_from op);
  ok_header : o_mode op ∈ HEADER_COPY_MODES → filled (o_path op) ∨ filled (o_from op) ∧ filled (o_to op);
  ok_text : o_mode op ∈ TEXT_MODES → filled (o_value_text op);
  ok_error : o_mode op = $"return_error" → error_value_ok (o_value_text op);
  ok_headers : o_mode op = $"pass_headers" → headers_value_ok (o_value_text op) }.

Definition known_mode (op : ParamOverrideOperation) : Prop := o_mode op ∈ OPERATION_MODE_VALUES.

Lemma known_mode_of op : known_mode op → mode_of op = o_mode op.
Proof.
  unfold known_mode, mode_of. intros H. unfold str_or. destruct (o_mode op) eqn:E; [|done].
  revert H. unfold OPERATION_MODE_VALUES. intros H. exfalso.
  assert (bool_decide ([] ∈ OPERATION_MODE_OPTIONS.*1) = false) as Hf by (vm_compute; reflexivity).
  by apply bool_decide_eq_false in Hf.
Qed.

Lemma not_filled s : truthy (trim s) = false ↔ ¬ filled s.
Proof. unfold filled. destruct (trim s); cbn; naive_solver. Qed.
Lemma filled_truthy s : truthy (trim s) = true ↔ filled s.
Proof. unfold filled. destruct (trim s); cbn; naive_solver. Qed.

Section Validation.
Context {T : Translation} {TL : TranslationLaws T}.

(** What the loop asks of a rule, field by field. *)
Definition passes (op : ParamOverrideOperation) : Prop :=
  let mode := mode_of op in
  let meta := meta_of mode in
  (mm_path meta = true → filled (o_path op)) ∧
  (mode ∈ FROM_REQUIRED_MODES → filled (o_from op) ∨ mm_pathAlias meta = true ∧ filled (o_path op)) ∧
  (mode ∈ TO_REQUIRED_MODES → filled (o_to op) ∨ mm_pathAlias meta = true ∧ filled (o_path op)) ∧
  (mode ∈ VALUE_REQUIRED_MODES → filled (o_value_text op)) ∧
  (mode = $"return_error" → error_value_ok (o_value_text op)) ∧
  (mode = $"pass_headers" → headers_value_ok (o_value_text op)).

Lemma required_field (P : Prop) `{Decision P} a s p :
  bool_decide P && negb (truthy (trim s)) && negb (a && truthy (trim p)) = false ↔ (P → filled s ∨ a = true ∧ filled p).
Proof.
  rewrite <- !filled_truthy. case_bool_decide; destruct (truthy (trim s)), a, (truthy (trim p)); cbn; naive_solver.
Qed.

Lemma required_text b s : b && negb (truthy (trim s)) = false ↔ (b = true → filled s).
Proof. rewrite <- filled_truthy. destruct b, (truthy (trim s)); cbn; naive_solver. Qed.

(** A chain of checks. *)
Lemma check_None {A} (b : bool) (m : A) (rest : option A) (P Q : Prop) :
  (b = false ↔ P) → (P → rest = None ↔ Q) → (if b then Some m else rest) = None ↔ P ∧ Q.
Proof. intros H1 H2. destruct b; naive_solver. Qed.

Lemma case_None {A} (P Q R : Prop) `{Decision P} (yes no : option A) :
  (P → yes = None ↔ Q) → (¬ P → no = None ↔ R) → (P → R) →
  (if bool_decide P then yes else no) = None ↔ (P → Q) ∧ R.
Proof. case_bool_decide; naive_solver. Qed.

Lemma operation_error_None line op : operation_error line op = None ↔ passes op.
Proof.
  unfold operation_error, passes. cbv zeta. set (mode := mode_of op). set (meta := meta_of mode).
  assert (mode = $"return_error" ∨ mode = $"prune_objects" ∨ mode = $"pass_headers" → mode ∈ VALUE_REQUIRED_MODES) as Hval.
  { intros [->|[->| ->]]; computed. }
  assert ($"return_error" ≠ $"pass_headers") as Hne by computed.
  assert ($"prune_objects" ≠ $"pass_headers") as Hne2 by computed.
  clearbody mode. apply check_None; [apply required_text|intros _].
  apply check_None; [apply (required_field (mode ∈ FROM_REQUIRED_MODES))|intros _].
  apply check_None; [apply (required_field (mode ∈ TO_REQUIRED_MODES))|intros _].
  apply check_None; [rewrite required_text; by rewrite bool_decide_eq_true|intros Hv].
  assert (mode = $"return_error" ∨ mode = $"prune_objects" ∨ mode = $"pass_headers" →
    negb (truthy (trim (o_value_text op))) = false) as Hraw.
  { intros Hm. rewrite negb_false_iff, filled_truthy. apply Hv, Hval, Hm. }
  clear Hval Hv meta. revert Hne Hne2 Hraw. generalize $"return_error" $"prune_objects" $"pass_headers". intros ke kp kh Hne Hne2 Hraw.
  apply case_None; [| |by intros -> ?].
  - intros ->. rewrite Hraw by by left. unfold error_value_ok. destruct (json_parse _) as [[]|]; try (split; [by intros _ ?|done]).
    destruct (text_or_empty _) as [|c w] eqn:Et; cbn [truthy negb]; split; try done.
    + intros H. by destruct (H _ eq_refl).
    + intros _ o [= <-]. by rewrite Et.
  - intros _. case_bool_decide as M2; [rewrite Hraw by (right; by left); split; [by intros _ ->|done]|].
    case_bool_decide as M3; [|split; [by intros _ ?|done]]. rewrite Hraw by (right; by right). unfold headers_value_ok.
    destruct (parsePassHeaderNames _); split; [done|by intros H; destruct (H M3)|by intros _ _|done].
Qed.

(** The tables of the code against the lists above. *)
Definition tables_agree (mode : jsstr) : bool :=
  let meta := meta_of mode in
  let inside l := bool_decide (mode ∈ l) in
  eqb (mm_path meta) (inside FIELD_MODES) &&
  eqb (inside FROM_REQUIRED_MODES) (inside COPY_MODES || inside REPLACE_MODES || inside HEADER_COPY_MODES) &&
  eqb (inside TO_REQUIRED_MODES) (inside COPY_MODES || inside HEADER_COPY_MODES) &&
  eqb (mm_pathAlias meta) (inside HEADER_COPY_MODES) &&
  negb (inside HEADER_COPY_MODES && (inside COPY_MODES || inside REPLACE_MODES)) &&
  eqb (inside VALUE_REQUIRED_MODES) (inside TEXT_MODES).

Lemma tables_agree_known : Forall (λ mode, tables_agree mode = true) OPERATION_MODE_VALUES.
Proof. computed. Qed.

#[local] Opaque FIELD_MODES COPY_MODES REPLACE_MODES HEADER_COPY_MODES TEXT_MODES.
#[local] Opaque FROM_REQUIRED_MODES TO_REQUIRED_MODES VALUE_REQUIRED_MODES.

Lemma passes_rule_ok op : known_mode op → passes op ↔ rule_ok op.
Proof.
  intros Hk. unfold passes. cbv zeta. rewrite (known_mode_of op Hk).
  pose proof tables_agree_known as Ht. rewrite Forall_forall in Ht. specialize (Ht _ Hk).
  unfold tables_agree in Ht. cbv zeta in Ht. rewrite !andb_true_iff, !eqb_true_iff in Ht.
  destruct Ht as (((((Hp & Hf) & Hto) & Ha) & Hd) & Hv).
  rewrite Hp, Ha, !bool_decide_eq_true. rewrite negb_true_iff in Hd.
  assert (o_mode op ∈ FROM_REQUIRED_MODES ↔ o_mode op ∈ COPY_MODES ∨ o_mode op ∈ REPLACE_MODES ∨ o_mode op ∈ HEADER_COPY_MODES) as ->
    by (rewrite <- (bool_decide_eq_true (o_mode op ∈ FROM_REQUIRED_MODES)), Hf, !orb_true_iff, !bool_decide_eq_true; tauto).
  assert (o_mode op ∈ TO_REQUIRED_MODES ↔ o_mode op ∈ COPY_MODES ∨ o_mode op ∈ HEADER_COPY_MODES) as ->
    by (rewrite <- (bool_decide_eq_true (o_mode op ∈ TO_REQUIRED_MODES)), Hto, !orb_true_iff, !bool_decide_eq_true; tauto).
  assert (o_mode op ∈ VALUE_REQUIRED_MODES ↔ o_mode op ∈ TEXT_MODES) as ->
    by (rewrite <- (bool_decide_eq_true (o_mode op ∈ VALUE_REQUIRED_MODES)), Hv, bool_decide_eq_true; done).
  assert (o_mode op ∈ HEADER_COPY_MODES → (o_mode op ∉ COPY_MODES) ∧ (o_mode op ∉ REPLACE_MODES)) as Hdis.
  { intros E. rewrite bool_decide_eq_true_2 in Hd by done. apply orb_false_iff in Hd. by rewrite !bool_decide_eq_false in Hd. }
  split; [|intros []; tauto].
  intros (H1 & H2 & H3 & H4 & H5 & H6). constructor; tauto.
Qed.

Lemma validate_from_spec line ops : Forall known_mode ops →
  (validate_from line ops = [] ∧ Forall rule_ok ops) ∨
  ∃ pre op post key, ops = pre ++ op :: post ∧ Forall rule_ok pre ∧ ¬ rule_ok op ∧ key ≠ [] ∧
    validate_from line ops = t key (Some (line + Z.of_nat (length pre))).
Proof.
  intros Hk. revert line. induction Hk as [|op ops Hop Hk IH]; intros line; [by left|]. cbn [validate_from].
  pose proof (operation_error_None line op) as He. rewrite (passes_rule_ok op Hop) in He.
  destruct (operation_error line op) as [message|] eqn:E.
  - right. exists [], op, ops.
    assert (∃ key, key ≠ [] ∧ message = t key (Some line)) as (key & Hne & ->).
    { revert E. unfold operation_error. cbv zeta. repeat case_match; intros [= <-]; eexists; (split; [|reflexivity]); done. }
    exists key. split; [done|]. split; [done|]. split; [by intros H%He|]. split; [done|]. by rewrite Z.add_0_r.
  - assert (rule_ok op) as Hr by tauto. destruct (IH (line + 1)) as [[-> Ho]|(pre & op' & post & key & -> & Hpre & Hbad & Hne & ->)].
    + left. split; [done|by constructor].
    + right. exists (op :: pre), op', post, key. split; [done|]. split; [by constructor|]. split; [done|]. split; [done|].
      cbn [length]. do 2 f_equal. lia.
Qed.

(** C17: validation is exact.  The rules are accepted exactly when each of them
    can be executed: it has the fields its mode needs, an error rule that holds
    an object has a message, and a rule that passes headers names some.  If not,
    the message names the line of the first rule that cannot. *)
Theorem rule_validation_exact (ops : list ParamOverrideOperation) :
  Forall known_mode ops →
  (validateOperations ops = [] ↔ Forall rule_ok ops) ∧
  (validateOperations ops ≠ [] → ∃ pre op post key, ops = pre ++ op :: post ∧ Forall rule_ok pre ∧ ¬ rule_ok op ∧
     validateOperations ops = t key (Some (1 + Z.of_nat (length pre)))).
Proof using TL.
  intros Hk. unfold validateOperations. destruct (validate_from_spec 1 ops Hk) as [[E Ho]|(pre & op & post & key & -> & Hpre & Hbad & Hne & E)].
  - split; [naive_solver|]. by rewrite E.
  - pose proof (translation_shown key (Some (1 + Z.of_nat (length pre))) Hne) as Ht. rewrite E. split.
    + split; [done|]. intros Ho. apply Forall_app in Ho as [_ Ho]. apply Forall_cons in Ho as [Ho _]. done.
    + intros _. exists pre, op, post, key. done.
Qed.
End Validation.

(** ** Dragging rules *)

Lemma find_index_app id (pre post : list ParamOverrideOperation) o :
  o_id o = id → id ∉ o_id <$> pre → find_index (has_id id) (pre ++ o :: post) = Some (length pre).
Proof.
  intros Ho. induction pre as [|x pre IH]; cbn [find_index app fmap list_fmap length].
  - intros _. unfold has_id. by rewrite bool_decide_eq_true_2.
  - intros [Hx Hp]%not_elem_of_cons. unfold has_id at 1. rewrite bool_decide_eq_false_2 by done.
    fold (has_id id). by rewrite IH.
Qed.

Lemma find_index_absent id (l : list ParamOverrideOperation) : id ∉ o_id <$> l → find_index (has_id id) l = None.
Proof.
  induction l as [|x l IH]; [done|]. cbn [find_index fmap list_fmap]. intros [Hx Hl]%not_elem_of_cons.
  unfold has_id at 1. rewrite bool_decide_eq_false_2 by done. fold (has_id id). by rewrite IH.
Qed.

Definition without (id : jsstr) (l : list ParamOverrideOperation) : list ParamOverrideOperation :=
  List.filter (λ o, negb (has_id id o)) l.

Lemma without_absent id l : id ∉ o_id <$> l → without id l = l.
Proof.
  unfold without. induction l as [|x l IH]; [done|]. cbn [List.filter fmap list_fmap]. intros [Hx Hl]%not_elem_of_cons.
  unfold has_id at 1. rewrite bool_decide_eq_false_2 by done. cbn [negb]. by rewrite IH.
Qed.

Lemma without_split id a o b : o_id o = id → id ∉ o_id <$> a → id ∉ o_id <$> b → without id (a ++ o :: b) = a ++ b.
Proof.
  intros Ho Ha Hb. unfold without. rewrite List.filter_app. cbn [List.filter]. unfold has_id at 2.
  rewrite bool_decide_eq_true_2 by done. cbn [negb]. fold (without id a) (without id b). by rewrite !without_absent.
Qed.

(** A rule of a list without repeated ids, with what is around it. *)
Lemma rule_split (ops : list ParamOverrideOperation) o : NoDup (o_id <$> ops) → o ∈ ops →
  ∃ a b, ops = a ++ o :: b ∧ o_id o ∉ o_id <$> a ∧ o_id o ∉ o_id <$> b.
Proof.
  intros Hn Ho. apply list_elem_of_split in Ho as (a & b & ->). exists a, b. split; [done|].
  rewrite fmap_app in Hn. cbn [fmap list_fmap] in Hn. apply NoDup_app in Hn as (_ & Ha & Hb).
  apply NoDup_cons in Hb as [Hb _]. split; [|done]. intros Hin. apply (Ha _ Hin). by left.
Qed.

(** Dragging moves one rule.  Dropped on another rule, a rule ends up right
    before or right after it as asked, no rule is lost or doubled, and the others
    keep their order; without a source or a target nothing changes. *)
Theorem drag_moves_one_rule (ops : list ParamOverrideOperation) (sourceId targetId : jsstr) (position : Position) :
  NoDup (o_id <$> ops) →
  (∀ s g, s ∈ ops → g ∈ ops → o_id s = sourceId → o_id g = targetId → sourceId ≠ targetId →
     truthy sourceId = true → truthy targetId = true →
     ∃ pre post, without sourceId ops = pre ++ g :: post ∧
       reorderOperations ops sourceId targetId position =
         pre ++ match position with Before => [s; g] | After => [g; s] end ++ post ∧
       reorderOperations ops sourceId targetId position ≡ₚ ops) ∧
  (sourceId ∉ o_id <$> ops ∨ targetId ∉ o_id <$> ops ∨ sourceId = targetId →
     reorderOperations ops sourceId targetId position = ops).
Proof.
  intros Hn. split.
  - intros s g Hs Hg <- <- Hne Ht1 Ht2. destruct (rule_split ops s Hn Hs) as (a & b & -> & Ha & Hb).
    unfold reorderOperations. rewrite Ht1, Ht2, bool_decide_eq_false_2 by done. cbn [negb orb].
    rewrite find_index_app, list_lookup_middle, delete_middle by done. rewrite without_split by done.
    assert (NoDup (o_id <$> a ++ b)) as Hn'.
    { rewrite fmap_app in *. cbn [fmap list_fmap] in Hn. rewrite <- Permutation_middle in Hn. by apply NoDup_cons in Hn as [_ Hn]. }
    assert (g ∈ a ++ b) as Hg'.
    { apply elem_of_app in Hg as [?|[->|?]%elem_of_cons]; [apply elem_of_app; by left|done|apply elem_of_app; by right]. }
    destruct (rule_split (a ++ b) g Hn' Hg') as (pre & post & E & Hpre & _).
    assert (a ++ s :: b ≡ₚ s :: pre ++ g :: post) as Hperm by (by rewrite <- Permutation_middle, E).
    rewrite E, find_index_app by done. exists pre, post. split; [done|]. unfold splice_in.
    destruct position.
    + rewrite take_app_length, drop_app_length. split; [done|]. rewrite Hperm. cbn [app]. by rewrite <- Permutation_middle.
    + rewrite (cons_middle g), app_assoc. replace (S (length pre)) with (length (pre ++ [g])) by (rewrite length_app; cbn; lia).
      rewrite take_app_length, drop_app_length. rewrite <- !app_assoc. split; [done|]. rewrite Hperm. cbn [app].
      rewrite <- !Permutation_middle. apply Permutation_swap.
  - unfold reorderOperations. intros H. destruct (negb (truthy sourceId) || negb (truthy targetId)) eqn:Et; [done|]. cbn [orb].
    case_bool_decide as He; [done|]. destruct H as [H|[H|H]]; [by rewrite find_index_absent| |done].
    destruct (find_index _ ops) as [i|]; [|done]. destruct (ops !! i) as [m|]; [|done].
    rewrite find_index_absent; [done|]. intros Hin. apply H. apply list_elem_of_fmap in Hin as (x & -> & Hx).
    apply list_elem_of_fmap. exists x. split; [done|]. eapply elem_of_sublist; [exact Hx|apply sublist_delete].
Qed.

(** ** Values *)

Definition units (s : jsstr) : Prop := forallb code_unit s = true.

(** A typed value that is read again as it was written: JSON carries it, and a
    text does not itself read as JSON. *)
Definition keeps (text : jsstr) : Prop :=
  json_ok (parseLooseValue text) = true ∧
  ∀ s, parseLooseValue text = VStr s → s ≠ [] → trim s = s ∧ json_parse s = None.

Lemma loose_again v : json_ok v = true → (∀ s, v = VStr s → s ≠ [] → trim s = s ∧ json_parse s = None) →
  parseLooseValue (toValueText v) = v.
Proof.
  intros Hok Hs. unfold parseLooseValue.
  assert (is_string v = false → parseLooseValue (toValueText v) = v) as Hj.
  { intros Hv. destruct (text_read_back [] v ltac:(done) Hok) as (s & Es & Et & Htr & Hp). unfold parseLooseValue.
    assert (toValueText v = s) as -> by (destruct v; try done; unfold toValueText; by rewrite Es).
    by rewrite Et, Htr, Hp. }
  destruct v as [| | | |s| |]; try (apply Hj; done). cbn [toValueText]. destruct s as [|c s]; [done|].
  destruct (Hs (c :: s) eq_refl) as [-> ->]; [done|]. done.
Qed.

Lemma keeps_again text : keeps text → parseLooseValue (toValueText (parseLooseValue text)) = parseLooseValue text.
Proof. intros [Hok Hs]. by apply loose_again. Qed.

(** Plain texts, numbers, lists and the like are kept. *)
Lemma plain_text_keeps text : units text → json_parse (trim text) = None → keeps text.
Proof.
  intros Hu Hp. unfold keeps, parseLooseValue. rewrite Hp. cbn [default].
  destruct (trim text) as [|c s] eqn:E; cbn [truthy negb].
  - split; [done|]. by intros s [= <-].
  - split; [cbn [json_ok]; rewrite <- E; by apply forallb_trim|]. intros s' [= <-] _. by rewrite <- E, trim_idem, E.
Qed.

(** ** Rules to try the theorems on *)

Section Witness.
Local Existing Instances keys_shown keys_shown_laws.

Definition set_rule (id path text : jsstr) : ParamOverrideOperation :=
  Build_ParamOverrideOperation id [] path $"set" [] [] text false $"OR" [].

(** The second rule names no field. *)
Lemma rule_validation_exact_witness : let ops := [set_rule $"a" $"temperature" $"0.7"; set_rule $"b" [] $"1"] in
  validateOperations ops ≠ [] ∧ ∃ pre op post key, ops = pre ++ op :: post ∧ Forall rule_ok pre ∧ ¬ rule_ok op ∧
    validateOperations ops = t key (Some (1 + Z.of_nat (length pre))).
Proof.
  intros ops. assert (Forall known_mode ops) as Hk by (unfold known_mode; computed).
  assert (validateOperations ops ≠ []) as Hne by computed. split; [exact Hne|].
  exact (proj2 (rule_validation_exact ops Hk) Hne).
Defined.

(** The first of three rules dragged behind the last. *)
Lemma drag_moves_one_rule_witness :
  let ops := [set_rule $"a" $"x" $"1"; set_rule $"b" $"y" $"2"; set_rule $"c" $"z" $"3"] in
  (o_id <$> reorderOperations ops $"a" $"c" After) = [$"b"; $"c"; $"a"] ∧ reorderOperations ops $"a" $"c" After ≡ₚ ops.
Proof.
  intros ops. assert (NoDup (o_id <$> ops)) as Hn by computed. split; [vm_compute; reflexivity|].
  destruct (proj1 (drag_moves_one_rule ops $"a" $"c" After Hn) (set_rule $"a" $"x" $"1") (set_rule $"c" $"z" $"3")) as (pre & post & _ & _ & Hp);
    [by left|by right; right; left|reflexivity|reflexivity|computed|reflexivity|reflexivity|exact Hp].
Defined.
End Witness.
