(* ===== verification/ParamOverrideRoundtrip.v ===== *)
(** * Parameter overrides: reading back what was written

    The payload written for a rule is read back as the rule in normal form
    ([normal_operation]), and written again it gives the same payload. *)

From S2P Require Import Prelude JsString JsText JsNumber NumberText JsValue Json JsMath OrderedMap JsObject.
From S2P Require Import ChannelForm ParamOverrideTables ParamOverride ParamOverrideFacts.

Local Open Scope Z_scope.
Local Open Scope js_scope.

Lemma falsy_nil s : truthy s = false → s = [].
Proof. by destruct s. Qed.

(** ** Objects built field by field *)

Lemma assoc_put k b n v o :
  assoc k (put b n v o) = if bool_decide (k = n) then (if b then Some v else assoc k o) else assoc k o.
Proof. unfold put. destruct b; [apply assoc_assign|by case_bool_decide]. Qed.

Lemma put_true k v o : put true k v o = obj_assign o (k, v).
Proof. reflexivity. Qed.
Lemma put_false k v o : put false k v o = o.
Proof. reflexivity. Qed.

Lemma put_wf P b n v o : obj_wf P o → forallb code_unit n = true → (b = true → P v) → obj_wf P (put b n v o).
Proof. unfold put. intros. destruct b; [apply assign_wf; auto|done]. Qed.

Lemma put_eq b b' n v v' o o' : b = b' → (b = true → v = v') → o = o' → put b n v o = put b' n v' o'.
Proof. intros <- Hv <-. unfold put. destruct b; [by rewrite Hv|done]. Qed.

Lemma assign_NoDup k v (o : object) : NoDup o.*1 → NoDup (obj_assign o (k, v)).*1.
Proof.
  intros Hn. rewrite assign_keys. case_bool_decide as Hk; [done|]. rewrite <- (insert_keys k v), obj_insert_perm.
  cbn [fmap list_fmap fst]. by constructor.
Qed.

Lemma put_NoDup b k v (o : object) : NoDup o.*1 → NoDup (put b k v o).*1.
Proof. unfold put. destruct b; [apply assign_NoDup|done]. Qed.

(** Assigning a property again replaces its value where it stands. *)
Lemma assign_again a v w (o : object) : NoDup o.*1 → obj_assign (obj_assign o (a, v)) (a, w) = obj_assign o (a, w).
Proof.
  intros Hn. apply obj_ext; [by do 2 apply assign_NoDup| |].
  - rewrite (assign_keys a w (obj_assign o (a, v))), bool_decide_eq_true_2; [by rewrite !assign_keys|].
    destruct (decide (a ∈ (obj_assign o (a, v)).*1)) as [|Ha%assoc_None]; [done|].
    rewrite assoc_assign, bool_decide_eq_true_2 in Ha by done. done.
  - intros k. rewrite !assoc_assign. by case_bool_decide.
Qed.

Lemma assign_inner a b v w x (o : object) : NoDup o.*1 → a ≠ b →
  obj_assign (obj_assign (obj_assign o (a, v)) (b, x)) (a, w) = obj_assign (obj_assign o (a, w)) (b, x).
Proof.
  intros Hn Hab. apply obj_ext; [by do 3 apply assign_NoDup| |].
  - rewrite (assign_keys a w), bool_decide_eq_true_2; [by rewrite !(assign_keys b x), !(assign_keys a)|].
    destruct (decide (a ∈ (obj_assign (obj_assign o (a, v)) (b, x)).*1)) as [|Ha%assoc_None]; [done|].
    rewrite !assoc_assign, bool_decide_eq_false_2, bool_decide_eq_true_2 in Ha by done. done.
  - intros k. rewrite !assoc_assign. repeat case_bool_decide; congruence.
Qed.

(** ** Runs that make ids *)

Lemma mapM_cons {A B} (f : A → M B) x (l : list A) s :
  mapM f (x :: l) s = match f x s with
    | Some (y, s') => match mapM f l s' with Some (ys, s'') => Some (y :: ys, s'') | None => None end
    | None => None
    end.
Proof. reflexivity. Qed.

Lemma mapM_read {A B C} (f : A → M B) (g : B → C) (h : A → C) (l : list A) :
  (∀ x, x ∈ l → ∀ s, ∃ y s', f x s = Some (y, s') ∧ g y = h x) →
  ∀ s, ∃ ys s', mapM f l s = Some (ys, s') ∧ g <$> ys = h <$> l.
Proof.
  induction l as [|x l IH]; intros Hf s; [by exists [], s|].
  destruct (Hf x ltac:(by left) s) as (y & s1 & E1 & Hy).
  destruct (IH (λ x Hx, Hf x ltac:(by right)) s1) as (ys & s2 & E2 & Hys).
  exists (y :: ys), s2. split; [|cbn [fmap list_fmap]; by rewrite Hy; f_equal].
  by rewrite mapM_cons, E1, E2.
Qed.

(** ** Conditions *)

Definition strip_condition (c : ParamOverrideCondition) : ParamOverrideCondition :=
  Build_ParamOverrideCondition [] (c_path c) (c_mode c) (c_value_text c) (c_invert c) (c_pass_missing_key c).

(** The condition as the dialog shows it after it was written and read. *)
Definition normal_condition (c : ParamOverrideCondition) : ParamOverrideCondition :=
  Build_ParamOverrideCondition [] (trim (c_path c)) (str_or (c_mode c) $"full") (toValueText (parseLooseValue (c_value_text c)))
    (c_invert c) (c_pass_missing_key c).

Record condition_wf (c : ParamOverrideCondition) : Prop := {
  cw_mode : str_or (c_mode c) $"full" ∈ CONDITION_MODE_VALUES;
  cw_path : units (c_path c);
  cw_value : keeps (c_value_text c) }.

Lemma condition_mode_units mode : mode ∈ CONDITION_MODE_VALUES → units mode.
Proof.
  assert (Forall (λ m, forallb code_unit m = true) CONDITION_MODE_VALUES) as H by computed.
  rewrite Forall_forall in H. apply H.
Qed.

Section Conditions.
Context {K : Clock}.

Lemma condition_payload_ok c o : condition_wf c → buildConditionPayload c = Some o → obj_ok o.
Proof.
  intros [Hm Hp Hv]. unfold buildConditionPayload. destruct (truthy (trim (c_path c))); [|done]. cbn [negb]. cbv zeta.
  intros Ho%(inj Some). rewrite <- Ho. apply obj_ok_wf. apply put_wf; [apply put_wf|..]; [|by vm_compute..].
  apply obj_ok_wf, obj_ok_spec. split; [|split; computed].
  repeat (apply Forall_cons; split; [split; [by vm_compute|]|]); [..|done].
  - by apply forallb_trim.
  - by apply condition_mode_units.
  - apply Hv.
Qed.

Lemma condition_reread c o : condition_wf c → buildConditionPayload c = Some o →
  ∀ s, ∃ c' s', normalizeCondition (VObj o) s = Some (c', s') ∧ strip_condition c' = normal_condition c.
Proof.
  intros [Hm Hp Hv]. unfold buildConditionPayload. destruct (truthy (trim (c_path c))); [|done]. cbn [negb]. cbv zeta.
  intros Ho%(inj Some) s. rewrite <- Ho. clear Ho.
  set (o' := put _ _ _ _).
  assert (∀ k, get (VObj o') k = fld o' k) as Hg by done.
  assert (fld o' $"path" = VStr (trim (c_path c)) ∧ fld o' $"mode" = VStr (str_or (c_mode c) $"full") ∧
    fld o' $"value" = parseLooseValue (c_value_text c) ∧ is_true (fld o' $"invert") = c_invert c ∧
    is_true (fld o' $"pass_missing_key") = c_pass_missing_key c) as (H1 & H2 & H3 & H4 & H5).
  { subst o'. unfold fld. rewrite !assoc_put. cbn [assoc]. key_tests. cbn [default].
    split_and!; [done|done|done|by destruct (c_invert c)|by destruct (c_pass_missing_key c)]. }
  eexists _, _. split; [unfold normalizeCondition, mbind, M_bind, nextLocalId; cbn iota beta; reflexivity|].
  unfold strip_condition, normal_condition. cbn [c_path c_mode c_value_text c_invert c_pass_missing_key].
  rewrite !Hg, H1, H2, H3, H4, H5. cbn [str_of one_of]. by rewrite bool_decide_eq_true_2.
Qed.
End Conditions.

Lemma condition_payload_normal c : keeps (c_value_text c) →
  buildConditionPayload (normal_condition c) = buildConditionPayload c.
Proof.
  intros Hv. unfold buildConditionPayload, normal_condition. cbn [c_path c_mode c_value_text c_invert c_pass_missing_key].
  rewrite trim_idem, keeps_again by done.
  assert (str_or (str_or (c_mode c) $"full") $"full" = str_or (c_mode c) $"full") as -> by by destruct (c_mode c). done.
Qed.

(** ** Rules *)

Definition strip_operation (op : ParamOverrideOperation) : ParamOverrideOperation :=
  Build_ParamOverrideOperation [] (o_description op) (o_path op) (o_mode op) (o_from op) (o_to op) (o_value_text op)
    (o_keep_origin op) (o_logic op) (strip_condition <$> o_conditions op).

(** A source or target, with the path in its place where the mode allows it. *)
Definition or_path (meta : ModeMeta) (op : ParamOverrideOperation) (field : jsstr) : jsstr :=
  if mm_pathAlias meta && negb (truthy (trim field)) then trim (o_path op) else trim field.

Definition named_conditions (op : ParamOverrideOperation) : list ParamOverrideCondition :=
  List.filter (λ c, truthy (trim (c_path c))) (o_conditions op).

(** The rule as the dialog shows it after it was written and read: fields the
    mode does not use are empty. *)
Definition normal_operation (op : ParamOverrideOperation) : ParamOverrideOperation :=
  let meta := meta_of (mode_of op) in
  {| o_id := [];
     o_description := trim (o_description op);
     o_path := if mm_path meta || mm_pathOptional meta then trim (o_path op) else [];
     o_mode := mode_of op;
     o_from := if mm_from meta then or_path meta op (o_from op) else [];
     o_to := or_path meta op (o_to op);
     o_value_text := if mm_value meta then toValueText (parseLooseValue (o_value_text op)) else [];
     o_keep_origin := mm_keepOrigin meta && o_keep_origin op;
     o_logic := match named_conditions op with [] => $"OR" | _ => if bool_decide (o_logic op = $"AND") then $"AND" else $"OR" end;
     o_conditions := normal_condition <$> named_conditions op |}.

Record operation_wf (op : ParamOverrideOperation) : Prop := {
  ow_mode : known_mode op;
  ow_units : units (o_description op) ∧ units (o_path op) ∧ units (o_from op) ∧ units (o_to op);
  ow_value : mm_value (meta_of (o_mode op)) = true → keeps (o_value_text op);
  ow_text : o_mode op ∈ TEXT_MODES → parseLooseValue (o_value_text op) ≠ VStr [];
  ow_conditions : Forall condition_wf (named_conditions op) }.

(** *** The table of modes *)

(** Only modes that copy have an alias, and they use no path of their own. *)
Definition alias_ok (meta : ModeMeta) : bool :=
  negb (mm_pathAlias meta)
  || (mm_from meta && mm_to meta && negb (mm_path meta) && negb (mm_pathOptional meta) && negb (mm_value meta)).

Lemma meta_alias mode : alias_ok (meta_of mode) = true.
Proof.
  assert (Forall (λ e, alias_ok e.2 = true) MODE_META) as H by computed.
  unfold meta_of. destruct (om_get mode MODE_META) as [meta|] eqn:E; [|by vm_compute].
  rewrite Forall_forall in H. apply om_get_elem in E. exact (H _ E).
Qed.

Lemma meta_alias_fields mode : mm_pathAlias (meta_of mode) = true →
  mm_from (meta_of mode) = true ∧ mm_to (meta_of mode) = true ∧ mm_path (meta_of mode) = false ∧
  mm_pathOptional (meta_of mode) = false ∧ mm_value (meta_of mode) = false.
Proof.
  pose proof (meta_alias mode) as H. unfold alias_ok in H. intros E. rewrite E in H. cbn [negb orb] in H.
  rewrite !andb_true_iff, !negb_true_iff in H. tauto.
Qed.

Lemma mode_units mode : mode ∈ OPERATION_MODE_VALUES → units mode.
Proof.
  assert (Forall (λ m, forallb code_unit m = true) OPERATION_MODE_VALUES) as H by computed.
  rewrite Forall_forall in H. apply H.
Qed.

(** *** The conditions of a rule *)

Lemma payload_named c : match buildConditionPayload c with Some _ => true | None => false end = truthy (trim (c_path c)).
Proof. unfold buildConditionPayload. by destruct (truthy (trim (c_path c))). Qed.

Lemma named_payloads op : omap buildConditionPayload (o_conditions op) = omap buildConditionPayload (named_conditions op) ∧
  (omap buildConditionPayload (o_conditions op) = [] ↔ named_conditions op = []).
Proof.
  unfold named_conditions. induction (o_conditions op) as [|c l [IH1 IH2]]; [done|]. cbn [omap list_omap List.filter].
  pose proof (payload_named c) as E. destruct (buildConditionPayload c) as [o|] eqn:Eb; rewrite <- E; cbn [omap list_omap]; [|done].
  rewrite Eb. split; [by f_equal|done].
Qed.

Lemma named_normal op : Forall condition_wf (named_conditions op) →
  named_conditions (normal_operation op) = normal_condition <$> named_conditions op ∧
  omap buildConditionPayload (o_conditions (normal_operation op)) = omap buildConditionPayload (o_conditions op).
Proof.
  intros Hw. destruct (named_payloads op) as [-> _]. unfold named_conditions at 1. cbn [o_conditions normal_operation].
  assert (Forall (λ c, truthy (trim (c_path c)) = true) (named_conditions op)) as Ht.
  { apply Forall_forall. by intros c [_ Hc]%elem_of_js_filter. }
  induction Ht as [|c l Hc Hl IH]; [done|]. apply Forall_cons in Hw as [Hc' Hw]. destruct (IH Hw) as [IH1 IH2].
  cbn [fmap list_fmap List.filter omap list_omap]. rewrite condition_payload_normal by apply Hc'.
  unfold normal_condition at 1. cbn [c_path]. rewrite trim_idem, Hc. split; [by f_equal|].
  destruct (buildConditionPayload c); [f_equal|]; exact IH2.
Qed.

(** *** Writing the normal form *)

Lemma base_NoDup op : NoDup (base_payload op).*1.
Proof. unfold base_payload. cbv zeta. repeat apply put_NoDup. apply NoDup_singleton. Qed.

Lemma mode_of_normal op : mode_of (normal_operation op) = mode_of op.
Proof. unfold mode_of at 1, normal_operation, str_or at 1. cbn [o_mode]. unfold mode_of, str_or. by destruct (o_mode op). Qed.

(** Without an alias the base payloads agree. *)
Lemma base_normal op : mm_pathAlias (meta_of (mode_of op)) = false →
  (mm_value (meta_of (mode_of op)) = true → keeps (o_value_text op)) →
  base_payload (normal_operation op) = base_payload op.
Proof.
  intros Ha Hv. unfold base_payload. cbv zeta. rewrite mode_of_normal. set (meta := meta_of (mode_of op)) in *.
  unfold normal_operation. cbn [o_description o_path o_from o_to o_value_text o_keep_origin].
  fold meta. unfold or_path. rewrite Ha. cbn [andb]. clearbody meta.
  destruct meta as [path optional value from to keep alias]. cbn [mm_path mm_pathOptional mm_value mm_from mm_to mm_keepOrigin] in *.
  repeat apply put_eq; rewrite ?trim_idem; try done;
    destruct path, optional, value, from, to, keep; cbn [andb orb negb]; intros; rewrite ?trim_idem, ?keeps_again by auto; done.
Qed.

(** With one the path is written as the missing source or target. *)
Lemma alias_normal op : mm_pathAlias (meta_of (mode_of op)) = true →
  alias_payload (normal_operation op) (base_payload (normal_operation op)) = alias_payload op (base_payload op).
Proof.
  intros Ha. destruct (meta_alias_fields _ Ha) as (Hf & Ht & Hp & Ho & Hv).
  unfold alias_payload. rewrite mode_of_normal, Ha. unfold base_payload. cbv zeta. rewrite mode_of_normal.
  set (meta := meta_of (mode_of op)) in *. unfold normal_operation. cbn [o_description o_path o_from o_to o_keep_origin].
  fold meta. rewrite Hf, Ht, Hp, Ho, Hv. cbn [andb negb orb]. change (truthy (trim [])) with false.
  unfold or_path. rewrite Ha. cbn [andb]. rewrite !andb_false_r. rewrite trim_idem.
  assert (mm_keepOrigin meta && (mm_keepOrigin meta && o_keep_origin op) = mm_keepOrigin meta && o_keep_origin op) as -> by by destruct (mm_keepOrigin meta).
  set (X := put (mm_keepOrigin meta && o_keep_origin op) _ _ _).
  assert (NoDup X.*1) as Hn by (subst X; repeat apply put_NoDup; apply NoDup_singleton). clearbody X.
  assert ($"from" ≠ $"to") as Hne by computed. rewrite !put_true, !put_false.
  destruct (truthy (trim (o_path op))) eqn:E3; rewrite ?andb_true_r, ?andb_false_r, ?put_false.
  - unfold fld. rewrite !assoc_put, !assoc_assign. key_tests. cbn [default from_option id to_boolean].
    destruct (truthy (trim (o_from op))) eqn:E1, (truthy (trim (o_to op))) eqn:E2; cbn [negb];
      rewrite ?put_true, ?put_false, ?trim_idem, ?assign_inner, ?assign_again by (done || by apply assign_NoDup); done.
  - destruct (trim (o_path op)) eqn:Ep; [|done].
    assert (∀ f, trim (if negb (truthy (trim f)) then [] else trim f) = trim f) as Hblank.
    { intros f. destruct (trim f) eqn:Ef; cbn [truthy negb]; [done|]. by rewrite <- Ef, trim_idem. }
    by rewrite !Hblank.
Qed.

Lemma ow_value_of op : operation_wf op → mm_value (meta_of (mode_of op)) = true → keeps (o_value_text op).
Proof. intros Hw. rewrite known_mode_of by apply Hw. apply Hw. Qed.

Lemma payload_normal op : operation_wf op → operation_payload (normal_operation op) = operation_payload op.
Proof.
  intros Hw. unfold operation_payload. cbv zeta. destruct (named_normal op (ow_conditions op Hw)) as [_ ->].
  assert (alias_payload (normal_operation op) (base_payload (normal_operation op)) = alias_payload op (base_payload op)) as ->.
  { destruct (mm_pathAlias (meta_of (mode_of op))) eqn:Ea; [by apply alias_normal|].
    rewrite base_normal by (done || by apply ow_value_of). unfold alias_payload. by rewrite mode_of_normal, Ea. }
  destruct (named_payloads op) as [_ Hn]. destruct (omap buildConditionPayload (o_conditions op)) as [|o l] eqn:E; [done|].
  do 3 f_equal. unfold normal_operation. cbn [o_logic].
  destruct (named_conditions op) as [|c cs] eqn:En; [by destruct Hn as [_ Hn]; specialize (Hn eq_refl)|].
  assert (bool_decide ($"AND" = $"AND") = true ∧ bool_decide ($"OR" = $"AND") = false) as [Ha Ho] by (by vm_compute).
  destruct (bool_decide (o_logic op = $"AND")); by rewrite ?Ha, ?Ho.
Qed.

(** *** Reading the payload *)

Lemma base_ok op : operation_wf op → obj_wf (λ v, json_ok v = true) (base_payload op).
Proof.
  intros Hw. destruct (ow_units op Hw) as (Hd & Hp & Hf & Ht).
  assert (∀ s, units s → json_ok (VStr (trim s)) = true) as Hs by (intros s Hu; by apply forallb_trim).
  unfold base_payload. cbv zeta.
  repeat (apply put_wf; [|by vm_compute|try (intros _; by apply Hs); try done]).
  - split; [|split; computed]. apply Forall_singleton. split; [by vm_compute|]. cbn [snd]. rewrite known_mode_of by apply Hw. apply mode_units, Hw.
  - intros Hv. by apply (ow_value_of op Hw).
Qed.

Lemma alias_wf op o : operation_wf op → obj_wf (λ v, json_ok v = true) o → obj_wf (λ v, json_ok v = true) (alias_payload op o).
Proof.
  intros Hw Ho. unfold alias_payload. cbv zeta. destruct (mm_pathAlias _); [|done].
  assert (json_ok (VStr (trim (o_path op))) = true) by (apply forallb_trim, (ow_units op Hw)).
  by repeat (apply put_wf; [|by vm_compute|done]).
Qed.

Lemma conditions_ok op l : operation_wf op → omap buildConditionPayload (o_conditions op) = l → Forall obj_ok l.
Proof.
  intros Hw <-. destruct (named_payloads op) as [-> _]. pose proof (ow_conditions op Hw) as Hc.
  induction Hc as [|c cs Hc _ IH]; [constructor|]. cbn [omap list_omap].
  destruct (buildConditionPayload c) eqn:E; [|done]. constructor; [by eapply condition_payload_ok|done].
Qed.

Lemma payload_ok op : operation_wf op → obj_ok (operation_payload op).
Proof.
  intros Hw. apply obj_ok_wf. unfold operation_payload. cbv zeta.
  pose proof (alias_wf op _ Hw (base_ok op Hw)) as Ho.
  destruct (omap buildConditionPayload (o_conditions op)) as [|o l] eqn:E; [done|].
  apply assign_wf; [apply assign_wf; [done|by vm_compute|]|by vm_compute|by case_bool_decide; vm_compute].
  pose proof (conditions_ok op _ Hw E) as Hl. cbn [json_ok]. apply forallb_forall. intros v Hv.
  apply list_elem_of_In, list_elem_of_fmap in Hv as (x & -> & Hx). rewrite Forall_forall in Hl. by apply Hl.
Qed.

(** The properties of the payload, one by one. *)
Lemma base_fields op : let meta := meta_of (mode_of op) in let p := base_payload op in
  fld p $"mode" = VStr (mode_of op) ∧ str_of (fld p $"description") = trim (o_description op) ∧
  str_of (fld p $"path") = (if mm_path meta || mm_pathOptional meta then trim (o_path op) else []) ∧
  fld p $"value" = (if mm_value meta then parseLooseValue (o_value_text op) else VUndefined) ∧
  is_true (fld p $"keep_origin") = mm_keepOrigin meta && o_keep_origin op ∧
  fld p $"from" = (if mm_from meta then VStr (trim (o_from op)) else VUndefined) ∧
  str_of (fld p $"to") = trim (o_to op) ∧ (to_boolean (fld p $"to") = truthy (trim (o_to op))) ∧
  assoc $"conditions" p = None ∧ assoc $"logic" p = None.
Proof.
  cbv zeta. unfold base_payload. cbv zeta. set (meta := meta_of (mode_of op)). unfold fld.
  split_and!; rewrite !assoc_put; cbn [assoc]; key_tests; cbn [default from_option id]; try done.
  - by destruct (trim (o_description op)).
  - destruct (mm_path meta), (mm_pathOptional meta), (trim (o_path op)); done.
  - by destruct (mm_value meta).
  - by destruct (mm_keepOrigin meta), (o_keep_origin op).
  - by destruct (mm_from meta).
  - destruct (mm_to meta), (trim (o_to op)); done.
  - destruct (mm_to meta), (trim (o_to op)); done.
Qed.

Lemma alias_lookup op o k : k ≠ $"from" → k ≠ $"to" → assoc k (alias_payload op o) = assoc k o.
Proof.
  intros H1 H2. unfold alias_payload. cbv zeta. destruct (mm_pathAlias _); [|done]. rewrite !assoc_put.
  by rewrite !bool_decide_eq_false_2.
Qed.

Lemma alias_fields op : let meta := meta_of (mode_of op) in let p := alias_payload op (base_payload op) in
  str_of (fld p $"from") = (if mm_from meta then or_path meta op (o_from op) else []) ∧
  str_of (fld p $"to") = or_path meta op (o_to op).
Proof.
  cbv zeta. pose proof (base_fields op) as H. cbv zeta in H. destruct H as (_ & _ & _ & _ & _ & Hf & Ht & Hb & _ & _).
  unfold alias_payload, or_path. cbv zeta. set (meta := meta_of (mode_of op)) in *.
  destruct (mm_pathAlias meta) eqn:Ea; cbn [andb].
  - destruct (meta_alias_fields _ Ea) as (Ef & _). fold meta in Ef. rewrite Ef in Hf |- *. unfold fld in *. rewrite !assoc_put. key_tests.
    rewrite Hb, Hf. cbn [to_boolean]. destruct (truthy (trim (o_from op))) eqn:E1, (truthy (trim (o_path op))) eqn:E2, (truthy (trim (o_to op))) eqn:E3;
      cbn [negb andb default from_option id str_of]; rewrite ?Hf, ?Ht; split; try done;
      repeat match goal with H : truthy _ = false |- _ => apply falsy_nil in H end; cbn [str_of]; congruence.
  - rewrite Hf, Ht. by destruct (mm_from meta).
Qed.

Lemma conditions_lookup op k : k ≠ $"conditions" → k ≠ $"logic" →
  assoc k (operation_payload op) = assoc k (alias_payload op (base_payload op)).
Proof.
  intros H1 H2. unfold operation_payload. cbv zeta. destruct (omap _ _); [done|]. by rewrite !assoc_assign, !bool_decide_eq_false_2.
Qed.

Lemma condition_fields op : let l := omap buildConditionPayload (o_conditions op) in let p := operation_payload op in
  fld p $"conditions" = (match l with [] => VUndefined | _ => VArr (VObj <$> l) end) ∧
  fld p $"logic" = (match l with [] => VUndefined | _ => VStr (if bool_decide (o_logic op = $"AND") then $"AND" else $"OR") end).
Proof.
  cbv zeta. pose proof (base_fields op) as H. cbv zeta in H. destruct H as (_ & _ & _ & _ & _ & _ & _ & _ & Hc & Hl).
  unfold operation_payload, fld. cbv zeta. destruct (omap _ _).
  - rewrite !alias_lookup by computed. by rewrite Hc, Hl.
  - rewrite !assoc_assign. key_tests. done.
Qed.

Section Reading.
Context {K : Clock} {UE : UpperEnv} {UL : UpperLaws UE}.

Lemma logic_again b : logic_of (VStr (if b : bool then $"AND" else $"OR")) $"AND" $"OR" = if b then $"AND" else $"OR".
Proof using UL.
  unfold logic_of. destruct b.
  - change (val_or (VStr $"AND") (VStr $"OR")) with (VStr $"AND"). cbn [value_text]. by rewrite upper_ascii.
  - change (val_or (VStr $"OR") (VStr $"OR")) with (VStr $"OR"). cbn [value_text]. by rewrite upper_ascii.
Qed.

Lemma no_logic : logic_of VUndefined $"AND" $"OR" = $"OR".
Proof using UL. exact (logic_again false). Qed.

Definition read_conditions (o : object) : M (list ParamOverrideCondition) :=
  match fld o $"conditions" with VArr l => mapM normalizeCondition l | _ => mret [] end.

Lemma read_operation o s :
  normalizeOperation (VObj o) s = match read_conditions o (s + 1) with
    | Some (conditions, s') =>
      Some (Build_ParamOverrideOperation (local_id s) (str_of (fld o $"description")) (str_of (fld o $"path"))
              (one_of OPERATION_MODE_VALUES (fld o $"mode") $"set") (str_of (fld o $"from")) (str_of (fld o $"to"))
              (toValueText (fld o $"value")) (is_true (fld o $"keep_origin")) (logic_of (fld o $"logic") $"AND" $"OR")
              conditions, s')
    | None => None
    end.
Proof using. reflexivity. Qed.

Lemma conditions_reread op s : operation_wf op →
  ∃ cs s', read_conditions (operation_payload op) s = Some (cs, s') ∧
    strip_condition <$> cs = normal_condition <$> named_conditions op.
Proof using.
  intros Hw. unfold read_conditions. destruct (condition_fields op) as [-> _]. destruct (named_payloads op) as [E Hn].
  destruct (omap buildConditionPayload (o_conditions op)) as [|o l] eqn:El.
  - exists [], s. split; [done|]. destruct Hn as [Hn _]. by rewrite Hn.
  - clear Hn El. pose proof (ow_conditions op Hw) as Hc. rewrite E. clear E.
    assert (∀ s, ∃ cs s', mapM normalizeCondition (VObj <$> omap buildConditionPayload (named_conditions op)) s = Some (cs, s') ∧
      strip_condition <$> cs = normal_condition <$> named_conditions op) as H; [|apply H]. clear s.
    assert (Forall (λ c, truthy (trim (c_path c)) = true) (named_conditions op)) as Ht.
    { apply Forall_forall. by intros c [_ Hc']%elem_of_js_filter. }
    induction Hc as [|c cs Hc _ IH]; intros s; [by exists [], s|]. apply Forall_cons in Ht as [Htc Ht].
    cbn [omap list_omap]. pose proof (payload_named c) as Hp. rewrite Htc in Hp.
    destruct (buildConditionPayload c) as [p|] eqn:Ec; [|done]. cbn [fmap list_fmap].
    destruct (condition_reread c p Hc Ec s) as (c' & s1 & E1 & Hc'). destruct (IH Ht s1) as (cs' & s2 & E2 & Hcs).
    exists (c' :: cs'), s2. split; [by rewrite mapM_cons, E1, E2|]. cbn [fmap list_fmap]. by rewrite Hc', Hcs.
Qed.

Lemma operation_reread op : operation_wf op →
  ∀ s, ∃ op' s', normalizeOperation (VObj (operation_payload op)) s = Some (op', s') ∧ strip_operation op' = normal_operation op.
Proof using UL.
  intros Hw s. destruct (conditions_reread op (s + 1) Hw) as (cs & s' & Ec & Hcs).
  pose proof (base_fields op) as H. cbv zeta in H. destruct H as (Hm & Hd & Hp & Hv & Hk & _ & _ & _ & _ & _).
  destruct (alias_fields op) as [Hf Ht]. destruct (condition_fields op) as [_ Hl].
  assert (∀ k, k ∈ [$"mode"; $"description"; $"path"; $"value"; $"keep_origin"] →
    fld (operation_payload op) k = fld (base_payload op) k) as Hsame.
  { intros k Hin. unfold fld. rewrite conditions_lookup, alias_lookup; [done|..]; intros ->; revert Hin; apply (bool_decide_unpack _); vm_compute; exact I. }
  assert (∀ k, k ∈ [$"from"; $"to"] → fld (operation_payload op) k = fld (alias_payload op (base_payload op)) k) as Hsame2.
  { intros k Hin. unfold fld. rewrite conditions_lookup; [done|..]; intros ->; revert Hin; apply (bool_decide_unpack _); vm_compute; exact I. }
  eexists _, s'. split.
  - rewrite read_operation, Ec. reflexivity.
  - unfold strip_operation, normal_operation. cbn [o_description o_path o_mode o_from o_to o_value_text o_keep_origin o_logic o_conditions].
    rewrite Hcs, Hl, (Hsame $"mode"), (Hsame $"description"), (Hsame $"path"), (Hsame $"value"), (Hsame $"keep_origin"),
      (Hsame2 $"from"), (Hsame2 $"to") by computed. rewrite Hm, Hd, Hp, Hv, Hk, Hf, Ht. cbn [one_of].
    assert (mode_of op ∈ OPERATION_MODE_VALUES) as Hin by (rewrite known_mode_of; apply Hw). rewrite bool_decide_eq_true_2 by done.
    f_equal; [by destruct (mm_value _)|]. destruct (named_payloads op) as [_ Hn].
    destruct (omap buildConditionPayload (o_conditions op)), (named_conditions op); [apply no_logic|by destruct Hn as [Hn _]; specialize (Hn eq_refl)|by destruct Hn as [_ Hn]; specialize (Hn eq_refl)|apply logic_again].
Qed.
End Reading.

(** ** The normal form is accepted again *)

Definition value_tables (mode : jsstr) : bool :=
  let meta := meta_of mode in
  implb (bool_decide (mode ∈ FROM_REQUIRED_MODES)) (mm_from meta)
  && implb (bool_decide (mode ∈ VALUE_REQUIRED_MODES)) (mm_value meta && bool_decide (mode ∈ TEXT_MODES)).

Lemma value_tables_known : Forall (λ mode, value_tables mode = true) OPERATION_MODE_VALUES.
Proof. computed. Qed.

(** A value that is no string, as text. *)
Lemma value_shown v : json_ok v = true → is_string v = false →
  trim (toValueText v) = toValueText v ∧ truthy (toValueText v) = true ∧ json_parse (toValueText v) = Some v.
Proof.
  intros Hok Hv. destruct (text_read_back [] v ltac:(done) Hok) as (s & Es & Et & Htr & Hp).
  assert (toValueText v = s) as -> by (destruct v; try done; unfold toValueText; by rewrite Es). done.
Qed.

Lemma loose_json text : is_string (parseLooseValue text) = false → json_parse (trim text) = Some (parseLooseValue text).
Proof. unfold parseLooseValue. destruct (truthy (trim text)); [|done]. cbn [negb]. by destruct (json_parse (trim text)). Qed.

(** A value that is kept, as text. *)
Lemma kept_value text : keeps text → parseLooseValue text ≠ VStr [] →
  let shown := toValueText (parseLooseValue text) in
  filled shown ∧ parseLooseValue (trim shown) = parseLooseValue (trim text) ∧
  ∀ o, json_parse (trim shown) = Some (VObj o) → json_parse (trim text) = Some (VObj o).
Proof.
  intros Hk Hne. cbv zeta.
  assert (∀ s, parseLooseValue (trim s) = parseLooseValue s) as Htrim by (intros s; unfold parseLooseValue; by rewrite trim_idem).
  rewrite !Htrim, keeps_again by done. destruct Hk as [Hok Hs]. unfold filled.
  destruct (is_string (parseLooseValue text)) eqn:Es.
  - apply is_string_inv in Es. destruct (Hs _ Es) as [Ht Hp]; [by intros E; rewrite E in Es|].
    rewrite Es. cbn [toValueText]. rewrite Ht, Hp. split; [|done]. by intros E; rewrite E in Es.
  - destruct (value_shown _ Hok Es) as (Ht & Htr & Hp). rewrite Ht, Hp, (loose_json text Es).
    split; [by destruct (toValueText _)|]. split; [done|]. by intros o [= ->].
Qed.

Lemma passes_normal op : operation_wf op → passes op → passes (normal_operation op).
Proof.
  intros Hw. unfold passes. cbv zeta. rewrite mode_of_normal. intros (H1 & H2 & H3 & H4 & H5 & H6).
  pose proof value_tables_known as Ht. rewrite Forall_forall in Ht. specialize (Ht _ (ow_mode op Hw)).
  rewrite <- (known_mode_of op (ow_mode op Hw)) in Ht. unfold value_tables in Ht. cbv zeta in Ht. apply andb_true_iff in Ht as [Ht1 Ht2].
  set (meta := meta_of (mode_of op)) in *. unfold normal_operation. cbn [o_path o_from o_to o_value_text]. fold meta.
  assert (∀ f, filled f ∨ mm_pathAlias meta = true ∧ filled (o_path op) → filled (or_path meta op f)) as Hor.
  { intros f Hf. unfold or_path. destruct (mm_pathAlias meta && negb (truthy (trim f))) eqn:E; unfold filled; rewrite trim_idem.
    - apply andb_true_iff in E as [_ E]. rewrite negb_true_iff, not_filled in E. destruct Hf as [?|[_ ?]]; done.
    - destruct Hf as [?|[Ea Hp]]; [done|]. rewrite Ea in E. cbn [andb] in E. by rewrite negb_false_iff, filled_truthy in E. }
  assert (mode_of op ∈ VALUE_REQUIRED_MODES → mm_value meta = true ∧ keeps (o_value_text op) ∧ parseLooseValue (o_value_text op) ≠ VStr []) as Hval.
  { intros Hm. rewrite bool_decide_eq_true_2 in Ht2 by done. cbn [implb] in Ht2. apply andb_true_iff in Ht2 as [Hv Hx]. apply bool_decide_eq_true in Hx.
    split; [done|]. split; [by apply ow_value_of|]. apply (ow_text op Hw). by rewrite <- (known_mode_of op (ow_mode op Hw)). }
  split_and!.
  - intros E. rewrite E. cbn [orb]. unfold filled. rewrite trim_idem. exact (H1 E).
  - intros Hm. rewrite bool_decide_eq_true_2 in Ht1 by done. cbn [implb] in Ht1. rewrite Ht1. left. auto.
  - intros Hm. left. auto.
  - intros Hm. destruct (Hval Hm) as (-> & Hk & Hne). by destruct (kept_value _ Hk Hne).
  - intros Hm. destruct (Hval ltac:(rewrite Hm; computed)) as (-> & Hk & Hne). destruct (kept_value _ Hk Hne) as (_ & _ & Hp).
    intros o Ho. by apply (H5 Hm), Hp.
  - intros Hm. destruct (Hval ltac:(rewrite Hm; computed)) as (-> & Hk & Hne). destruct (kept_value _ Hk Hne) as (_ & Hp & _).
    unfold headers_value_ok. rewrite Hp. by apply H6.
Qed.

Lemma passes_not_blank op : passes op → isOperationBlank op = false.
Proof.
  intros (H1 & _). unfold isOperationBlank. case_bool_decide as Hm; [|done]. cbn [andb].
  assert (mode_of op = $"set") as E by (unfold mode_of; rewrite Hm; by vm_compute). rewrite E in H1.
  specialize (H1 ltac:(by vm_compute)). apply filled_truthy in H1. by rewrite H1.
Qed.

(** ** Ids do not matter *)

Lemma strip_payload op : operation_payload (strip_operation op) = operation_payload op.
Proof.
  unfold operation_payload. cbn [o_conditions strip_operation].
  assert (omap buildConditionPayload (strip_condition <$> o_conditions op) = omap buildConditionPayload (o_conditions op)) as ->; [|done].
  induction (o_conditions op) as [|c l IH]; [done|]. cbn [fmap list_fmap omap list_omap].
  change (buildConditionPayload (strip_condition c)) with (buildConditionPayload c). destruct (buildConditionPayload c); [f_equal|]; exact IH.
Qed.

Lemma strip_passes op : passes (strip_operation op) ↔ passes op.
Proof. reflexivity. Qed.
