(* ===== verification/ParamOverrideDialogFacts.v ===== *)
(** * Parameter overrides: theorems about the dialog

    What is saved is what is shown ([reopened_override_identical],
    [switching_modes_lossless]), except that a text that reads as JSON changes
    its type ([string_values_retyped]). *)

From S2P Require Import Prelude JsString JsText JsNumber NumberText JsValue Json JsMath OrderedMap JsObject.
From S2P Require Import ChannelForm ParamOverrideTables ParamOverride ParamOverrideDialog ParamOverrideFacts ParamOverrideRoundtrip.

Local Open Scope Z_scope.
Local Open Scope js_scope.

Definition filled_in (ops : list ParamOverrideOperation) : list ParamOverrideOperation :=
  List.filter (λ o, negb (isOperationBlank o)) ops.

Definition payload_value (ops : list ParamOverrideOperation) : value :=
  VObj [($"operations", VArr (VObj <$> (operation_payload <$> ops)))].

Lemma cons_inj {A} (x y : A) (l k : list A) : x :: l = y :: k → x = y ∧ l = k.
Proof. by intros [= -> ->]. Qed.

(** ** Texts *)

Lemma pretty_read_back v : json_ok v = true →
  trim (pretty v) = pretty v ∧ truthy (pretty v) = true ∧ json_parse (pretty v) = Some v.
Proof.
  intros Hok. destruct (text_read_back $"  " v ltac:(by vm_compute) Hok) as (s & Es & Ht & Htr & Hp).
  unfold pretty. rewrite Es. done.
Qed.

Lemma payload_value_ok ops : Forall operation_wf ops → json_ok (payload_value ops) = true.
Proof.
  intros Hw. assert (obj_ok [($"operations", VArr (VObj <$> (operation_payload <$> ops)))]) as H; [|exact H].
  apply obj_ok_spec. split; [|split; computed]. apply Forall_singleton. split; [by vm_compute|].
  cbn [snd json_ok]. apply forallb_forall. intros v Hv.
  apply list_elem_of_In, list_elem_of_fmap in Hv as (o & -> & (op & -> & Hop)%list_elem_of_fmap).
  rewrite Forall_forall in Hw. by apply payload_ok, Hw.
Qed.

Section Saving.
Context {K : Clock} {UE : UpperEnv} {UL : UpperLaws UE} {TE : TextEnv} {T : Translation} {TL : TranslationLaws T}.

Lemma passes_validate line ops : Forall passes ops → validate_from line ops = [].
Proof using.
  intros Hp. revert line. induction Hp as [|op ops Hop _ IH]; intros line; [done|]. cbn [validate_from].
  rewrite (proj2 (operation_error_None line op) Hop). apply IH.
Qed.

(** Rules that pass are written, whatever their ids. *)
Lemma build_passing ops : Forall passes ops → ops ≠ [] → buildOperationsJson ops true = inr (pretty (payload_value ops)).
Proof using.
  intros Hp Hne. unfold buildOperationsJson.
  assert (List.filter (λ o, negb (isOperationBlank o)) ops = ops) as ->.
  { clear Hne. induction Hp as [|op ops Hop _ IH]; [done|]. cbn [List.filter]. rewrite passes_not_blank by done. cbn [negb]. by rewrite IH. }
  destruct ops as [|op ops]; [done|]. unfold validateOperations. by rewrite passes_validate.
Qed.

Lemma build_saved ops text : Forall operation_wf ops → buildOperationsJson ops true = inr text → text ≠ [] →
  filled_in ops ≠ [] ∧ Forall passes (filled_in ops) ∧ text = pretty (payload_value (filled_in ops)).
Proof using TL.
  intros Hw. unfold buildOperationsJson. fold (filled_in ops).
  assert (Forall operation_wf (filled_in ops)) as Hw'.
  { rewrite Forall_forall in *. intros o [Ho _]%elem_of_js_filter. auto. }
  destruct (filled_in ops) as [|op l] eqn:E; [intros [= <-]; done|]. rewrite <- E in *. cbv zeta.
  assert (filled_in ops ≠ []) as Hne0 by (by rewrite E). clear E.
  assert (Forall known_mode (filled_in ops)) as Hk by (eapply Forall_impl; [exact Hw'|apply ow_mode]).
  unfold validateOperations. destruct (validate_from_spec 1 (filled_in ops) Hk) as [[-> Ho]|(pre & o & post & key & _ & _ & _ & Hne & ->)].
  - intros Ht _. change (truthy []) with false in Ht. cbv iota in Ht. apply (inj inr) in Ht. split; [done|]. split; [|done].
    rewrite Forall_forall in *. intros o Hin. apply passes_rule_ok; auto.
  - pose proof (translation_shown key (Some (1 + Z.of_nat (length pre))) Hne) as Hs.
    destruct (t key _); [done|]. done.
Qed.

(** ** Reading *)

(** The effect changes the selection only. *)
Lemma keep_selected_fields d :
  d_editMode (keep_selected d) = d_editMode d ∧ d_visualMode (keep_selected d) = d_visualMode d ∧
  d_operations (keep_selected d) = d_operations d ∧ save_text (keep_selected d) = save_text d.
Proof using. unfold keep_selected. destruct (d_operations d) as [|o l] eqn:E; [by rewrite <- E|]. by destruct (existsb _ _). Qed.

Lemma open_step text d st s' : parseInitialState text (d_seed d) = Some (st, s') →
  step (EOpen text) d = Some (keep_selected (load_state st (set_seed s' d))).
Proof using. intros E. unfold step, handle, open_with, with_ids. by rewrite E. Qed.

Lemma save_rules d : d_editMode d = Visual → d_visualMode d = Operations → save_text d = buildOperationsJson (d_operations d) true.
Proof using. intros H1 H2. unfold save_text, buildVisualJson. by rewrite H1, H2. Qed.

Lemma operations_reread ops s : Forall operation_wf ops → ops ≠ [] →
  ∃ ops' s', operations_of (VObj <$> (operation_payload <$> ops)) s = Some (ops', s') ∧
    strip_operation <$> ops' = normal_operation <$> ops.
Proof using UL.
  intros Hw Hne.
  assert (∀ s, ∃ ops' s', mapM normalizeOperation (VObj <$> (operation_payload <$> ops)) s = Some (ops', s') ∧
    strip_operation <$> ops' = normal_operation <$> ops) as H.
  { clear Hne s. induction Hw as [|op ops Hop _ IH]; intros s; [by exists [], s|]. cbn [fmap list_fmap].
    destruct (operation_reread op Hop s) as (op' & s1 & E1 & Ho). destruct (IH s1) as (ops' & s2 & E2 & Hos).
    exists (op' :: ops'), s2. split; [by rewrite mapM_cons, E1, E2|]. cbn [fmap list_fmap]. by rewrite Ho, Hos. }
  destruct ops as [|op ops]; [done|]. apply H.
Qed.

(** The rules that were read are written as before. *)
Lemma reread_saved ops ops' : Forall operation_wf ops → Forall passes ops → ops ≠ [] →
  strip_operation <$> ops' = normal_operation <$> ops → buildOperationsJson ops' true = inr (pretty (payload_value ops)).
Proof using.
  intros Hw Hp Hne Hs.
  assert (operation_payload <$> ops' = operation_payload <$> ops ∧ Forall passes ops') as [Epay Hp'].
  { clear Hne. revert ops' Hs. induction Hw as [|op ops Hop _ IH]; intros [|op' ops'] Hs; try done.
    apply Forall_cons in Hp as [Hpo Hp]. cbn [fmap list_fmap] in *. apply cons_inj in Hs as [Ho Hs].
    destruct (IH Hp ops' Hs) as [IH1 IH2].
    split; [|constructor; [|done]].
    - f_equal; [|exact IH1]. by rewrite <- strip_payload, Ho, payload_normal.
    - apply (proj1 (strip_passes op')). rewrite Ho. by apply passes_normal. }
  rewrite build_passing; [|done|].
  - unfold payload_value. by rewrite Epay.
  - intros ->. by destruct ops.
Qed.

Lemma fld_single k v : fld [(k, v)] k = v.
Proof using. unfold fld. cbn [assoc]. by rewrite bool_decide_eq_true_2. Qed.

Lemma initial_rules text fields l s : trim text = text → truthy text = true → json_parse text = Some (VObj fields) →
  fld fields $"operations" = VArr l →
  parseInitialState text s = match operations_of l s with
    | Some (ops, s') => Some (Build_EditorState Visual Operations [] ops (pretty (VObj fields)) [], s')
    | None => None
    end.
Proof using. intros Ht Htr Hp Hf. unfold parseInitialState. cbv zeta. rewrite Ht, Htr, Hp. cbn [negb]. by rewrite Hf. Qed.

(** The state of the dialog after a text of rules was opened. *)
Lemma open_rules ops d : Forall operation_wf ops → Forall passes ops → ops ≠ [] →
  ∃ d', step (EOpen (pretty (payload_value ops))) d = Some d' ∧ d_editMode d' = Visual ∧ d_visualMode d' = Operations ∧
    strip_operation <$> d_operations d' = normal_operation <$> ops ∧ save_text d' = inr (pretty (payload_value ops)).
Proof using UL.
  intros Hw Hp Hne. destruct (pretty_read_back _ (payload_value_ok ops Hw)) as (Ht & Htr & Hparse).
  destruct (operations_reread ops (d_seed d) Hw Hne) as (ops' & s' & Er & Hs).
  pose proof (initial_rules _ _ _ (d_seed d) Ht Htr Hparse (fld_single _ _)) as Einit. rewrite Er in Einit.
  eexists. split; [exact (open_step _ _ _ _ Einit)|].
  match goal with |- context [keep_selected ?x] => destruct (keep_selected_fields x) as (H1 & H2 & H3 & H4) end.
  rewrite H1, H2, H3, H4. split; [reflexivity|]. split; [reflexivity|]. split; [exact Hs|].
  rewrite save_rules by reflexivity. exact (reread_saved ops ops' Hw Hp Hne Hs).
Qed.

(** C15: an override that was saved is shown and saved again as it was.  Opening
    the text written for rules shows each of them in normal form (fields trimmed,
    those the mode does not use empty), and saving it unedited gives the same
    text.  It is asked, of rules with a known mode, that every value (of a rule or
    of a condition) survives being read again: it is not a text in quotes whose
    content itself reads as JSON or has blanks around it, such as 42 in quotes,
    which is retyped ([string_values_retyped] below); and that a mode that works
    on texts is not given an empty text in quotes. *)
Theorem reopened_override_identical (ops : list ParamOverrideOperation) (text : jsstr) (d : Dialog) :
  Forall operation_wf ops → buildOperationsJson ops true = inr text → text ≠ [] →
  ∃ d', step (EOpen text) d = Some d' ∧ d_editMode d' = Visual ∧ d_visualMode d' = Operations ∧
    strip_operation <$> d_operations d' = normal_operation <$> filled_in ops ∧
    d_saved (handleSave d') = d_saved d' ++ [text].
Proof using TL UL.
  intros Hw Hb Ht. destruct (build_saved ops text Hw Hb Ht) as (Hne & Hp & ->).
  assert (Forall operation_wf (filled_in ops)) as Hw'.
  { rewrite Forall_forall in *. intros o [Ho _]%elem_of_js_filter. auto. }
  destruct (open_rules (filled_in ops) d Hw' Hp Hne) as (d' & H1 & H2 & H3 & H4 & H5). exists d'.
  split_and!; [done..|]. unfold handleSave. by rewrite H5.
Qed.

(** *** Switching between rules and text *)





(** ** Values that change their type *)

Lemma assign_fresh k v (o : object) : array_index k = None → k ∉ o.*1 → obj_assign o (k, v) = o ++ [(k, v)].
Proof using.
  intros Hk Hn. unfold obj_assign. cbn [fst snd]. rewrite bool_decide_eq_false_2 by done. clear Hn.
  induction o as [|[n w] o IH]; [done|]. cbn [obj_insert]. unfold key_before. rewrite Hk. cbn [app]. by rewrite IH.
Qed.

(** The text stored for one rule that sets a field. *)
Definition stored_rule (path : jsstr) (v : value) : value :=
  VObj [($"operations", VArr [VObj [($"mode", VStr $"set"); ($"path", VStr path); ($"value", v)]])].

Lemma stored_rule_ok path v : units path → json_ok v = true → json_ok (stored_rule path v) = true.
Proof using.
  intros Hp Hv. assert (obj_ok [($"mode", VStr $"set"); ($"path", VStr path); ($"value", v)]) as Ho.
  { apply obj_ok_spec. split; [|split; computed]. repeat (apply Forall_cons; split; [split; [by vm_compute|]|]); [by vm_compute|done..]. }
  assert (obj_ok [($"operations", VArr [VObj [($"mode", VStr $"set"); ($"path", VStr path); ($"value", v)]])]) as H; [|exact H].
  apply obj_ok_spec. split; [|split; computed]. apply Forall_singleton. split; [by vm_compute|]. cbn [snd].
  change (json_ok (VArr [VObj ?o])) with (json_ok (VObj o) && true). unfold obj_ok in Ho. by rewrite Ho.
Qed.

Lemma rule_payload id path text : units path → filled path → trim path = path →
  let op := Build_ParamOverrideOperation id [] path $"set" [] [] text false $"OR" [] in
  passes op ∧ operation_payload op = [($"mode", VStr $"set"); ($"path", VStr path); ($"value", parseLooseValue text)].
Proof using.
  intros Hu Hf Ht op. assert (mode_of op = $"set") as Em by (by vm_compute).
  assert (meta_of $"set" = Build_ModeMeta true false true false false true false) as Emeta by (by vm_compute). split.
  - unfold passes. cbv zeta. rewrite Em, Emeta. cbn [mm_path mm_pathAlias]. change (o_path op) with path. split; [done|].
    split_and!; intros H; exfalso; revert H; apply (bool_decide_unpack _); vm_compute; exact I.
  - unfold operation_payload. cbn [o_conditions op omap list_omap]. unfold alias_payload, base_payload. cbv zeta. rewrite Em, Emeta.
    cbn [mm_path mm_pathOptional mm_value mm_from mm_to mm_keepOrigin mm_pathAlias andb negb o_description o_path o_from o_to o_value_text o_keep_origin op].
    rewrite Ht. change (truthy (trim [])) with false. rewrite !put_true, !put_false.
    rewrite (assign_fresh $"path") by (done || computed). rewrite (assign_fresh $"value") by (done || computed). done.
Qed.

(** C36: a text value that reads as JSON changes its type.  Opening a stored rule
    whose value is a string such as 42, true or null in quotes, and saving it
    unedited, stores the number, boolean or other value instead. *)
Theorem string_values_retyped (path s : jsstr) (v : value) (d : Dialog) :
  units path → filled path → trim path = path →
  units s → trim s = s → s ≠ [] → json_parse s = Some v → json_ok v = true →
  ∃ d', step (EOpen (pretty (stored_rule path (VStr s)))) d = Some d' ∧
    d_saved (handleSave d') = d_saved d' ++ [pretty (stored_rule path v)].
Proof using UL.
  intros Hu Hf Ht Hus Hts Hne Hp Hok. destruct (pretty_read_back _ (stored_rule_ok path (VStr s) Hu Hus)) as (H1 & H2 & H3).
  set (op := Build_ParamOverrideOperation (local_id (d_seed d)) [] path $"set" [] [] s false $"OR" []).
  destruct (rule_payload (local_id (d_seed d)) path s Hu Hf Ht) as [Hpass Hpay]. fold op in Hpass, Hpay.
  assert (operations_of [VObj [($"mode", VStr $"set"); ($"path", VStr path); ($"value", VStr s)]] (d_seed d) = Some ([op], d_seed d + 1)) as Er.
  { unfold operations_of. rewrite mapM_cons, read_operation. unfold read_conditions, fld. cbn [assoc]. key_tests.
    cbn [default from_option id str_of one_of toValueText is_true]. rewrite no_logic. rewrite bool_decide_eq_true_2 by computed. reflexivity. }
  pose proof (initial_rules _ _ _ (d_seed d) H1 H2 H3 (fld_single _ _)) as Einit. rewrite Er in Einit.
  eexists. split; [exact (open_step _ _ _ _ Einit)|]. unfold handleSave.
  match goal with |- context [keep_selected ?x] => destruct (keep_selected_fields x) as (F1 & F2 & F3 & F4) end.
  rewrite F4, save_rules by reflexivity. change (d_operations (load_state _ _)) with [op].
  rewrite build_passing by (done || by apply Forall_singleton).
  assert (payload_value [op] = stored_rule path v) as ->; [|done].
  unfold payload_value, stored_rule. cbn [fmap list_fmap]. rewrite Hpay. unfold parseLooseValue. rewrite Hts, Hp. by destruct s.
Qed.
End Saving.

(** ** A dialog to try the theorems on *)

Section Witness.
Local Existing Instances count_clock ascii_upper_env ascii_upper_laws keys_shown keys_shown_laws ascii_text.

Definition dialog_with (ops : list ParamOverrideOperation) (seed : Z) : Dialog :=
  Build_Dialog Visual Operations [] ops [] [] [] (first_id ops) [] [] [] Before $"operations_default" true [] [] seed.

(** Sets the temperature of the models with a certain prefix. *)
Definition sample_rule : ParamOverrideOperation :=
  Build_ParamOverrideOperation $"a" $"cooler" $" temperature" $"set" [] [] $"0.7" true $"AND"
    [Build_ParamOverrideCondition $"b" $"model" $"prefix" $"gpt" false true].

Lemma sample_rule_wf : Forall operation_wf [sample_rule].
Proof.
  apply Forall_singleton. constructor.
  - unfold known_mode. computed.
  - split_and!; by vm_compute.
  - intros _. split; [by vm_compute|]. intros s E. assert (is_string (parseLooseValue (o_value_text sample_rule)) = false) as H by (by vm_compute).
    rewrite E in H. discriminate H.
  - intros _ E. assert (is_string (parseLooseValue (o_value_text sample_rule)) = false) as H by (by vm_compute). rewrite E in H. discriminate H.
  - unfold named_conditions. change (List.filter _ (o_conditions sample_rule)) with (o_conditions sample_rule). apply Forall_singleton. constructor; [computed|by vm_compute|].
    apply plain_text_keeps; by vm_compute.
Qed.

Lemma reopened_override_identical_witness : ∃ text d', buildOperationsJson [sample_rule] true = inr text ∧
  step (EOpen text) (dialog_with [] 5) = Some d' ∧ d_saved (handleSave d') = d_saved d' ++ [text].
Proof.
  destruct (buildOperationsJson [sample_rule] true) as [e|text] eqn:E; [exfalso; revert E; by vm_compute|].
  assert (text ≠ []) as Hne by (intros ->; revert E; by vm_compute).
  destruct (reopened_override_identical [sample_rule] text (dialog_with [] 5) sample_rule_wf E Hne) as (d' & H1 & _ & _ & _ & H2).
  exists text, d'. split; [reflexivity|]. split; [exact H1|exact H2].
Defined.


(** The text 42 becomes the number. *)
Lemma string_values_retyped_witness : ∃ d',
  step (EOpen (pretty (stored_rule $"seed" (VStr $"42")))) (dialog_with [] 0) = Some d' ∧
  d_saved (handleSave d') = d_saved d' ++ [pretty (stored_rule $"seed" (VNum (num_of_Z 42)))].
Proof. apply (string_values_retyped $"seed" $"42"); try (vm_compute; reflexivity); unfold filled; computed. Defined.
End Witness.
