(* ===== verification/ParamOverrideIds.v ===== *)
(** * Parameter overrides: the dialog stays coherent

    The local ids of rules and conditions are distinct in every state the dialog
    can reach, there is always a rule, and the selected one exists
    ([dialog_stays_coherent]). *)

From S2P Require Import Prelude JsString JsText JsNumber NumberText JsValue Json JsMath OrderedMap JsObject.
From S2P Require Import ChannelForm ParamOverrideTables ParamOverride ParamOverrideDialog ParamOverrideFacts ParamOverrideRoundtrip.

Local Open Scope Z_scope.
Local Open Scope js_scope.

(** ** Ids *)

Lemma numeral_no_underscore n : 95 ∉ string_of_Z n.
Proof.
  assert (∀ p, 95 ∉ string_of_Z (Zpos p)) as Hp.
  { intros p H. pose proof (all_digits_elem _ 95 (all_digits_string_of_Z (Zpos p) ltac:(lia)) H). lia. }
  destruct n as [|p|p]; [change (string_of_Z 0) with [48]; by rewrite list_elem_of_singleton|apply Hp|].
  change (string_of_Z (Zneg p)) with (45 :: string_of_Z (Zpos p)). rewrite not_elem_of_cons. split; [done|apply Hp].
Qed.

Definition op_ids (o : ParamOverrideOperation) : list jsstr := o_id o :: (c_id <$> o_conditions o).

Definition all_ids (ops : list ParamOverrideOperation) : list jsstr := ops ≫= op_ids.

Section Ids.
Context {K : Clock}.

Lemma local_id_inj m n : 0 <= m → 0 <= n → local_id m = local_id n → m = n.
Proof.
  intros Hm Hn E. unfold local_id in E. apply (inj (app $"po_")) in E.
  change ($"_" ++ ?s) with (95 :: s) in E. apply sep_inj in E as [_ E]; [|apply numeral_no_underscore..].
  by apply string_of_Z_inj in E.
Qed.

(** Distinct ids, made by the counter from [s] to [s']. *)
Definition made (s s' : Z) (ids : list jsstr) : Prop :=
  NoDup ids ∧ Forall (λ id, ∃ n, s <= n < s' ∧ id = local_id n) ids.

Lemma made_nil s s' : made s s' [].
Proof. split; [apply NoDup_nil_2|done]. Qed.

Lemma made_weaken s1 s1' s2 s2' ids : s2 <= s1 → s1' <= s2' → made s1 s1' ids → made s2 s2' ids.
Proof. intros H1 H2 [Hn Hf]. split; [done|]. eapply Forall_impl; [exact Hf|]. intros id (n & Hr & ->). exists n. split; [lia|done]. Qed.

Lemma made_app s s' s'' ids ids' : 0 <= s → s <= s' → s' <= s'' → made s s' ids → made s' s'' ids' → made s s'' (ids ++ ids').
Proof.
  intros H0 H1 H2 [Hn Hf] [Hn' Hf']. split.
  - apply NoDup_app. split; [done|]. split; [|done]. intros id Hid Hid'. rewrite Forall_forall in *.
    destruct (Hf _ Hid) as (m & Hm & ->). destruct (Hf' _ Hid') as (n & Hr & E). apply local_id_inj in E; lia.
  - apply Forall_app. split; (eapply Forall_impl; [eassumption|]); intros id (n & Hr & ->); exists n; (split; [lia|done]).
Qed.

Lemma made_sublist s s' ids ids' : ids `sublist_of` ids' → made s s' ids' → made s s' ids.
Proof. intros Hs [Hn Hf]. split; [by eapply sublist_NoDup|by eapply sublist_Forall]. Qed.

Lemma made_perm s s' ids ids' : ids ≡ₚ ids' → made s s' ids' → made s s' ids.
Proof. intros Hp [Hn Hf]. split; by rewrite Hp. Qed.

Lemma all_ids_app l k : all_ids (l ++ k) = all_ids l ++ all_ids k.
Proof. unfold all_ids. apply bind_app. Qed.

(** ** What the parsers make *)

Lemma normalizeCondition_made v s c s' : 0 <= s → normalizeCondition v s = Some (c, s') → s' = s + 1 ∧ c_id c = local_id s.
Proof.
  intros _. unfold normalizeCondition, mbind, M_bind, nextLocalId. cbn iota beta.
  destruct v; intros H; try discriminate H; apply (inj Some) in H; injection H as <- <-; done.
Qed.

Lemma made_single s : made s (s + 1) [local_id s].
Proof. split; [apply NoDup_singleton|]. apply Forall_singleton. exists s. split; [lia|done]. Qed.

(** Runs of a maker over a list. *)
Lemma mapM_made {A B} (f : A → M B) (ids : B → list jsstr) (l : list A) :
  (∀ x s y s', 0 <= s → f x s = Some (y, s') → s <= s' ∧ made s s' (ids y)) →
  ∀ s ys s', 0 <= s → mapM f l s = Some (ys, s') → s <= s' ∧ made s s' (ys ≫= ids) ∧ length ys = length l.
Proof.
  intros Hf. induction l as [|x l IH]; intros s ys s' H0 E.
  - apply (inj Some) in E. injection E as <- <-. split; [lia|]. split; [apply made_nil|done].
  - rewrite mapM_cons in E. destruct (f x s) as [[y s1]|] eqn:E1; [|done]. destruct (mapM f l s1) as [[ys' s2]|] eqn:E2; [|done].
    apply (inj Some) in E. injection E as <- <-. destruct (Hf _ _ _ _ H0 E1) as [L1 M1].
    destruct (IH s1 ys' s2 ltac:(lia) E2) as (L2 & M2 & Hl). split; [lia|]. split; [|cbn; by rewrite Hl].
    change ((y :: ys') ≫= ids) with (ids y ++ (ys' ≫= ids)). apply (made_app s s1 s2); done || lia.
Qed.

Section Makers.
Context {UE : UpperEnv}.

Lemma normalizeOperation_made v s op s' : 0 <= s → normalizeOperation v s = Some (op, s') → s <= s' ∧ made s s' (op_ids op).
Proof.
  intros H0. unfold normalizeOperation, mbind, M_bind, nextLocalId. cbn iota beta.
  set (k := match get v $"conditions" with VArr l => mapM normalizeCondition l | _ => mret [] end).
  assert (∀ s cs s', 0 <= s → k s = Some (cs, s') → s <= s' ∧ made s s' (c_id <$> cs)) as Hk.
  { intros r cs r' Hr. subst k. destruct (get v $"conditions") as [| | | | |l|]; try (intros E; apply (inj Some) in E; injection E as <- <-; split; [lia|apply made_nil]).
    intros E. destruct (mapM_made normalizeCondition (λ c, [c_id c]) l) with r cs r' as (L & Hm & _); [|done..|].
    - intros x q y q' Hq Ey. destruct (normalizeCondition_made x q y q' Hq Ey) as [-> ->]. split; [lia|apply made_single].
    - split; [done|]. replace (c_id <$> cs) with (cs ≫= (λ c, [c_id c])); [done|]. clear. induction cs as [|c cs IH]; [done|]. cbn. by f_equal. }
  assert (match k (s + 1) with Some (cs, s') => Some cs | None => None end = Some (o_conditions op) ∧ o_id op = local_id s ∧
    match k (s + 1) with Some (cs, s'') => s'' = s' | None => False end → s <= s' ∧ made s s' (op_ids op)) as Hfin.
  { intros (E1 & E2 & E3). destruct (k (s + 1)) as [[cs s'']|] eqn:Ek; [|done]. apply (inj Some) in E1. subst cs s''.
    destruct (Hk (s + 1) _ _ ltac:(lia) Ek) as [L Hm]. split; [lia|]. unfold op_ids. rewrite E2.
    apply (made_app s (s + 1) s' [local_id s]); [lia..|apply made_single|done]. }
  intros E. apply Hfin. clear Hfin Hk.
  destruct v; try discriminate E; change (match get _ $"conditions" with VArr l => mapM normalizeCondition l | _ => mret [] end) with k in E;
    (destruct (k (s + 1)) as [[cs s'']|]; [|discriminate E]); apply (inj Some) in E; injection E as <- <-; done.
Qed.

Lemma createDefaultOperation_made s op s' : 0 <= s → createDefaultOperation s = Some (op, s') → s <= s' ∧ made s s' (op_ids op).
Proof. apply normalizeOperation_made. Qed.

Lemma operations_of_made l s ops s' : 0 <= s → operations_of l s = Some (ops, s') → s <= s' ∧ made s s' (all_ids ops) ∧ ops ≠ [].
Proof.
  intros H0. unfold operations_of. destruct l as [|v l].
  - unfold mbind, M_bind, mret, M_ret. destruct (createDefaultOperation s) as [[o s1]|] eqn:E; [|done].
    intros E1%(inj Some). injection E1 as <- <-. destruct (createDefaultOperation_made s o s1 H0 E) as [L Hm].
    split; [done|]. split; [|done]. unfold all_ids. cbn. by rewrite app_nil_r.
  - intros E. destruct (mapM_made normalizeOperation op_ids (v :: l) normalizeOperation_made s ops s' H0 E) as (L & Hm & Hl).
    split; [done|]. split; [done|]. by intros ->.
Qed.
End Makers.
End Ids.

(** ** Edits that keep ids *)

Lemma all_ids_cons o ops : all_ids (o :: ops) = op_ids o ++ all_ids ops.
Proof. reflexivity. Qed.

Lemma all_ids_map f ops : (∀ o, op_ids (f o) = op_ids o) → all_ids (f <$> ops) = all_ids ops.
Proof. intros Hf. induction ops as [|o ops IH]; [done|]. cbn [fmap list_fmap]. by rewrite !all_ids_cons, Hf, IH. Qed.

Lemma map_id_ids id f ops : (∀ o, op_ids (f o) = op_ids o) → all_ids (map_id id f ops) = all_ids ops.
Proof. intros Hf. apply all_ids_map. intros o. by destruct (has_id id o). Qed.

Lemma ids_sublist f ops : (∀ o, op_ids (f o) `sublist_of` op_ids o) → all_ids (f <$> ops) `sublist_of` all_ids ops.
Proof. intros Hf. induction ops as [|o ops IH]; [done|]. cbn [fmap list_fmap]. rewrite !all_ids_cons. by apply sublist_app. Qed.

Lemma filter_ids (p : ParamOverrideOperation → bool) ops : all_ids (List.filter p ops) `sublist_of` all_ids ops.
Proof.
  induction ops as [|o ops IH]; [done|]. cbn [List.filter]. destruct (p o); rewrite !all_ids_cons.
  - by apply sublist_app.
  - by apply sublist_inserts_l.
Qed.

Lemma rule_ids_sublist ops : (o_id <$> ops) `sublist_of` all_ids ops.
Proof.
  induction ops as [|o ops IH]; [done|]. rewrite all_ids_cons. cbn [fmap list_fmap]. apply sublist_skip. by apply sublist_inserts_l.
Qed.

Lemma all_ids_perm l k : l ≡ₚ k → all_ids l ≡ₚ all_ids k.
Proof. intros H. unfold all_ids. by rewrite H. Qed.

Lemma splice_in_perm {A} i (x : A) l : splice_in i x l ≡ₚ x :: l.
Proof. unfold splice_in. rewrite <- Permutation_middle. by rewrite take_drop. Qed.

(** Among distinct ids, one that occurs is found, once. *)
Lemma selected_once id ops : NoDup (o_id <$> ops) → id ∈ o_id <$> ops →
  List.length (List.filter (has_id id) ops) = 1%nat ∧ is_Some (List.find (has_id id) ops).
Proof.
  intros Hn Hin. assert (List.length (List.filter (has_id id) ops) = 1%nat) as Hl.
  { induction ops as [|o ops IH]; [by apply not_elem_of_nil in Hin|]. cbn [fmap list_fmap] in *. apply NoDup_cons in Hn as [Ho Hn].
    cbn [List.filter]. unfold has_id at 1. destruct (decide (o_id o = id)) as [<-|Hne].
    - rewrite bool_decide_eq_true_2 by done. cbn [List.length]. f_equal. clear IH Hn Hin. induction ops as [|o' ops IH]; [done|].
      cbn [fmap list_fmap] in Ho. apply not_elem_of_cons in Ho as [Ho Hops]. cbn [List.filter]. unfold has_id at 1.
      rewrite bool_decide_eq_false_2 by done. by apply IH.
    - rewrite bool_decide_eq_false_2 by done. apply elem_of_cons in Hin as [->|Hin]; [done|]. by apply IH. }
  split; [done|]. destruct (List.find (has_id id) ops) as [o|] eqn:E; [by eexists|].
  destruct (List.filter (has_id id) ops) as [|o l] eqn:Ef; [done|]. assert (In o (List.filter (has_id id) ops)) as Ho by (rewrite Ef; by left).
  apply filter_In in Ho as [Hi Ht]. by rewrite (find_none _ _ E o Hi) in Ht.
Qed.

Lemma reorder_perm ops a b p : reorderOperations ops a b p ≡ₚ ops.
Proof.
  unfold reorderOperations. destruct (_ || _ || _); [done|]. destruct (find_index _ ops) as [i|]; [|done].
  destruct (ops !! i) as [m|] eqn:Ei; [|done]. destruct (find_index _ (delete i ops)) as [j|]; [|done].
  rewrite splice_in_perm. symmetry. by apply delete_Permutation.
Qed.

(** A condition is added to at most one rule. *)
Lemma add_condition_ids id c ops : NoDup (o_id <$> ops) →
  all_ids (map_id id (λ op, with_conditions (o_conditions op ++ [c]) op) ops) ≡ₚ
    all_ids ops ++ (if bool_decide (id ∈ o_id <$> ops) then [c_id c] else []).
Proof.
  unfold map_id. induction ops as [|o ops IH]; intros Hn.
  { rewrite bool_decide_eq_false_2 by apply not_elem_of_nil. done. }
  cbn [fmap list_fmap] in *. apply NoDup_cons in Hn as [Ho Hn]. specialize (IH Hn).
  rewrite !all_ids_cons. unfold has_id at 1. destruct (decide (o_id o = id)) as [<-|Hne].
  - rewrite (bool_decide_eq_true_2 (o_id o = o_id o)) by done. rewrite (bool_decide_eq_true_2 (o_id o ∈ _)) by by left.
    rewrite (bool_decide_eq_false_2 (o_id o ∈ _)) in IH by done. rewrite IH, app_nil_r.
    assert (op_ids (with_conditions (o_conditions o ++ [c]) o) = op_ids o ++ [c_id c]) as ->.
    { unfold op_ids. cbn [o_id o_conditions with_conditions]. by rewrite fmap_app. }
    rewrite <- !app_assoc. apply Permutation_app_head, Permutation_app_comm.
  - rewrite bool_decide_eq_false_2 by done. rewrite IH, app_assoc.
    assert (bool_decide (id ∈ o_id o :: (o_id <$> ops)) = bool_decide (id ∈ o_id <$> ops)) as ->; [|done].
    apply bool_decide_ext. rewrite elem_of_cons. naive_solver.
Qed.

(** ** Prune rules *)

Section Prune.
Context {K : Clock} {UE : UpperEnv}.

Lemma rules_made {A} (f : A → M PruneRule) (g : A → value) (l : list A) s rs s' :
  (∀ v, f v = normalizeCondition (g v)) → 0 <= s → mapM f l s = Some (rs, s') → s <= s' ∧ made s s' (c_id <$> rs).
Proof.
  intros Hf H0 E. destruct (mapM_made f (λ c, [c_id c]) l) with s rs s' as (L & Hm & _); [|done..|].
  - intros x q y q' Hq Ey. rewrite Hf in Ey. destruct (normalizeCondition_made _ q y q' Hq Ey) as [-> ->]. split; [lia|apply made_single].
  - split; [done|]. replace (c_id <$> rs) with (rs ≫= (λ c, [c_id c])); [done|]. clear. induction rs as [|c rs IH]; [done|]. cbn. by f_equal.
Qed.

Lemma entry_rules_made entries s rs s' : 0 <= s → entry_rules entries s = Some (rs, s') → s <= s' ∧ made s s' (c_id <$> rs).
Proof.
  apply (rules_made _ (λ e : jsstr * value, VObj [($"path", VStr e.1); ($"mode", VStr $"full"); ($"value", e.2)])). reflexivity.
Qed.

Lemma ret_made {A} (a : A) (ids : A → list jsstr) s b s' : ids a = [] → mret (M:=M) a s = Some (b, s') → s <= s' ∧ made s s' (ids b).
Proof. intros Ha E%(inj Some). injection E as <- <-. rewrite Ha. split; [lia|apply made_nil]. Qed.

Lemma where_rules_made v s rs s' : 0 <= s → where_rules v s = Some (rs, s') → s <= s' ∧ made s s' (c_id <$> rs).
Proof.
  intros H0. destruct v; cbn [where_rules]; try exact (ret_made [] (fmap c_id) s rs s' eq_refl). by apply entry_rules_made.
Qed.

Lemma condition_rules_made v s rs s' : 0 <= s → condition_rules v s = Some (rs, s') → s <= s' ∧ made s s' (c_id <$> rs).
Proof.
  intros H0. destruct v; cbn [condition_rules]; try exact (ret_made [] (fmap c_id) s rs s' eq_refl).
  - apply (rules_made _ id); [reflexivity|done].
  - by apply entry_rules_made.
Qed.

Lemma parsePrune_made text s draft s' : 0 <= s → parsePruneObjectsDraft text s = Some (draft, s') →
  s <= s' ∧ made s s' (c_id <$> pd_rules draft).
Proof.
  intros H0. unfold parsePruneObjectsDraft. cbv zeta.
  assert (∀ typeText, mret (M:=M) (prune_defaults typeText) s = Some (draft, s') → s <= s' ∧ made s s' (c_id <$> pd_rules draft)) as Hd
    by (intros typeText E; exact (ret_made (prune_defaults typeText) (λ d, c_id <$> pd_rules d) s draft s' eq_refl E)).
  destruct (negb _); [apply Hd|]. destruct (json_parse _) as [[]|]; try apply Hd.
  unfold mbind, M_bind. destruct (where_rules _ s) as [[r1 s1]|] eqn:E1; [|done].
  destruct (condition_rules _ s1) as [[r2 s2]|] eqn:E2; [|done]. intros E%(inj Some). injection E as <- <-. cbn [pd_rules].
  destruct (where_rules_made _ _ _ _ H0 E1) as [L1 M1]. destruct (condition_rules_made _ s1 _ _ ltac:(exact (Z.le_trans _ _ _ H0 L1)) E2) as [L2 M2].
  split; [lia|]. rewrite fmap_app. apply (made_app s s1 s2); [lia..|exact M1|exact M2].
Qed.

(** An edit of prune rules keeps the ids of rules and conditions. *)
Definition forward {A B} (f : A → M B) : Prop := ∀ a s b s', 0 <= s → f a s = Some (b, s') → s <= s'.

Lemma prune_edit_ids updater op s op' s' : forward updater → 0 <= s → prune_edit updater op s = Some (op', s') →
  s <= s' ∧ op_ids op' = op_ids op.
Proof.
  intros Hf H0. unfold prune_edit, mbind, M_bind. destruct (parsePruneObjectsDraft _ s) as [[draft s1]|] eqn:E1; [|done].
  destruct (updater draft s1) as [[next s2]|] eqn:E2; [|done]. intros E%(inj Some). injection E as <- <-.
  destruct (parsePrune_made _ _ _ _ H0 E1) as [L1 _]. pose proof (Hf draft s1 next s2 ltac:(lia) E2). split; [lia|done].
Qed.

Lemma mapM_id_ids id updater ops s ops' s' : forward updater → 0 <= s → mapM_id id (prune_edit updater) ops s = Some (ops', s') →
  s <= s' ∧ all_ids ops' = all_ids ops ∧ length ops' = length ops.
Proof.
  intros Hf. unfold mapM_id. revert s ops' s'. induction ops as [|op ops IH]; intros s ops' s' H0 E.
  - apply (inj Some) in E. injection E as <- <-. split; [lia|done].
  - rewrite mapM_cons in E.
    destruct ((if has_id id op then prune_edit updater op else mret op) s) as [[op' s1]|] eqn:E1; [|done].
    destruct (mapM (λ o, if has_id id o then prune_edit updater o else mret o) ops s1) as [[ops1 s2]|] eqn:E2; [|done]. apply (inj Some) in E. injection E as <- <-.
    assert (s <= s1 ∧ op_ids op' = op_ids op) as [L1 Hi].
    { destruct (has_id id op); [by eapply prune_edit_ids|]. apply (inj Some) in E1. injection E1 as <- <-. split; [lia|done]. }
    destruct (IH s1 ops1 s2 ltac:(lia) E2) as (L2 & Hids & Hl). split; [lia|]. rewrite !all_ids_cons, Hi, Hids. cbn. by rewrite Hl.
Qed.
End Prune.

(** ** Every event keeps the rules in order *)

Section Events.
Context {K : Clock} {UE : UpperEnv} {TE : TextEnv} {T : Translation}.

Definition rules_ok (s : Z) (ops : list ParamOverrideOperation) : Prop := made 0 s (all_ids ops) ∧ ops ≠ [].

(** From [d] to [d'] the counter does not go back and the rules stay in order. *)
Definition keeps_rules (d d' : Dialog) : Prop :=
  0 <= d_seed d → rules_ok (d_seed d) (d_operations d) → d_seed d <= d_seed d' ∧ rules_ok (d_seed d') (d_operations d').

Lemma with_ids_inv {A} (m : M A) d k d' : with_ids m d k = Some d' →
  ∃ a s, m (d_seed d) = Some (a, s) ∧ k a (set_seed s d) = Some d'.
Proof using. unfold with_ids. destruct (m (d_seed d)) as [[a s]|]; [|done]. eauto. Qed.

(** The rules as they were, or fewer of the same. *)
Lemma keeps_fewer d d' : d_seed d' = d_seed d → all_ids (d_operations d') `sublist_of` all_ids (d_operations d) →
  (d_operations d ≠ [] → d_operations d' ≠ []) → keeps_rules d d'.
Proof using. intros Es Hs Hne H0 [Hm Hn]. rewrite Es. split; [lia|]. split; [by eapply made_sublist|auto]. Qed.

Lemma keeps_same d d' : d_seed d' = d_seed d → d_operations d' = d_operations d → keeps_rules d d'.
Proof using. intros Es Eo. apply keeps_fewer; [done|by rewrite Eo|by rewrite Eo]. Qed.

(** New rules only. *)
Lemma keeps_new d d' s ops : d_seed d' = s → d_operations d' = ops →
  (0 <= d_seed d → d_seed d <= s ∧ made (d_seed d) s (all_ids ops) ∧ ops ≠ []) → keeps_rules d d'.
Proof using.
  intros Es Eo H H0 _. rewrite Es, Eo. destruct (H H0) as (L & Hm & Hne). split; [done|]. split; [|done]. eapply made_weaken; [exact H0| |exact Hm]. lia.
Qed.

Lemma default_new s o s' : 0 <= s → createDefaultOperation s = Some (o, s') → s <= s' ∧ made s s' (all_ids [o]) ∧ [o] ≠ [].
Proof using.
  intros H0 E. destruct (createDefaultOperation_made s o s' H0 E) as [L Hm]. split; [done|]. split; [|done].
  rewrite all_ids_cons. change (all_ids []) with (@nil jsstr). by rewrite app_nil_r.
Qed.

(** Rules with one more among them. *)
Lemma keeps_added d d' s op : 0 <= d_seed d → rules_ok (d_seed d) (d_operations d) → d_seed d <= s → made (d_seed d) s (op_ids op) →
  d_seed d' = s → d_operations d' ≡ₚ op :: d_operations d → d_seed d <= d_seed d' ∧ rules_ok (d_seed d') (d_operations d').
Proof using.
  intros H0 [Hm _] L Hop -> Hp. split; [done|]. split; [|intros E; rewrite E in Hp; by apply Permutation_nil_cons in Hp].
  eapply made_perm; [by apply all_ids_perm|]. rewrite all_ids_cons. eapply made_perm; [apply Permutation_app_comm|].
  apply (made_app 0 (d_seed d) s); [lia..|done|done].
Qed.

Lemma parseInitialState_new text s st s' : 0 <= s → parseInitialState text s = Some (st, s') →
  s <= s' ∧ made s s' (all_ids (es_operations st)) ∧ es_operations st ≠ [].
Proof using.
  intros H0. unfold parseInitialState. cbv zeta.
  assert (∀ e v l j r, (o ← createDefaultOperation; mret (Build_EditorState e v l [o] j r)) s = Some (st, s') →
    s <= s' ∧ made s s' (all_ids (es_operations st)) ∧ es_operations st ≠ []) as Hd.
  { intros e v l j r. unfold mbind, M_bind, mret, M_ret. destruct (createDefaultOperation s) as [[o s1]|] eqn:E; [|done].
    intros E1%(inj Some). injection E1 as <- <-. by apply default_new. }
  destruct (negb _); [apply Hd|]. destruct (json_parse _) as [[| | | | | |fields]|]; try apply Hd.
  destruct (fld fields _) as [| | | | |l|]; try apply Hd. unfold mbind, M_bind, mret, M_ret.
  destruct (operations_of l s) as [[ops s1]|] eqn:E; [|done]. intros E1%(inj Some). injection E1 as <- <-. by apply (operations_of_made l).
Qed.

Lemma removeOperation_keeps id d d' : removeOperation id d = Some d' → keeps_rules d d'.
Proof using.
  unfold removeOperation.
  assert (with_ids createDefaultOperation d (λ created d, Some (set_operations [created] d)) = Some d' → keeps_rules d d') as Hd.
  { intros (o & s & E & H)%with_ids_inv. apply (inj Some) in H. eapply keeps_new; [by rewrite <- H..|]. intros H0. by apply default_new. }
  destruct (d_operations d) as [|o1 [|o2 ops]] eqn:Eo; [exact Hd..|]. intros H%(inj Some) H0 [Hm Hne].
  assert (NoDup (o_id <$> d_operations d)) as Hn by (eapply sublist_NoDup; [apply Hm|apply rule_ids_sublist]).
  assert (d_operations d' ≠ []) as Hne'.
  { rewrite <- H. cbn [d_operations set_operations]. rewrite Eo in Hn. cbn [fmap list_fmap] in Hn. apply NoDup_cons in Hn as [Hn _].
    apply not_elem_of_cons in Hn as [Hn _]. cbn [List.filter]. destruct (has_id id o1) eqn:E1; [|done].
    destruct (has_id id o2) eqn:E2; [|done]. unfold has_id in E1, E2. apply bool_decide_eq_true in E1, E2. congruence. }
  refine (keeps_fewer d d' _ _ (λ _, Hne') H0 (conj Hm Hne)); [by rewrite <- H|].
  rewrite <- H, Eo. cbn [d_operations set_operations]. apply (filter_ids (λ o, negb (has_id id o)) (o1 :: o2 :: ops)).
Qed.

Lemma prune_keeps id updater d d' : forward updater → updatePruneObjectsDraft id updater d = Some d' → keeps_rules d d'.
Proof using.
  intros Hf. unfold updatePruneObjectsDraft. intros (ops & s & E & H)%with_ids_inv H0 [Hm Hne]. apply (inj Some) in H. rewrite <- H.
  cbn [d_seed d_operations set_operations set_seed]. destruct (mapM_id_ids _ _ _ _ _ _ Hf H0 E) as (L & Hi & Hl). split; [done|]. split.
  - rewrite Hi. eapply made_weaken; [| |exact Hm]; lia.
  - intros ->. by destruct (d_operations d).
Qed.

Lemma ret_forward {A B} (f : A → B) : forward (λ a, mret (M:=M) (f a)).
Proof using. intros a s b s' _ E%(inj Some). injection E as _ <-. lia. Qed.

Lemma map_id_keeps id f d : (∀ o, op_ids (f o) `sublist_of` op_ids o) → keeps_rules d (set_operations (map_id id f (d_operations d)) d).
Proof using.
  intros Hf. apply keeps_fewer; [done|apply ids_sublist; intros o; by destruct (has_id id o)|].
  cbn [d_operations set_operations]. unfold map_id. by destruct (d_operations d).
Qed.

Lemma condition_ids_filter (p : ParamOverrideCondition → bool) o :
  op_ids (with_conditions (List.filter p (o_conditions o)) o) `sublist_of` op_ids o.
Proof using.
  unfold op_ids. cbn [o_id o_conditions with_conditions]. apply sublist_skip. apply fmap_sublist.
  induction (o_conditions o) as [|c l IH]; [done|]. cbn [List.filter]. destruct (p c); [by apply sublist_skip|by apply sublist_cons].
Qed.

Lemma condition_ids_map f o : (∀ c, c_id (f c) = c_id c) → op_ids (with_conditions (f <$> o_conditions o) o) = op_ids o.
Proof using.
  intros Hf. unfold op_ids. cbn [o_id o_conditions with_conditions]. f_equal. rewrite <- list_fmap_compose.
  apply list_fmap_ext. intros i c _. apply Hf.
Qed.

Lemma addCondition_keeps id d d' : addCondition id d = Some d' → keeps_rules d d'.
Proof using.
  unfold addCondition. intros (c & s & E & H)%with_ids_inv H0 [Hm Hne]. apply (inj Some) in H. rewrite <- H. clear H.
  cbn [d_seed d_operations set_operations set_seed set_expandedConditions].
  destruct (normalizeCondition_made (VObj []) _ _ _ H0 E) as [-> Ec]. split; [lia|]. split; [|unfold map_id; by destruct (d_operations d)].
  eapply made_perm; [apply add_condition_ids; eapply sublist_NoDup; [apply Hm|apply rule_ids_sublist]|].
  apply (made_app 0 (d_seed d) (d_seed d + 1)); [lia..|done|]. rewrite Ec. destruct (bool_decide _); [apply made_single|apply made_nil].
Qed.

Lemma switchToVisual_keeps d d' : switchToVisualMode d = Some d' → keeps_rules d d'.
Proof using.
  unfold switchToVisualMode. destruct (d_editMode d); [intros H%(inj Some); by apply keeps_same; rewrite <- H|]. cbv zeta.
  destruct (negb _).
  { intros (o & s & E & H)%with_ids_inv. apply (inj Some) in H. eapply keeps_new; [by rewrite <- H..|]. intros H0. by apply default_new. }
  assert (∀ message, Some (toast_error message d) = Some d' → keeps_rules d d') as Ht
    by (intros message H%(inj Some); by apply keeps_same; rewrite <- H).
  destruct (json_parse _) as [[| | | | | |fields]|]; try apply Ht.
  assert (∀ k : ParamOverrideOperation → Dialog → Dialog, (∀ o d, d_seed (k o d) = d_seed d ∧ d_operations (k o d) = [o]) →
    with_ids createDefaultOperation d (λ o d, Some (k o d)) = Some d' → keeps_rules d d') as Hd.
  { intros k Hk (o & s & E & H)%with_ids_inv. apply (inj Some) in H. destruct (Hk o (set_seed s d)) as [H1 H2].
    eapply keeps_new; [rewrite <- H; exact H1|rewrite <- H; exact H2|]. intros H0. by apply default_new. }
  destruct (fld fields _) as [| | | | |l|]; try (apply Hd; intros; split; reflexivity).
  intros (ops & s & E & H)%with_ids_inv. apply (inj Some) in H. eapply keeps_new; [by rewrite <- H..|]. intros H0. by apply (operations_of_made l).
Qed.

Lemma show_legacy_keeps text d d' : show_legacy text d = Some d' → keeps_rules d d'.
Proof using.
  intros (o & s & E & H)%with_ids_inv. apply (inj Some) in H. eapply keeps_new; [by rewrite <- H..|]. intros H0. by apply default_new.
Qed.

Lemma presets_nonempty key preset : om_get key TEMPLATE_PRESET_CONFIG = Some preset → tp_kind preset = KOperations →
  match get (tp_payload preset) $"operations" with VArr l => l | _ => [] end ≠ [].
Proof using.
  assert (Forall (λ e : jsstr * TemplatePresetConfig, match tp_kind e.2 with
    | KOperations => match get (tp_payload e.2) $"operations" with VArr (_ :: _) => true | _ => false end
    | KLegacy => true end = true) TEMPLATE_PRESET_CONFIG) as H by (repeat constructor; vm_compute; reflexivity).
  intros E Hk. apply om_get_elem in E. rewrite Forall_forall in H. specialize (H _ E). cbn [snd] in H. rewrite Hk in H.
  by destruct (get _ _) as [| | | | |[]|].
Qed.

Lemma fill_operations_keeps l mode d d' : l ≠ [] → fill_operations l mode d = Some d' → keeps_rules d d'.
Proof using.
  intros Hl. destruct mode; cbn [fill_operations].
  - intros (ops & s & E & H)%with_ids_inv. apply (inj Some) in H. eapply keeps_new; [by rewrite <- H..|]. intros H0. by apply (operations_of_made l).
  - intros (ops & s & E & H)%with_ids_inv H0 [Hm Hne]. apply (inj Some) in H.
    destruct (mapM_made normalizeOperation op_ids l normalizeOperation_made _ ops s H0 E) as (L & Hmade & Hlen).
    assert (ops ≠ []) as Hops by (intros ->; by destruct l).
    set (existing := match d_visualMode (set_seed s d) with Operations => _ | Legacy => [] end) in H.
    assert (d_seed d' = s ∧ d_operations d' = existing ++ ops) as [-> ->].
    { rewrite <- H. split; [done|]. cbn [d_operations set_jsonText set_editMode set_jsonError set_legacyValue set_selectedOperationId set_operations].
      by destruct existing, ops. }
    split; [done|]. split; [|by destruct existing]. rewrite all_ids_app. apply (made_app 0 (d_seed d) s); [lia..| |done].
    eapply made_sublist; [|exact Hm]. subst existing. cbn [d_visualMode set_seed]. destruct (d_visualMode d); [apply filter_ids|apply sublist_nil_l].
Qed.

Lemma fillTemplate_keeps mode d d' : fillTemplate mode d = Some d' → keeps_rules d d'.
Proof using.
  unfold fillTemplate. cbv zeta. destruct (tp_kind (preset_of d)) eqn:Ek.
  - apply fill_operations_keeps. revert Ek. unfold preset_of. destruct (om_get (d_templatePresetKey d) _) eqn:E; [by eapply presets_nonempty|].
    intros _. by vm_compute.
  - unfold fill_legacy. destruct mode, (d_visualMode d); try apply show_legacy_keeps. cbv zeta.
    destruct (if truthy _ then _ else _); [apply show_legacy_keeps|]. intros H%(inj Some). by apply keeps_same; rewrite <- H.
Qed.

Lemma open_keeps text d d' : open_with text d = Some d' → keeps_rules d d'.
Proof using.
  unfold open_with. intros (st & s & E & H)%with_ids_inv. apply (inj Some) in H.
  eapply keeps_new; [by rewrite <- H..|]. intros H0. by apply (parseInitialState_new text).
Qed.

Lemma reset_keeps d d' : resetEditorState d = Some d' → keeps_rules d d'.
Proof using.
  unfold resetEditorState. intros (o & s & E & H)%with_ids_inv. apply (inj Some) in H.
  eapply keeps_new; [by rewrite <- H..|]. intros H0. by apply default_new.
Qed.

Lemma addOperation_keeps d d' : addOperation d = Some d' → keeps_rules d d'.
Proof using.
  unfold addOperation. intros (o & s & E & H)%with_ids_inv H0 Hok. apply (inj Some) in H.
  destruct (createDefaultOperation_made _ o s H0 E) as [L Hm].
  apply (keeps_added d d' s o H0 Hok L Hm); rewrite <- H; [done|]. cbn [d_operations set_operations set_selectedOperationId set_seed].
  symmetry. apply Permutation_cons_append.
Qed.

Lemma duplicateOperation_keeps id eager d d' : duplicateOperation id eager d = Some d' → keeps_rules d d'.
Proof using.
  unfold duplicateOperation. destruct (find_index _ _) as [i|]; [|intros H%(inj Some); by apply keeps_same; rewrite <- H].
  destruct (d_operations d !! i) as [source|]; [|intros H%(inj Some); by apply keeps_same; rewrite <- H].
  intros (o & s & E & H)%with_ids_inv H0 Hok. apply (inj Some) in H. destruct (normalizeOperation_made _ _ o s H0 E) as [L Hm].
  apply (keeps_added d d' s o H0 Hok L Hm); rewrite <- H; destruct eager; try done; apply splice_in_perm.
Qed.

Lemma reordered_keeps d d' : d_seed d' = d_seed d → d_operations d' ≡ₚ d_operations d → keeps_rules d d'.
Proof using.
  intros Es Hp H0 [Hm Hne]. rewrite Es. split; [lia|]. split; [by eapply made_perm; [apply all_ids_perm|]|].
  intros E. rewrite E in Hp. by apply Permutation_nil in Hp.
Qed.

Lemma drop_keeps id data d : keeps_rules d (handleDrop id data d).
Proof using.
  unfold handleDrop. cbv zeta. destruct (_ && _); [|by apply keeps_same]. apply reordered_keeps; [done|apply reorder_perm].
Qed.

Lemma switchToJson_keeps d : keeps_rules d (switchToJsonMode d).
Proof using. unfold switchToJsonMode. destruct (d_editMode d); [|by apply keeps_same]. destruct (buildVisualJson d); by apply keeps_same. Qed.

Lemma addPruneRule_forward : forward (λ draft : PruneObjectsDraft, created ← normalizePruneRule (VObj []);
  mret (with_rules (pd_rules draft ++ [created]) (advanced_mode draft)) : M PruneObjectsDraft).
Proof using.
  intros draft s b s' H0. unfold mbind, M_bind. destruct (normalizePruneRule (VObj []) s) as [[c s1]|] eqn:E; [|done].
  intros H%(inj Some). injection H as _ <-. destruct (normalizeCondition_made (VObj []) s c s1 H0 E) as [-> _]. lia.
Qed.

Lemma handle_keeps e d d' : handle e d = Some d' → keeps_rules d d'.
Proof using.
  destruct e; cbn [handle]; intros H.
  - by eapply open_keeps.
  - apply (inj Some) in H as <-. by apply map_id_keeps.
  - by apply addOperation_keeps.
  - by eapply duplicateOperation_keeps.
  - by eapply removeOperation_keeps.
  - by eapply addCondition_keeps.
  - apply (inj Some) in H as <-. apply map_id_keeps. intros o. rewrite condition_ids_map; [done|]. intros c. by destruct (cond_is _ c).
  - apply (inj Some) in H as <-. apply map_id_keeps. intros o. apply condition_ids_filter.
  - apply (inj Some) in H as <-. by apply map_id_keeps.
  - eapply prune_keeps; [apply (ret_forward (patch_prune patch))|exact H].
  - eapply prune_keeps; [apply addPruneRule_forward|exact H].
  - eapply prune_keeps; [exact (ret_forward (λ draft, with_rules ((λ r, if cond_is ruleId r then patch_condition patch r else r) <$> pd_rules draft) draft))|exact H].
  - eapply prune_keeps; [exact (ret_forward (λ draft, with_rules (List.filter (λ r, negb (cond_is ruleId r)) (pd_rules draft)) draft))|exact H].
  - apply (inj Some) in H as <-. by apply keeps_same.
  - apply (inj Some) in H as <-. unfold handleDragOver. destruct (_ || _); by apply keeps_same.
  - apply (inj Some) in H as <-. apply drop_keeps.
  - apply (inj Some) in H as <-. by apply keeps_same.
  - apply (inj Some) in H as <-. apply switchToJson_keeps.
  - by apply switchToVisual_keeps.
  - apply (inj Some) in H as <-. by apply keeps_same.
  - by eapply fillTemplate_keeps.
  - by apply reset_keeps.
  - apply (inj Some) in H as <-. unfold handleJsonChange. cbv zeta. destruct (negb _); by apply keeps_same.
  - apply (inj Some) in H as <-. unfold handleSave. destruct (save_text d); by apply keeps_same.
  - apply (inj Some) in H as <-. unfold expand_all. destruct (selectedOperation d); by apply keeps_same.
  - apply (inj Some) in H as <-. by apply keeps_same.
  - apply (inj Some) in H as <-. by apply keeps_same.
  - apply (inj Some) in H as <-. by apply keeps_same.
  - apply (inj Some) in H as <-. by apply keeps_same.
  - apply (inj Some) in H as <-. intros H0 [Hm Hne]. cbn [d_seed d_operations set_seed]. split; [lia|]. split; [|done].
    eapply made_weaken; [| |exact Hm]; lia.
Qed.

Lemma keep_selected_rules d : d_seed (keep_selected d) = d_seed d ∧ d_operations (keep_selected d) = d_operations d.
Proof using. unfold keep_selected. destruct (d_operations d) eqn:E; [done|]. by destruct (existsb _ _). Qed.

Lemma keep_selected_valid d : d_operations d ≠ [] →
  d_selectedOperationId (keep_selected d) ∈ o_id <$> d_operations (keep_selected d).
Proof using.
  intros Hne. rewrite (proj2 (keep_selected_rules d)). unfold keep_selected. destruct (d_operations d) as [|o ops] eqn:E; [done|].
  destruct (existsb _ _) eqn:Ex; [|left]. apply existsb_exists in Ex as (x & Hx & Hid). unfold has_id in Hid. apply bool_decide_eq_true in Hid.
  rewrite <- Hid. apply list_elem_of_fmap. exists x. split; [done|]. by apply list_elem_of_In.
Qed.

(** C16: In every state the dialog reaches, from its first rendering and through
    every event, the local ids of all rules and conditions are distinct and
    below the module's counter, there is at least one rule, and the selected
    id is that of exactly one rule: updates, removals and drags by id touch one
    rule at most and always find the selected one. *)
Theorem dialog_stays_coherent d : reachable d →
  0 <= d_seed d ∧ made 0 (d_seed d) (all_ids (d_operations d)) ∧
  List.length (List.filter (has_id (d_selectedOperationId d)) (d_operations d)) = 1%nat ∧
  is_Some (selectedOperation d).
Proof using.
  intros H. assert (0 <= d_seed d ∧ rules_ok (d_seed d) (d_operations d) ∧ d_selectedOperationId d ∈ o_id <$> d_operations d) as (H0 & [Hm Hne] & Hs).
  { induction H as [seed d Hseed E|d e d' _ (H0 & Hok & _) E].
    - destruct (keep_selected_rules d) as [Es Eo]. rewrite Es, Eo. unfold initial_dialog in E.
      destruct (createDefaultOperation seed) as [[o s]|] eqn:Ec; [|done]. apply (inj Some) in E.
      destruct (default_new seed o s Hseed Ec) as (L & Hm & Hne).
      assert (d_operations d = [o] ∧ d_seed d = s) as [Hops ->] by by rewrite <- E.
      split; [lia|]. rewrite Hops. split; [split; [eapply made_weaken; [| |exact Hm]; lia|done]|].
      rewrite <- Hops, <- Eo. apply keep_selected_valid. by rewrite Hops.
    - unfold step in E. destruct (handle e d) as [d1|] eqn:E1; [|done]. apply (inj Some) in E as <-.
      destruct (handle_keeps e d d1 E1 H0 Hok) as [L Hok']. destruct (keep_selected_rules d1) as [Es Eo]. rewrite Es, Eo.
      split; [lia|]. split; [done|]. rewrite <- Eo. apply keep_selected_valid. apply Hok'. }
  split; [done|]. split; [done|]. apply selected_once; [|done]. eapply sublist_NoDup; [apply Hm|apply rule_ids_sublist].
Qed.
End Events.

(** A condition on a new rule, and the rule copied. *)
Section Witness.
Local Existing Instances count_clock ascii_upper_env keys_shown ascii_text.

Lemma dialog_stays_coherent_witness : ∃ d,
  (d0 ← initial_dialog 0; d1 ← step (EAddCondition (local_id 0)) (keep_selected d0); step (EDuplicateOperation (local_id 0) true) d1) = Some d ∧
  List.length (all_ids (d_operations d)) = 4%nat ∧ made 0 (d_seed d) (all_ids (d_operations d)) ∧ is_Some (selectedOperation d).
Proof.
  assert (∃ d, (d0 ← initial_dialog 0; d1 ← step (EAddCondition (local_id 0)) (keep_selected d0); step (EDuplicateOperation (local_id 0) true) d1) = Some d ∧
    List.length (all_ids (d_operations d)) = 4%nat) as (d & E & L) by (eexists; split; [vm_compute; reflexivity|vm_compute; reflexivity]).
  exists d. split; [exact E|]. apply bind_Some in E as (d0 & E0 & E). apply bind_Some in E as (d1 & E1 & E).
  destruct (dialog_stays_coherent d) as (_ & Hm & _ & Hs); [|split; [exact L|split; [exact Hm|exact Hs]]].
  apply (reachable_step d1 (EDuplicateOperation (local_id 0) true)); [|exact E].
  apply (reachable_step (keep_selected d0) (EAddCondition (local_id 0))); [|exact E1]. apply (reachable_initial 0); [lia|exact E0].
Defined.
End Witness.
