(* ===== verification/ParamOverrideEditors.v ===== *)
(** * Parameter overrides: the editors of structured values

    Editing the error a rule returns shows what was entered
    ([return_error_edits_exact]); the rules of a value that prunes objects get
    new ids whenever they are read, and cannot be changed, removed or added
    ([prune_rules_cannot_be_edited]). *)

From S2P Require Import Prelude JsString JsText JsNumber NumberText JsValue Json JsMath OrderedMap JsObject.
From S2P Require Import ChannelForm ParamOverrideTables ParamOverride ParamOverrideDialog ParamOverrideFacts ParamOverrideRoundtrip.
From S2P Require Import ParamOverrideDialogFacts ParamOverrideIds.

Local Open Scope Z_scope.
Local Open Scope js_scope.

Lemma json_text_read_back o : obj_ok o →
  trim (json_text o) = json_text o ∧ truthy (json_text o) = true ∧ json_parse (json_text o) = Some (VObj o).
Proof.
  intros Ho. destruct (text_read_back [] (VObj o) eq_refl Ho) as (s & Es & Ht & Htr & Hp). unfold json_text. rewrite Es. done.
Qed.

(** ** The error a rule returns *)

(** What the editor shows for a draft that was entered: texts without outer
    spaces and a status code that exists. *)
Definition shown_error (draft : ReturnErrorDraft) : ReturnErrorDraft :=
  if re_simpleMode draft
  then Build_ReturnErrorDraft (trim (re_message draft)) (num_of_Z 400) [] [] true true
  else Build_ReturnErrorDraft (trim (re_message draft)) (status_or_400 (re_statusCode draft))
         (trim (re_code draft)) (trim (re_type draft)) (re_skipRetry draft) false.

(** Texts of code units, a number of the format, and a plain message that is not
    itself an object in JSON. *)
Record error_wf (draft : ReturnErrorDraft) : Prop := {
  ew_message : units (re_message draft);
  ew_code : units (re_code draft);
  ew_type : units (re_type draft);
  ew_status : valid_binary 53 1024 (re_statusCode draft) = true;
  ew_plain : re_simpleMode draft = true → ∀ o, json_parse (trim (re_message draft)) ≠ Some (VObj o)
}.

Lemma valid_status_ok x : valid_binary 53 1024 x = true → json_ok (VNum (status_or_400 x)) = true.
Proof.
  intros Hx. unfold status_or_400. destruct (valid_status x) eqn:E; [|by vm_compute].
  unfold valid_status in E. apply andb_true_iff in E as [[Hi Hl]%andb_true_iff _]. cbn [json_ok].
  rewrite (is_integer_finite x Hi), Hx. destruct x as [[]| | |]; try done; by vm_compute in Hl.
Qed.

Lemma status_again x : valid_binary 53 1024 x = true → status_or_400 (status_or_400 x) = status_or_400 x.
Proof. intros _. unfold status_or_400. destruct (valid_status x) eqn:E; [by rewrite E|by vm_compute]. Qed.

Lemma error_payload_ok draft : error_wf draft → obj_ok (return_error_payload draft).
Proof.
  intros [Hm Hc Ht Hs _]. apply obj_ok_wf. unfold return_error_payload. cbv zeta.
  apply put_wf; [apply put_wf; [apply put_wf|..]|..]; [|by vm_compute|intros _; by apply forallb_trim|by vm_compute|intros _; by apply forallb_trim|by vm_compute..].
  apply obj_ok_wf, obj_ok_spec. split; [|split; computed].
  repeat (apply Forall_cons; split; [split; [by vm_compute|]|]); [by apply forallb_trim|by apply valid_status_ok|done].
Qed.

Lemma text_or_empty_str s : text_or_empty (VStr s) = trim s.
Proof. unfold text_or_empty, val_or. by destruct s. Qed.

(** A text property that is left out when empty. *)
Lemma optional_text s : text_or_empty (default VUndefined (if truthy (trim s) then Some (VStr (trim s)) else None)) = trim s.
Proof. destruct (trim s) as [|c s'] eqn:E; [done|]. cbn [truthy]. rewrite <- E. cbn [default from_option id]. by rewrite text_or_empty_str, trim_idem. Qed.

Lemma error_reread draft : error_wf draft → parseReturnErrorDraft (buildReturnErrorValueText draft) = shown_error draft.
Proof.
  intros Hw. unfold buildReturnErrorValueText, shown_error. destruct (re_simpleMode draft) eqn:Es.
  - unfold parseReturnErrorDraft. cbv zeta. rewrite trim_idem. destruct (truthy (trim (re_message draft))); [|done]. cbn [negb].
    destruct (json_parse (trim (re_message draft))) as [[| | | | | |o]|] eqn:E; try done. by apply (ew_plain draft Hw Es) in E.
  - destruct (json_text_read_back _ (error_payload_ok draft Hw)) as (Ht & Htr & Hp). unfold parseReturnErrorDraft. cbv zeta.
    rewrite Ht, Htr, Hp. cbn [negb].
    set (o := return_error_payload draft).
    assert (fld o $"message" = VStr (trim (re_message draft)) ∧ fld o $"msg" = VUndefined ∧
      fld o $"status_code" = VNum (status_or_400 (re_statusCode draft)) ∧
      text_or_empty (fld o $"code") = trim (re_code draft) ∧ text_or_empty (fld o $"type") = trim (re_type draft) ∧
      negb (is_false (fld o $"skip_retry")) = re_skipRetry draft) as (H1 & H2 & H3 & H4 & H5 & H6).
    { subst o. unfold return_error_payload. cbv zeta. unfold fld. rewrite !assoc_put. cbn [assoc]. key_tests. cbn [default].
      split_and!; [done|done|done|apply optional_text|apply optional_text|by destruct (re_skipRetry draft)]. }
    rewrite H1, H2, H3, H4, H5, H6. cbn [is_undef to_number]. rewrite status_again by apply Hw. f_equal.
    unfold val_or. cbn [to_boolean]. destruct (trim (re_message draft)) as [|c s] eqn:E; [done|].
    change (truthy (c :: s)) with true. cbn iota. by rewrite text_or_empty_str, <- E, trim_idem.
Qed.

(** ** One rule updated *)

Lemma find_map_id id f ops : (∀ o, o_id (f o) = o_id o) →
  List.find (has_id id) (map_id id f ops) = f <$> List.find (has_id id) ops.
Proof.
  intros Hf. unfold map_id. induction ops as [|o ops IH]; [done|]. cbn [fmap list_fmap List.find].
  destruct (has_id id o) eqn:E.
  - assert (has_id id (f o) = true) as -> by (unfold has_id in *; by rewrite Hf). done.
  - rewrite E. exact IH.
Qed.

Lemma map_id_other id f ops i o : ops !! i = Some o → o_id o ≠ id → map_id id f ops !! i = Some o.
Proof. intros Ho Hne. unfold map_id. rewrite list_lookup_fmap, Ho. cbn. unfold has_id. by rewrite bool_decide_eq_false_2. Qed.

Section Editors.
Context {K : Clock} {UE : UpperEnv} {UL : UpperLaws UE} {TE : TextEnv} {T : Translation}.

Lemma selected_id d op : selectedOperation d = Some op → d_selectedOperationId d = o_id op.
Proof using. intros [_ H]%find_some. unfold has_id in H. by apply bool_decide_eq_true in H. Qed.

(** After an edit of the error a selected rule returns, the editor shows
    what was entered, with the texts trimmed and a status code outside 100 to
    599 replaced by 400 (in simple mode only the message is kept), and every
    other rule stays as it was.  The draft is held only as the text of the
    rule's value, so this is the round trip of that text. *)
Theorem return_error_edits_exact (patch : ReturnErrorPatch) (d : Dialog) (op : ParamOverrideOperation) :
  selectedOperation d = Some op → o_mode op = $"return_error" →
  error_wf (patch_return_error patch (parseReturnErrorDraft (o_value_text op))) →
  let d' := updateReturnErrorDraft (o_id op) patch d in
  returnErrorDraft d' = Some (shown_error (patch_return_error patch (parseReturnErrorDraft (o_value_text op)))) ∧
  ∀ i o, d_operations d !! i = Some o → o_id o ≠ o_id op → d_operations d' !! i = Some o.
Proof using.
  intros Hsel Hmode Hw d'. split.
  - unfold returnErrorDraft. assert (selectedOperation d' = Some (with_value_text
      (buildReturnErrorValueText (patch_return_error patch (parseReturnErrorDraft (o_value_text op)))) op)) as ->.
    { pose proof (selected_id d op Hsel) as Hid. unfold selectedOperation in *. subst d'. unfold updateReturnErrorDraft.
      cbn [d_operations d_selectedOperationId set_operations]. rewrite Hid in *. rewrite find_map_id by done. by rewrite Hsel. }
    cbn [mbind option_bind]. change (o_mode (with_value_text ?s ?o)) with (o_mode o).
    rewrite bool_decide_eq_true_2 by done. f_equal. by apply error_reread.
  - intros i o Ho Hne. by apply map_id_other.
Qed.

(** ** Rules that prune *)

(** The rule with a given id, updated. *)
Lemma mapM_id_once id f l1 op l2 s : o_id op = id → id ∉ o_id <$> l1 → id ∉ o_id <$> l2 →
  mapM_id id f (l1 ++ op :: l2) s = match f op s with Some (op', s') => Some (l1 ++ op' :: l2, s') | None => None end.
Proof using.
  intros Hid H1 H2. unfold mapM_id.
  assert (∀ l s, id ∉ o_id <$> l → mapM (λ o, if has_id id o then f o else mret o) l s = Some (l, s)) as Hsame.
  { clear H1 H2 l1 l2 s. intros l. induction l as [|o l IH]; intros s Hl; [done|]. cbn [fmap list_fmap] in Hl.
    apply not_elem_of_cons in Hl as [Ho Hl]. rewrite mapM_cons. unfold has_id at 1. rewrite bool_decide_eq_false_2 by done.
    cbn [mret M_ret]. unfold mret, M_ret. by rewrite IH. }
  revert s. induction l1 as [|o l1 IH]; intros s; cbn [app].
  - rewrite mapM_cons. unfold has_id at 1. rewrite bool_decide_eq_true_2 by done.
    destruct (f op s) as [[op' s']|]; [|done]. by rewrite Hsame.
  - cbn [fmap list_fmap] in H1. apply not_elem_of_cons in H1 as [Ho H1]. rewrite mapM_cons. unfold has_id at 1.
    rewrite bool_decide_eq_false_2 by done. unfold mret, M_ret. rewrite IH by done. by destruct (f op s) as [[]|].
Qed.

(** With distinct ids an edit reaches its rule and no other. *)
Lemma prune_once updater d op : op ∈ d_operations d → NoDup (o_id <$> d_operations d) → ∃ l1 l2, d_operations d = l1 ++ op :: l2 ∧
  updatePruneObjectsDraft (o_id op) updater d =
    match prune_edit updater op (d_seed d) with
    | Some (op', s) => Some (set_operations (l1 ++ op' :: l2) (set_seed s d))
    | None => None
    end.
Proof using.
  intros Hin Hn. apply list_elem_of_split in Hin as (l1 & l2 & E). exists l1, l2. split; [done|].
  unfold updatePruneObjectsDraft, with_ids. rewrite E in *. rewrite fmap_app in Hn. cbn [fmap list_fmap] in Hn.
  apply NoDup_app in Hn as (_ & H1 & [H2 _]%NoDup_cons). rewrite mapM_id_once.
  - by destruct (prune_edit updater op (d_seed d)) as [[]|].
  - done.
  - intros Hid. apply (H1 _ Hid). by left.
  - exact H2.
Qed.

(** The ids of a draft are new: no older one is among them. *)
Lemma fresh_rules s s' n rules : 0 <= n → n < s → made s s' (c_id <$> rules) → Forall (λ r, cond_is (local_id n) r = false) rules.
Proof using.
  intros H0 Hn [_ Hf]. rewrite Forall_fmap in Hf. eapply Forall_impl; [exact Hf|]. intros r (m & Hm & E). cbn in E.
  unfold cond_is. rewrite E. apply bool_decide_eq_false_2. intros E'. apply local_id_inj in E'; lia.
Qed.

Lemma with_same_rules draft : with_rules (pd_rules draft) draft = draft.
Proof using. by destruct draft. Qed.

Lemma prune_edit_ext u u' op s : 0 <= s →
  (∀ draft s', s <= s' → made s s' (c_id <$> pd_rules draft) → (buildPruneObjectsValueText ∘ fst) <$> u draft s' = (buildPruneObjectsValueText ∘ fst) <$> u' draft s') →
  fst <$> prune_edit u op s = fst <$> prune_edit u' op s.
Proof using.
  intros H0 Hu. unfold prune_edit, mbind, M_bind. destruct (parsePruneObjectsDraft (o_value_text op) s) as [[draft s1]|] eqn:E; [|done].
  destruct (parsePrune_made _ _ _ _ H0 E) as [L Hm]. specialize (Hu draft s1 L Hm).
  destruct (u draft s1) as [[x sx]|], (u' draft s1) as [[y sy]|]; try done. cbn in Hu |- *. injection Hu as Hu. by rewrite Hu.
Qed.

Lemma blank_rule s : normalizePruneRule (VObj []) s =
  Some (Build_ParamOverrideCondition (local_id s) [] $"full" [] false false, s + 1).
Proof using. reflexivity. Qed.

Lemma blank_rule_dropped draft c : trim (c_path c) = [] →
  buildPruneObjectsValueText (with_rules (pd_rules draft ++ [c]) draft) = buildPruneObjectsValueText draft.
Proof using.
  intros Hc. unfold buildPruneObjectsValueText, prune_payload. cbn [with_rules pd_simpleMode pd_typeText pd_logic pd_recursive pd_rules].
  assert (List.filter (λ rule, truthy (trim (c_path rule))) (pd_rules draft ++ [c]) =
    List.filter (λ rule, truthy (trim (c_path rule))) (pd_rules draft)) as ->; [|done].
  rewrite List.filter_app. cbn [List.filter]. rewrite Hc. by rewrite app_nil_r.
Qed.

(** Edits of the drafts with the same text leave the same rules. *)
Lemma prune_same u u' d op : 0 <= d_seed d → op ∈ d_operations d → NoDup (o_id <$> d_operations d) →
  (∀ draft s', d_seed d <= s' → made (d_seed d) s' (c_id <$> pd_rules draft) →
    (buildPruneObjectsValueText ∘ fst) <$> u draft s' = (buildPruneObjectsValueText ∘ fst) <$> u' draft s') →
  d_operations <$> updatePruneObjectsDraft (o_id op) u d = d_operations <$> updatePruneObjectsDraft (o_id op) u' d.
Proof using.
  intros H0 Hin Hn Hu. apply (prune_edit_ext _ _ op _ H0) in Hu.
  destruct (prune_once u d op Hin Hn) as (l1 & l2 & E & ->). destruct (prune_once u' d op Hin Hn) as (k1 & k2 & E' & ->).
  destruct (prune_edit u op (d_seed d)) as [[x sx]|], (prune_edit u' op (d_seed d)) as [[y sy]|]; try done.
  cbn in Hu. apply (inj Some) in Hu. subst y.
  cbn [fmap option_fmap option_map d_operations set_operations]. f_equal.
  assert (o_id op ∉ o_id <$> l1 ∧ o_id op ∉ o_id <$> k1) as [Hl Hk].
  { split; [rewrite E in Hn|rewrite E' in Hn]; rewrite fmap_app in Hn; apply NoDup_app in Hn as (_ & H1 & _);
      intros Hid; apply (H1 _ Hid); by left. }
  rewrite E in E'. clear E Hn Hin. revert k1 Hk E'. induction l1 as [|o l1 IH]; intros [|o' k1] Hk E'; cbn [app fmap list_fmap] in *.
  - by apply cons_inj in E' as [_ ->].
  - apply cons_inj in E' as [-> _]. apply not_elem_of_cons in Hk as [Hk _]. done.
  - apply cons_inj in E' as [<- _]. apply not_elem_of_cons in Hl as [Hl _]. done.
  - apply cons_inj in E' as [-> E']. apply not_elem_of_cons in Hk as [_ Hk]. apply not_elem_of_cons in Hl as [_ Hl]. f_equal. by apply IH.
Qed.

(** A plain type in advanced mode is written as an object with that type only. *)
Lemma plain_type_payload typ : trim typ = typ → typ ≠ [] →
  buildPruneObjectsValueText (advanced_mode (prune_defaults typ)) = json_text [($"type", VStr typ)].
Proof using UL.
  intros Ht Hne. unfold buildPruneObjectsValueText, prune_payload.
  cbn [advanced_mode prune_defaults pd_simpleMode pd_typeText pd_logic pd_recursive pd_rules List.filter fmap list_fmap negb].
  rewrite Ht. assert (truthy typ = true) as Htr by by destruct typ.
  assert (bool_decide (toUpperCase (str_or $"AND" $"AND") = $"OR") = false) as ->.
  { apply bool_decide_eq_false_2. change (str_or $"AND" $"AND") with $"AND". rewrite upper_ascii by by vm_compute. computed. }
  rewrite Htr, put_true, !put_false. change (obj_assign [] ($"type", VStr typ)) with [($"type", VStr typ)].
  rewrite fld_single. cbn [to_boolean]. by rewrite Htr.
Qed.

(** Such a text is read in simple mode. *)
Lemma plain_type_reread typ s : units typ → trim typ = typ → typ ≠ [] →
  parsePruneObjectsDraft (json_text [($"type", VStr typ)]) s = Some (prune_defaults typ, s).
Proof using UL.
  intros Hu Ht Hne. destruct (json_text_read_back [($"type", VStr typ)]) as (H1 & H2 & H3).
  { apply obj_ok_spec. split; [|split; computed]. apply Forall_singleton. split; [by vm_compute|exact Hu]. }
  unfold parsePruneObjectsDraft. cbv zeta. rewrite H1, H2, H3. cbn [negb]. unfold fld. cbn [assoc]. key_tests. cbn [default from_option id].
  cbn [is_undef negb orb where_rules condition_rules is_false value_text]. unfold mbind, M_bind, mret, M_ret.
  assert (logic_of VUndefined $"OR" $"AND" = $"AND") as ->.
  { unfold logic_of. change (value_text (val_or VUndefined (VStr $"AND"))) with $"AND". rewrite upper_ascii by by vm_compute.
    by rewrite bool_decide_eq_false_2 by computed. }
  by rewrite Ht.
Qed.

(** A plain text is a type alone. *)
Lemma plain_type_draft typ s : trim typ = typ → typ ≠ [] → json_parse typ = None →
  parsePruneObjectsDraft typ s = Some (prune_defaults typ, s).
Proof using. intros Ht Hne Hp. unfold parsePruneObjectsDraft. cbv zeta. rewrite Ht, Hp. by destruct typ. Qed.

(** C35: the rules of a value that prunes objects cannot be edited.  A rule on
    screen carries an id made when it was drawn; changing or removing it reads
    the value again, which gives every rule a new id, so nothing matches and the
    value is only written back.  A rule that is added is blank, and blank rules
    are not written, so adding one only switches to advanced mode; and for a
    plain type even that is undone, the editor shows the simple mode again. *)
Theorem prune_rules_cannot_be_edited (d : Dialog) (op : ParamOverrideOperation) (n : Z) (patch : ConditionPatch) :
  0 <= n < d_seed d → NoDup (o_id <$> d_operations d) → selectedOperation d = Some op → o_mode op = $"prune_objects" →
  d_operations <$> updatePruneRule (o_id op) (local_id n) patch d = d_operations <$> updatePruneObjectsDraft (o_id op) mret d ∧
  d_operations <$> removePruneRule (o_id op) (local_id n) d = d_operations <$> updatePruneObjectsDraft (o_id op) mret d ∧
  d_operations <$> addPruneRule (o_id op) d =
    d_operations <$> updatePruneObjectsDraft (o_id op) (λ draft, mret (advanced_mode draft)) d ∧
  (let typ := o_value_text op in units typ → trim typ = typ → typ ≠ [] → json_parse typ = None →
    ∃ d', addPruneRule (o_id op) d = Some d' ∧ fst <$> pruneObjectsDraft d' (d_seed d') = Some (Some (prune_defaults typ))).
Proof using UL.
  intros [H0 Hlt] Hn Hsel Hmode. assert (op ∈ d_operations d) as Hin by (apply find_some in Hsel as [Hsel _]; by apply list_elem_of_In).
  split_and!.
  - apply prune_same; [lia|done..|]. intros draft s' _ Hm. pose proof (fresh_rules _ _ n _ H0 Hlt Hm) as Hf.
    unfold mret, M_ret. cbn. do 2 f_equal. rewrite (Forall_fmap_ext_1 _ id); [by rewrite list_fmap_id, with_same_rules|].
    eapply Forall_impl; [exact Hf|]. intros r Hr. cbn in Hr |- *. by rewrite Hr.
  - apply prune_same; [lia|done..|]. intros draft s' _ Hm. pose proof (fresh_rules _ _ n _ H0 Hlt Hm) as Hf.
    unfold mret, M_ret. cbn. do 2 f_equal. rewrite filter_all; [apply with_same_rules|].
    eapply Forall_impl; [exact Hf|]. intros r Hr. cbn in Hr |- *. by rewrite Hr.
  - apply prune_same; [lia|done..|]. intros draft s' _ _. unfold mbind, M_bind. rewrite blank_rule. unfold mret, M_ret. cbn. f_equal.
    by apply (blank_rule_dropped (advanced_mode draft)).
  - intros typ Hu Ht Hne Hp. destruct (prune_once (λ draft, created ← normalizePruneRule (VObj []);
      mret (with_rules (pd_rules draft ++ [created]) (advanced_mode draft))) d op Hin Hn) as (l1 & l2 & E & Eadd).
    unfold addPruneRule. rewrite Eadd. unfold prune_edit, mbind, M_bind.
    rewrite (plain_type_draft typ) by done. rewrite blank_rule. unfold mret, M_ret.
    eexists. split; [reflexivity|]. cbn [d_seed set_seed set_operations].
    rewrite (blank_rule_dropped (advanced_mode (prune_defaults typ))) by done. rewrite plain_type_payload by done.
    set (text := json_text [($"type", VStr typ)]).
    unfold pruneObjectsDraft. match goal with |- context [selectedOperation ?x] => assert (selectedOperation x = Some (with_value_text text op)) as -> end.
    { pose proof (selected_id d op Hsel) as Hid. unfold selectedOperation. cbn [d_operations set_operations set_seed d_selectedOperationId]. rewrite Hid.
      rewrite E in Hn. rewrite fmap_app in Hn. apply NoDup_app in Hn as (_ & H1 & _). clear E Eadd Hin Hsel.
      induction l1 as [|o l1 IH]; cbn [app List.find].
      - unfold has_id at 1. by rewrite bool_decide_eq_true_2.
      - unfold has_id at 1. rewrite bool_decide_eq_false_2; [apply IH|].
        + intros x Hx. apply H1. by right.
        + intros Heq. apply (H1 (o_id o)); [by left|]. rewrite Heq. by left. }
    change (o_mode (with_value_text text op)) with (o_mode op). rewrite bool_decide_eq_true_2 by done.
    unfold mbind, M_bind. change (o_value_text (with_value_text text op)) with text. subst text. by rewrite plain_type_reread.
Qed.
End Editors.

Section Witness.
Local Existing Instances count_clock ascii_upper_env ascii_upper_laws keys_shown ascii_text.

Definition value_rule (mode text : jsstr) : ParamOverrideOperation :=
  Build_ParamOverrideOperation $"a" [] [] mode [] [] text false $"OR" [].

(** A plain error given a status code that does not exist and a code. *)
Lemma return_error_edits_exact_witness :
  let patch := Build_ReturnErrorPatch None (Some (num_of_Z 700)) (Some $" quota ") None None (Some false) in
  returnErrorDraft (updateReturnErrorDraft $"a" patch (dialog_with [value_rule $"return_error" $"no more"] 3)) =
    Some (Build_ReturnErrorDraft $"no more" (num_of_Z 400) $"quota" [] true false).
Proof.
  intros patch. destruct (return_error_edits_exact patch (dialog_with [value_rule $"return_error" $"no more"] 3)
    (value_rule $"return_error" $"no more")) as [H _].
  - vm_compute. reflexivity.
  - reflexivity.
  - constructor; try (vm_compute; reflexivity). intros E. exfalso. revert E. by vm_compute.
  - refine (eq_trans H _). vm_compute. reflexivity.
Defined.

(** Adding a rule to a plain type changes nothing on screen. *)
Lemma prune_rules_cannot_be_edited_witness : ∃ d',
  addPruneRule $"a" (dialog_with [value_rule $"prune_objects" $"redacted_thinking"] 3) = Some d' ∧
  fst <$> pruneObjectsDraft d' (d_seed d') = Some (Some (prune_defaults $"redacted_thinking")).
Proof.
  destruct (prune_rules_cannot_be_edited (dialog_with [value_rule $"prune_objects" $"redacted_thinking"] 3)
    (value_rule $"prune_objects" $"redacted_thinking") 1 (Build_ConditionPatch None None None None None)) as (_ & _ & _ & H).
  - split; [lia|reflexivity].
  - computed.
  - vm_compute. reflexivity.
  - reflexivity.
  - apply H; [vm_compute; reflexivity..|computed|vm_compute; reflexivity].
Defined.
End Witness.
