(* ===== verification/JsDate.v ===== *)
(** * Dates

    The time value of a [Date], and the exactness of the binary64 arithmetic
    between seconds and milliseconds: products and quotients of integers that are
    integers below 2^53 are not rounded. *)

From Stdlib Require Import Reals Lra.
From S2P Require Import Prelude JsString JsNumber NumberText Rounding JsMath.

Local Open Scope Z_scope.

(** ** Time values *)

(** Towards zero, without a negative zero. *)
Definition to_integer (x : number) : number :=
  match x with
  | S754_finite s m e =>
    if 0 <=? e then x
    else
      let q := Z.quot (if s then Zneg m else Zpos m) (2 ^ (- e)) in
      if q =? 0 then S754_zero false else num_of_Z q
  | S754_zero _ => S754_zero false
  | _ => x
  end.

(** [new Date(ms).getTime()] *)
Definition time_value (ms : number) : number :=
  if is_finite ms && num_leb (num_abs ms) (num_of_Z 8640000000000000) then to_integer ms else S754_nan.

(** [new Date(seconds * 1000)] as its time value, and [Math.floor(date.getTime() / 1000)]. *)
Definition date_of_seconds (seconds : number) : number := time_value (num_mul seconds (num_of_Z 1000)).
Definition seconds_of_date (date : number) : number := num_floor (num_div date (num_of_Z 1000)).

(** ** Integers are exact *)

Lemma integer_form n : 0 < n < 2 ^ 53 → ∃ m e,
  num_of_Z n = S754_finite false m e ∧ canonical m e ∧ 2 ^ 52 ≤ Zpos m < 2 ^ 53 ∧ -52 ≤ e ≤ 0 ∧ Zpos m = n * 2 ^ (- e).
Proof.
  intros Hn. destruct (integer_exact n Hn) as [Hf Hr]. destruct (num_of_Z n) as [| | |[] m e]; try done.
  cbn [normal real] in *. destruct Hf as [Hm He]. exists m, e.
  assert (e ≤ 0) as Hneg.
  { enough (52 + e < 53) by lia. apply pow2_lt_inv. rewrite pow2_add, (pow2_IZR 52), (pow2_IZR 53) by lia.
    assert (IZR (2 ^ 52) <= IZR (Zpos m))%R by (apply IZR_le; lia). assert (IZR n < IZR (2 ^ 53))%R by (apply IZR_lt; lia).
    pose proof (pow2_pos e). nra. }
  assert (Zpos m = n * 2 ^ (- e)) as Em.
  { apply eq_IZR. rewrite mult_IZR, <- Hr, <- (pow2_IZR (- e)), Rmult_assoc, <- pow2_add by lia.
    replace (e + - e) with 0 by lia. cbn. lra. }
  assert (- e < 53). { apply (Z.pow_lt_mono_r_iff 2); [lia..|]. nia. }
  split_and!; [done|by apply normal_canonical|lia..].
Qed.

Lemma mul_integers a b : 0 < a → 0 < b → a * b < 2 ^ 53 → num_mul (num_of_Z a) (num_of_Z b) = num_of_Z (a * b).
Proof.
  intros Ha Hb Hab. assert (a < 2 ^ 53 ∧ b < 2 ^ 53) as [Ha' Hb'] by nia.
  destruct (integer_form a ltac:(lia)) as (ma & ea & -> & _ & Hma & Hea & Ea).
  destruct (integer_form b ltac:(lia)) as (mb & eb & -> & _ & Hmb & Heb & Eb).
  destruct (integer_form (a * b) ltac:(lia)) as (m & e & -> & Hc & Hm & He & E).
  assert (0 ≤ e - ea - eb) as Hj.
  { destruct (Z.le_gt_cases 0 (e - ea - eb)) as [|Hlt]; [done|]. exfalso.
    assert (Zpos ma * Zpos mb * 2 ^ (ea + eb - e) = Zpos m).
    { rewrite Ea, Eb, E. replace (- e) with (- ea + - eb + (ea + eb - e)) by lia. rewrite !Z.pow_add_r by lia. ring. }
    assert (1 ≤ 2 ^ (ea + eb - e)) by (pose proof (Z.pow_pos_nonneg 2 (ea + eb - e)); lia). nia. }
  unfold num_mul, SFmul. cbn [xorb]. rewrite Pos2Z.inj_mul.
  rewrite <- (round_aux_exact false m e (e - ea - eb) Hc Hj). f_equal; [|lia].
  rewrite Ea, Eb, E. rewrite <- (Z.mul_assoc (a * b)), <- Z.pow_add_r by lia.
  replace (- e + (e - ea - eb)) with (- ea + - eb) by lia. rewrite Z.pow_add_r by lia. ring.
Qed.

Lemma div_integers a b : 0 < a → 0 < b → a * b < 2 ^ 53 → num_div (num_of_Z (a * b)) (num_of_Z b) = num_of_Z a.
Proof.
  intros Ha Hb Hab. assert (a < 2 ^ 53 ∧ b < 2 ^ 53) as [Ha' Hb'] by nia.
  destruct (integer_form (a * b) ltac:(lia)) as (mx & ex & -> & _ & Hmx & Hex & Ex).
  destruct (integer_form b ltac:(lia)) as (my & ey & -> & _ & Hmy & Hey & Ey).
  destruct (integer_form a ltac:(lia)) as (m & e & -> & Hc & Hm & He & E).
  unfold num_div, SFdiv, SFdiv_core_binary. cbn [xorb]. rewrite !mantissa_digits by done. unfold fexp, emin.
  replace (Z.min _ _) with (ex - ey - 53) by lia. replace (ex - ey - (ex - ey - 53)) with 53 by lia.
  rewrite Z.shiftl_mul_pow2 by lia.
  (* the dividend is the quotient times the divisor *)
  assert (Zpos mx * 2 ^ (- e - ey) = Zpos m * Zpos my * 2 ^ (- ex)) as Hmul.
  { rewrite Ex, E, Ey. replace (- e - ey) with (- e + - ey) by lia. rewrite Z.pow_add_r by lia. ring. }
  assert (0 ≤ e + ey - ex + 53) as Hj.
  { destruct (Z.le_gt_cases 0 (e + ey - ex + 53)) as [|Hlt]; [done|]. exfalso.
    assert (2 ^ (- e - ey) = 2 ^ (- ex) * 2 ^ (ex - e - ey)) as Hpow by (rewrite <- Z.pow_add_r by lia; f_equal; lia).
    rewrite Hpow in Hmul. assert (2 ^ 54 ≤ 2 ^ (ex - e - ey)) by (apply Z.pow_le_mono_r; lia).
    assert (0 < 2 ^ (- ex)) by (apply Z.pow_pos_nonneg; lia).
    assert (Zpos mx * 2 ^ (ex - e - ey) = Zpos m * Zpos my) by nia. nia. }
  assert (Zpos mx * 2 ^ 53 = Zpos m * 2 ^ (e + ey - ex + 53) * Zpos my) as Hq.
  { assert (0 < 2 ^ (- e - ey)) as Hp by (apply Z.pow_pos_nonneg; lia). apply (Z.mul_reg_r _ _ _ (Z.neq_sym _ _ (Z.lt_neq _ _ Hp))).
    transitivity (Zpos mx * 2 ^ (- e - ey) * 2 ^ 53); [ring|]. rewrite Hmul.
    transitivity (Zpos m * Zpos my * (2 ^ (e + ey - ex + 53) * 2 ^ (- e - ey))); [|ring].
    rewrite <- Z.pow_add_r by lia. replace (e + ey - ex + 53 + (- e - ey)) with (- ex + 53) by lia. rewrite Z.pow_add_r by lia. ring. }
  rewrite Hq. pose proof (Z_div_mod (Zpos m * 2 ^ (e + ey - ex + 53) * Zpos my) (Zpos my) ltac:(lia)) as Hdm.
  destruct (Z.div_eucl _ _) as [q r]. destruct Hdm as [Hdm Hr].
  destruct (Z.div_mod_unique (Zpos my) (Zpos m * 2 ^ (e + ey - ex + 53)) q 0 r) as [<- <-]; [lia..|].
  replace (new_location (Zpos my) 0) with loc_Exact by (unfold new_location, new_location_even, new_location_odd; by destruct (Z.even (Zpos my))).
  rewrite <- (round_aux_exact false m e (e + ey - ex + 53) Hc Hj). f_equal. lia.
Qed.

Lemma floor_integer n : 0 < n < 2 ^ 53 → num_floor (num_of_Z n) = num_of_Z n.
Proof.
  intros Hn. destruct (integer_form n Hn) as (m & e & E & _ & _ & He & Em). rewrite E. cbn [num_floor].
  destruct (Z.leb_spec 0 e); [done|]. rewrite Em, Z.div_mul by (apply Z.pow_nonzero; lia).
  rewrite (proj2 (Z.eqb_neq n 0)) by lia. exact E.
Qed.

Lemma to_integer_integer n : 0 < n < 2 ^ 53 → to_integer (num_of_Z n) = num_of_Z n.
Proof.
  intros Hn. destruct (integer_form n Hn) as (m & e & E & _ & _ & He & Em). rewrite E. cbn [to_integer].
  destruct (Z.leb_spec 0 e); [done|]. rewrite Em, Z.quot_mul by (apply Z.pow_nonzero; lia).
  rewrite (proj2 (Z.eqb_neq n 0)) by lia. exact E.
Qed.


Lemma leb_integers a b : 0 < a → a ≤ b → b < 2 ^ 53 → num_leb (num_of_Z a) (num_of_Z b) = true.
Proof.
  intros Ha Hab Hb. destruct (integer_form a ltac:(lia)) as (ma & ea & -> & _ & Hma & Hea & Ea).
  destruct (integer_form b ltac:(lia)) as (mb & eb & -> & _ & Hmb & Heb & Eb).
  unfold num_leb, SFleb, SFcompare. destruct (Z.compare_spec ea eb) as [->|Hlt|Hgt].
  - change (Pos.compare_cont Eq ma mb) with (ma ?= mb)%positive. destruct (Pos.compare_spec ma mb); [done|done|].
    exfalso. assert (0 < 2 ^ (- eb)) by (apply Z.pow_pos_nonneg; lia). nia.
  - done.
  - exfalso. assert (2 ^ (- eb) = 2 ^ (- ea) * 2 ^ (ea - eb)) as Hp by (rewrite <- Z.pow_add_r by lia; f_equal; lia).
    assert (2 ^ 1 ≤ 2 ^ (ea - eb)) by (apply Z.pow_le_mono_r; lia). assert (0 < 2 ^ (- ea)) by (apply Z.pow_pos_nonneg; lia).
    rewrite Hp in Eb. nia.
Qed.

Lemma positive_integer n : 0 < n < 2 ^ 53 → num_ltb (S754_zero false) (num_of_Z n) = true ∧ num_abs (num_of_Z n) = num_of_Z n ∧ is_finite (num_of_Z n) = true.
Proof. intros Hn. by destruct (integer_form n Hn) as (m & e & -> & _). Qed.

(** A time stamp in seconds survives being a date. *)
Lemma seconds_back n : 0 < n ≤ 8640000000000 → seconds_of_date (date_of_seconds (num_of_Z n)) = num_of_Z n.
Proof.
  intros Hn. unfold seconds_of_date, date_of_seconds, time_value. rewrite mul_integers by lia.
  destruct (positive_integer (n * 1000) ltac:(lia)) as (_ & -> & ->). rewrite leb_integers by lia. cbn [andb].
  rewrite to_integer_integer by lia. rewrite div_integers by lia. by rewrite floor_integer by lia.
Qed.
