(* ===== verification/AccountForms.v ===== *)
(** * Forms of API keys, redemption codes and users

    [src/web/src/features/keys/lib/api-key-form.ts],
    [features/redemption-codes/lib/redemption-form.ts],
    [features/users/lib/user-form.ts], and what the drawers
    [keys/components/api-keys-mutate-drawer.tsx],
    [redemption-codes/components/redemptions-mutate-drawer.tsx] and
    [users/components/users-mutate-drawer.tsx] send.  A [Date] is its time value. *)

From S2P Require Import Prelude JsString JsNumber NumberText JsValue JsMath OrderedMap JsDate.
From S2P Require Import AuthStore SystemConfig Currency Format.

Local Open Scope Z_scope.
Local Open Scope js_scope.

(** ** API keys *)

Module Keys.

Definition DEFAULT_GROUP : jsstr := [].

Record ApiKey := {
  k_name : jsstr;
  k_remain_quota : number;
  k_unlimited_quota : bool;
  k_expired_time : number;
  k_group : option jsstr;
  k_auto_groups : option (list jsstr);
  k_cross_group_retry : bool;
  k_model_limits_enabled : bool;
  k_model_limits : option jsstr;
  k_allow_ips : option jsstr
}.

Record ApiKeyFormData := {
  p_name : jsstr;
  p_remain_quota : number;
  p_expired_time : number;
  p_unlimited_quota : bool;
  p_model_limits_enabled : bool;
  p_model_limits : jsstr;
  p_allow_ips : jsstr;
  p_group : jsstr;
  p_auto_groups : list jsstr;
  p_cross_group_retry : bool
}.

Inductive AutoGroupsMode := Inherit | Custom.

#[global] Instance AutoGroupsMode_eq_dec : EqDecision AutoGroupsMode.
Proof. solve_decision. Defined.

Record ApiKeyFormValues := {
  f_name : jsstr;
  f_remain_quota_dollars : option number;
  f_expired_time : option number;
  f_unlimited_quota : bool;
  f_model_limits : list jsstr;
  f_allow_ips : option jsstr;
  f_group : option jsstr;
  f_auto_groups_mode : AutoGroupsMode;
  f_auto_groups : list jsstr;
  f_cross_group_retry : option bool;
  f_tokenCount : option number
}.

(** *** Schema *)

Definition autoGroupLimit (maxAutoGroups : number) : number :=
  if is_integer maxAutoGroups && num_ltb (S754_zero false) maxAutoGroups then maxAutoGroups else num_of_Z 5.

Definition is_auto (data : ApiKeyFormValues) : bool := bool_decide (f_group data = Some $"auto").

(** [.superRefine]: the field and the key of the message of every issue. *)
Definition refine_issues (maxAutoGroups : number) (data : ApiKeyFormValues) : list (jsstr * jsstr) :=
  let size := num_of_Z (Z.of_nat (length (f_auto_groups data))) in
  (if is_auto data then
     (if bool_decide (f_auto_groups_mode data = Custom) && bool_decide (length (f_auto_groups data) = 0%nat)
      then [($"auto_groups", $"Select at least one Auto group or restore global Auto.")] else [])
     ++ (if num_ltb (autoGroupLimit maxAutoGroups) size
         then [($"auto_groups", $"Select at most {{max}} Auto groups")] else [])
     ++ (if negb (bool_decide (length (os_of_list (f_auto_groups data)) = length (f_auto_groups data)))
         then [($"auto_groups", $"Auto groups must not contain duplicates")] else [])
   else [])
  ++ (if f_unlimited_quota data then []
      else match f_remain_quota_dollars data with
      | Some x => if num_ltb x (S754_zero false) then [($"remain_quota_dollars", $"Quota must be zero or greater")] else []
      | None => [($"remain_quota_dollars", $"Quota must be zero or greater")]
      end).

(** An optional [z.number()]: a finite number that passes the given test. *)
Definition optional_number (ok : number → bool) (x : option number) : bool :=
  match x with Some n => is_finite n && ok n | None => true end.

(** Whether the schema accepts values of its type. *)
Definition getApiKeyFormSchema (maxAutoGroups : number) (data : ApiKeyFormValues) : bool :=
  truthy (f_name data)
  && optional_number (λ _, true) (f_remain_quota_dollars data)
  && match f_expired_time data with Some date => is_finite date | None => true end
  && optional_number (num_leb (num_of_Z 1)) (f_tokenCount data)
  && bool_decide (refine_issues maxAutoGroups data = []).

(** *** Defaults *)

Definition API_KEY_FORM_DEFAULT_VALUES : ApiKeyFormValues :=
  {| f_name := []; f_remain_quota_dollars := Some (num_of_Z 10); f_expired_time := None; f_unlimited_quota := true;
     f_model_limits := []; f_allow_ips := Some []; f_group := Some DEFAULT_GROUP; f_auto_groups_mode := Inherit;
     f_auto_groups := []; f_cross_group_retry := Some true; f_tokenCount := Some (num_of_Z 1) |}.

Definition getApiKeyFormDefaultValues (defaultUseAutoGroup : bool) : ApiKeyFormValues :=
  let d := API_KEY_FORM_DEFAULT_VALUES in
  {| f_name := f_name d; f_remain_quota_dollars := f_remain_quota_dollars d; f_expired_time := f_expired_time d;
     f_unlimited_quota := f_unlimited_quota d; f_model_limits := f_model_limits d; f_allow_ips := f_allow_ips d;
     f_group := Some (if defaultUseAutoGroup then $"auto" else DEFAULT_GROUP); f_auto_groups_mode := Inherit;
     f_auto_groups := []; f_cross_group_retry := Some defaultUseAutoGroup; f_tokenCount := f_tokenCount d |}.

(** *** Transformations *)

(** [x || 0] *)
Definition or_zero (x : option number) : number :=
  match x with Some n => if num_truthy n then n else S754_zero false | None => S754_zero false end.

Definition transformFormDataToPayload (st : SystemConfigState) (data : ApiKeyFormValues) : ApiKeyFormData :=
  {| p_name := f_name data;
     p_remain_quota := if f_unlimited_quota data then S754_zero false
                       else parseQuotaFromDollars st (or_zero (f_remain_quota_dollars data));
     p_expired_time := match f_expired_time data with Some date => seconds_of_date date | None => num_of_Z (-1) end;
     p_unlimited_quota := f_unlimited_quota data;
     p_model_limits_enabled := match f_model_limits data with [] => false | _ => true end;
     p_model_limits := join $"," (f_model_limits data);
     p_allow_ips := default [] (f_allow_ips data);
     p_group := default [] (f_group data);
     p_auto_groups := if is_auto data && bool_decide (f_auto_groups_mode data = Custom) then f_auto_groups data else [];
     p_cross_group_retry := if is_auto data then default false (f_cross_group_retry data) else false |}.

Definition transformApiKeyToFormDefaults (st : SystemConfigState) (availableAutoGroups : list jsstr) (maxAutoGroups : Z)
    (apiKey : ApiKey) : ApiKeyFormValues :=
  let storedAutoGroups := default [] (k_auto_groups apiKey) in
  {| f_name := k_name apiKey;
     f_remain_quota_dollars := Some (if k_unlimited_quota apiKey then S754_zero false
                                     else quotaUnitsToDollars st (k_remain_quota apiKey));
     f_expired_time := if num_ltb (S754_zero false) (k_expired_time apiKey)
                       then Some (date_of_seconds (k_expired_time apiKey)) else None;
     f_unlimited_quota := k_unlimited_quota apiKey;
     f_model_limits := match default [] (k_model_limits apiKey) with
                       | [] => []
                       | limits => List.filter truthy (split 44 limits)
                       end;
     f_allow_ips := Some (default [] (k_allow_ips apiKey));
     f_group := Some (str_or (default [] (k_group apiKey)) DEFAULT_GROUP);
     f_auto_groups_mode := match storedAutoGroups with [] => Inherit | _ => Custom end;
     f_auto_groups := take (Z.to_nat (Z.max 0 maxAutoGroups))
                        (List.filter (λ group, bool_decide (group ∈ availableAutoGroups)) storedAutoGroups);
     f_cross_group_retry := Some (k_cross_group_retry apiKey);
     f_tokenCount := Some (num_of_Z 1) |}.

(** *** The drawer *)

(** A group the user may choose; its label, description and ratio are only shown. *)
Record ApiKeyGroupOption := { o_value : jsstr; o_disabled : bool }.

(** The options, from the entries of the answer: a name, and whether the group is available. *)
Definition group_options (data : list (jsstr * option bool)) : list ApiKeyGroupOption :=
  (λ e, {| o_value := e.1; o_disabled := bool_decide (e.2 = Some false) |}) <$> data.

Definition availableAutoGroupNames (groups : list ApiKeyGroupOption) : list jsstr :=
  o_value <$> List.filter (λ group, negb (bool_decide (o_value group = $"auto")) && negb (o_disabled group)) groups.

(** The effect that corrects a group that does not exist. *)
Definition correct_group (groups : list jsstr) (data : ApiKeyFormValues) : ApiKeyFormValues :=
  let currentGroup := default [] (f_group data) in
  match groups with
  | [] => data
  | first :: _ =>
    if truthy currentGroup && negb (bool_decide (currentGroup ∈ groups)) then
      let fallback := if bool_decide ($"default" ∈ groups) then $"default" else first in
      let auto := bool_decide (currentGroup = $"auto") in
      {| f_name := f_name data; f_remain_quota_dollars := f_remain_quota_dollars data;
         f_expired_time := f_expired_time data; f_unlimited_quota := f_unlimited_quota data;
         f_model_limits := f_model_limits data; f_allow_ips := f_allow_ips data; f_group := Some fallback;
         f_auto_groups_mode := if auto then Inherit else f_auto_groups_mode data;
         f_auto_groups := if auto then [] else f_auto_groups data;
         f_cross_group_retry := if auto then Some false else f_cross_group_retry data;
         f_tokenCount := f_tokenCount data |}
    else data
  end.

(** The form of a key that was opened, once the answers are there and the effects
    have run: the loaded values, then the correction of the group. *)
Definition opened_key (st : SystemConfigState) (data : list (jsstr * option bool)) (maxAutoGroups : Z) (apiKey : ApiKey)
  : ApiKeyFormValues :=
  let groups := group_options data in
  correct_group (o_value <$> groups) (transformApiKeyToFormDefaults st (availableAutoGroupNames groups) maxAutoGroups apiKey).

(** What a request for a new key comes back with. *)
Inductive Answer := Created | Refused | Thrown.

#[global] Instance Answer_eq_dec : EqDecision Answer.
Proof. solve_decision. Defined.

Record BatchState := { b_names : list jsstr; b_created : Z; b_refused : bool; b_thrown : bool }.

(** The name of the key with a given number; [suffix] stands for the random part. *)
Definition batch_name (name : jsstr) (suffix : Z → jsstr) (i : Z) : jsstr :=
  if (i =? 0) && truthy name then name else str_or name $"default" ++ $"-" ++ suffix i.

(** The loop that creates keys; [None] when the fuel does not suffice. *)
Fixpoint create_loop (fuel : nat) (name : jsstr) (suffix : Z → jsstr) (answers : Z → Answer) (count : number) (i : Z)
    (b : BatchState) : option BatchState :=
  match fuel with
  | O => None
  | S fuel =>
    if num_ltb (num_of_Z i) count then
      let names := b_names b ++ [batch_name name suffix i] in
      match answers i with
      | Created => create_loop fuel name suffix answers count (i + 1) (Build_BatchState names (b_created b + 1) (b_refused b) (b_thrown b))
      | Refused => Some (Build_BatchState names (b_created b) true (b_thrown b))
      | Thrown => Some (Build_BatchState names (b_created b) (b_refused b) true)
      end
    else Some b
  end.

(** Creating as many keys as the form asks for. *)
Definition create_keys (fuel : nat) (suffix : Z → jsstr) (answers : Z → Answer) (data : ApiKeyFormValues) : option BatchState :=
  let count := match f_tokenCount data with Some n => if num_truthy n then n else num_of_Z 1 | None => num_of_Z 1 end in
  create_loop fuel (f_name data) suffix answers count 0 (Build_BatchState [] 0 false false).

(** The drawer closes once a key was created and nothing was thrown. *)
Definition batch_closes (b : BatchState) : bool := negb (b_thrown b) && (0 <? b_created b).

End Keys.

(** ** Redemption codes *)

Module Redemptions.

Definition NAME_MIN_LENGTH : Z := 1.
Definition NAME_MAX_LENGTH : Z := 20.
Definition COUNT_MIN : Z := 1.
Definition COUNT_MAX : Z := 100.

Record Redemption := { r_name : jsstr; r_quota : number; r_expired_time : number }.

Record RedemptionFormValues := {
  f_name : jsstr;
  f_quota_dollars : number;
  f_expired_time : option number;
  f_count : option number
}.

Record RedemptionFormData := { p_name : jsstr; p_quota : number; p_expired_time : number; p_count : number }.

Definition getRedemptionFormSchema (data : RedemptionFormValues) : bool :=
  let n := Z.of_nat (length (f_name data)) in
  (NAME_MIN_LENGTH <=? n) && (n <=? NAME_MAX_LENGTH)
  && is_finite (f_quota_dollars data) && num_leb (S754_zero false) (f_quota_dollars data)
  && match f_expired_time data with Some date => is_finite date | None => true end
  && Keys.optional_number (λ c, num_leb (num_of_Z COUNT_MIN) c && num_leb c (num_of_Z COUNT_MAX)) (f_count data).

Definition REDEMPTION_FORM_DEFAULT_VALUES : RedemptionFormValues :=
  {| f_name := []; f_quota_dollars := num_of_Z 10; f_expired_time := None; f_count := Some (num_of_Z 1) |}.

Definition transformFormDataToPayload (st : SystemConfigState) (data : RedemptionFormValues) : RedemptionFormData :=
  {| p_name := f_name data;
     p_quota := parseQuotaFromDollars st (f_quota_dollars data);
     p_expired_time := match f_expired_time data with Some date => seconds_of_date date | None => S754_zero false end;
     p_count := match f_count data with Some c => if num_truthy c then c else num_of_Z 1 | None => num_of_Z 1 end |}.

Definition transformRedemptionToFormDefaults (st : SystemConfigState) (redemption : Redemption) : RedemptionFormValues :=
  {| f_name := r_name redemption;
     f_quota_dollars := quotaUnitsToEditableAmount st (r_quota redemption);
     f_expired_time := if num_ltb (S754_zero false) (r_expired_time redemption)
                       then Some (date_of_seconds (r_expired_time redemption)) else None;
     f_count := Some (num_of_Z 1) |}.

(** The request for an edited code: the quota that was loaded unless its field was edited. *)
Definition update_request (st : SystemConfigState) (loaded : Redemption) (quotaDirty : bool) (data : RedemptionFormValues)
  : RedemptionFormData :=
  let base := transformFormDataToPayload st data in
  {| p_name := p_name base; p_quota := if quotaDirty then p_quota base else r_quota loaded;
     p_expired_time := p_expired_time base; p_count := p_count base |}.

(** A new code without a name is named after its quota when the form is submitted. *)
Definition named `{IntlEnv} (st : SystemConfigState) (isUpdate : bool) (data : RedemptionFormValues) : RedemptionFormValues :=
  if negb isUpdate && negb (truthy (trim (f_name data)))
  then Build_RedemptionFormValues (formatQuota st (parseQuotaFromDollars st (f_quota_dollars data)))
         (f_quota_dollars data) (f_expired_time data) (f_count data)
  else data.

End Redemptions.

(** ** Users *)

Module Users.

Definition DEFAULT_GROUP : jsstr := $"default".

Record User := {
  u_username : jsstr;
  u_display_name : jsstr;
  u_role : Z;
  u_quota : number;
  u_group : jsstr;
  u_remark : option jsstr;
  u_admin_permissions : option AdminPermissionMatrix
}.

Record UserFormValues := {
  f_username : jsstr;
  f_display_name : option jsstr;
  f_password : option jsstr;
  f_role : option Z;
  f_quota_dollars : option number;
  f_group : option jsstr;
  f_remark : option jsstr;
  f_admin_permissions : option AdminPermissionMatrix
}.

(** [None] for a property that is [undefined] or absent: neither is sent. *)
Record UserPayload := {
  p_username : jsstr;
  p_display_name : jsstr;
  p_password : option jsstr;
  p_role : option Z;
  p_group : option jsstr;
  p_remark : option jsstr;
  p_admin_permissions : option AdminPermissionMatrix;
  p_id : option Z
}.

Definition USER_FORM_DEFAULT_VALUES : UserFormValues :=
  {| f_username := []; f_display_name := Some []; f_password := Some []; f_role := Some ROLE_USER;
     f_quota_dollars := Some (S754_zero false); f_group := Some DEFAULT_GROUP; f_remark := Some [];
     f_admin_permissions := Some ∅ |}.

(** [text || undefined] *)
Definition text_or_undefined (text : option jsstr) : option jsstr :=
  match text with Some (c :: s) => Some (c :: s) | _ => None end.

Definition transformFormDataToPayload (data : UserFormValues) (userId : option Z) (catalog : option PermissionCatalog)
  : UserPayload :=
  let role := match userId with
              | None => match f_role data with Some 0 | None => 1 | Some r => r end
              | Some _ => default 0 (f_role data)
              end in
  {| p_username := f_username data;
     p_display_name := str_or (default [] (f_display_name data)) (f_username data);
     p_password := text_or_undefined (f_password data);
     p_role := match userId with None => Some role | Some _ => None end;
     p_group := match userId with None => None | Some _ => f_group data end;
     p_remark := match userId with None => None | Some _ => text_or_undefined (f_remark data) end;
     p_admin_permissions := if ROLE_ADMIN <=? role
                            then (λ catalog, normalizeAdminPermissions (f_admin_permissions data) catalog) <$> catalog
                            else None;
     p_id := userId |}.

Definition transformUserToFormDefaults (st : SystemConfigState) (user : User) : UserFormValues :=
  {| f_username := u_username user;
     f_display_name := Some (u_display_name user);
     f_password := Some [];
     f_role := Some (u_role user);
     f_quota_dollars := Some (quotaUnitsToDollars st (u_quota user));
     f_group := Some (str_or (u_group user) DEFAULT_GROUP);
     f_remark := Some (default [] (u_remark user));
     f_admin_permissions := Some (default ∅ (u_admin_permissions user)) |}.

Definition EMPTY_PERMISSION_CATALOG : PermissionCatalog := mkCatalog [] [].

(** What the drawer sends: nothing for a new user without a proper password; the
    empty catalog stands in for one that was not loaded. *)
Definition submitted (data : UserFormValues) (userId : option Z) (loadedCatalog : option PermissionCatalog) : option UserPayload :=
  let passwordLength := Z.of_nat (length (default [] (f_password data))) in
  if bool_decide (userId = None) && ((passwordLength <? 8) || (20 <? passwordLength)) then None
  else Some (transformFormDataToPayload data userId (Some (default EMPTY_PERMISSION_CATALOG loadedCatalog))).

End Users.
