(* ===== verification/AccountFacts.v ===== *)
(** * Forms of API keys, redemption codes and users: theorems

    When a key that is opened and saved without an edit can be saved, what is sent
    for it, and when that is what is stored ([key_saved_unedited]); a code and a
    user that are saved without an edit ([redemption_saved_unedited],
    [user_saved_unedited]); keys are created one by one until a request fails
    ([keys_created_in_order]); a catalog that was not loaded is sent as an empty
    matrix ([missing_catalog_sent_empty]). *)

From S2P Require Import Prelude JsString JsNumber NumberText Rounding JsValue JsMath OrderedMap JsDate.
From S2P Require Import AuthStore SystemConfig Currency Format CurrencyFacts AccountForms.

Local Open Scope Z_scope.
Local Open Scope js_scope.

(** ** Times *)

(** A time stamp as the backend stores it: a special value for never, or seconds
    within the range of dates. *)
Definition stamp (never : Z) (x : number) : Prop := x = num_of_Z never ∨ ∃ n, 0 < n ≤ 8640000000000 ∧ x = num_of_Z n.

Definition form_date (x : number) : option number :=
  if num_ltb (S754_zero false) x then Some (date_of_seconds x) else None.

Lemma stamp_back never x : never ≤ 0 → never = -1 ∨ never = 0 → stamp never x →
  match form_date x with Some date => seconds_of_date date | None => num_of_Z never end = x ∧
  match form_date x with Some date => is_finite date | None => true end = true.
Proof.
  intros _ Hnever [->|(n & Hn & ->)]; unfold form_date.
  - by destruct Hnever as [->| ->].
  - destruct (positive_integer n ltac:(lia)) as (-> & _). split; [by apply seconds_back|].
    unfold date_of_seconds, time_value. rewrite mul_integers by lia.
    destruct (positive_integer (n * 1000) ltac:(lia)) as (_ & -> & ->). rewrite leb_integers by lia. cbn [andb].
    rewrite to_integer_integer by lia. by apply positive_integer; lia.
Qed.

(** ** API keys *)

Lemma integer_is_integer n : 0 < n < 2 ^ 53 → is_integer (num_of_Z n) = true.
Proof.
  intros Hn. destruct (integer_form n Hn) as (m & e & -> & _ & _ & He & Em). cbn [is_integer].
  apply orb_true_iff. right. apply Z.eqb_eq. rewrite Em. apply Z.mod_mul. apply Z.pow_nonzero; lia.
Qed.

(** Comparing the size of a list with a limit. *)
Lemma size_within n max : 0 ≤ n ≤ max → 0 < max < 2 ^ 53 → num_ltb (num_of_Z max) (num_of_Z n) = false.
Proof.
  intros Hn Hm. destruct (positive_integer max ltac:(lia)) as (Hp & _ & Hf). destruct (Z.eq_dec n 0) as [->|Hn0].
  - change (num_of_Z 0) with (S754_zero false). by destruct (integer_form max ltac:(lia)) as (m & e & -> & _).
  - destruct (positive_integer n ltac:(lia)) as (_ & _ & Hfn). rewrite num_ltb_leb by (intros E; rewrite E in *; done).
    by rewrite leb_integers by lia.
Qed.

(** A list with as many different elements as elements has no duplicates. *)
Lemma os_of_list_length (l : list jsstr) : length (os_of_list l) = length l ↔ NoDup l.
Proof.
  split; [|by intros H; rewrite os_of_list_id]. intros Hl.
  assert (os_of_list l ≡ₚ l) as <-; [|apply os_of_list_NoDup]. apply submseteq_length_Permutation; [|lia].
  apply NoDup_submseteq; [apply os_of_list_NoDup|]. intros x. by rewrite elem_of_os_of_list.
Qed.

(** *** Amounts below zero *)

(** Rounding is symmetric in the sign. *)
Lemma round_opp s m e l : binary_round_aux 53 1024 (negb s) m e l = SFopp (binary_round_aux 53 1024 s m e l).
Proof.
  unfold binary_round_aux. destruct (shr_fexp _ _ _ _ _) as [mrs e']. destruct (shr_fexp _ _ _ _ _) as [mrs' e''].
  destruct (shr_m mrs'); [done| |done]. by destruct (_ <=? _).
Qed.

Lemma of_Z_opp n : 0 < n → num_of_Z (- n) = SFopp (num_of_Z n).
Proof.
  destruct n as [|p|]; [lia| |lia]. intros _. change (binary_round 53 1024 true p 0 = SFopp (binary_round 53 1024 false p 0)).
  unfold binary_round. destruct (shl_align _ _ _) as [m e]. apply (round_opp false).
Qed.

(** A positive divisor or factor keeps the sign. *)
Lemma div_opp x y : moderate y = true → num_div (SFopp x) y = SFopp (num_div x y).
Proof.
  destruct y as [| | |[] my ey]; try done. intros _. destruct x as [s|s| |s mx ex]; [by destruct s..|done|].
  unfold num_div. cbn [SFopp SFdiv]. destruct (SFdiv_core_binary _ _ _ _ _ _) as [[m e] l].
  rewrite !xorb_false_r. apply round_opp.
Qed.

Lemma mul_opp x y : moderate y = true → num_mul (SFopp x) y = SFopp (num_mul x y).
Proof.
  destruct y as [| | |[] my ey]; try done. intros _. destruct x as [s|s| |s mx ex]; [by destruct s..|done|].
  unfold num_mul. cbn [SFopp SFmul]. rewrite !xorb_false_r. apply round_opp.
Qed.

(** A quota below zero is shown as an amount below zero. *)
Lemma negative_amount st n : 0 < n < 2 ^ 48 →
  moderate (quotaPerUnit (getConfig st)) = true → rate_moderate (getDisplayMeta (getConfig st)) = true →
  num_ltb (quotaUnitsToDollars st (num_of_Z (- n))) (S754_zero false) = true.
Proof.
  intros Hn Hq Hr. assert (quotaUnitsToDollars st (num_of_Z (- n)) = SFopp (quotaUnitsToDollars st (num_of_Z n))) as ->.
  { rewrite of_Z_opp by lia. unfold quotaUnitsToDollars, getCurrencyDisplay.
    destruct (getDisplayMeta _) as [? ? r|? r|]; cbn [quotaUnitsToDisplayAmount rate_moderate] in *; [| |done];
      by rewrite div_opp, mul_opp. }
  assert (normal (quotaUnitsToDollars st (num_of_Z n))) as Hx.
  { unfold quotaUnitsToDollars, getCurrencyDisplay.
    destruct (getDisplayMeta _) as [? ? r|? r|]; cbn [rate_moderate quotaUnitsToDisplayAmount] in *.
    3:{ apply integer_exact. lia. }
    all: by apply (convert_back n _ r ltac:(lia) Hq Hr). }
  by destruct (quotaUnitsToDollars st (num_of_Z n)) as [| | |[]].
Qed.

(** A number from zero downwards. *)
Lemma not_positive n : n ≤ 0 → num_ltb (S754_zero false) (num_of_Z n) = false.
Proof.
  intros Hn. destruct (Z.eq_dec n 0) as [->|Hn0]; [done|]. replace n with (- (- n)) by lia. rewrite of_Z_opp by lia.
  destruct n as [| |p]; try lia. change (num_ltb (S754_zero false) (SFopp (binary_round 53 1024 false p 0)) = false).
  unfold binary_round. destruct (shl_align _ _ _) as [m e]. rewrite <- (round_opp false). unfold binary_round_aux.
  destruct (shr_fexp _ _ _ _ _) as [mrs e']. destruct (shr_fexp _ _ _ _ _) as [mrs' e''].
  destruct (shr_m mrs'); [done| |done]. by destruct (_ <=? _).
Qed.

(** *** Lists of names *)

(** Leaving the empty words out changes a text with separators unless there are none. *)
Lemma join_length c (l : list jsstr) : l ≠ [] → S (length (join [c] l)) = (sum_list (length <$> l) + length l)%nat.
Proof.
  induction l as [|w [|w' l] IH]; [done|by intros _; cbn; lia|]. intros _. specialize (IH ltac:(done)).
  change (join [c] (w :: w' :: l)) with (w ++ [c] ++ join [c] (w' :: l)).
  rewrite !length_app. cbn [fmap list_fmap sum_list_with sum_list length] in *. unfold id in *. cbn in *. lia.
Qed.

Lemma words_kept c (s : jsstr) : s ≠ [] → join [c] (List.filter truthy (split c s)) = s ↔ Forall (λ w, w ≠ []) (split c s).
Proof.
  intros Hs. assert (∀ l : list jsstr, sum_list (length <$> List.filter truthy l) = sum_list (length <$> l) ∧
    (length (List.filter truthy l) ≤ length l)%nat ∧ (length (List.filter truthy l) = length l → Forall (λ w, w ≠ []) l)) as Hf.
  { induction l as [|w l (H1 & H2 & H3)]; [done|]. destruct w as [|d w]; cbn in *; unfold id in *; cbn in *; [split_and!; try lia|].
    split_and!; [lia..|]. intros H. constructor; [done|]. apply H3. lia. }
  split.
  - intros E. destruct (Hf (split c s)) as (H1 & H2 & H3). apply H3. pose proof (join_split c s) as Ej.
    assert (List.filter truthy (split c s) ≠ []) as Hne by (by intros E'; rewrite E' in E).
    pose proof (join_length c _ Hne) as Ha. pose proof (join_length c _ (split_ne c s)) as Hb. rewrite E in Ha. rewrite Ej in Hb. lia.
  - intros H. rewrite filter_all; [apply join_split|]. eapply Forall_impl; [exact H|]. intros w Hw. by apply truthy_ne.
Qed.

(** Choosing at most [n] elements keeps a list that is chosen whole and not longer. *)
Lemma take_filter_id {A} (P : A → Prop) `{∀ x, Decision (P x)} n (l : list A) :
  take n (filter P l) = l ↔ Forall P l ∧ (length l ≤ n)%nat.
Proof.
  split.
  - intros E. assert (Forall P l) as Ha.
    { rewrite <- E. apply Forall_take, Forall_forall. intros x Hx. by apply list_elem_of_filter in Hx as [? _]. }
    split; [done|]. apply (f_equal length) in E. rewrite length_take in E. lia.
  - intros [Ha Hl]. assert (filter P l = l) as ->; [|by apply take_ge]. clear Hl. induction Ha as [|x l Hx _ IH]; [done|].
    by rewrite filter_cons_True, IH.
Qed.

Lemma js_filter {A} (f : A → bool) (P : A → Prop) `{∀ x, Decision (P x)} (l : list A) :
  (∀ x, f x = true ↔ P x) → List.filter f l = filter P l.
Proof.
  intros Hf. induction l as [|x l IH]; [done|]. cbn [List.filter]. rewrite filter_cons, IH.
  destruct (f x) eqn:E; destruct (decide (P x)) as [Hp|Hp]; try done; [|apply Hf in Hp; congruence].
  by destruct Hp; apply Hf.
Qed.

Module KeyFacts.
Import Keys.

(** What a key stores of the fields of the form. *)
Definition key_settings (k : ApiKey) : ApiKeyFormData :=
  {| p_name := k_name k;
     p_remain_quota := k_remain_quota k;
     p_expired_time := k_expired_time k;
     p_unlimited_quota := k_unlimited_quota k;
     p_model_limits_enabled := k_model_limits_enabled k;
     p_model_limits := default [] (k_model_limits k);
     p_allow_ips := default [] (k_allow_ips k);
     p_group := default [] (k_group k);
     p_auto_groups := default [] (k_auto_groups k);
     p_cross_group_retry := k_cross_group_retry k |}.

(** Numbers as the backend stores them: a whole quota of less than 2^48 units in
    size, below zero for a key that was overdrawn, and a time within the range of
    dates (or one that stands for never). *)
Record key_wf (k : ApiKey) : Prop := {
  kw_quota : k_unlimited_quota k = false → ∃ n, - 2 ^ 48 < n < 2 ^ 48 ∧ k_remain_quota k = num_of_Z n;
  kw_time : ∃ n, n ≤ 8640000000000 ∧ k_expired_time k = num_of_Z n
}.

(** The groups of the answer: a name, and [Some false] for one that is switched off. *)
Notation group_answer := (list (jsstr * option bool)).

(** The group a key ends up with: its own unless there are groups and it is none of them. *)
Definition group_after (names : list jsstr) (group : jsstr) : jsstr :=
  match names with
  | [] => group
  | first :: _ => if decide (group = [] ∨ group ∈ names) then group else if decide ($"default" ∈ names) then $"default" else first
  end.

Definition stored (k : ApiKey) : list jsstr := default [] (k_auto_groups k).

(** A group a key may be routed to: offered, not switched off, and not [auto] itself. *)
Definition routable (data : group_answer) (group : jsstr) : Prop :=
  group ≠ $"auto" ∧ Exists (λ e, e.1 = group ∧ e.2 ≠ Some false) data.

#[local] Instance routable_dec data group : Decision (routable data group).
Proof. unfold routable. apply _. Defined.

(** The auto groups that are left of those a key stores. *)
Definition usable_groups (data : group_answer) (max : Z) (k : ApiKey) : list jsstr := take (Z.to_nat max) (filter (routable data) (stored k)).

Definition is_auto_key (data : group_answer) (k : ApiKey) : Prop := group_after data.*1 (default [] (k_group k)) = $"auto".

#[local] Instance is_auto_key_dec data k : Decision (is_auto_key data k).
Proof. unfold is_auto_key. apply _. Defined.

(** The form of the key passes the schema as it was opened. *)
Record saveable (data : group_answer) (max : Z) (k : ApiKey) : Prop := {
  sv_name : k_name k ≠ [];
  sv_quota : k_unlimited_quota k = false → num_ltb (k_remain_quota k) (S754_zero false) = false;
  sv_auto : is_auto_key data k → NoDup (usable_groups data max k) ∧ (stored k ≠ [] → usable_groups data max k ≠ [])
}.

(** What is sent for it. *)
Definition resaved (data : group_answer) (max : Z) (k : ApiKey) : ApiKeyFormData :=
  let limits := List.filter truthy (split 44 (default [] (k_model_limits k))) in
  let auto := bool_decide (is_auto_key data k) in
  {| p_name := k_name k;
     p_remain_quota := if k_unlimited_quota k then S754_zero false else k_remain_quota k;
     p_expired_time := if num_ltb (S754_zero false) (k_expired_time k) then k_expired_time k else num_of_Z (-1);
     p_unlimited_quota := k_unlimited_quota k;
     p_model_limits_enabled := bool_decide (limits ≠ []);
     p_model_limits := join $"," limits;
     p_allow_ips := default [] (k_allow_ips k);
     p_group := group_after data.*1 (default [] (k_group k));
     p_auto_groups := if auto then usable_groups data max k else [];
     p_cross_group_retry := auto && k_cross_group_retry k |}.

(** Nothing of it differs from what is stored. *)
Record undisturbed (data : group_answer) (max : Z) (k : ApiKey) : Prop := {
  ud_quota : k_unlimited_quota k = true → k_remain_quota k = S754_zero false;
  ud_time : num_ltb (S754_zero false) (k_expired_time k) = false → k_expired_time k = num_of_Z (-1);
  ud_limits : default [] (k_model_limits k) ≠ [] → Forall (λ w, w ≠ []) (split 44 (default [] (k_model_limits k)));
  ud_enabled : k_model_limits_enabled k = true ↔ default [] (k_model_limits k) ≠ [];
  ud_group : data ≠ [] → default [] (k_group k) ≠ [] → default [] (k_group k) ∈ data.*1;
  ud_auto : default [] (k_group k) = $"auto" → Forall (routable data) (stored k) ∧ Z.of_nat (length (stored k)) ≤ max;
  ud_other : default [] (k_group k) ≠ $"auto" → stored k = [] ∧ k_cross_group_retry k = false
}.

Section Saved.
Context (st : SystemConfigState) (data : group_answer) (max : Z) (k : ApiKey).
Context (Hq : moderate (quotaPerUnit (getConfig st)) = true) (Hr : rate_moderate (getDisplayMeta (getConfig st)) = true).
Context (Hmax : 0 < max < 2 ^ 53) (Hw : key_wf k).

Let form := opened_key st data max k.
Let loaded := transformApiKeyToFormDefaults st (availableAutoGroupNames (group_options data)) max k.

Lemma option_names : (o_value <$> group_options data) = data.*1.
Proof using. unfold group_options. rewrite <- list_fmap_compose. done. Qed.

Lemma loaded_group : f_group loaded = Some (default [] (k_group k)).
Proof using. unfold loaded. cbn [transformApiKeyToFormDefaults f_group]. by destruct (default [] (k_group k)). Qed.

(** The correction of the group leaves the other fields alone, and those of the
    auto groups too when the key is routed by [auto]. *)
Lemma opened_fields :
  f_name form = k_name k ∧ f_remain_quota_dollars form = f_remain_quota_dollars loaded ∧ f_expired_time form = form_date (k_expired_time k) ∧
  f_unlimited_quota form = k_unlimited_quota k ∧ f_model_limits form = f_model_limits loaded ∧
  f_allow_ips form = Some (default [] (k_allow_ips k)) ∧ f_tokenCount form = Some (num_of_Z 1) ∧
  f_group form = Some (group_after data.*1 (default [] (k_group k))) ∧
  (is_auto_key data k → f_auto_groups_mode form = f_auto_groups_mode loaded ∧ f_auto_groups form = f_auto_groups loaded ∧
     f_cross_group_retry form = Some (k_cross_group_retry k)).
Proof using Hmax.
  unfold form, opened_key. cbv zeta. fold loaded. rewrite option_names. unfold correct_group, is_auto_key, group_after.
  rewrite loaded_group. cbn [default from_option id]. destruct data.*1 as [|first names] eqn:En; [by rewrite loaded_group|].
  set (g := default [] (k_group k)). destruct (decide (g = [] ∨ g ∈ first :: names)) as [Hg|Hg].
  - assert (truthy g && negb (bool_decide (g ∈ first :: names)) = false) as ->; [|by rewrite loaded_group].
    destruct Hg as [->|Hg]; [done|]. by rewrite bool_decide_eq_true_2, andb_false_r.
  - assert (truthy g = true ∧ g ∉ first :: names) as [Ht Hn] by (rewrite truthy_ne; naive_solver).
    rewrite Ht, (bool_decide_eq_false_2 _ Hn). cbn [negb andb]. cbn [f_name f_remain_quota_dollars f_expired_time f_unlimited_quota
      f_model_limits f_allow_ips f_tokenCount f_group f_auto_groups_mode f_auto_groups f_cross_group_retry].
    assert ((if bool_decide ($"default" ∈ first :: names) then $"default" else first) ∈ first :: names) as Hin.
    { case_bool_decide; [done|]. left. }
    rewrite decide_bool_decide. split_and!; try done. intros Ha. rewrite Ha in Hin.
    rewrite (bool_decide_eq_false_2 (g = $"auto")) by (intros ->; done). done.
Qed.

Lemma is_auto_form : is_auto form = bool_decide (is_auto_key data k).
Proof using Hmax.
  unfold is_auto, is_auto_key. rewrite (proj1 (proj2 (proj2 (proj2 (proj2 (proj2 (proj2 (proj2 opened_fields)))))))).
  apply bool_decide_ext. split; [by intros [= ->]|by intros ->].
Qed.

(** The auto groups in the form, for a key that is routed by [auto]. *)
Lemma loaded_groups : f_auto_groups loaded = usable_groups data max k.
Proof using Hmax.
  unfold loaded, usable_groups. cbn [transformApiKeyToFormDefaults f_auto_groups]. rewrite Z.max_r by lia. f_equal. apply js_filter.
  intros g. rewrite bool_decide_eq_true. unfold availableAutoGroupNames, routable, group_options.
  rewrite list_elem_of_fmap, Exists_exists. setoid_rewrite elem_of_js_filter. setoid_rewrite list_elem_of_fmap.
  setoid_rewrite andb_true_iff. setoid_rewrite negb_true_iff. setoid_rewrite bool_decide_eq_false. split.
  - intros (o & -> & (e & -> & He) & Ha & Hd). cbn [o_value o_disabled] in *. rewrite bool_decide_eq_false in Hd. split; [done|]. by exists e.
  - intros [Ha (e & He & <- & Hd)]. eexists. split; [|split; [by exists e|]]; [done|]. cbn [o_value o_disabled].
    by rewrite bool_decide_eq_false_2.
Qed.

(** The amount in the form of a quota from zero upwards: sent back as the stored
    quota, and acceptable; an overdrawn quota is refused. *)
Lemma form_quota : k_unlimited_quota k = false →
  ∃ x, f_remain_quota_dollars form = Some x ∧
    num_ltb x (S754_zero false) = num_ltb (k_remain_quota k) (S754_zero false) ∧
    (num_ltb x (S754_zero false) = false → is_finite x = true ∧ parseQuotaFromDollars st (or_zero (Some x)) = k_remain_quota k).
Proof using Hq Hr Hw Hmax.
  intros Hu. destruct (kw_quota _ Hw Hu) as (n & Hn & E). destruct opened_fields as (_ & -> & _).
  unfold loaded. cbn [transformApiKeyToFormDefaults f_remain_quota_dollars]. rewrite Hu, E. eexists. split; [done|].
  destruct (Z.lt_ge_cases n 0) as [Hneg|Hpos].
  - replace n with (- (- n)) by lia. rewrite negative_amount by (done || lia). split; [|done].
    rewrite of_Z_opp by lia. destruct (integer_form (- n) ltac:(lia)) as (m & e & -> & _). done.
  - assert (0 ≤ n < 2 ^ 48) as Hn' by lia. pose proof (quota_back st n Hn' Hq Hr) as Hb. cbn [or_zero].
    assert (num_ltb (num_of_Z n) (S754_zero false) = false) as ->.
    { destruct (Z.eq_dec n 0) as [->|]; [done|]. by destruct (integer_form n ltac:(lia)) as (m & e & -> & _). }
    destruct (quota_amount st n Hn' Hq Hr) as [Ha|Ha]; [rewrite Ha in *; done|].
    destruct (normal_finite _ Ha) as (H1 & H2 & H3). by rewrite H2.
Qed.

Lemma form_time : match f_expired_time form with Some date => is_finite date | None => true end = true ∧
  match f_expired_time form with Some date => seconds_of_date date | None => num_of_Z (-1) end =
  if num_ltb (S754_zero false) (k_expired_time k) then k_expired_time k else num_of_Z (-1).
Proof using Hw Hmax.
  destruct opened_fields as (_ & _ & -> & _). destruct (kw_time _ Hw) as (n & Hn & E). rewrite E.
  destruct (Z.lt_ge_cases 0 n) as [Hpos|Hneg].
  - destruct (stamp_back (-1) (num_of_Z n) ltac:(lia) ltac:(by left)) as [H1 H2]; [right; eauto|]. split; [done|].
    by rewrite H1, (proj1 (positive_integer n ltac:(lia))).
  - unfold form_date. by rewrite not_positive by lia.
Qed.

Lemma form_limits : f_model_limits form = List.filter truthy (split 44 (default [] (k_model_limits k))).
Proof using Hmax.
  destruct opened_fields as (_ & _ & _ & _ & -> & _). unfold loaded. cbn [transformApiKeyToFormDefaults f_model_limits].
  by destruct (default [] (k_model_limits k)).
Qed.

(** The issues that concern the auto groups. *)
Lemma auto_issues (mode : AutoGroupsMode) (l : list jsstr) : Z.of_nat (length l) ≤ max →
  (if bool_decide (mode = Custom) && bool_decide (length l = 0%nat)
   then [($"auto_groups", $"Select at least one Auto group or restore global Auto.")] else [])
  ++ (if num_ltb (autoGroupLimit (num_of_Z max)) (num_of_Z (Z.of_nat (length l)))
      then [($"auto_groups", $"Select at most {{max}} Auto groups")] else [])
  ++ (if negb (bool_decide (length (os_of_list l) = length l))
      then [($"auto_groups", $"Auto groups must not contain duplicates")] else []) = [] ↔ NoDup l ∧ (mode = Custom → l ≠ []).
Proof using Hmax.
  intros Hl. assert (autoGroupLimit (num_of_Z max) = num_of_Z max) as ->.
  { unfold autoGroupLimit. destruct (positive_integer max ltac:(lia)) as (-> & _). by rewrite integer_is_integer. }
  rewrite size_within, (bool_decide_ext _ _ (os_of_list_length l)) by lia.
  destruct (decide (NoDup l)) as [Hn|Hn]; [rewrite (bool_decide_eq_true_2 _ Hn)|rewrite (bool_decide_eq_false_2 _ Hn)].
  - cbn [negb app]. rewrite app_nil_r. destruct mode.
    + rewrite bool_decide_eq_false_2 by done. by split.
    + rewrite bool_decide_eq_true_2 by done. destruct l; [|by split]. split; [done|]. intros [_ H]. by destruct H.
  - split; [|by intros [H _]]. intros E. apply app_eq_nil in E as [_ E]. by apply app_eq_nil in E as [_ E].
Qed.

Lemma form_accepted : getApiKeyFormSchema (num_of_Z max) form = true ↔ saveable data max k.
Proof using Hq Hr Hw Hmax.
  destruct form_time as [Ht _]. destruct opened_fields as (En & _ & _ & Eu & _ & _ & Ec & _ & Ea).
  unfold getApiKeyFormSchema. rewrite Ht, En, Ec, !andb_true_iff, bool_decide_eq_true, truthy_ne. unfold refine_issues. cbv zeta.
  rewrite is_auto_form, Eu.
  assert (∀ A B : list (jsstr * jsstr), A ++ B = [] ↔ A = [] ∧ B = []) as Happ
    by (intros [] []; cbn; naive_solver).
  rewrite Happ.
  assert ((optional_number (λ _, true) (f_remain_quota_dollars form) = true ∧
     (if k_unlimited_quota k then []
      else match f_remain_quota_dollars form with
      | Some x => if num_ltb x (S754_zero false) then [($"remain_quota_dollars", $"Quota must be zero or greater")] else []
      | None => [($"remain_quota_dollars", $"Quota must be zero or greater")]
      end) = []) ↔ (k_unlimited_quota k = false → num_ltb (k_remain_quota k) (S754_zero false) = false)) as Hquota.
  { destruct (k_unlimited_quota k) eqn:Hu.
    - destruct opened_fields as (_ & -> & _). unfold loaded. cbn [transformApiKeyToFormDefaults f_remain_quota_dollars]. by rewrite Hu.
    - destruct (form_quota Hu) as (x & -> & Ex & Hx). rewrite <- Ex. cbn [optional_number]. destruct (num_ltb x _).
      + split; [by intros [_ ?]|]. intros H. by specialize (H eq_refl).
      + destruct (Hx eq_refl) as [-> _]. done. }
  assert (((if bool_decide (is_auto_key data k) then
       (if bool_decide (f_auto_groups_mode form = Custom) && bool_decide (length (f_auto_groups form) = 0%nat)
        then [($"auto_groups", $"Select at least one Auto group or restore global Auto.")] else [])
       ++ (if num_ltb (autoGroupLimit (num_of_Z max)) (num_of_Z (Z.of_nat (length (f_auto_groups form))))
           then [($"auto_groups", $"Select at most {{max}} Auto groups")] else [])
       ++ (if negb (bool_decide (length (os_of_list (f_auto_groups form)) = length (f_auto_groups form)))
           then [($"auto_groups", $"Auto groups must not contain duplicates")] else [])
     else []) = []) ↔ (is_auto_key data k → NoDup (usable_groups data max k) ∧ (stored k ≠ [] → usable_groups data max k ≠ []))) as Hauto.
  { case_bool_decide as Ha; [|done]. destruct (Ea Ha) as (-> & -> & _). rewrite loaded_groups.
    rewrite auto_issues by (unfold usable_groups; rewrite length_take; lia). unfold loaded. cbn [transformApiKeyToFormDefaults f_auto_groups_mode].
    unfold stored. destruct (default [] (k_auto_groups k)); naive_solver. }
  rewrite Hauto. split.
  - intros ((((H1 & H2) & _) & _) & H3 & H4). constructor; [done| |done]. by apply Hquota.
  - intros [H1 H2 H3]. apply Hquota in H2 as [H2 H4]. done.
Qed.

Lemma form_payload : saveable data max k → transformFormDataToPayload st form = resaved data max k.
Proof using Hq Hr Hw Hmax.
  intros Hs. destruct form_time as [_ Ht]. destruct opened_fields as (En & _ & _ & Eu & _ & Ei & _ & Eg & Ea).
  unfold transformFormDataToPayload, resaved. cbv zeta. rewrite Ht, En, Eu, Ei, Eg, is_auto_form, form_limits.
  cbn [default from_option id]. f_equal.
  - destruct (k_unlimited_quota k) eqn:Hu; [done|]. destruct (form_quota Hu) as (x & -> & Ex & Hx). apply Hx. rewrite Ex. by apply (sv_quota _ _ _ Hs).
  - by destruct (List.filter _ _).
  - case_bool_decide as Ha; cbn [andb]; [|done]. destruct (Ea Ha) as (-> & -> & _). rewrite loaded_groups.
    unfold loaded. cbn [transformApiKeyToFormDefaults f_auto_groups_mode]. fold (stored k). destruct (stored k) eqn:E; [|done].
    unfold usable_groups. by rewrite E, filter_nil, take_nil.
  - case_bool_decide as Ha; [|done]. by destruct (Ea Ha) as (_ & _ & ->).
Qed.
End Saved.

(** A group that is none of those there are is replaced by another one. *)
Lemma group_kept names g : group_after names g = g ↔ (names ≠ [] → g ≠ [] → g ∈ names).
Proof.
  destruct names as [|first names]; [done|]. cbn [group_after]. destruct (decide (g = [] ∨ g ∈ first :: names)) as [Hg|Hg]; [naive_solver|].
  split.
  - intros E. exfalso. apply Hg. right. rewrite <- E. destruct (decide _); [done|left].
  - intros H. destruct Hg. destruct (decide (g = [])); [by left|]. right. by apply H.
Qed.

(** What is sent is what is stored exactly when nothing of it was disturbed. *)
Lemma resaved_same data max k : 0 < max → resaved data max k = key_settings k ↔ undisturbed data max k.
Proof.
  intros Hmax. set (g := default [] (k_group k)).
  assert (∀ limits : jsstr, join $"," (List.filter truthy (split 44 limits)) = limits ↔ (limits ≠ [] → Forall (λ w, w ≠ []) (split 44 limits))) as Hl.
  { intros limits. destruct limits as [|c s]; [done|]. rewrite (words_kept 44 (c :: s)) by done. naive_solver. }
  assert (∀ limits : jsstr, (limits ≠ [] → Forall (λ w, w ≠ []) (split 44 limits)) → List.filter truthy (split 44 limits) = [] ↔ limits = []) as Hn.
  { intros limits H. pose proof (proj2 (Hl _) H) as Hj. clear H. split; [|by intros ->]. intros E. by rewrite E in Hj. }
  assert (data.*1 ≠ [] ↔ data ≠ []) as Hd by (destruct data; naive_solver).
  split.
  - intros E. pose proof (f_equal p_remain_quota E) as E1. pose proof (f_equal p_expired_time E) as E2.
    pose proof (f_equal p_model_limits_enabled E) as E3. pose proof (f_equal p_model_limits E) as E4.
    pose proof (f_equal p_group E) as E5. pose proof (f_equal p_auto_groups E) as E6. pose proof (f_equal p_cross_group_retry E) as E7.
    cbn [resaved key_settings p_remain_quota p_expired_time p_model_limits_enabled p_model_limits p_group p_auto_groups p_cross_group_retry] in *.
    clear E. pose proof (proj1 (Hl _) E4) as Hlim. clear E4. pose proof (Hn _ Hlim) as Hn'. fold g in E5.
    assert (is_auto_key data k ↔ g = $"auto") as Hauto by (unfold is_auto_key; fold g; by rewrite E5).
    pose proof (proj1 (group_kept _ _) E5) as Hg. constructor; fold g.
    + intros Hu. by rewrite Hu in E1.
    + intros Ht. by rewrite Ht in E2.
    + done.
    + rewrite <- E3, bool_decide_eq_true. naive_solver.
    + intros H. by apply Hg, Hd.
    + intros Ha. rewrite bool_decide_eq_true_2 in E6 by (by apply Hauto). unfold usable_groups in E6. fold (stored k) in E6. apply take_filter_id in E6 as [H1 H2].
      split; [done|lia].
    + intros Ha. by rewrite bool_decide_eq_false_2 in E6, E7 by (by rewrite Hauto).
  - intros [U1 U2 U3 U4 U5 U6 U7]. fold g in U5, U6, U7. assert (group_after data.*1 g = g) as Eg by (apply group_kept; rewrite Hd; done).
    assert (is_auto_key data k ↔ g = $"auto") as Hauto by (unfold is_auto_key; fold g; by rewrite Eg).
    unfold resaved, key_settings. cbv zeta. fold g. rewrite Eg, (proj2 (Hl _) U3). f_equal.
    + destruct (k_unlimited_quota k); [by rewrite U1|done].
    + destruct (num_ltb _ _); [done|by rewrite U2].
    + pose proof (Hn _ U3) as Hn'. destruct (k_model_limits_enabled k).
      * apply bool_decide_eq_true_2. rewrite Hn'. by apply U4.
      * apply bool_decide_eq_false_2. rewrite Hn'. intros H. by apply U4 in H.
    + fold (stored k). case_bool_decide as Ha; rewrite Hauto in Ha; [|by destruct (U7 Ha)]. destruct (U6 Ha) as [H1 H2]. unfold usable_groups. apply take_filter_id.
      split; [done|lia].
    + case_bool_decide as Ha; rewrite Hauto in Ha; [done|]. by destruct (U7 Ha) as [_ ->].
Qed.

(** C22: what becomes of an API key that is opened in the drawer and saved without
    an edit, under a display currency of ordinary size and for a whole quota of
    less than 2^48 units in size.  The schema accepts the opened form if and only
    if the key has a name, its quota is unlimited or not below zero, and, when it
    is routed by [auto], the auto groups that are left to it have no duplicates
    and are not none out of some.  The request then carries the stored name,
    quota (through display amounts and back, without a rounding error), expiry
    (through a date and back) and addresses; the model limits without empty
    names, switched on whenever there are any; the group, replaced by [default]
    or the first one when it is gone; and the auto groups that are still
    available, up to the limit, and the retry switch only under [auto].  That is
    what is stored, in every field, if and only if nothing of it was disturbed: no
    group was taken away or switched off, the limits are on exactly when there are
    any and have no empty name, an unlimited key has no quota, and auto groups
    and retry are set only under [auto]. *)
Theorem key_saved_unedited (st : SystemConfigState) (data : group_answer) (max : Z) (k : ApiKey) :
  moderate (quotaPerUnit (getConfig st)) = true → rate_moderate (getDisplayMeta (getConfig st)) = true →
  0 < max < 2 ^ 53 → key_wf k →
  let form := opened_key st data max k in
  (getApiKeyFormSchema (num_of_Z max) form = true ↔ saveable data max k) ∧
  (saveable data max k → transformFormDataToPayload st form = resaved data max k) ∧
  (resaved data max k = key_settings k ↔ undisturbed data max k).
Proof. intros Hq Hr Hmax Hw. split_and!; [by apply form_accepted|by apply form_payload|apply resaved_same; lia]. Qed.

Definition sample_key : ApiKey :=
  {| k_name := $"build"; k_remain_quota := num_of_Z 1234567; k_unlimited_quota := false; k_expired_time := num_of_Z 1893456000;
     k_group := Some $"auto"; k_auto_groups := Some [$"vip"; $"default"]; k_cross_group_retry := true;
     k_model_limits_enabled := true; k_model_limits := Some $"gpt-4o,o3"; k_allow_ips := None |}.

Definition sample_groups : group_answer := [($"auto", None); ($"default", None); ($"vip", Some true); ($"svip", Some false)].

(** The key is sent back as it is stored. *)
Lemma key_saved_unedited_witness :
  getApiKeyFormSchema (num_of_Z 5) (opened_key (sample_state "CNY") sample_groups 5 sample_key) = true ∧
  transformFormDataToPayload (sample_state "CNY") (opened_key (sample_state "CNY") sample_groups 5 sample_key) = key_settings sample_key.
Proof.
  destruct (key_saved_unedited (sample_state "CNY") sample_groups 5 sample_key) as (H1 & H2 & H3); [vm_compute; reflexivity..|lia| |].
  - constructor; [intros _; exists 1234567; split; [lia|reflexivity]|exists 1893456000; split; [lia|reflexivity]].
  - assert (saveable sample_groups 5 sample_key) as Hs.
    { constructor; [done|intros _; vm_compute; reflexivity|]. intros _.
      split; [|intros _]; apply (bool_decide_unpack _); vm_compute; exact I. }
    split; [by apply H1|]. rewrite (H2 Hs). apply H3. constructor.
    + done.
    + intros H. vm_compute in H. discriminate.
    + intros _. apply (bool_decide_unpack _). vm_compute. exact I.
    + split; [intros _; apply (bool_decide_unpack _); vm_compute; exact I|done].
    + intros _ _. apply (bool_decide_unpack _). vm_compute. exact I.
    + intros _. split; [apply (bool_decide_unpack _); vm_compute; exact I|vm_compute; discriminate].
    + intros H. exfalso. by apply H.
Defined.

(** An unedited save switches limits on that were off, and a key all of whose own
    auto groups were taken away cannot be saved. *)
Definition with_limits (enabled : bool) (limits : jsstr) : ApiKey :=
  {| k_name := $"build"; k_remain_quota := num_of_Z 10; k_unlimited_quota := false; k_expired_time := num_of_Z (-1);
     k_group := Some $"default"; k_auto_groups := None; k_cross_group_retry := false;
     k_model_limits_enabled := enabled; k_model_limits := Some limits; k_allow_ips := None |}.

Definition with_routes (routes : list jsstr) : ApiKey :=
  {| k_name := $"build"; k_remain_quota := num_of_Z 10; k_unlimited_quota := false; k_expired_time := num_of_Z (-1);
     k_group := Some $"auto"; k_auto_groups := Some routes; k_cross_group_retry := false;
     k_model_limits_enabled := false; k_model_limits := None; k_allow_ips := None |}.

Example disabled_limits_switched_on :
  p_model_limits_enabled (transformFormDataToPayload (sample_state "USD")
    (opened_key (sample_state "USD") sample_groups 5 (with_limits false $"o3"))) = true.
Proof. vm_compute. reflexivity. Qed.

Example revoked_routes :
  let form routes := opened_key (sample_state "USD") sample_groups 5 (with_routes routes) in
  p_auto_groups (transformFormDataToPayload (sample_state "USD") (form [$"svip"; $"vip"])) = [$"vip"] ∧
  getApiKeyFormSchema (num_of_Z 5) (form [$"svip"]) = false.
Proof. vm_compute. done. Qed.

(** *** Creating keys *)

Lemma ltb_integers i n : 0 ≤ i → 0 < n < 2 ^ 53 → i < 2 ^ 53 → num_ltb (num_of_Z i) (num_of_Z n) = (i <? n).
Proof.
  intros Hi Hn Hi'. destruct (Z.ltb_spec i n) as [Hlt|Hge].
  - destruct (Z.eq_dec i 0) as [->|Hi0]; [by apply positive_integer|].
    destruct (positive_integer i ltac:(lia)) as (_ & _ & Hfi). destruct (positive_integer n ltac:(lia)) as (_ & _ & Hfn).
    destruct (num_leb (num_of_Z n) (num_of_Z i)) eqn:E; [|rewrite num_ltb_leb by (intros H; rewrite H in *; done); by rewrite E].
    exfalso. pose proof (leb_integers i n ltac:(lia) ltac:(lia) ltac:(lia)) as E'.
    destruct (integer_form i ltac:(lia)) as (mi & ei & Ei & _ & Hmi & Hei & Emi).
    destruct (integer_form n ltac:(lia)) as (mn & en & En & _ & Hmn & Hen & Emn). rewrite Ei, En in *.
    unfold num_leb, SFleb, SFcompare in E, E'. destruct (Z.compare_spec en ei) as [<-|Hlt'|Hgt'].
    + rewrite Z.compare_refl in E'. change (Pos.compare_cont Eq ?a ?b) with (a ?= b)%positive in *.
      assert (mn = mi) as -> by (destruct (Pos.compare_spec mn mi), (Pos.compare_spec mi mn); try done; lia). nia.
    + rewrite (proj2 (Z.compare_gt_iff ei en)) in E' by lia. done.
    + done.
  - by apply size_within; lia.
Qed.

(** How a batch ended after the first [m] keys were created. *)
Definition batch_end (name : jsstr) (suffix : Z → jsstr) (answers : Z → Answer) (n m : Z) (b : BatchState) : Prop :=
  b_created b = m ∧
  if m <? n
  then answers m ≠ Created ∧ b_names b = (batch_name name suffix <$> seqZ 0 (m + 1)) ∧
       b_refused b = bool_decide (answers m = Refused) ∧ b_thrown b = bool_decide (answers m = Thrown)
  else b_names b = (batch_name name suffix <$> seqZ 0 n) ∧ b_refused b = false ∧ b_thrown b = false.

Lemma batch_from fuel name suffix answers n i : 0 ≤ i ≤ n → 0 < n < 2 ^ 53 → n - i < Z.of_nat fuel →
  ∃ m b, i ≤ m ≤ n ∧ (∀ j, i ≤ j < m → answers j = Created) ∧
    create_loop fuel name suffix answers (num_of_Z n) i (Build_BatchState (batch_name name suffix <$> seqZ 0 i) i false false) = Some b ∧
    batch_end name suffix answers n m b.
Proof.
  revert i. induction fuel as [|fuel IH]; intros i Hi Hn Hf; [lia|]. cbn [create_loop]. rewrite ltb_integers by lia.
  assert (0 ≤ i → (batch_name name suffix <$> seqZ 0 i) ++ [batch_name name suffix i] = (batch_name name suffix <$> seqZ 0 (i + 1))) as Hs.
  { intros H0. rewrite seqZ_app, fmap_app by lia. done. }
  destruct (Z.ltb_spec i n) as [Hlt|Hge].
  - cbn [b_names b_created b_refused b_thrown]. rewrite Hs by lia. destruct (answers i) eqn:Ea.
    + destruct (IH (i + 1) ltac:(lia) Hn ltac:(lia)) as (m & b & Hm & Hall & Hb & He). exists m, b. split; [lia|]. split; [|done].
      intros j Hj. destruct (Z.eq_dec j i) as [->|]; [done|]. apply Hall. lia.
    + eexists i, _. split; [lia|]. split; [lia|]. split; [done|]. unfold batch_end. cbn [b_names b_created b_refused b_thrown].
      rewrite (proj2 (Z.ltb_lt i n)) by lia. by rewrite Ea.
    + eexists i, _. split; [lia|]. split; [lia|]. split; [done|]. unfold batch_end. cbn [b_names b_created b_refused b_thrown].
      rewrite (proj2 (Z.ltb_lt i n)) by lia. by rewrite Ea.
  - exists i, (Build_BatchState (batch_name name suffix <$> seqZ 0 i) i false false). split; [lia|]. split; [lia|]. split; [done|].
    unfold batch_end. cbn [b_names b_created b_refused b_thrown]. rewrite (proj2 (Z.ltb_ge i n)) by lia. by replace n with i by lia.
Qed.

(** Keys are created one by one, in order: the loop ends within one iteration
    more than keys were asked for, every key before the first failure was created,
    nothing is requested after it, and the first key has the name as it was
    entered. *)
Theorem keys_created_in_order (data : ApiKeyFormValues) (suffix : Z → jsstr) (answers : Z → Answer) (n : Z) :
  0 < n < 2 ^ 53 → f_tokenCount data = Some (num_of_Z n) → f_name data ≠ [] →
  ∃ m b, 0 ≤ m ≤ n ∧ (∀ i, 0 ≤ i < m → answers i = Created) ∧
    create_keys (S (Z.to_nat n)) suffix answers data = Some b ∧ batch_end (f_name data) suffix answers n m b ∧
    head (b_names b) = Some (f_name data) ∧ (batch_closes b = true ↔ 0 < m ∧ (m < n → answers m = Refused)).
Proof.
  intros Hn Ec Hname. destruct (batch_from (S (Z.to_nat n)) (f_name data) suffix answers n 0 ltac:(lia) Hn ltac:(lia))
    as (m & b & Hm & Hall & Hb & He). exists m, b. split; [lia|]. split; [exact Hall|]. split.
  { unfold create_keys. rewrite Ec. assert (num_truthy (num_of_Z n) = true) as ->; [|exact Hb].
    by destruct (integer_form n ltac:(lia)) as (? & ? & -> & _). }
  split; [done|]. destruct He as [Hc He]. assert (∀ k, 0 < k → head (batch_name (f_name data) suffix <$> seqZ 0 k) = Some (f_name data)) as Hh.
  { intros k Hk. rewrite seqZ_cons by lia. cbn. unfold batch_name. apply truthy_ne in Hname. by rewrite Hname. }
  unfold batch_closes. rewrite Hc, andb_true_iff, negb_true_iff, Z.ltb_lt. destruct (Z.ltb_spec m n) as [Hlt|Hge].
  - destruct He as (Hne & Hnames & _ & Ht). rewrite Hnames, Ht, bool_decide_eq_false. split; [apply Hh; lia|].
    split; [intros [H1 H2]|intros [H1 H2]; by rewrite H2].
    split; [done|]. intros _. by destruct (answers m).
  - destruct He as (Hnames & _ & Ht). rewrite Hnames, Ht. split; [apply Hh; lia|]. split; [intros [_ H]; split; [done|lia]|by intros [H _]].
Qed.

Lemma keys_created_in_order_witness : ∃ b,
  create_keys 4 (λ i, string_of_Z i) (λ i, if i =? 1 then Refused else Created)
    (Build_ApiKeyFormValues $"build" None None true [] None None Inherit [] None (Some (num_of_Z 3))) = Some b ∧
  head (b_names b) = Some $"build".
Proof.
  destruct (keys_created_in_order (Build_ApiKeyFormValues $"build" None None true [] None None Inherit [] None (Some (num_of_Z 3)))
    (λ i, string_of_Z i) (λ i, if i =? 1 then Refused else Created) 3) as (m & b & _ & _ & H & _ & Hh & _);
    [lia|reflexivity|done|]. exists b. split; [exact H|exact Hh].
Defined.
End KeyFacts.

(** ** Redemption codes *)

Module RedemptionFacts.
Import Redemptions.

(** A code that is opened and saved without an edit of its quota keeps name, quota
    and expiry, whatever its quota and the display currency are: the amount in the
    form is rounded for display and is not what is sent. *)
Theorem redemption_saved_unedited (st : SystemConfigState) (r : Redemption) :
  stamp 0 (r_expired_time r) →
  let sent := update_request st r false (transformRedemptionToFormDefaults st r) in
  p_name sent = r_name r ∧ p_quota sent = r_quota r ∧ p_expired_time sent = r_expired_time r ∧ p_count sent = num_of_Z 1.
Proof.
  intros Ht sent. destruct (stamp_back 0 _ ltac:(lia) ltac:(by right) Ht) as [Hb _]. split_and!; [done..| |reflexivity].
  exact Hb.
Qed.

(** What the rounded amount itself denotes: for a small code nothing is left, so
    sending it would have cleared the quota. *)
Example rounded_amount_differs :
  let r := Build_Redemption $"gift" (num_of_Z 7) (S754_zero false) in
  p_quota (update_request (sample_state "USD") r true (transformRedemptionToFormDefaults (sample_state "USD") r)) = S754_zero false.
Proof. vm_compute. reflexivity. Qed.

Lemma redemption_saved_unedited_witness :
  let r := Build_Redemption $"gift" (num_of_Z 7) (num_of_Z 1893456000) in
  p_expired_time (update_request (sample_state "USD") r false (transformRedemptionToFormDefaults (sample_state "USD") r)) = num_of_Z 1893456000.
Proof.
  intros r. destruct (redemption_saved_unedited (sample_state "USD") r) as (_ & _ & H & _); [|exact H].
  right. exists 1893456000. split; [lia|reflexivity].
Defined.
End RedemptionFacts.

(** ** Users *)

Module UserFacts.
Import Users.

(** A user that is opened and saved without an edit: display name, group and
    remark as stored (an empty display name falls back to the user name, an empty
    group to the default), no password, role or quota is sent, and a matrix of
    permissions only for an administrator; a matrix that is complete for the
    catalog is sent as it is. *)
Theorem user_saved_unedited (st : SystemConfigState) (u : User) (userId : Z) (catalog : PermissionCatalog) :
  ∃ p, submitted (transformUserToFormDefaults st u) (Some userId) (Some catalog) = Some p ∧
    p_username p = u_username u ∧ p_display_name p = str_or (u_display_name u) (u_username u) ∧
    p_password p = None ∧ p_role p = None ∧ p_id p = Some userId ∧
    p_group p = Some (str_or (u_group u) DEFAULT_GROUP) ∧ p_remark p = text_or_undefined (u_remark u) ∧
    (u_role u < ROLE_ADMIN → p_admin_permissions p = None) ∧
    (ROLE_ADMIN ≤ u_role u → ∀ v, u_admin_permissions u = Some (normalizeAdminPermissions v catalog) →
       p_admin_permissions p = u_admin_permissions u).
Proof.
  eexists. split; [reflexivity|]. cbn [transformFormDataToPayload transformUserToFormDefaults p_username p_display_name p_password p_role p_id p_group
    p_remark p_admin_permissions f_username f_display_name f_password f_role f_group f_remark f_admin_permissions default from_option id].
  split_and!; try done.
  - by destruct (u_remark u) as [[|]|].
  - intros Hr. by rewrite (proj2 (Z.leb_gt _ _)).
  - intros Hr v Hv. rewrite (proj2 (Z.leb_le _ _)) by done. rewrite Hv. cbn [default from_option id fmap option_fmap option_map].
    f_equal. apply normalizeAdminPermissions_spec.
Qed.

(** A new user without a password of 8 to 20 characters is not sent; otherwise the
    request carries the role and neither group nor remark. *)
Theorem new_user_password (data : UserFormValues) (catalog : option PermissionCatalog) :
  let n := Z.of_nat (length (default [] (f_password data))) in
  (8 ≤ n ≤ 20 ↔ is_Some (submitted data None catalog)) ∧
  ∀ p, submitted data None catalog = Some p → p_password p = f_password data ∧ p_group p = None ∧ p_remark p = None ∧ is_Some (p_role p).
Proof.
  intros n. unfold submitted. fold n. rewrite bool_decide_eq_true_2 by done. cbn [andb]. split.
  - destruct (Z.ltb_spec n 8), (Z.ltb_spec 20 n); cbn [orb]; split; intros H'; try lia; try (by destruct H'); by eexists.
  - intros p. destruct (Z.ltb_spec n 8); cbn [orb]; [done|]. destruct (_ <? _); [done|]. intros H'%(inj Some). rewrite <- H'.
    cbn [transformFormDataToPayload p_password p_group p_remark p_role]. split_and!; try done.
    subst n. destruct (f_password data) as [[|c s]|]; cbn in *; [lia|done|lia].
Qed.

(** While the catalog of permissions is not loaded the request for an
    administrator names an empty matrix, although the form leaves the field out
    when it has no catalog. *)
Theorem missing_catalog_sent_empty (data : UserFormValues) (userId : Z) (r : Z) :
  f_role data = Some r → ROLE_ADMIN ≤ r →
  (∃ p, submitted data (Some userId) None = Some p ∧ p_admin_permissions p = Some ∅) ∧
  p_admin_permissions (transformFormDataToPayload data (Some userId) None) = None.
Proof.
  intros Hrole Hr. split.
  - eexists. split; [reflexivity|]. cbn [transformFormDataToPayload p_admin_permissions]. rewrite Hrole. cbn [default from_option id].
    by rewrite (proj2 (Z.leb_le _ _)).
  - cbn [transformFormDataToPayload p_admin_permissions]. by destruct (_ <=? _).
Qed.

Lemma missing_catalog_sent_empty_witness : ∃ p,
  submitted (Build_UserFormValues $"ops" None None (Some 10) None None None None) (Some 3) None = Some p ∧ p_admin_permissions p = Some ∅.
Proof. apply (missing_catalog_sent_empty (Build_UserFormValues $"ops" None None (Some 10) None None None None) 3 10); [reflexivity|done]. Defined.
End UserFacts.
