(* ===== verification/NavModules.v ===== *)
(** * Navigation modules

    Which entries of the header and of the sidebar are shown:
    [src/web/src/lib/nav-modules.ts] (the reader of the site and of the route
    guards), [hooks/use-sidebar-config.ts], [hooks/use-top-nav-links.ts], and the
    reader and writer of the settings page,
    [features/system-settings/maintenance/config.ts].  All of them read the same
    two stored texts. *)

From S2P Require Import Prelude JsString JsText JsNumber JsValue Json OrderedMap JsObject.

Local Open Scope Z_scope.
Local Open Scope js_scope.

Record ModuleAccess := { enabled : bool; requireAuth : bool }.

Definition access_value (a : ModuleAccess) : value :=
  VObj [($"enabled", VBool (enabled a)); ($"requireAuth", VBool (requireAuth a))].

Definition is_flag (v : value) (b : bool) : bool := match v with VBool b' => Bool.eqb b b' | _ => false end.

(** A property of type [ModuleAccess]. *)
Definition access_of (v : value) : ModuleAccess :=
  {| enabled := is_flag (get v $"enabled") true; requireAuth := is_flag (get v $"requireAuth") true |}.

Definition is_bool (v : value) : bool := match v with VBool _ => true | _ => false end.

(** [typeof v] is boolean, number or string *)
Definition is_scalar (v : value) : bool := match v with VBool _ | VNum _ | VStr _ => true | _ => false end.

Definition DEFAULT_HEADER_NAV_MODULES : object :=
  [($"home", VBool true); ($"console", VBool true);
   ($"pricing", access_value {| enabled := true; requireAuth := false |});
   ($"rankings", access_value {| enabled := true; requireAuth := false |});
   ($"docs", VBool true); ($"about", VBool true)].

Section Nav.
Context {TE : TextEnv}.

(** The texts both readers take for true and false. *)
Definition flag_text (raw : jsstr) : option bool :=
  let normalized := toLowerCase (trim raw) in
  if bool_decide (normalized = $"true") || bool_decide (normalized = $"1") then Some true
  else if bool_decide (normalized = $"false") || bool_decide (normalized = $"0") then Some false else None.

(** ** The reader of the site *)

Definition parseHeaderNavBoolean (raw : value) (fallback : bool) : bool :=
  match raw with
  | VBool b => b
  | VNum n => if num_eqb n (num_of_Z 1) then true else if num_eqb n (num_of_Z 0) then false else fallback
  | VStr s => default fallback (flag_text s)
  | _ => fallback
  end.

Definition parseAccess (raw : value) (fallback : ModuleAccess) : ModuleAccess :=
  if is_scalar raw then {| enabled := parseHeaderNavBoolean raw (enabled fallback); requireAuth := requireAuth fallback |}
  else if to_boolean raw && is_object raw then
    {| enabled := parseHeaderNavBoolean (get raw $"enabled") (enabled fallback);
       requireAuth := parseHeaderNavBoolean (get raw $"requireAuth") (requireAuth fallback) |}
  else fallback.

(** [None] for [null]. *)
Definition parseHeaderNavRecord (raw : value) : option value :=
  if negb (to_boolean raw) || bool_decide (trim (value_text raw) = []) then None
  else if is_object raw then Some raw else json_parse (value_text raw).

(** One entry of the stored record. *)
Definition header_entry (result : object) (entry : jsstr * value) : object :=
  let '(key, v) := entry in
  if bool_decide (key = $"pricing") || bool_decide (key = $"rankings")
  then obj_assign result (key, access_value (parseAccess v (access_of (fld result key))))
  else
    let fallback := fld result key in
    if is_bool fallback || is_scalar v
    then obj_assign result (key, VBool (parseHeaderNavBoolean v (if is_bool fallback then is_flag fallback true else true)))
    else result.

Definition parseHeaderNavModules (raw : value) : object :=
  match parseHeaderNavRecord raw with
  | Some parsed => if to_boolean parsed then fold_left header_entry (own_entries parsed) DEFAULT_HEADER_NAV_MODULES
                   else DEFAULT_HEADER_NAV_MODULES
  | None => DEFAULT_HEADER_NAV_MODULES
  end.

(** [status] is an object or [null]. *)
Definition parseHeaderNavModulesFromStatus (status : value) : object :=
  parseHeaderNavModules (match status with VObj o => fld o $"HeaderNavModules" | _ => VUndefined end).

(** The status in local storage; [None] for an entry that is missing. *)
Definition getCachedStatus (stored : option jsstr) : value :=
  match stored with
  | Some raw => if truthy raw then default VNull (json_parse raw) else VNull
  | None => VNull
  end.

Definition cacheStatus (status : value) (stored : option jsstr) : option jsstr :=
  if to_boolean status then match json_stringify [] status with Some text => Some text | None => stored end else stored.

Inductive HeaderNavModule := Pricing | Rankings.

Definition module_key (m : HeaderNavModule) : jsstr := match m with Pricing => $"pricing" | Rankings => $"rankings" end.

(** [?? DEFAULTS[module]] is never taken: the property is always there. *)
Definition getModuleAccessFromStatus (status : value) (m : HeaderNavModule) : ModuleAccess :=
  access_of (fld (parseHeaderNavModulesFromStatus status) (module_key m)).

Definition getModuleAccess (stored : option jsstr) (m : HeaderNavModule) : ModuleAccess :=
  getModuleAccessFromStatus (getCachedStatus stored) m.

(** [answer] is [None] when the request fails; the second result is the storage. *)
Definition getFreshModuleAccess (answer : option value) (stored : option jsstr) (m : HeaderNavModule)
  : ModuleAccess * option jsstr :=
  match answer with
  | Some status => (getModuleAccessFromStatus status m, cacheStatus status stored)
  | None => ({| enabled := false; requireAuth := true |}, stored)
  end.

Definition isSidebarModuleEnabled (stored : option jsstr) (section module : jsstr) : bool :=
  let status := getCachedStatus stored in
  if negb (to_boolean status) then true
  else
    let raw := get status $"SidebarModulesAdmin" in
    if negb (to_boolean raw) || bool_decide (trim (value_text raw) = []) then true
    else match json_parse (value_text raw) with
    | None => true
    | Some VNull => true
    | Some parsed =>
      let sectionConfig := get parsed section in
      if negb (to_boolean sectionConfig) then true
      else negb (is_flag (get sectionConfig $"enabled") false || is_flag (get sectionConfig module) false)
    end.

(** ** Guards and links of the header *)

Inductive Admission := Enter | ToHome | ToSignIn.

(** [beforeLoad] of the routes of the two modules *)
Definition guard (access : ModuleAccess) (signedIn : bool) : Admission :=
  if negb (enabled access) then ToHome
  else if requireAuth access && negb signedIn then ToSignIn else Enter.

Record TopNavLink := { l_title : jsstr; l_href : jsstr; l_requiresAuth : option bool; l_external : bool }.

Definition plain_link (title href : jsstr) : TopNavLink := Build_TopNavLink title href None false.

Definition access_link (modules : object) (key title href : jsstr) (isAuthed : bool) : list TopNavLink :=
  let access := access_of (fld modules key) in
  if enabled access then [Build_TopNavLink title href (Some (requireAuth access && negb isAuthed)) false] else [].

(** Titles are the keys of their translations. *)
Definition useTopNavLinks (status : value) (isAuthed : bool) : list TopNavLink :=
  let modules := parseHeaderNavModulesFromStatus status in
  let shown key := negb (is_flag (fld modules key) false) in
  let docsLink := match status with VObj o => str_of (fld o $"docs_link") | _ => [] end in
  (if shown $"home" then [plain_link $"Home" $"/"] else [])
  ++ (if shown $"console" then [plain_link $"Console" $"/dashboard"] else [])
  ++ access_link modules $"pricing" $"Model Square" $"/pricing" isAuthed
  ++ access_link modules $"rankings" $"Rankings" $"/rankings" isAuthed
  ++ (if shown $"docs" then [if truthy docsLink then Build_TopNavLink $"Docs" docsLink None true else plain_link $"Docs" $"/docs"] else [])
  ++ (if shown $"about" then [plain_link $"About" $"/about"] else []).

(** ** The settings page *)

Definition toBoolean (v : value) (fallback : bool) : bool :=
  match v with
  | VBool b => b
  | VNum n => num_eqb n (num_of_Z 1)
  | VStr s => default fallback (flag_text s)
  | _ => fallback
  end.

Definition parseAccessModule (raw : value) (fallback : ModuleAccess) : ModuleAccess :=
  if is_scalar raw then {| enabled := toBoolean raw (enabled fallback); requireAuth := requireAuth fallback |}
  else if to_boolean raw && is_object raw then
    {| enabled := toBoolean (get raw $"enabled") (enabled fallback);
       requireAuth := toBoolean (get raw $"requireAuth") (requireAuth fallback) |}
  else fallback.

Definition settings_entry (base result : object) (entry : jsstr * value) : object :=
  let '(key, raw) := entry in
  if bool_decide (key = $"pricing") || bool_decide (key = $"rankings")
  then obj_assign result (key, access_value (parseAccessModule raw (access_of (fld base key))))
  else match raw with
  | VBool b => obj_assign result (key, VBool b)
  | VStr _ | VNum _ => obj_assign result (key, VBool (toBoolean raw (to_boolean (fld base key))))
  | _ => result
  end.

(** [Object.entries(null)] throws, which the code catches. *)
Definition settings_parseHeaderNavModules (v : option jsstr) : object :=
  let base := DEFAULT_HEADER_NAV_MODULES in
  match v with
  | None | Some [] => base
  | Some text =>
    match json_parse text with
    | None | Some VNull => base
    | Some parsed => fold_left (settings_entry base) (own_entries parsed) base
    end
  end.

Definition serializeHeaderNavModules (config : object) : jsstr := json_text config.

Definition SIDEBAR_MODULES_DEFAULT : object :=
  let section modules := VObj ((λ m, (m, VBool true)) <$> modules) in
  [($"console", section [$"enabled"; $"detail"; $"token"; $"log"; $"midjourney"; $"task"]);
   ($"personal", section [$"enabled"; $"topup"; $"personal"]);
   ($"admin", section [$"enabled"; $"channel"; $"models"; $"redemption"; $"user"; $"setting"])].

(** [v ?? fallback] of a flag *)
Definition flag_or (v : value) (fallback : bool) : bool := match v with VBool b => b | _ => fallback end.

(** One section of the stored configuration. *)
Definition section_config (defaultSection raw : value) : object :=
  fold_left (λ config entry,
      if bool_decide (entry.1 = $"enabled") then config
      else obj_assign config (entry.1, VBool (toBoolean entry.2 (flag_or (get defaultSection entry.1) true))))
    (own_entries raw)
    [($"enabled", VBool (toBoolean (get raw $"enabled") (flag_or (get defaultSection $"enabled") true)))].

Definition section_entry (defaults result : object) (entry : jsstr * value) : object :=
  let '(sectionKey, raw) := entry in
  if negb (to_boolean raw && is_object raw) then result
  else
    let defaultSection := match assoc sectionKey defaults with Some s => s | None => VObj [($"enabled", VBool true)] end in
    obj_assign result (sectionKey, VObj (section_config defaultSection raw)).

(** Modules a section lacks. *)
Definition add_missing (section : object) (config : object) : object :=
  fold_left (λ s e, if bool_decide (e.1 ∈ s.*1) then s else obj_assign s e) config section.

Definition merge_default (result : object) (entry : jsstr * value) : object :=
  let '(sectionKey, config) := entry in
  match fld result sectionKey with
  | VObj section => obj_assign result (sectionKey, VObj (add_missing section (own_entries config)))
  | _ => obj_assign result (sectionKey, config)
  end.

Definition parseSidebarModulesAdmin (v : option jsstr) : object :=
  let defaults := SIDEBAR_MODULES_DEFAULT in
  let text := default [] v in
  if negb (truthy text) || negb (truthy (trim text)) then defaults
  else match json_parse text with
  | None | Some VNull => defaults
  | Some parsed => fold_left merge_default defaults (fold_left (section_entry defaults) (own_entries parsed) [])
  end.

Definition serializeSidebarModulesAdmin (config : object) : jsstr := json_text config.

(** ** The sidebar *)

Definition merge_section (merged : object) (entry : jsstr * value) : object :=
  let '(sectionKey, defaultSection) := entry in
  let existingSection := fld merged sectionKey in
  if negb (to_boolean existingSection) then obj_assign merged (sectionKey, defaultSection)
  else obj_assign merged (sectionKey, VObj (spread_into (own_entries defaultSection) existingSection)).

Definition mergeWithDefaultSidebarModules (config : value) : object :=
  fold_left merge_section SIDEBAR_MODULES_DEFAULT (spread_into [] config).

Definition parseSidebarConfig (v : option jsstr) : object :=
  let text := default [] v in
  if negb (truthy text) || negb (truthy (trim text)) then SIDEBAR_MODULES_DEFAULT
  else match json_parse text with
  | None => SIDEBAR_MODULES_DEFAULT
  | Some parsed => mergeWithDefaultSidebarModules parsed
  end.

(** [None] for [null]: do not narrow. *)
Definition parseUserSidebarConfig (v : option jsstr) : option value :=
  let text := default [] v in
  if negb (truthy text) || negb (truthy (trim text)) then None
  else match json_parse text with
  | Some parsed => if to_boolean parsed && is_object parsed then Some parsed else None
  | None => None
  end.

(** The configuration of the signed-in user; [configurable] is
    [permissions.sidebar_settings]. *)
Definition userConfig (configurable : option bool) (sidebar_modules : option jsstr) : option value :=
  match configurable with Some false => None | _ => parseUserSidebarConfig sidebar_modules end.

Definition URL_TO_CONFIG_MAP : list (jsstr * (jsstr * jsstr)) :=
  [($"/dashboard", ($"console", $"detail")); ($"/dashboard/overview", ($"console", $"detail"));
   ($"/dashboard/models", ($"console", $"detail")); ($"/dashboard/users", ($"console", $"detail"));
   ($"/keys", ($"console", $"token")); ($"/usage-logs", ($"console", $"log"));
   ($"/usage-logs/common", ($"console", $"log")); ($"/usage-logs/drawing", ($"console", $"midjourney"));
   ($"/usage-logs/task", ($"console", $"task")); ($"/wallet", ($"personal", $"topup"));
   ($"/profile", ($"personal", $"personal")); ($"/channels", ($"admin", $"channel"));
   ($"/models", ($"admin", $"models")); ($"/models/metadata", ($"admin", $"models"));
   ($"/models/deployments", ($"admin", $"models"));
   ($"/system-settings/billing/model-pricing", ($"admin", $"models"));
   ($"/system-settings/billing/group-pricing", ($"admin", $"models"));
   ($"/users", ($"admin", $"user")); ($"/redemption-codes", ($"admin", $"redemption"));
   ($"/system-settings", ($"admin", $"setting")); ($"/system-settings/site", ($"admin", $"setting"))].

Definition adminAllowed (adminConfig : object) (section module : jsstr) : bool :=
  let adminSection := fld adminConfig section in
  to_boolean adminSection && to_boolean (get adminSection $"enabled") && is_flag (get adminSection module) true.

Definition userAllowed (userConfig : option value) (section module : jsstr) : bool :=
  match userConfig with
  | None => true
  | Some config =>
    let userSection := get config section in
    if negb (to_boolean userSection) then true
    else if is_flag (get userSection $"enabled") false then false else negb (is_flag (get userSection module) false)
  end.

Definition isModuleEnabled (adminConfig : object) (userConfig : option value) (url : jsstr) : bool :=
  match om_get url URL_TO_CONFIG_MAP with
  | None => true
  | Some (section, module) => adminAllowed adminConfig section module && userAllowed userConfig section module
  end.

(** A link, or a list of links that collapses. *)
Inductive NavItem :=
| NavLink (title url : jsstr) (configUrls : option (list jsstr))
| NavCollapsible (title : jsstr) (items : list (jsstr * jsstr)).

Record NavGroup := { g_title : jsstr; g_items : list NavItem }.

Definition isNavItemVisible (adminConfig : object) (userConfig : option value) (item : NavItem) : bool :=
  match item with
  | NavLink _ url configUrls =>
    if truthy url then existsb (isModuleEnabled adminConfig userConfig) (default [url] configUrls) else true
  | NavCollapsible _ items => existsb (λ i, isModuleEnabled adminConfig userConfig i.2) items
  end.

Definition filter_item (adminConfig : object) (userConfig : option value) (item : NavItem) : NavItem :=
  match item with
  | NavCollapsible title items => NavCollapsible title (List.filter (λ i, isModuleEnabled adminConfig userConfig i.2) items)
  | _ => item
  end.

Definition filterNavItems (adminConfig : object) (userConfig : option value) (items : list NavItem) : list NavItem :=
  List.filter (isNavItemVisible adminConfig userConfig) (filter_item adminConfig userConfig <$> items).

Definition filter_groups (adminConfig : object) (userConfig : option value) (navGroups : list NavGroup) : list NavGroup :=
  List.filter (λ g, match g_items g with [] => false | _ => true end)
    ((λ g, Build_NavGroup (g_title g) (filterNavItems adminConfig userConfig (g_items g))) <$> navGroups).

(** [status.SidebarModulesAdmin] is a text or missing. *)
Definition useSidebarConfig (sidebarModulesAdmin : option jsstr) (configurable : option bool) (sidebar_modules : option jsstr)
    (navGroups : list NavGroup) : list NavGroup :=
  filter_groups (parseSidebarConfig sidebarModulesAdmin) (userConfig configurable sidebar_modules) navGroups.

Definition useIsSidebarModuleVisible (sidebarModulesAdmin : option jsstr) (configurable : option bool)
    (sidebar_modules : option jsstr) (url : jsstr) : bool :=
  isModuleEnabled (parseSidebarConfig sidebarModulesAdmin) (userConfig configurable sidebar_modules) url.
End Nav.
