(* ===== verification/NavFacts.v ===== *)
(** * Navigation modules: theorems

    What the settings page saves is what the header, the route guards and the
    sidebar follow ([header_settings_followed], [sidebar_settings_followed]); the
    preferences of a user only narrow the sidebar ([user_layer_only_narrows]). *)

From S2P Require Import Prelude JsString JsText JsNumber JsValue Json OrderedMap JsObject NavModules.

Local Open Scope Z_scope.
Local Open Scope js_scope.

(** ** Loops that assign one property per entry *)

Lemma fold_assign (step : object → jsstr * value → object) (g : jsstr * value → value) (l acc : object) k :
  (∀ acc e, e ∈ l → step acc e = obj_assign acc (e.1, g e)) → NoDup l.*1 →
  assoc k (fold_left step l acc) = match assoc k l with Some v => Some (g (k, v)) | None => assoc k acc end.
Proof.
  revert acc. induction l as [|[n v] l IH]; intros acc Hs Hn; [done|]. cbn [fmap list_fmap fst] in Hn. apply NoDup_cons in Hn as [Hno Hn].
  cbn [fold_left]. rewrite Hs by by left. rewrite IH by (done || (intros; apply Hs; by right)). rewrite assoc_assign. cbn [assoc fst].
  case_bool_decide as E; [|done]. subst k. apply assoc_None in Hno. by rewrite Hno.
Qed.

Lemma entry_assoc (l : object) e : NoDup l.*1 → e ∈ l → assoc e.1 l = Some e.2.
Proof. intros Hn He. apply assoc_in; [done|]. by destruct e. Qed.

Lemma object_NoDup o : obj_ok o → NoDup o.*1.
Proof. intros (_ & Hn & _)%obj_ok_spec. exact Hn. Qed.

Lemma nav_text o : obj_ok o →
  json_parse (json_text o) = Some (VObj o) ∧ json_text o ≠ [] ∧ trim (json_text o) = json_text o.
Proof.
  intros Ho. destruct (text_read_back [] (VObj o) eq_refl Ho) as (s & Es & Ht & Htr & Hp). unfold json_text. rewrite Es. cbn.
  split; [done|]. split; [by apply truthy_ne|done].
Qed.

Section Facts.
Context {TE : TextEnv}.

(** ** The header *)

(** A configuration of the settings page: flags, two entries with access rules,
    and every entry of the default. *)
Record header_wf (m : object) : Prop := {
  hw_ok : obj_ok m;
  hw_access : ∀ key v, assoc key m = Some v → key = $"pricing" ∨ key = $"rankings" → ∃ a, v = access_value a;
  hw_flags : ∀ key v, assoc key m = Some v → key ≠ $"pricing" → key ≠ $"rankings" → ∃ b, v = VBool b;
  hw_keys : ∀ key, key ∈ DEFAULT_HEADER_NAV_MODULES.*1 → is_Some (assoc key m)
}.

Lemma access_read a : access_of (access_value a) = a.
Proof using. destruct a as [[] []]; vm_compute; reflexivity. Qed.

Lemma site_access a fallback : parseAccess (access_value a) fallback = a.
Proof using. destruct a as [e r]. reflexivity. Qed.

Lemma page_access a fallback : parseAccessModule (access_value a) fallback = a.
Proof using. destruct a as [e r]. reflexivity. Qed.

(** The loop of a reader that reproduces each entry of a configuration. *)
Lemma header_loop step m : header_wf m → (∀ acc e, e ∈ m → step acc e = obj_assign acc e) →
  ∀ k, fld (fold_left step m DEFAULT_HEADER_NAV_MODULES) k = fld m k.
Proof using.
  intros Hw Hs k. unfold fld. rewrite (fold_assign step snd) by ((intros acc [] He; by apply Hs) || by apply object_NoDup, hw_ok).
  destruct (assoc k m) as [v|] eqn:E; [done|]. f_equal. apply assoc_None. intros Hk.
  destruct (hw_keys m Hw k Hk) as [v Hv]. by rewrite Hv in E.
Qed.

Lemma header_entry_same m acc e : header_wf m → e ∈ m → header_entry acc e = obj_assign acc e.
Proof using.
  intros Hw He. destruct e as [key v]. pose proof (entry_assoc m (key, v) (object_NoDup _ (hw_ok m Hw)) He) as Ha. cbn [fst snd] in Ha.
  unfold header_entry. destruct (decide (key = $"pricing")) as [E|Hp]; [|destruct (decide (key = $"rankings")) as [E|Hr]].
  - rewrite (bool_decide_eq_true_2 (key = $"pricing")) by done. cbn [orb].
    destruct (hw_access m Hw key v Ha ltac:(by left)) as [a ->]. by rewrite site_access.
  - rewrite (bool_decide_eq_true_2 (key = $"rankings")) by done. rewrite orb_true_r.
    destruct (hw_access m Hw key v Ha ltac:(by right)) as [a ->]. by rewrite site_access.
  - rewrite !bool_decide_eq_false_2 by done. cbn [orb]. destruct (hw_flags m Hw key v Ha Hp Hr) as [b ->].
    cbn [is_scalar parseHeaderNavBoolean]. by rewrite orb_true_r.
Qed.

Lemma settings_entry_same m base acc e : header_wf m → e ∈ m → settings_entry base acc e = obj_assign acc e.
Proof using.
  intros Hw He. destruct e as [key v]. pose proof (entry_assoc m (key, v) (object_NoDup _ (hw_ok m Hw)) He) as Ha. cbn [fst snd] in Ha.
  unfold settings_entry. destruct (decide (key = $"pricing")) as [E|Hp]; [|destruct (decide (key = $"rankings")) as [E|Hr]].
  - rewrite (bool_decide_eq_true_2 (key = $"pricing")) by done. cbn [orb].
    destruct (hw_access m Hw key v Ha ltac:(by left)) as [a ->]. by rewrite page_access.
  - rewrite (bool_decide_eq_true_2 (key = $"rankings")) by done. rewrite orb_true_r.
    destruct (hw_access m Hw key v Ha ltac:(by right)) as [a ->]. by rewrite page_access.
  - rewrite !bool_decide_eq_false_2 by done. cbn [orb]. by destruct (hw_flags m Hw key v Ha Hp Hr) as [b ->].
Qed.

(** C21: what the settings page saves for the header is what every reader sees.
    The saved text read by the settings page and by the site gives the same
    entries; for both access modules the site finds the access rules that were
    saved, so that a visitor sees the link exactly when the route does not send
    him home, and the lock on the link exactly when the route asks him to sign
    in. *)
Theorem header_settings_followed (m status : object) (signedIn : bool) :
  header_wf m → fld status $"HeaderNavModules" = VStr (serializeHeaderNavModules m) →
  (∀ k, fld (settings_parseHeaderNavModules (Some (serializeHeaderNavModules m))) k = fld m k) ∧
  (∀ k, fld (parseHeaderNavModulesFromStatus (VObj status)) k = fld m k) ∧
  ∀ page a, fld m (module_key page) = access_value a →
    getModuleAccessFromStatus (VObj status) page = a ∧
    access_link (parseHeaderNavModulesFromStatus (VObj status)) (module_key page) [] [] signedIn =
      match guard (getModuleAccessFromStatus (VObj status) page) signedIn with
      | ToHome => []
      | ToSignIn => [Build_TopNavLink [] [] (Some true) false]
      | Enter => [Build_TopNavLink [] [] (Some false) false]
      end.
Proof using.
  intros Hw Hstatus. destruct (nav_text m (hw_ok m Hw)) as (Hp & Hne & Ht). unfold serializeHeaderNavModules in *.
  assert (∀ k, fld (parseHeaderNavModulesFromStatus (VObj status)) k = fld m k) as Hsite.
  { intros k. unfold parseHeaderNavModulesFromStatus, parseHeaderNavModules, parseHeaderNavRecord. rewrite Hstatus.
    cbn [to_boolean value_text is_object]. rewrite (proj2 (truthy_ne _) Hne), Ht, bool_decide_eq_false_2 by done. cbn [negb orb].
    rewrite Hp. cbn [to_boolean own_entries]. apply header_loop; [done|]. intros acc e He. by apply (header_entry_same m). }
  split; [|split; [exact Hsite|]].
  - intros k. unfold settings_parseHeaderNavModules. destruct (json_text m) as [|c s] eqn:E; [done|]. rewrite Hp. cbn [own_entries].
    apply header_loop; [done|]. intros acc e He. by apply (settings_entry_same m).
  - intros page a Ha. assert (getModuleAccessFromStatus (VObj status) page = a) as Hacc.
    { unfold getModuleAccessFromStatus. by rewrite Hsite, Ha, access_read. }
    split; [exact Hacc|]. rewrite Hacc. unfold access_link. rewrite Hsite, Ha, access_read. unfold guard.
    by destruct a as [[] []], signedIn.
Qed.

(** ** The sidebar *)

(** A section: flags only, one of them for the section itself. *)
Definition section_wf (v : value) : Prop :=
  ∃ sec, v = VObj sec ∧ NoDup sec.*1 ∧ (∀ m x, assoc m sec = Some x → ∃ b, x = VBool b) ∧ is_Some (assoc $"enabled" sec).

(** A configuration of the settings page: sections, and every section and module
    of the default. *)
Record sidebar_wf (c : object) : Prop := {
  sw_ok : obj_ok c;
  sw_sections : ∀ s v, assoc s c = Some v → section_wf v;
  sw_defaults : ∀ s config, (s, config) ∈ SIDEBAR_MODULES_DEFAULT →
    ∃ sec, assoc s c = Some (VObj sec) ∧ ∀ m, m ∈ (own_entries config).*1 → is_Some (assoc m sec)
}.

Lemma section_config_same d sec m : NoDup sec.*1 → (∀ n x, assoc n sec = Some x → ∃ b, x = VBool b) → is_Some (assoc $"enabled" sec) →
  assoc m (section_config d (VObj sec)) = assoc m sec.
Proof using.
  intros Hn Hb [e He]. unfold section_config. cbn [own_entries].
  assert (get (VObj sec) $"enabled" = e) as Hg by (cbn [get]; by rewrite He). rewrite Hg.
  destruct (Hb _ _ He) as [b ->]. cbn [toBoolean].
  assert (∀ l acc, NoDup l.*1 → (∀ n x, assoc n l = Some x → ∃ b, x = VBool b) →
    assoc m (fold_left (λ config entry, if bool_decide (entry.1 = $"enabled") then config
      else obj_assign config (entry.1, VBool (toBoolean entry.2 (flag_or (get d entry.1) true)))) l acc) =
    if bool_decide (m = $"enabled") then assoc m acc else match assoc m l with Some v => Some v | None => assoc m acc end) as Hloop.
  { clear. intros l. induction l as [|[n x] l IH]; intros acc Hn Hb; [by case_bool_decide|].
    cbn [fmap list_fmap fst] in Hn. apply NoDup_cons in Hn as [Hno Hn]. cbn [fold_left fst snd].
    assert (assoc n ((n, x) :: l) = Some x) as Hx by (cbn [assoc]; by rewrite bool_decide_eq_true_2).
    destruct (Hb n x Hx) as [b ->]. rewrite IH; [|done|].
    - cbn [toBoolean assoc]. destruct (decide (n = $"enabled")) as [->|Hne].
      + rewrite (bool_decide_eq_true_2 ($"enabled" = $"enabled")) by done. by case_bool_decide.
      + rewrite (bool_decide_eq_false_2 (n = _)) by done. rewrite assoc_assign. case_bool_decide as Em; [subst m; by rewrite bool_decide_eq_false_2|].
        destruct (decide (m = n)) as [->|Hmn]; [|by rewrite bool_decide_eq_false_2].
        rewrite bool_decide_eq_true_2 by done. apply assoc_None in Hno. by rewrite Hno.
    - intros n' x' Hx'. apply (Hb n' x'). cbn [assoc]. destruct (decide (n' = n)) as [->|Hne]; [|by rewrite bool_decide_eq_false_2].
      apply assoc_elem in Hx'. destruct Hno. apply list_elem_of_fmap. by exists (n, x'). }
  rewrite Hloop by done. cbn [assoc]. case_bool_decide as Em; [subst m; by rewrite He|].
  by destruct (assoc m sec).
Qed.

(** Entries of the default that are there already change nothing. *)
Lemma defaults_present (l result : object) k :
  (∀ s config, (s, config) ∈ l → ∃ sec, assoc s result = Some (VObj sec) ∧ ∀ m, m ∈ (own_entries config).*1 → m ∈ sec.*1) →
  assoc k (fold_left merge_default l result) = assoc k result.
Proof using.
  revert result. induction l as [|[s config] l IH]; intros result Hl; [done|]. cbn [fold_left].
  destruct (Hl s config ltac:(by left)) as (sec & Hs & Hm).
  assert (merge_default result (s, config) = obj_assign result (s, VObj sec)) as ->.
  { unfold merge_default, fld. rewrite Hs. cbn [default from_option id]. do 3 f_equal.
    assert (∀ e, (∀ m, m ∈ e.*1 → m ∈ sec.*1) → add_missing sec e = sec) as Hadd; [|by apply Hadd].
    intros e. unfold add_missing. induction e as [|[m x] e IHe]; intros He; [done|]. cbn [fold_left fst].
    rewrite bool_decide_eq_true_2 by (apply He; by left). apply IHe. intros n Hn. apply He. by right. }
  assert (∀ n, assoc n (obj_assign result (s, VObj sec)) = assoc n result) as Hsame.
  { intros n. rewrite assoc_assign. case_bool_decide as E; [by subst n|done]. }
  rewrite IH; [apply Hsame|]. intros s' config' Hin. destruct (Hl s' config' ltac:(by right)) as (sec' & Hs' & Hm'). exists sec'. by rewrite Hsame.
Qed.

(** The settings page shows what was saved. *)
Lemma page_sidebar c s sec m : sidebar_wf c → assoc s c = Some (VObj sec) →
  get (fld (parseSidebarModulesAdmin (Some (serializeSidebarModulesAdmin c))) s) m = fld sec m.
Proof using.
  intros Hw Hs. destruct (nav_text c (sw_ok c Hw)) as (Hp & Hne & Ht). unfold parseSidebarModulesAdmin, serializeSidebarModulesAdmin.
  cbn [default from_option id]. rewrite Ht, (proj2 (truthy_ne _) Hne), Hp. cbn [negb orb own_entries].
  set (loaded := fold_left (section_entry SIDEBAR_MODULES_DEFAULT) c []).
  assert (∀ s sec, assoc s c = Some (VObj sec) → ∃ sec', assoc s loaded = Some (VObj sec') ∧ ∀ m, assoc m sec' = assoc m sec) as Hload.
  { intros s' sec' Hs'. subst loaded.
    rewrite (fold_assign _ (λ e, VObj (section_config (match assoc e.1 SIDEBAR_MODULES_DEFAULT with Some x => x | None => VObj [($"enabled", VBool true)] end) e.2))).
    - rewrite Hs'. eexists. split; [done|]. intros n. destruct (sw_sections c Hw s' _ Hs') as (sec0 & E & Hn & Hb & He).
      injection E as ->. by apply section_config_same.
    - intros acc [k v] He. pose proof (entry_assoc c (k, v) (object_NoDup _ (sw_ok c Hw)) He) as Ha. cbn [fst snd] in *.
      destruct (sw_sections c Hw k v Ha) as (sec0 & -> & _). done.
    - apply object_NoDup, sw_ok, Hw. }
  destruct (Hload s sec Hs) as (sec' & Hs' & Hm). unfold fld at 1. rewrite defaults_present.
  - rewrite Hs'. cbn [default from_option id get]. unfold fld. by rewrite Hm.
  - intros d config Hd. destruct (sw_defaults c Hw d config Hd) as (sd & Hsd & Hall). destruct (Hload d sd Hsd) as (sd' & Hsd' & Hmd).
    exists sd'. split; [done|]. intros n Hn. destruct (Hall n Hn) as [x Hx]. rewrite <- Hmd in Hx. apply assoc_elem in Hx. apply list_elem_of_fmap. by exists (n, x).
Qed.

(** Merging the defaults keeps what a section says. *)
Lemma merge_sections (l merged : object) s sec : NoDup l.*1 → NoDup sec.*1 → assoc s merged = Some (VObj sec) →
  ∃ sec', assoc s (fold_left merge_section l merged) = Some (VObj sec') ∧ ∀ m v, assoc m sec = Some v → assoc m sec' = Some v.
Proof using.
  revert merged. induction l as [|[k d] l IH]; intros merged Hl Hn Hs; [by exists sec|].
  cbn [fmap list_fmap fst] in Hl. apply NoDup_cons in Hl as [Hk Hl]. cbn [fold_left].
  destruct (decide (k = s)) as [->|Hks].
  - assert (∀ l acc, s ∉ l.*1 → assoc s (fold_left merge_section l acc) = assoc s acc) as Huntouched.
    { clear. intros l. induction l as [|[k d] l IH]; intros acc Hk; [done|]. cbn [fmap list_fmap fst] in Hk.
      apply not_elem_of_cons in Hk as [Hne Hk]. cbn [fold_left]. rewrite IH by done. unfold merge_section.
      destruct (negb _); rewrite assoc_assign; by rewrite bool_decide_eq_false_2. }
    rewrite Huntouched by done. unfold merge_section, fld. rewrite Hs. cbn [default from_option id to_boolean negb].
    rewrite assoc_assign, bool_decide_eq_true_2 by done. eexists. split; [done|]. intros m v Hm.
    unfold spread_into. cbn [own_entries]. rewrite assoc_spread by done. by rewrite Hm.
  - apply IH; [done..|]. unfold merge_section. destruct (negb _); rewrite assoc_assign; by rewrite bool_decide_eq_false_2.
Qed.

(** The sidebar allows what is on in a section that is on. *)
Lemma sidebar_allows c s sec m e b : sidebar_wf c → assoc s c = Some (VObj sec) →
  assoc $"enabled" sec = Some (VBool e) → assoc m sec = Some (VBool b) →
  adminAllowed (parseSidebarConfig (Some (serializeSidebarModulesAdmin c))) s m = e && b.
Proof using.
  intros Hw Hs He Hb. destruct (nav_text c (sw_ok c Hw)) as (Hp & Hne & Ht). unfold parseSidebarConfig, serializeSidebarModulesAdmin.
  cbn [default from_option id]. rewrite Ht, (proj2 (truthy_ne _) Hne), Hp. cbn [negb orb]. unfold mergeWithDefaultSidebarModules.
  destruct (sw_sections c Hw s _ Hs) as (sec0 & E & Hn & _). injection E as <-.
  destruct (merge_sections SIDEBAR_MODULES_DEFAULT (spread_into [] (VObj c)) s sec) as (sec' & Hs' & Hm).
  - apply (bool_decide_unpack _). vm_compute. exact I.
  - done.
  - unfold spread_into. cbn [own_entries]. rewrite assoc_spread by apply object_NoDup, sw_ok, Hw. by rewrite Hs.
  - unfold adminAllowed, fld. rewrite Hs'. cbn [default from_option id to_boolean get]. rewrite (Hm _ _ He), (Hm _ _ Hb).
    cbn [default from_option id to_boolean is_flag]. by destruct e, b.
Qed.

(** C20: what the settings page saves for the sidebar is what is shown.  For every
    module of every section of a configuration that was saved, the settings page
    shows the flag again, the sidebar offers the module exactly when its section
    and the module itself are on, and so does the check on the cached status. *)
Theorem sidebar_settings_followed (c : object) (stored : jsstr) (section module : jsstr) (sec : object) (e b : bool) :
  sidebar_wf c → assoc section c = Some (VObj sec) →
  assoc $"enabled" sec = Some (VBool e) → assoc module sec = Some (VBool b) →
  stored ≠ [] → get (default VNull (json_parse stored)) $"SidebarModulesAdmin" = VStr (serializeSidebarModulesAdmin c) →
  get (fld (parseSidebarModulesAdmin (Some (serializeSidebarModulesAdmin c))) section) module = VBool b ∧
  adminAllowed (parseSidebarConfig (Some (serializeSidebarModulesAdmin c))) section module = e && b ∧
  isSidebarModuleEnabled (Some stored) section module = e && b.
Proof using.
  intros Hw Hs He Hb Hst Hstored. split; [|split; [by eapply sidebar_allows|]].
  - rewrite (page_sidebar c section sec module Hw Hs). unfold fld. by rewrite Hb.
  - destruct (nav_text c (sw_ok c Hw)) as (Hp & Hne & Ht). unfold isSidebarModuleEnabled, getCachedStatus.
    rewrite (proj2 (truthy_ne _) Hst). assert (to_boolean (default VNull (json_parse stored)) = true) as ->.
    { unfold serializeSidebarModulesAdmin in Hstored. destruct (default VNull (json_parse stored)) as [| |[]| | | |]; try done. }
    rewrite Hstored. unfold serializeSidebarModulesAdmin. cbn [to_boolean value_text negb].
    rewrite Ht, (proj2 (truthy_ne _) Hne), bool_decide_eq_false_2, Hp by done. cbn [negb orb get]. rewrite Hs.
    cbn [default from_option id to_boolean negb get]. rewrite He, Hb. cbn [default from_option id is_flag]. by destruct e, b.
Qed.

(** ** What a user can hide *)

(** The links of a group, those of a list that collapses one by one. *)
Definition item_links (i : NavItem) : list (jsstr * jsstr) :=
  match i with NavLink title url _ => [(title, url)] | NavCollapsible _ items => items end.

Definition links (groups : list NavGroup) : list (jsstr * jsstr) := groups ≫= (λ g, g_items g ≫= item_links).

Lemma enabled_narrows admin user url : isModuleEnabled admin user url = true → isModuleEnabled admin None url = true.
Proof using. unfold isModuleEnabled. destruct (om_get _ _) as [[s m]|]; [|done]. by intros [-> _]%andb_true_iff. Qed.

(** An item that collapses is visible when one of its links is. *)
Lemma visible_filtered admin user i : isNavItemVisible admin user (filter_item admin user i) = isNavItemVisible admin user i.
Proof using.
  destruct i as [|title items]; [done|]. cbn [filter_item isNavItemVisible]. induction items as [|j items IH]; [done|].
  cbn [List.filter existsb]. destruct (isModuleEnabled admin user j.2) eqn:E; [cbn [existsb]; by rewrite E|exact IH].
Qed.

Lemma visible_narrows admin user i : isNavItemVisible admin user i = true → isNavItemVisible admin None i = true.
Proof using.
  assert (∀ {A} (f : A → jsstr) l, existsb (λ x, isModuleEnabled admin user (f x)) l = true →
    existsb (λ x, isModuleEnabled admin None (f x)) l = true) as Hex.
  { intros A f l. rewrite !existsb_exists. intros (x & Hx & He). exists x. split; [done|]. by eapply enabled_narrows. }
  destruct i as [title url urls|title items]; cbn [isNavItemVisible]; [|apply (Hex _ snd)]. destruct (truthy url); [|done]. apply (Hex _ (λ u, u)).
Qed.

Lemma elem_links admin user groups (link : jsstr * jsstr) :
  link ∈ links (filter_groups admin user groups) ↔
  ∃ g i, g ∈ groups ∧ i ∈ g_items g ∧ isNavItemVisible admin user i = true ∧ link ∈ item_links (filter_item admin user i).
Proof using.
  unfold links, filter_groups. rewrite list_elem_of_bind. split.
  - intros (g' & Hlink & [(g & -> & Hg)%list_elem_of_fmap _]%elem_of_js_filter). cbn [g_items] in Hlink.
    apply list_elem_of_bind in Hlink as (i' & Hlink & [(i & -> & Hi)%list_elem_of_fmap Hv]%elem_of_js_filter).
    exists g, i. rewrite visible_filtered in Hv. done.
  - intros (g & i & Hg & Hi & Hv & Hlink). exists (Build_NavGroup (g_title g) (filterNavItems admin user (g_items g))).
    assert (filter_item admin user i ∈ filterNavItems admin user (g_items g)) as Hin.
    { apply elem_of_js_filter. rewrite visible_filtered. split; [|done]. apply list_elem_of_fmap. by exists i. }
    split; [apply list_elem_of_bind; by exists (filter_item admin user i)|]. apply elem_of_js_filter. split.
    + apply list_elem_of_fmap. by exists g.
    + cbn [g_items]. by destruct (filterNavItems _ _ _); [apply not_elem_of_nil in Hin|].
Qed.

(** The administrator has a module on: its section is there and on, and says
    [true] for the module. *)
Definition switched_on (admin : object) (section module : jsstr) : Prop :=
  ∃ sec v, assoc section admin = Some (VObj sec) ∧ assoc $"enabled" sec = Some v ∧ to_boolean v = true ∧
    assoc module sec = Some (VBool true).

(** The preferences of a user say [false] for a section, or for a module of it. *)
Definition hidden_by (user : option value) (section module : jsstr) : Prop :=
  ∃ config sec, user = Some (VObj config) ∧ assoc section config = Some (VObj sec) ∧
    (assoc $"enabled" sec = Some (VBool false) ∨ assoc module sec = Some (VBool false)).

(** An address that no module stands for is always offered. *)
Definition offered (admin : object) (user : option value) (url : jsstr) : Prop :=
  ∀ section module, (url, (section, module)) ∈ URL_TO_CONFIG_MAP → switched_on admin section module ∧ ¬ hidden_by user section module.

(** A link of an item is to be shown: each link of a list on its own, a single
    link when one of the addresses that stand for it is offered. *)
Definition to_show (admin : object) (user : option value) (i : NavItem) (link : jsstr * jsstr) : Prop :=
  link ∈ item_links i ∧
  match i with
  | NavLink _ url None => url = [] ∨ offered admin user url
  | NavLink _ url (Some urls) => url = [] ∨ ∃ u, u ∈ urls ∧ offered admin user u
  | NavCollapsible _ _ => offered admin user link.2
  end.

(** A name that is no index or length of an array. *)
Definition field_name (k : jsstr) : bool := negb (bool_decide (k = $"length")) && negb (all_digits k).

Lemma get_field v k x : field_name k = true → x ≠ VUndefined → get v k = x ↔ ∃ o, v = VObj o ∧ assoc k o = Some x.
Proof using.
  unfold field_name. rewrite andb_true_iff, !negb_true_iff, bool_decide_eq_false. intros [Hl Hd] Hx. split.
  - destruct v as [| | | | |l|o]; cbn [get]; try congruence.
    + rewrite bool_decide_eq_false_2, Hd by done. cbn [andb]. congruence.
    + intros H. exists o. split; [done|]. by destruct (assoc k o); cbn in H; congruence.
  - intros (o & -> & Ho). cbn [get]. by rewrite Ho.
Qed.

Lemma url_fields url section module : om_get url URL_TO_CONFIG_MAP = Some (section, module) →
  field_name section = true ∧ field_name module = true.
Proof using.
  assert (Forall (λ e, field_name e.2.1 && field_name e.2.2 = true) URL_TO_CONFIG_MAP) as H
    by (repeat constructor; vm_compute; reflexivity).
  intros Hm%om_get_elem. rewrite Forall_forall in H. specialize (H _ Hm). by apply andb_true_iff in H.
Qed.

Lemma is_flag_spec v b : is_flag v b = true ↔ v = VBool b.
Proof using. destruct v as [| |[]| | | |], b; cbn; split; congruence. Qed.

Lemma adminAllowed_spec admin section module : field_name module = true →
  adminAllowed admin section module = true ↔ switched_on admin section module.
Proof using.
  intros Hm. unfold adminAllowed, switched_on. rewrite !andb_true_iff, is_flag_spec, (get_field _ _ _ Hm) by done. unfold fld. split.
  - intros [[_ He] (sec & Hs & Hb)]. rewrite Hs in He. cbn [get] in He. destruct (assoc $"enabled" sec) as [v|] eqn:Ev; [|done].
    exists sec, v. split; [by destruct (assoc section admin); cbn in Hs; congruence|done].
  - intros (sec & v & -> & Ev & Hv & Hb). cbn [default from_option id to_boolean get]. rewrite Ev. split; [done|]. by exists sec.
Qed.

Lemma userAllowed_spec user section module : field_name section = true → field_name module = true →
  userAllowed user section module = true ↔ ¬ hidden_by user section module.
Proof using.
  intros Hs Hm. rewrite <- not_false_iff_true. apply not_iff_compat. unfold userAllowed, hidden_by. destruct user as [config|].
  2: { split; [done|]. by intros (? & ? & ? & _). }
  assert (field_name $"enabled" = true) as He by (vm_compute; reflexivity). split.
  - destruct (to_boolean (get config section)) eqn:Et; [|done]. cbn [negb]. intros H.
    assert (∃ sec, get config section = VObj sec ∧ (assoc $"enabled" sec = Some (VBool false) ∨ assoc module sec = Some (VBool false)))
      as (sec & Hsec & Hor).
    { destruct (is_flag (get (get config section) $"enabled") false) eqn:E1.
      - apply is_flag_spec, (get_field _ _ _ He) in E1 as (sec & -> & ?); [|done]. eauto.
      - apply negb_false_iff, is_flag_spec, (get_field _ _ _ Hm) in H as (sec & -> & ?); [|done]. eauto. }
    apply (get_field _ _ _ Hs) in Hsec as (o & -> & Ho); [|done]. by exists o, sec.
  - intros (o & sec & [= ->] & Ho & Hor). cbn [get]. rewrite Ho. cbn [default from_option id to_boolean negb].
    destruct (is_flag (get (VObj sec) $"enabled") false) eqn:E1; [done|]. apply negb_false_iff, is_flag_spec.
    destruct Hor as [E|E]; cbn [get] in *; rewrite E in *; done.
Qed.

Lemma url_keys : om_wf URL_TO_CONFIG_MAP.
Proof using. apply (bool_decide_unpack _). vm_compute. exact I. Qed.

Lemma isModuleEnabled_spec admin user url : isModuleEnabled admin user url = true ↔ offered admin user url.
Proof using.
  unfold isModuleEnabled, offered. destruct (om_get url URL_TO_CONFIG_MAP) as [[section module]|] eqn:E.
  - destruct (url_fields _ _ _ E) as [Hs Hm]. rewrite andb_true_iff, adminAllowed_spec, userAllowed_spec by done. split; [|by eauto using om_get_elem].
    intros H s m Hin. apply (elem_om_get _ _ _ url_keys) in Hin. congruence.
  - split; [|done]. intros _ s m Hin. apply (elem_om_get _ _ _ url_keys) in Hin. congruence.
Qed.

Lemma existsb_offered {A} (f : A → jsstr) admin user (l : list A) :
  existsb (λ x, isModuleEnabled admin user (f x)) l = true ↔ ∃ x, x ∈ l ∧ offered admin user (f x).
Proof using.
  rewrite existsb_exists. split; intros (x & Hx & H); exists x; [|]; by rewrite list_elem_of_In, <- isModuleEnabled_spec in *.
Qed.

Lemma shown_item admin user i link :
  isNavItemVisible admin user i = true ∧ link ∈ item_links (filter_item admin user i) ↔ to_show admin user i link.
Proof using.
  unfold to_show. destruct i as [title url urls|title items]; cbn [isNavItemVisible filter_item item_links].
  - rewrite (and_comm _ (link ∈ _)). apply and_iff_compat_l. destruct (truthy url) eqn:Hu.
    + apply truthy_ne in Hu. rewrite (existsb_offered (λ u, u)). destruct urls as [urls|]; cbn [default from_option id]; [naive_solver|].
      setoid_rewrite list_elem_of_singleton. naive_solver.
    + assert (url = []) as -> by (by destruct url). destruct urls; naive_solver.
  - rewrite elem_of_js_filter, isModuleEnabled_spec, (existsb_offered snd). naive_solver.
Qed.

(** C31: the sidebar shows exactly the links that the administrator has on and the
    user did not hide.  A link of a collapsible list is shown if and only if the
    section of its module is on and the module is [true] in the administrator's
    configuration, and the user's preferences say [false] neither for the section
    nor for the module (or no module stands for its address); a single link
    likewise, or when one of the addresses that stand for it is to be shown.  So
    the preferences only narrow the sidebar: every link shown under them is shown
    without them.  Neither an empty group nor an empty list is left. *)
Theorem user_layer_only_narrows (admin : object) (user : option value) (groups : list NavGroup) :
  (∀ link, link ∈ links (filter_groups admin user groups) ↔
     ∃ g i, g ∈ groups ∧ i ∈ g_items g ∧ to_show admin user i link) ∧
  (∀ link, link ∈ links (filter_groups admin user groups) → link ∈ links (filter_groups admin None groups)) ∧
  (∀ g, g ∈ filter_groups admin user groups → g_items g ≠ [] ∧ ∀ i, i ∈ g_items g → item_links i ≠ []).
Proof using.
  split_and!.
  - intros link. rewrite elem_links. by setoid_rewrite shown_item.
  - intros link (g & i & Hg & Hi & Hv & Hlink)%elem_links. apply elem_links. exists g, i. split_and!; [done..|by eapply visible_narrows|].
    destruct i as [|title items]; [done|]. cbn [filter_item item_links] in *. apply elem_of_js_filter in Hlink as [Hin He].
    apply elem_of_js_filter. split; [done|]. by eapply enabled_narrows.
  - intros g' [(g & -> & Hg)%list_elem_of_fmap Hne]%elem_of_js_filter. split; [by intros E; rewrite E in Hne|]. cbn [g_items].
    intros i' [(i & -> & Hi)%list_elem_of_fmap Hv]%elem_of_js_filter. rewrite visible_filtered in Hv.
    destruct i as [|title items]; [done|]. cbn [filter_item item_links isNavItemVisible] in *.
    apply existsb_exists in Hv as (x & Hx & He). intros E. assert (x ∈ List.filter (λ i, isModuleEnabled admin user i.2) items) as Hin
      by (apply elem_of_js_filter; split; [by apply list_elem_of_In|done]). rewrite E in Hin. by apply not_elem_of_nil in Hin.
Qed.
End Facts.

(** ** Configurations to try the theorems on *)

Section Witness.
Local Existing Instance ascii_text.

(** The documentation is hidden and the rankings need an account. *)
Definition sample_header : object :=
  [($"home", VBool true); ($"console", VBool true); ($"pricing", access_value {| enabled := true; requireAuth := false |});
   ($"rankings", access_value {| enabled := true; requireAuth := true |}); ($"docs", VBool false); ($"about", VBool true)].

Lemma sample_header_wf : header_wf sample_header.
Proof.
  constructor.
  - unfold obj_ok. vm_compute. reflexivity.
  - intros key v H%assoc_elem Hk. unfold sample_header in H. rewrite !elem_of_cons, elem_of_nil in H.
    destruct H as [E|[E|[E|[E|[E|[E|[]]]]]]]; injection E as Ek ->; try (by eexists); exfalso; rewrite Ek in Hk;
      revert Hk; apply (bool_decide_unpack _); vm_compute; exact I.
  - intros key v H%assoc_elem Hp Hr. unfold sample_header in H. rewrite !elem_of_cons, elem_of_nil in H.
    destruct H as [E|[E|[E|[E|[E|[E|[]]]]]]]; injection E as Ek ->; done || by eexists.
  - assert (Forall (λ key, is_Some (assoc key sample_header)) DEFAULT_HEADER_NAV_MODULES.*1) as H
      by (apply (bool_decide_unpack _); vm_compute; exact I). by rewrite Forall_forall in H.
Qed.

(** A visitor who is not signed in sees the rankings with a lock. *)
Lemma header_settings_followed_witness :
  let status := [($"HeaderNavModules", VStr (serializeHeaderNavModules sample_header))] in
  getModuleAccessFromStatus (VObj status) Rankings = {| enabled := true; requireAuth := true |}.
Proof.
  intros status. apply (header_settings_followed sample_header status false sample_header_wf).
  - vm_compute. reflexivity.
  - vm_compute. reflexivity.
Defined.

(** Drawing logs are hidden. *)
Definition sample_console : object :=
  [($"enabled", VBool true); ($"detail", VBool true); ($"token", VBool true); ($"log", VBool true);
   ($"midjourney", VBool false); ($"task", VBool true)].

Definition sample_sidebar : object :=
  [($"console", VObj sample_console);
   ($"personal", VObj [($"enabled", VBool true); ($"topup", VBool true); ($"personal", VBool true)]);
   ($"admin", VObj [($"enabled", VBool false); ($"channel", VBool true); ($"models", VBool true); ($"redemption", VBool true);
                    ($"user", VBool true); ($"setting", VBool true)])].

(** The invariant of a section, decided. *)
Definition section_check (v : value) : bool :=
  match v with
  | VObj sec => bool_decide (NoDup sec.*1) && forallb (λ e, is_bool e.2) sec && match assoc $"enabled" sec with Some _ => true | None => false end
  | _ => false
  end.

Lemma section_check_wf v : section_check v = true → section_wf v.
Proof.
  destruct v as [| | | | | |sec]; try done. cbn [section_check]. rewrite !andb_true_iff, bool_decide_eq_true, forallb_forall.
  intros [[Hn Hb] He]. exists sec. split_and!; [done..| |by destruct (assoc $"enabled" sec)].
  intros m x Hx%assoc_elem. apply list_elem_of_In in Hx. specialize (Hb _ Hx). cbn [snd] in Hb. destruct x; try done. by eexists.
Qed.

Lemma sample_sidebar_wf : sidebar_wf sample_sidebar.
Proof.
  constructor.
  - unfold obj_ok. vm_compute. reflexivity.
  - assert (Forall (λ e, section_check e.2 = true) sample_sidebar) as H by (repeat constructor; vm_compute; reflexivity).
    intros s v Hv%assoc_elem. rewrite Forall_forall in H. by apply section_check_wf, (H (s, v)).
  - assert (Forall (λ e : jsstr * value, match assoc e.1 sample_sidebar with
        | Some (VObj sec) => forallb (λ m, match assoc m sec with Some _ => true | None => false end) (own_entries e.2).*1
        | _ => false end = true) SIDEBAR_MODULES_DEFAULT) as H by (repeat constructor; vm_compute; reflexivity).
    intros s config Hin. rewrite Forall_forall in H. specialize (H _ Hin). cbn [fst snd] in H.
    destruct (assoc s sample_sidebar) as [[| | | | | |sec]|]; try done. exists sec. split; [done|]. intros m Hm.
    rewrite forallb_forall in H. specialize (H m (proj1 (list_elem_of_In _ _) Hm)). by destruct (assoc m sec).
Qed.

Lemma sidebar_settings_followed_witness :
  let stored := json_text [($"SidebarModulesAdmin", VStr (serializeSidebarModulesAdmin sample_sidebar))] in
  adminAllowed (parseSidebarConfig (Some (serializeSidebarModulesAdmin sample_sidebar))) $"console" $"midjourney" = false ∧
  isSidebarModuleEnabled (Some stored) $"console" $"midjourney" = false.
Proof.
  intros stored. destruct (sidebar_settings_followed sample_sidebar stored $"console" $"midjourney" sample_console true false sample_sidebar_wf)
    as (_ & H1 & H2); [vm_compute; reflexivity..| |vm_compute; reflexivity|].
  - intros E. revert E. apply (bool_decide_unpack _). vm_compute. exact I.
  - split; [exact H1|exact H2].
Defined.

(** The two readers of the header differ on numbers other than 0 and 1: the
    settings page shows such an entry as off, the site shows it. *)
Example readers_differ :
  let stored := dq "{'home':2}" in
  fld (settings_parseHeaderNavModules (Some stored)) $"home" = VBool false ∧ fld (parseHeaderNavModules (VStr stored)) $"home" = VBool true.
Proof. vm_compute. done. Qed.
End Witness.
