(* ===== verification/ChannelUtils.v ===== *)
(** * Channel lists

    [src/web/src/features/channels/lib/channel-utils.ts]: keys, lists of models
    and groups, channels that need attention, and the rows of the channel table
    that aggregate the channels of a tag. *)

From S2P Require Import Prelude JsString JsText JsNumber NumberText JsValue Json JsMath OrderedMap JsObject.
From S2P Require Import ChannelForm.

Local Open Scope Z_scope.
Local Open Scope js_scope.

(** A nullish integer. *)
Inductive Nullish := Undefined | Null | Is (z : Z).

#[global] Instance Nullish_eq_dec : EqDecision Nullish.
Proof. solve_decision. Defined.

Record ChannelInfo := {
  is_multi_key : bool;
  multi_key_size : Z;
  multi_key_status_list : option (list (jsstr * Z))
}.

(** The fields of a channel the table uses. *)
Record Channel := {
  ch_id : Z;
  ch_name : jsstr;
  ch_status : Z;
  ch_weight : Nullish;
  ch_priority : Nullish;
  ch_response_time : number;
  ch_balance : number;
  ch_group : jsstr;
  ch_used_quota : Z;
  ch_today_cost_quota : option Z;
  ch_today_used_quota : option Z;
  ch_total_cost_quota : option Z;
  ch_total_used_quota : option Z;
  ch_tag : option jsstr;
  ch_channel_info : option ChannelInfo
}.

Definition isChannelEnabled (channel : Channel) : bool := ch_status channel =? 1.

Definition isMultiKeyChannel (channel : Channel) : bool :=
  match ch_channel_info channel with Some info => is_multi_key info | None => false end.

(** ** Keys *)

(** [s.slice(-n)] *)
Definition last_units (n : nat) (s : jsstr) : jsstr := drop (length s - n) s.

(** The lines that are not blank. *)
Definition key_lines (key : jsstr) : list jsstr := List.filter (λ k, truthy (trim k)) (split 10 key).

Definition formatChannelKey (key : jsstr) (isMultiKey : bool) : jsstr :=
  if negb (truthy key) then []
  else if isMultiKey then string_of_Z (Z.of_nat (length (key_lines key))) ++ $" keys"
  else if (length key <=? 16)%nat then take 4 key ++ $"..." ++ last_units 4 key
  else take 8 key ++ $"..." ++ last_units 8 key.

Definition formatKeyPreview (key : jsstr) (maxLength : nat) : jsstr :=
  if negb (truthy key) then []
  else if (length key <=? maxLength)%nat then key else take maxLength key ++ $"...".

Definition countKeys (key : jsstr) : Z := if negb (truthy key) then 0 else Z.of_nat (length (key_lines key)).

Record Deduplicated := { deduplicatedText : jsstr; beforeCount : Z; afterCount : Z; removedCount : Z }.

(** The set and the list of the loop hold the same keys. *)
Definition deduplicate_line (keys : list jsstr) (line : jsstr) : list jsstr :=
  let trimmedLine := trim line in
  if truthy trimmedLine && negb (bool_decide (trimmedLine ∈ keys)) then keys ++ [trimmedLine] else keys.

Definition deduplicateKeys (keysText : jsstr) : Deduplicated :=
  if negb (truthy keysText) || negb (truthy (trim keysText))
  then {| deduplicatedText := []; beforeCount := 0; afterCount := 0; removedCount := 0 |}
  else
    let keyLines := split 10 keysText in
    let beforeCount := Z.of_nat (length keyLines) in
    let deduplicatedKeys := fold_left deduplicate_line keyLines [] in
    let afterCount := Z.of_nat (length deduplicatedKeys) in
    {| deduplicatedText := join [10] deduplicatedKeys; beforeCount := beforeCount; afterCount := afterCount;
       removedCount := beforeCount - afterCount |}.

(** ** Lists of models and groups *)

Definition parseModelsList (models : jsstr) : list jsstr :=
  if negb (truthy models) then [] else List.filter truthy (trim <$> split 44 models).

Definition compare_groups {TE : TextEnv} (a b : jsstr) : Z :=
  if bool_decide (a = $"default") then -1 else if bool_decide (b = $"default") then 1 else localeCompare a b.

Definition parseGroupsList {TE : TextEnv} (groups : jsstr) : list jsstr :=
  if negb (truthy groups) then [] else js_sort compare_groups (List.filter truthy (trim <$> split 44 groups)).

Definition formatModelsString (models : list jsstr) : jsstr := join $"," models.
Definition formatGroupsString (groups : list jsstr) : jsstr := join $"," groups.

(** ** Settings *)

(** The parsed settings; [{}] for a text that is no JSON. *)
Definition parseChannelSettings (settingStr : option jsstr) : value :=
  let text := default [] settingStr in
  if negb (truthy text) then VObj [] else default (VObj []) (json_parse text).

Definition parseChannelOtherSettings (settingsStr : option jsstr) : value :=
  let text := default [] settingsStr in
  if negb (truthy text) || bool_decide (text = $"{}") then VObj [] else default (VObj []) (json_parse text).

Definition validateChannelSettings (settings : jsstr) : bool :=
  if negb (truthy settings) || negb (truthy (trim settings)) then true
  else match json_parse settings with Some _ => true | None => false end.

(** ** Validation *)

Definition validateChannelName (name : jsstr) : bool := truthy (trim name).
Definition validateApiKey (key : jsstr) : bool := truthy (trim key).
Definition validateModels (models : jsstr) : bool := (0 <? length (parseModelsList models))%nat.
Definition validateGroups {TE : TextEnv} (groups : jsstr) : bool := (0 <? length (parseGroupsList groups))%nat.

(** ** Channels that need attention *)

Definition low_balance (channel : Channel) : bool :=
  num_ltb (S754_zero false) (ch_balance channel) && num_ltb (ch_balance channel) (num_of_Z 1).

Definition all_keys_disabled (channel : Channel) : bool :=
  match ch_channel_info channel with
  | Some info =>
    is_multi_key info
    && match multi_key_status_list info with
       | Some statuses => multi_key_size info <=? Z.of_nat (length statuses)
       | None => false
       end
  | None => false
  end.

Definition channelNeedsAttention (channel : Channel) : bool :=
  if ch_status channel =? 3 then true
  else if low_balance channel then true
  else if all_keys_disabled channel then true
  else false.

Definition getAttentionReason (channel : Channel) : option jsstr :=
  if ch_status channel =? 3 then Some $"Auto-disabled"
  else if low_balance channel then Some $"Low balance"
  else if all_keys_disabled channel then Some $"All keys disabled"
  else None.

(** ** Rows of tags *)

(** What a row aggregates; the rest of its fields are constants or copied from its
    first channel. *)
Record TagRow := {
  tr_first : Channel;
  tr_tag : jsstr;
  tr_children : list Channel;
  tr_used_quota : Z;
  tr_today_cost_quota : option Z;
  tr_today_used_quota : option Z;
  tr_total_cost_quota : option Z;
  tr_total_used_quota : option Z;
  tr_response_time : number;
  tr_priority : Nullish;
  tr_weight : Nullish;
  tr_group : jsstr;
  tr_status : option Z
}.

Definition tag_of (channel : Channel) : jsstr := default [] (ch_tag channel).

Definition new_row (channel : Channel) : TagRow :=
  {| tr_first := channel; tr_tag := tag_of channel; tr_children := []; tr_used_quota := 0;
     tr_today_cost_quota := ch_today_cost_quota channel; tr_today_used_quota := ch_today_used_quota channel;
     tr_total_cost_quota := ch_total_cost_quota channel; tr_total_used_quota := ch_total_used_quota channel;
     tr_response_time := S754_zero false; tr_priority := Is (-1); tr_weight := Is (-1); tr_group := []; tr_status := None |}.

(** A figure derived from the logs: known when every child's is. *)
Definition add_quota (childCount : Z) (tagQuota childQuota : option Z) : option Z :=
  if childCount =? 1 then childQuota
  else match tagQuota, childQuota with Some a, Some b => Some (a + b) | _, _ => None end.

(** The same value, or null if different; -1 stands for none yet. *)
Definition same_or_null (tagValue childValue : Nullish) : Nullish :=
  if bool_decide (tagValue = Is (-1)) then childValue
  else if bool_decide (tagValue = childValue) then tagValue else Null.

Definition add_groups (tagGroup group : jsstr) : jsstr :=
  match tagGroup with
  | [] => group
  | _ =>
    let existingGroups := List.filter truthy (split 44 tagGroup) in
    fold_left (λ acc g, if bool_decide (g ∈ existingGroups) then acc else acc ++ $"," ++ g)
      (List.filter truthy (split 44 group)) tagGroup
  end.

Definition add_child (row : TagRow) (channel : Channel) : TagRow :=
  let children := tr_children row ++ [channel] in
  let childCount := Z.of_nat (length children) in
  {| tr_first := tr_first row; tr_tag := tr_tag row; tr_children := children;
     tr_used_quota := tr_used_quota row + ch_used_quota channel;
     tr_today_cost_quota := add_quota childCount (tr_today_cost_quota row) (ch_today_cost_quota channel);
     tr_today_used_quota := add_quota childCount (tr_today_used_quota row) (ch_today_used_quota channel);
     tr_total_cost_quota := add_quota childCount (tr_total_cost_quota row) (ch_total_cost_quota channel);
     tr_total_used_quota := add_quota childCount (tr_total_used_quota row) (ch_total_used_quota channel);
     tr_response_time := num_div (num_add (num_mul (tr_response_time row) (num_of_Z (childCount - 1))) (ch_response_time channel))
                           (num_of_Z childCount);
     tr_priority := same_or_null (tr_priority row) (ch_priority channel);
     tr_weight := same_or_null (tr_weight row) (ch_weight channel);
     tr_group := add_groups (tr_group row) (ch_group channel);
     tr_status := if ch_status channel =? 1 then Some 1
                  else match tr_status row with None => Some (ch_status channel) | status => status end |}.

(** The rows are the values of the map in the order they were made: they are
    pushed when they are put into the map, and changed in place. *)
Definition aggregateChannelsByTag (channels : list Channel) : list TagRow :=
  om_values (om_group tag_of new_row add_child channels).

Definition getChannelTableRowId (row : Channel + TagRow) : jsstr :=
  match row with
  | inr tagRow => $"tag:" ++ tr_tag tagRow
  | inl channel => $"channel:" ++ string_of_Z (ch_id channel)
  end.
