(* ===== verification/ChannelUtilsFacts.v ===== *)
(** * Channel lists: theorems

    The rows of tags partition the channels and aggregate them as their comments
    say ([tag_rows_exact]), except for priorities of -1
    ([unset_marker_hides_difference]); removing duplicate keys keeps the distinct ones
    ([keys_deduplicated]); a channel needs attention when there is a reason to show
    ([attention_reason]). *)

From S2P Require Import Prelude JsString JsText JsNumber NumberText JsValue Json JsMath OrderedMap JsObject.
From S2P Require Import ChannelReopen ChannelUtils.

Local Open Scope Z_scope.
Local Open Scope js_scope.

(** ** Groups of a map *)

Section Group.
Context {Ev K V : Type} `{EqDecision K} (key : Ev → K) (init : Ev → V) (upd : V → Ev → V).

(** The value of a key is the fold over the events of the key. *)
Lemma om_group_get es k :
  om_get k (om_group key init upd es) =
  match List.filter (λ e, bool_decide (key e = k)) es with
  | [] => None
  | (e :: _) as l => Some (fold_left upd l (init e))
  end.
Proof using.
  induction es as [|e es IH] using rev_ind; [done|]. rewrite om_group_snoc. unfold om_upsert. rewrite List.filter_app. cbn [List.filter].
  destruct (decide (key e = k)) as [<-|Hne].
  - rewrite om_get_set_eq, IH, bool_decide_eq_true_2 by done.
    destruct (List.filter _ es) as [|e0 l]; [reflexivity|]. cbn [default from_option id app]. by rewrite app_comm_cons, fold_left_app.
  - rewrite om_get_set_ne by done. rewrite IH, bool_decide_eq_false_2 by done. by rewrite app_nil_r.
Qed.

(** The keys come in the order of their first events. *)
Lemma om_group_order es : om_keys (om_group key init upd es) = os_of_list (key <$> es).
Proof using.
  induction es as [|e es IH] using rev_ind; [done|]. rewrite om_group_snoc. unfold om_upsert. rewrite om_keys_set, IH, fmap_app.
  unfold os_of_list. rewrite fold_left_app. cbn [fold_left fmap list_fmap]. unfold os_add. done.
Qed.
End Group.

(** ** Rows *)

Definition children_of (tag : jsstr) (channels : list Channel) : list Channel :=
  List.filter (λ c, bool_decide (tag_of c = tag)) channels.

(** The sum of figures that are all known. *)
Definition known_sum (f : Channel → option Z) (l : list Channel) : option Z :=
  foldr (λ c acc, match f c, acc with Some a, Some b => Some (a + b) | _, _ => None end) (Some 0) l.

Definition add_known (a b : option Z) : option Z := match a, b with Some x, Some y => Some (x + y) | _, _ => None end.

Lemma known_sum_snoc f l c : known_sum f (l ++ [c]) = add_known (known_sum f l) (f c).
Proof.
  unfold known_sum. rewrite foldr_app. cbn [foldr]. induction l as [|d l IH]; cbn [foldr].
  - destruct (f c) as [x|]; cbn; [|done]. by rewrite Z.add_comm.
  - rewrite IH. destruct (f d), (foldr _ (Some 0) l), (f c); cbn; try done. by rewrite Z.add_assoc.
Qed.

(** The channels from the first on whose value is not the marker -1. *)
Fixpoint from_first_set (f : Channel → Nullish) (l : list Channel) : list Channel :=
  match l with
  | [] => []
  | c :: l' => if bool_decide (f c = Is (-1)) then from_first_set f l' else l
  end.

(** All children agree on a value. *)
Definition agreed (f : Channel → Nullish) (l : list Channel) : Nullish :=
  match l with
  | [] => Is (-1)
  | c :: l' => if forallb (λ d, bool_decide (f d = f c)) l' then f c else Null
  end.

Definition folded (e : Channel) (l : list Channel) : TagRow := fold_left add_child l (new_row e).

Lemma folded_snoc e l c : folded e (l ++ [c]) = add_child (folded e l) c.
Proof. unfold folded. by rewrite fold_left_app. Qed.

Lemma folded_children e l : tr_children (folded e l) = l ∧ tr_tag (folded e l) = tag_of e ∧ tr_first (folded e l) = e.
Proof.
  induction l as [|c l IH] using rev_ind; [done|]. rewrite folded_snoc. destruct IH as (H1 & H2 & H3). cbn [add_child tr_children tr_tag tr_first].
  by rewrite H1.
Qed.

Lemma folded_used e l : tr_used_quota (folded e l) = zsum ch_used_quota l.
Proof.
  induction l as [|c l IH] using rev_ind; [done|]. rewrite folded_snoc, zsum_app. cbn [add_child tr_used_quota]. rewrite IH. cbn. lia.
Qed.

(** One of the four figures. *)
Lemma folded_quota (get : TagRow → option Z) (f : Channel → option Z) e l :
  (∀ row c, get (add_child row c) = add_quota (Z.of_nat (length (tr_children row ++ [c]))) (get row) (f c)) →
  l ≠ [] → get (folded e l) = known_sum f l.
Proof.
  intros Hg. induction l as [|c l IH] using rev_ind; [done|]. intros _. rewrite folded_snoc, Hg, known_sum_snoc.
  destruct (folded_children e l) as (-> & _). unfold add_quota. destruct l as [|d l].
  - cbn. by destruct (f c).
  - rewrite (proj2 (Z.eqb_neq _ 1)) by (rewrite length_app; cbn [length]; lia). by rewrite IH.
Qed.

Lemma folded_status e l : l ≠ [] →
  tr_status (folded e l) = if existsb isChannelEnabled l then Some 1 else ch_status <$> head l.
Proof.
  induction l as [|c l IH] using rev_ind; [done|]. intros _. rewrite folded_snoc, existsb_app. cbn [add_child tr_status existsb].
  rewrite orb_false_r. unfold isChannelEnabled at 2. destruct (ch_status c =? 1); [by rewrite orb_true_r|]. rewrite orb_false_r.
  destruct l as [|d l]; [done|]. rewrite IH by done. cbn [app head fmap option_fmap option_map]. by destruct (existsb isChannelEnabled (d :: l)).
Qed.

Lemma first_set_app f l c : from_first_set f (l ++ [c]) =
  match from_first_set f l with [] => from_first_set f [c] | l' => l' ++ [c] end.
Proof. induction l as [|d l IH]; [done|]. cbn [app from_first_set]. by case_bool_decide. Qed.

Lemma first_set_head f l d l' : from_first_set f l = d :: l' → f d ≠ Is (-1).
Proof. induction l as [|c l IH]; [done|]. cbn [from_first_set]. case_bool_decide; [done|]. by intros [= <- <-]. Qed.

Lemma first_set_all f l : Forall (λ c, f c ≠ Is (-1)) l → from_first_set f l = l.
Proof. destruct 1; [done|]. cbn [from_first_set]. by rewrite bool_decide_eq_false_2. Qed.

(** Priority or weight. *)
Lemma folded_agreed (get : TagRow → Nullish) (f : Channel → Nullish) e l :
  (∀ row c, get (add_child row c) = same_or_null (get row) (f c)) → get (new_row e) = Is (-1) →
  get (folded e l) = agreed f (from_first_set f l).
Proof.
  intros Hg Hnew. induction l as [|c l IH] using rev_ind; [done|]. rewrite folded_snoc, Hg, IH, first_set_app. unfold same_or_null.
  destruct (from_first_set f l) as [|d l'] eqn:E; cbn [agreed app from_first_set].
  - rewrite bool_decide_eq_true_2 by done. by case_bool_decide.
  - apply first_set_head in E. rewrite forallb_app. cbn [forallb]. rewrite andb_true_r. destruct (forallb _ l'); cbn [andb].
    + rewrite bool_decide_eq_false_2 by done. case_bool_decide as H1; case_bool_decide as H2; congruence.
    + case_bool_decide; [done|]. by case_bool_decide.
Qed.

(** Without the marker, the values of all channels count. *)
Lemma agreed_all f l : Forall (λ c, f c ≠ Is (-1)) l → agreed f (from_first_set f l) = agreed f l.
Proof. intros H. by rewrite first_set_all. Qed.

(** ** Groups *)

Lemma split_snoc_word s g : 44 ∉ g → split 44 (s ++ 44 :: g) = split 44 s ++ [g].
Proof.
  intros Hg. induction s as [|c s IH]; cbn [app].
  - cbn [split]. rewrite Z.eqb_refl. by rewrite split_word.
  - cbn [split]. rewrite IH. destruct (c =? 44); [done|]. pose proof (split_ne 44 s). destruct (split 44 s); [done|]. done.
Qed.

Definition group_names (s : jsstr) : list jsstr := List.filter truthy (split 44 s).

Lemma group_names_plain s g : g ∈ group_names s → g ≠ [] ∧ 44 ∉ g.
Proof. intros [Hin Ht]%elem_of_js_filter. split; [by apply truthy_ne|by eapply split_no_sep]. Qed.

Lemma group_names_snoc s g : g ≠ [] → 44 ∉ g → group_names (s ++ $"," ++ g) = group_names s ++ [g].
Proof.
  intros Hne Hg. unfold group_names. change (s ++ $"," ++ g) with (s ++ 44 :: g). rewrite split_snoc_word, List.filter_app by done.
  cbn [List.filter]. by rewrite (proj2 (truthy_ne g) Hne).
Qed.

(** Appending the names that are missing. *)
Lemma append_missing (known : list jsstr) (l : list jsstr) (s : jsstr) g :
  (∀ h, h ∈ l → h ≠ [] ∧ 44 ∉ h) → (∀ h, h ∈ known → h ∈ group_names s) →
  g ∈ group_names (fold_left (λ acc h, if bool_decide (h ∈ known) then acc else acc ++ $"," ++ h) l s) ↔ g ∈ group_names s ∨ g ∈ l.
Proof.
  revert s. induction l as [|h l IH]; intros s Hl Hk; cbn [fold_left]; [set_solver|].
  destruct (Hl h (list_elem_of_here _ _)) as [Hne Hh]. case_bool_decide as Hin.
  - rewrite IH by (intros; first [apply Hl; by right|by apply Hk]). specialize (Hk h Hin). set_solver.
  - rewrite IH; rewrite ?group_names_snoc by done; [set_solver|intros; apply Hl; by right|intros h' Hh'; specialize (Hk h' Hh'); set_solver].
Qed.

Lemma add_groups_names s t g : g ∈ group_names (add_groups s t) ↔ g ∈ group_names s ∨ g ∈ group_names t.
Proof.
  unfold add_groups. destruct s as [|c s]; [cbn; set_solver|].
  apply (append_missing (group_names (c :: s)) (group_names t)); [apply group_names_plain|done].
Qed.

Lemma folded_groups e l g : g ∈ group_names (tr_group (folded e l)) ↔ ∃ c, c ∈ l ∧ g ∈ group_names (ch_group c).
Proof.
  induction l as [|c l IH] using rev_ind; [cbn; set_solver|]. rewrite folded_snoc. cbn [add_child tr_group]. rewrite add_groups_names, IH. set_solver.
Qed.

(** ** The rows *)

Lemma om_group_tag channels tag row : om_get tag (om_group tag_of new_row add_child channels) = Some row → tr_tag row = tag.
Proof.
  rewrite om_group_get. fold (children_of tag channels). destruct (children_of tag channels) as [|e l] eqn:E; [done|]. intros [= <-].
  assert (e ∈ children_of tag channels) as [_ <-%bool_decide_eq_true]%elem_of_js_filter by (rewrite E; left).
  apply (folded_children e (e :: l)).
Qed.

(** The rows, by their tags. *)
Lemma rows_by_tag channels row :
  row ∈ aggregateChannelsByTag channels →
  ∃ e, tr_tag row = tag_of e ∧ children_of (tag_of e) channels ≠ [] ∧ row = folded e (children_of (tag_of e) channels).
Proof.
  unfold aggregateChannelsByTag, om_values. intros ([tag row'] & -> & Hin)%list_elem_of_fmap. cbn [snd].
  apply elem_om_get in Hin; [|apply om_group_wf]. rewrite om_group_get in Hin. fold (children_of tag channels) in Hin.
  destruct (children_of tag channels) as [|e l] eqn:E; [done|]. assert (tag_of e = tag) as <-.
  { assert (e ∈ children_of tag channels) as [_ H%bool_decide_eq_true]%elem_of_js_filter by (rewrite E; left). done. }
  exists e. rewrite E. injection Hin as <-. split; [apply (folded_children e (e :: l))|done].
Qed.

(** What the row of a tag shows of the channels of the tag. *)
Record row_exact (channels : list Channel) (row : TagRow) : Prop := {
  re_children : tr_children row = children_of (tr_tag row) channels;
  re_ne : tr_children row ≠ [];
  re_used : tr_used_quota row = zsum ch_used_quota (tr_children row);
  re_today_cost : tr_today_cost_quota row = known_sum ch_today_cost_quota (tr_children row);
  re_today_used : tr_today_used_quota row = known_sum ch_today_used_quota (tr_children row);
  re_total_cost : tr_total_cost_quota row = known_sum ch_total_cost_quota (tr_children row);
  re_total_used : tr_total_used_quota row = known_sum ch_total_used_quota (tr_children row);
  re_status : tr_status row = if existsb isChannelEnabled (tr_children row) then Some 1 else ch_status <$> head (tr_children row);
  re_priority : tr_priority row = agreed ch_priority (from_first_set ch_priority (tr_children row));
  re_weight : tr_weight row = agreed ch_weight (from_first_set ch_weight (tr_children row));
  re_groups g : g ∈ group_names (tr_group row) ↔ ∃ c, c ∈ tr_children row ∧ g ∈ group_names (ch_group c)
}.

Lemma folded_exact channels e :
  children_of (tag_of e) channels ≠ [] → row_exact channels (folded e (children_of (tag_of e) channels)).
Proof.
  intros Hne. destruct (folded_children e (children_of (tag_of e) channels)) as (H1 & H2 & _).
  split; rewrite ?H1, ?H2; first [done|apply folded_used|by apply folded_status|by apply folded_agreed|apply folded_groups|idtac].
  all: by apply folded_quota.
Qed.

(** C19: the rows of the channel table in tag mode.  There is one row for each tag,
    in the order of the first channels; a row lists the channels of its tag in
    their order; its used quota is their sum; each of its four figures derived from
    the logs is the sum when every channel's is known and unknown otherwise; its
    status is enabled exactly when some channel is, and the first channel's
    otherwise; its priority and weight are the common value of the channels from the
    first on that has another value than -1 (of all of them, when none has -1), null
    when these differ, and -1 when every channel has -1; and its groups are the
    groups of its channels. *)
Theorem tag_rows_exact channels :
  (tr_tag <$> aggregateChannelsByTag channels) = os_of_list (tag_of <$> channels)
  ∧ Forall (row_exact channels) (aggregateChannelsByTag channels).
Proof.
  split.
  - rewrite <- (om_group_order tag_of new_row add_child). unfold aggregateChannelsByTag, om_values, om_keys. rewrite <- list_fmap_compose.
    apply list_fmap_ext. intros i [tag row] Hi%list_elem_of_lookup_2. cbn. apply elem_om_get in Hi; [|apply om_group_wf].
    apply om_group_tag in Hi. done.
  - apply Forall_forall. intros row (e & _ & Hne & ->)%rows_by_tag. by apply folded_exact.
Qed.

(** A channel with nothing but a priority. *)
Definition plain_channel (id : Z) (priority : Nullish) : Channel :=
  {| ch_id := id; ch_name := []; ch_status := 1; ch_weight := Is 0; ch_priority := priority; ch_response_time := S754_zero false;
     ch_balance := S754_zero false; ch_group := []; ch_used_quota := 0; ch_today_cost_quota := None; ch_today_used_quota := None;
     ch_total_cost_quota := None; ch_total_used_quota := None; ch_tag := Some $"t"; ch_channel_info := None |}.

(** The value -1 stands for a priority that is not set yet: the row of channels of
    priorities -1 and 5 shows 5, and of 5 and -1 shows null. *)
Example unset_marker_hides_difference :
  (tr_priority <$> aggregateChannelsByTag [plain_channel 1 (Is (-1)); plain_channel 2 (Is 5)]) = [Is 5]
  ∧ (tr_priority <$> aggregateChannelsByTag [plain_channel 2 (Is 5); plain_channel 1 (Is (-1))]) = [Null].
Proof. done. Qed.

(** ** Keys *)

(** The keys of a text: its lines trimmed, the blank ones dropped. *)
Definition keys_of (text : jsstr) : list jsstr := List.filter truthy (trim <$> split 10 text).

Lemma deduplicate_lines lines acc :
  fold_left deduplicate_line lines acc = fold_left os_add (List.filter truthy (trim <$> lines)) acc.
Proof.
  revert acc. induction lines as [|l lines IH]; intros acc; [done|]. cbn [fold_left fmap list_fmap List.filter].
  rewrite IH. unfold deduplicate_line. destruct (truthy (trim l)); [|done]. cbn [andb fold_left]. unfold os_add at 3.
  case_bool_decide; by case_decide.
Qed.

Lemma trim_nil_space c s : trim s = [] → c ∈ s → is_space c = true.
Proof.
  intros Ht Hc. apply not_false_iff_true. intros Hs. apply list_elem_of_split in Hc as (a & b & ->).
  assert (∀ l r, ∃ m, trim_start (l ++ c :: r) = m ++ c :: r) as H.
  { intros l r. induction l as [|d l [m IH]]; cbn [app trim_start]; [exists []; by rewrite Hs|].
    destruct (is_space d); [by exists m|by exists (d :: l)]. }
  unfold trim, trim_end in Ht. destruct (H a b) as [m Hm]. rewrite Hm in Ht. rewrite reverse_app, reverse_cons, <- app_assoc in Ht.
  destruct (H (reverse b) (reverse m)) as [m' Hm']. cbn [app] in Ht. rewrite Hm' in Ht.
  apply (f_equal (λ l, c ∈ l)) in Ht. apply (not_elem_of_nil c). rewrite <- Ht, elem_of_reverse. set_solver.
Qed.

Lemma space_line_trim s : (∀ c, c ∈ s → is_space c = true) → trim s = [].
Proof.
  intros H. unfold trim. assert (trim_start s = []) as ->; [|done].
  induction s as [|c s IH]; [done|]. cbn [trim_start]. rewrite (H c) by left. apply IH. intros d Hd. apply H. by right.
Qed.

Lemma split_elem c s w x : w ∈ split c s → x ∈ w → x ∈ s.
Proof.
  revert w. induction s as [|d s IH]; intros w; cbn [split]; [rewrite list_elem_of_singleton; by intros ->|].
  destruct (d =? c); [intros [->|Hw]%elem_of_cons; [by intros ?%not_elem_of_nil|intros Hx; right; by eapply IH]|].
  destruct (split c s) as [|v vs] eqn:E; [rewrite list_elem_of_singleton; set_solver|].
  intros [->|Hw]%elem_of_cons Hx.
  - apply elem_of_cons in Hx as [->|Hx]; [left|right]. eapply (IH v); [left|done].
  - right. eapply IH; [by right|done].
Qed.

Lemma blank_has_no_keys text : trim text = [] → keys_of text = [].
Proof.
  intros Ht. unfold keys_of. assert (∀ k, k ∈ trim <$> split 10 text → truthy k = false) as H.
  { intros k (w & -> & Hw)%list_elem_of_fmap. rewrite space_line_trim; [done|]. intros c Hc. eapply trim_nil_space; [done|by eapply split_elem]. }
  induction (trim <$> split 10 text) as [|k ks IH]; [done|]. cbn [List.filter]. rewrite (H k) by left. apply IH. intros k' Hk'. apply H. by right.
Qed.

(** A list of keys written one to a line is read back. *)
Lemma keys_of_join ks : (∀ k, k ∈ ks → trim k = k ∧ k ≠ [] ∧ 10 ∉ k) → keys_of (join [10] ks) = ks.
Proof.
  intros H. destruct ks as [|k ks]; [done|]. unfold keys_of. rewrite split_join; [|done|intros w Hw; by apply H].
  rewrite (list_fmap_ext trim id), list_fmap_id by (intros i w Hw%list_elem_of_lookup_2; by apply H).
  apply filter_all. apply Forall_forall. intros w Hw. apply truthy_ne. by apply H.
Qed.

Lemma keys_of_spec text k : k ∈ keys_of text → trim k = k ∧ k ≠ [] ∧ 10 ∉ k.
Proof.
  intros [Hk Ht]%elem_of_js_filter. apply list_elem_of_fmap in Hk as (w & -> & Hw).
  split; [apply trim_idem|]. split; [by apply truthy_ne|]. intros Hc%trim_elem. by eapply split_no_sep.
Qed.

(** The distinct keys of a text, in their order. *)
Lemma deduplicated_keys text : deduplicatedText (deduplicateKeys text) = join [10] (os_of_list (keys_of text)).
Proof.
  unfold deduplicateKeys. destruct (truthy (trim text)) eqn:Et.
  - destruct text as [|c text]; [done|]. cbn [truthy negb orb deduplicatedText]. by rewrite deduplicate_lines.
  - rewrite orb_true_r, blank_has_no_keys; [done|]. destruct (trim text); done.
Qed.

(** Removing duplicate keys keeps the distinct keys of the text, trimmed and in
    their order, one to a line; the keys of the new text are exactly these; and doing
    it again changes nothing. *)
Theorem keys_deduplicated text :
  keys_of (deduplicatedText (deduplicateKeys text)) = os_of_list (keys_of text)
  ∧ afterCount (deduplicateKeys text) = Z.of_nat (length (os_of_list (keys_of text)))
  ∧ removedCount (deduplicateKeys text) = beforeCount (deduplicateKeys text) - afterCount (deduplicateKeys text)
  ∧ deduplicatedText (deduplicateKeys (deduplicatedText (deduplicateKeys text))) = deduplicatedText (deduplicateKeys text).
Proof.
  assert (keys_of (join [10] (os_of_list (keys_of text))) = os_of_list (keys_of text)) as Hk.
  { apply keys_of_join. intros k Hk. rewrite elem_of_os_of_list in Hk. by apply keys_of_spec in Hk. }
  split; [by rewrite deduplicated_keys|]. split; [|split].
  - unfold deduplicateKeys. destruct (truthy (trim text)) eqn:Et.
    + destruct text as [|c text]; [done|]. cbn [truthy negb orb afterCount]. by rewrite deduplicate_lines.
    + rewrite orb_true_r, blank_has_no_keys; [done|]. by destruct (trim text).
  - unfold deduplicateKeys. by destruct (_ || _).
  - rewrite !deduplicated_keys, Hk. by rewrite os_of_list_id by apply os_of_list_NoDup.
Qed.

(** ** Attention *)

(** A channel needs attention exactly when a reason is shown for it. *)
Lemma attention_reason channel : channelNeedsAttention channel = true ↔ is_Some (getAttentionReason channel).
Proof. unfold channelNeedsAttention, getAttentionReason. repeat case_match; split; try done; by intros [? ?]. Qed.
